(* ===== verification/_CoqProject ===== *)
-Q . S2P
Prelude.v
Effects.v
BTree.v
Json.v
RustText.v
Core.v
HostApi.v
ChangeStream.v
Publisher.v
IndexFactory.v
Lifecycle.v
SourceClient.v
QueryWorker.v
QueryWorkerSpec.v
SequenceStore.v
Dapr.v
QueryActor.v
QueryActorSpec.v
ViewApi.v
Wire.v
ViewStore.v
ViewStoreSpec.v
ViewWorker.v
ViewWorkerSpec.v
ViewPipeline.v
ViewActor.v
Comms.v
ChangeRouter.v
ChangeRouterSpec.v
ChangeDispatcher.v
ChangeDispatcherSpec.v
SourceSdk.v
SdkStores.v
SdkHost.v
KubeSource.v
SourcePipeline.v
EnginePipeline.v
SdkPipeline.v
KubePipeline.v
QueryApi.v
QueryApiSpec.v
MgmtModels.v
MergeSpec.v
SpecValidator.v
Mappings.v
ResourceRepo.v
ResourceService.v
ResourceServiceSpec.v
MgmtServices.v
MgmtServicesSpec.v
DebugService.v
ApiDto.v
ApiWire.v
ApiWireSpec.v
QueryWire.v
ProviderWire.v
ApiHandlers.v
ApiSpec.v
ResultStream.v
DebugSocket.v
KubeModels.v
SpecBuilder.v
SpecBuilderSpec.v
StorageConfig.v
KubeApi.v
Reconciler.v
ReconcilerSpec.v
Interleave.v
Convergence.v
KubeController.v
Sharing.v
Removal.v
ResourceActor.v
ResourceActorSpec.v
Provisioning.v
Resources.v
KubeMonitor.v
Repair.v
Wiring.v
StartUp.v
