(* ===== verification/Prelude.v ===== *)
(** * Drasi: a verification of the platform's Rust services

    Drasi watches sources for changes, runs continuous queries over them and
    hands the queries' results to reactions and views.  This library models the
    Rust services of the repository and proves what makes them correct.  Paths
    below are relative to the repository's [src/].

    ** The system and how its parts meet

    A _source_ ([sources/]) has a reactivator that turns a database's changes
    into JSON documents ([SourceSdk]), a change router that finds the queries
    each change is for ([ChangeRouter]), a change dispatcher that sends the
    change to their query containers ([ChangeDispatcher]), and a query API
    through which a query host subscribes and reads the initial data
    ([QueryApi]).  A _query container_ ([query-container/]) has a publish API
    that writes what arrives on a Redis stream ([Publisher]), a query host with
    one actor per query ([QueryActor]) owning one worker per query
    ([QueryWorker]), which reads the stream ([ChangeStream]), subscribes to the
    sources ([SourceClient]), stores its indexes as configured
    ([IndexFactory]), and publishes result events; and a view service whose
    actors ([ViewActor]) own workers ([ViewWorker]) that keep the results in
    MongoDB ([ViewStore]) and serve them ([ViewApi]).  The _control planes_
    ([control-planes/]) are the management API, which checks, completes, stores
    and starts resources ([ResourceService], [MgmtServices]), and
    the Kubernetes provider, whose actors ([ResourceActor]) turn a resource into
    Kubernetes objects ([SpecBuilder]) and keep the cluster in that state
    ([KubeController], [Reconciler], [KubeMonitor]).  All of them call each
    other through the Dapr sidecar ([Comms], [Dapr]).

    ** The library

    Shared:
    - [Prelude]: Rust's [Result], generic lemmas, tactics and hints;
    - [Effects]: a program that calls services is a tree of calls ([prog]).
      [under G p Q] is its partial-correctness logic: for all answers that the
      guarantee [G] allows, the calls made so far and the outcome (a value or a
      panic) satisfy [Q]; [run] executes it in an environment; [interp] carries
      out one component's calls by another's programs.  A loop that the code does
      not bound takes the number of its rounds, and its result says when they are
      used up;
    - [BTree], [Json], [RustText]: [BTreeMap]s, [serde_json] values and the
      text functions of Rust's standard library the code uses (integers are
      bounded where they are parsed and wrap where the code casts);
    - [Core]: the continuous query engine [drasi_core] is a git submodule; its
      types and operations are parameters (a class).

    Query host ([query-container/query-host/src]): [HostApi] ([api.rs]),
    [Lifecycle] ([models.rs]), [ChangeStream]
    ([change_stream/redis_change_stream.rs]), [Publisher]
    ([change_stream/publisher.rs], [future_consumer.rs] and
    [query-container/publish-api]), [IndexFactory] ([index_factory.rs]),
    [SourceClient] ([source_client.rs]), [QueryWorker] ([query_worker.rs],
    [result_publisher.rs]) with [QueryWorkerSpec], [SequenceStore] (the task that
    stores a query's number, beside the worker that sends it), [QueryActor]
    ([query_actor.rs]) with [QueryActorSpec].

    View service ([query-container/view-svc/src]): [ViewApi] ([api.rs],
    [models.rs], [view_store.rs]), [Wire] (its result events and those of the
    query host), [ViewStore] ([mongo_view_store.rs]) with [ViewStoreSpec],
    [ViewWorker] ([view_worker.rs], [change_stream]) with [ViewWorkerSpec],
    [ViewPipeline] (events the query host wrote, through the worker into the
    store), [ViewActor] ([view_actor.rs]).

    Sources and infrastructure: [Dapr], [Comms]
    ([infrastructure/comms-abstractions], [infrastructure/comms-dapr]),
    [ChangeRouter] with [ChangeRouterSpec] ([sources/shared/change-router]),
    [ChangeDispatcher] with [ChangeDispatcherSpec]
    ([sources/shared/change-dispatcher]), [SourceSdk], [SdkStores] and [SdkHost]
    ([sources/sdk/rust/src]: changes and publishing, the state stores, and the
    builders, starts and routes of a reactivator and a proxy), [KubeSource]
    ([sources/kubernetes]: the proxy's listing and the reactivator's monitoring
    tasks), [QueryApi] with [QueryApiSpec] ([sources/shared/query-api]).
    [SourcePipeline] puts router, dispatcher and query host together, [SdkPipeline]
    a reactivator before them, [KubePipeline] the Kubernetes source's programs
    before that, and [EnginePipeline] the publish API and the worker after them.

    Management API ([control-planes/mgmt_api/src]): [MgmtModels]
    ([domain/models.rs]), [MergeSpec] and [SpecValidator]
    ([domain/resource_services/extensible]), [Mappings] ([domain/mappings.rs]
    and [resource_provider_api]), [ResourceRepo] ([persistence/mod.rs]),
    [ResourceService] with [ResourceServiceSpec]
    ([domain/resource_services/extensible] and [standard]), [MgmtServices] with
    [MgmtServicesSpec] (the four services), [DebugService]
    ([domain/debug_service.rs]).
    Its HTTP interface ([api/mod.rs], [api/v1]): [ApiDto] (the transfer types and
    their mappings), [ApiWire] with [ApiWireSpec] (their JSON forms), [QueryWire]
    and [ProviderWire] (the JSON forms of what it sends to actors, and what arrives
    there), [ApiHandlers] with [ApiSpec] (the handlers, and
    [domain/resource_provider_services]), [ResultStream]
    ([domain/result_service.rs], [change_stream] and the watch handler),
    [DebugSocket] (the debugging WebSocket).

    Kubernetes provider ([control-planes/kubernetes_provider/src]):
    [KubeModels] ([models.rs]), [SpecBuilder] with [SpecBuilderSpec]
    ([spec_builder]), [StorageConfig] (its storage variables and the query
    host's reading of them), [KubeApi] (the calls to Kubernetes, and a working
    cluster), [Reconciler] with [ReconcilerSpec] and [Convergence]
    ([controller/reconciler.rs]), [KubeController] ([controller/mod.rs]),
    [ResourceActor] with [ResourceActorSpec] ([actors]), [KubeMonitor]
    ([monitor/mod.rs]: the watcher's task and the handler's).  Tasks at the same
    time: [Interleave] runs them under a schedule and has the rely-guarantee logic
    [rg] (what others may do between two calls of a program, and what it may do
    to them), in which [Convergence] is proved; [Sharing] says which objects a
    reconciliation reads and writes, and that controllers which agree on what they
    share do not disturb one another, [Removal] that deletions do not.
    [Provisioning] puts an actor, its controllers and the cluster together,
    [Resources] does so for what sources, reactions and query containers build
    (the class [Agreeing]), [Repair] adds the pod monitor.

    [Wiring]: what each service's [main] reads from its environment and serves,
    against the environments, ports and names the provider's deployments give it.
    [StartUp]: the steps of four [main] functions before and after they serve.

    ** The theorems

    - Delivery: the Redis stream refines a sequential stream and its recovery
      forwards every pending entry ([ChangeStream]); a change is acknowledged
      only after it was handled, a worker that finds its query not yet started runs
      it only after one complete bootstrap, and runs one it finds in
      [TransientError] as it is ([QueryWorkerSpec]); results are numbered
      consecutively, across restarts too ([SequenceStore]); a view acknowledges a
      change only after it recorded it, and what it does about a signal
      ([ViewWorkerSpec]).
    - Pipelines: what a source yields, and what happens to a Kubernetes object,
      reaches the subscribed queries as the same change, unless it has a label that
      no query asked for, which hides it ([SdkPipeline], [KubePipeline], over [SourcePipeline], [ChangeRouterSpec],
      [ChangeDispatcherSpec]) and its engine ([EnginePipeline], [Publisher]); the
      initial data reaches the engine
      ([QueryApiSpec], [KubeSource]); a restarted Kubernetes source goes on from its last bookmark, before which every
      change was given to its channel ([KubeSource]); published results reach the view, between one bootstrap's start and the next
      ([ViewPipeline]), and those who watch ([ResultStream]).
    - Actors and workers: one worker at a time, and the configuration in memory
      is the stored one ([QueryActorSpec], [ViewActor]); a provider's actor
      refines a map of its stored resource ([ResourceActorSpec]).
    - Views: reads give the rows of the changes applied, now and at an earlier
      time, whatever garbage was collected ([ViewStoreSpec]); the view service
      reads back every event the query host writes ([Wire]).
    - Management: what is stored was completed and checked, services refine a
      map of resources ([MgmtServicesSpec]); completing a specification gives
      the documented values and is idempotent ([MergeSpec]); a debugging session
      leaves nothing behind ([DebugService], [DebugSocket]).
    - The management API's interface: what a PUT answers and stores, and how long
      waiting for readiness takes ([ApiSpec]); a query read back and put again is
      the same ([ApiWireSpec]); a submitted query reaches the query host, and other
      resources the provider, as they were ([QueryWire], [ProviderWire]); watching
      a query gives its snapshot, then its results, each again while its
      acknowledgement is refused ([ResultStream]).
    - Kubernetes: the objects built are well-formed ([SpecBuilderSpec]) and carry
      the storage configuration to the query host ([StorageConfig]); on a working
      cluster one reconciliation makes every object say what the specification asks
      for and the next does nothing ([Convergence], whose [in_sync] compares the
      contents of the objects and whose [managed] says what the cluster may hold
      before: what the code never updates must be as asked for already); a configured query container comes to be in place
      whatever the order in which its controllers' calls reach the cluster, and
      again after a restart of the provider ([Provisioning]), and so do a source
      and a reaction, whose services may share objects ([Resources]); what it
      lost is brought back when one of its pods changes ([Repair], over
      [KubeMonitor]); of a deprovisioned resource only the publish-subscribe component
      and the volume claims stay ([Provisioning], [Removal]), and a removed service's
      objects are deleted in order whatever the API answers ([ReconcilerSpec]).
    - Deployment: the services the provider deploys for a source, and for a query
      container, start in the environments they get, listen where their sidecars
      are told, and are found under the names, topics and actor types by which the
      others address them ([Wiring]).

    A theorem about a whole system states as hypotheses what its services
    promise (a Redis group read delivers pending entries in order, MongoDB's
    update and find agree with the documents it holds, an API server keeps what
    it is sent and may add to it: the relations [kept] of [KubeApi] say field by
    field what that means, and [server_laws] of [Convergence] that storing and
    patching respect them; it refuses to replace a Dapr component or a service
    account without its version); each such theorem has a witness with concrete
    services.

    ** Bounds and fuel

    Loops that end on their own have a measure or a fuel with a proof that it is
    enough: pending entries are read in batches and every round but the last
    forwards one; [show_aux] prints an integer of at most 39 digits, enough for
    128 bits; [show_hex] has 16 digits, enough for 64 bits; resolving a store
    profile and waiting for readiness are bounded by the deadline and the
    polling interval ([wait_fuel]).  Loops that run as long as the service does
    (a worker, a view worker, a controller, the monitor's handler) take an
    arbitrary fuel: their safety theorems hold for every fuel, hence at every
    moment of an endless run, and their progress theorems say what a bounded
    number of rounds achieves.

    ** What is not modelled, and why

    - Libraries: [drasi_core], Redis, MongoDB, Dapr, [kube], [jsonschema],
      [bson] and the [spooky] hash are calls or parameters, with the laws the
      theorems use as hypotheses.
    - A [HashMap] that is only iterated is a list of entries in an unknown order
      ([hash_iter]); one that is looked up is a [gmap].
    - BSON has no unsigned 64-bit numbers: that a specification becomes a document
      is assumed ([BsonTotal]) only for those without them; for a query the theorems
      say what happens when it does not.
    - A panic ends the request that panics.  The router's theorems about a
      history of requests speak of requests that do not panic.
    - [serde] reads a struct from an array too (positionally); no service sends
      that form and the readers here accept objects only.  An enum's tag is read
      when it is a string; of a key given twice only the last value is seen, where a
      derived reader of a text would refuse it.
    - What telemetry, logging, panic hooks, signals, HTTP servers (actix, axum)
      and connections do is the libraries'.  Of the [main] functions [Wiring],
      [SdkHost] and [KubePipeline] have what they read and serve, and [StartUp]
      the steps of the query host's, the view service's, the provider's and the
      management API's, in order; the latter's making of its services from the
      clients is not modelled.
    - [kube]'s watch stream and the tokio runtime: the stream is a call; tasks
      that run beside each other are modelled one at a time, reached through calls
      whose answers are arbitrary; interleavings are histories of such steps, for
      a query's number a schedule of both tasks ([SequenceStore]), and for the
      controllers of a resource a schedule of their calls ([Interleave]).
    - The change streams of the view service and of the management API are copies
      of the query host's, and use its definitions of the background task.
    - The CLI (Go), the .NET and Java parts, reactions, dev tools, the SDK's
      example programs, tests and deployment files are not Rust services of the
      platform. *)
From Stdlib Require Export String.
From stdpp Require Export base strings list gmap sets option numbers.


(** ** Results: Rust's [Result<T, E>] *)

Inductive result (A E : Type) : Type :=
| Ok (a : A)
| Err (e : E).
Arguments Ok {A E} a.
Arguments Err {A E} e.

Definition result_map {A B E} (f : A → B) (r : result A E) : result B E :=
  match r with Ok a => Ok (f a) | Err e => Err e end.

Definition result_bind {A B E} (r : result A E) (f : A → result B E) : result B E :=
  match r with Ok a => f a | Err e => Err e end.

Definition ok_or {A E} (o : option A) (e : E) : result A E :=
  match o with Some a => Ok a | None => Err e end.

Definition is_ok {A E} (r : result A E) : bool :=
  match r with Ok _ => true | Err _ => false end.

Declare Scope rust_scope.
Delimit Scope rust_scope with rust.
Notation "'let?' x ':=' r 'in' k" := (result_bind r (λ x, k))
  (at level 10, x name, r at level 100, k at level 200) : rust_scope.
Open Scope rust_scope.

Lemma result_bind_Ok {A B E} (r : result A E) (f : A → result B E) b :
  result_bind r f = Ok b ↔ ∃ a, r = Ok a ∧ f a = Ok b.
Proof. destruct r; naive_solver. Qed.

Lemma result_bind_Err {A B E} (r : result A E) (f : A → result B E) e :
  result_bind r f = Err e ↔ r = Err e ∨ ∃ a, r = Ok a ∧ f a = Err e.
Proof. destruct r; naive_solver. Qed.

Lemma ok_or_Ok {A E} (o : option A) (e : E) a : ok_or o e = Ok a ↔ o = Some a.
Proof. destruct o; naive_solver. Qed.

(** Collecting fallible results over a list, stopping at the first error. *)
Fixpoint result_mapM {A B E} (f : A → result B E) (l : list A) : result (list B) E :=
  match l with
  | [] => Ok []
  | a :: l => let? b := f a in let? bs := result_mapM f l in Ok (b :: bs)
  end.

Lemma result_mapM_Ok {A B E} (f : A → result B E) l l' :
  result_mapM f l = Ok l' ↔ Forall2 (λ a b, f a = Ok b) l l'.
Proof.
  revert l'. induction l as [|a l IH]; intros l'; simpl.
  - split; [intros [= <-]; constructor | by inversion 1].
  - rewrite result_bind_Ok. setoid_rewrite result_bind_Ok. split.
    + intros (b & Hb & bs & Hbs & [= <-]). constructor; [done|]. by apply IH.
    + inversion 1; subst. setoid_rewrite IH. naive_solver.
Qed.

(** ** Machine integers *)

Definition u64_modulus : Z := 2 ^ 64.

(** [a + b] on [u64] in a release build: wrap-around. *)
Definition u64_add (a b : Z) : Z := ((a + b) `mod` u64_modulus)%Z.

(** [a - b] on [u64] in a release build: wrap-around. *)
Definition u64_sub (a b : Z) : Z := ((a - b) `mod` u64_modulus)%Z.

(** [a * b] on [u64] in a release build: wrap-around. *)
Definition u64_mul (a b : Z) : Z := ((a * b) `mod` u64_modulus)%Z.

(** The [as i64] cast: the low 64 bits read as a two's complement number. *)
Definition as_i64 (a : Z) : Z :=
  let r := (a `mod` u64_modulus)%Z in
  if (r <? 2 ^ 63)%Z then r else (r - u64_modulus)%Z.

(** The [as u64] cast. *)
Definition as_u64 (a : Z) : Z := (a `mod` u64_modulus)%Z.

Definition is_u64 (a : Z) : Prop := (0 ≤ a < u64_modulus)%Z.
Definition is_i64 (a : Z) : Prop := (- 2 ^ 63 ≤ a < 2 ^ 63)%Z.

Lemma u64_add_small a b : is_u64 a → is_u64 b → (a + b < u64_modulus)%Z →
  u64_add a b = (a + b)%Z.
Proof. unfold u64_add, is_u64. intros. apply Z.mod_small. lia. Qed.

Lemma u64_sub_small a b : is_u64 a → is_u64 b → (b ≤ a)%Z → u64_sub a b = (a - b)%Z.
Proof. unfold u64_sub, is_u64. intros. apply Z.mod_small. lia. Qed.

Lemma as_i64_range a : is_i64 (as_i64 a).
Proof.
  unfold is_i64, as_i64, u64_modulus.
  pose proof (Z.mod_pos_bound a (2 ^ 64)) as H.
  case_match eqn:E; [apply Z.ltb_lt in E | apply Z.ltb_ge in E]; lia.
Qed.

Lemma as_i64_small a : (0 ≤ a < 2 ^ 63)%Z → as_i64 a = a.
Proof.
  unfold as_i64, u64_modulus. intros H. rewrite Z.mod_small by lia.
  case_match eqn:E; [done|]. apply Z.ltb_ge in E. lia.
Qed.

Lemma as_i64_id a : is_i64 a → as_i64 a = a.
Proof.
  unfold is_i64, as_i64, u64_modulus. intros H.
  destruct (decide (0 ≤ a)%Z).
  - rewrite Z.mod_small by lia. case_match eqn:E; [done|]. apply Z.ltb_ge in E. lia.
  - rewrite <-(Z.mod_add _ 1) by lia. rewrite Z.mod_small by lia.
    case_match eqn:E; [apply Z.ltb_lt in E|]; lia.
Qed.

Lemma as_i64_mod a : as_i64 (a `mod` u64_modulus) = as_i64 a.
Proof. unfold as_i64. by rewrite Zmod_mod. Qed.

Lemma as_u64_as_i64 a : is_u64 a → as_u64 (as_i64 a) = a.
Proof.
  unfold is_u64, as_u64, as_i64, u64_modulus. intros H.
  rewrite (Z.mod_small a) by lia. case_match; [apply Z.mod_small; lia|].
  rewrite <-(Z.mod_add _ 1) by lia. rewrite Z.mod_small; lia.
Qed.

(** ** Strings *)

Definition str_eqb (a b : string) : bool := bool_decide (a = b).

Lemma str_eqb_true a b : str_eqb a b = true ↔ a = b.
Proof. apply bool_decide_eq_true. Qed.

Lemma str_eqb_refl a : str_eqb a a = true.
Proof. by apply str_eqb_true. Qed.

(** [l.join(sep)] *)
Fixpoint join (sep : string) (l : list string) : string :=
  match l with
  | [] => ""
  | [s] => s
  | s :: l => s +:+ sep +:+ join sep l
  end.

(** ** Lists *)

(** Adding at the end of an ordered set kept as a list without repetition. *)
Definition push_new {A} `{EqDecision A} (x : A) (l : list A) : list A :=
  if decide (x ∈ l) then l else l ++ [x].

Lemma elem_of_push_new {A} `{EqDecision A} (x y : A) l :
  y ∈ push_new x l ↔ y = x ∨ y ∈ l.
Proof. unfold push_new. case_decide; set_solver. Qed.

Lemma NoDup_push_new {A} `{EqDecision A} (x : A) l : NoDup l → NoDup (push_new x l).
Proof.
  unfold push_new. intros H. case_decide; [done|].
  apply list.NoDup_app. split_and!; [done | set_solver | apply NoDup_singleton].
Qed.

Lemma push_new_elem {A} `{EqDecision A} (x : A) l : x ∈ l → push_new x l = l.
Proof. unfold push_new. by case_decide. Qed.

Lemma Forall2_map_diag {A B C} (P : B → C → Prop) (f : A → B) (g : A → C) (l : list A) :
  (∀ a, P (f a) (g a)) → Forall2 P (map f l) (map g l).
Proof. intros HP. induction l as [|a l IH]; by constructor. Qed.

(** Filters that agree on the elements of a list. *)
Lemma filter_ext_in {A} (P Q : A → Prop) `{!∀ x, Decision (P x), !∀ x, Decision (Q x)} (l : list A) :
  (∀ x, x ∈ l → P x ↔ Q x) → filter P l = filter Q l.
Proof.
  induction l as [|x l IH]; intros Hl; [done|].
  specialize (IH (λ y Hy, Hl y (list_elem_of_further _ _ _ Hy))).
  destruct (decide (P x)) as [HP|HP].
  - rewrite !filter_cons_True; [by rewrite IH | by apply Hl; [left|] | done].
  - rewrite !filter_cons_False; [done | | done]. intros HQ. apply HP, Hl; [left | done].
Qed.

Create HintDb drasi.
#[export] Hint Rewrite @result_bind_Ok @ok_or_Ok @elem_of_push_new : drasi.
#[export] Hint Resolve as_i64_range str_eqb_refl : drasi.
