(* ===== verification/Effects.v ===== *)
(** * Effects: programs that call external services

    The services the code calls (Redis, Mongo, the Dapr sidecar, the Kubernetes
    API, HTTP peers) are not part of this repository.  A function that calls
    them is a [prog]: a tree of calls whose answers are unknown.  [under G p Q]
    says that, whatever the services answer (within the guarantee [G]), the
    list of calls made and the outcome satisfy [Q]; [run] executes a program
    against a concrete environment. *)
From S2P Require Import Prelude.

(** How a piece of code ends: with a value, or by panicking. *)
Inductive outcome (A : Type) : Type :=
| Done (a : A)
| Panicked (why : string).
Arguments Done {A} a.
Arguments Panicked {A} why.

Inductive prog (E : Type → Type) (A : Type) : Type :=
| Ret (a : A)
| Panic (why : string)
| Vis (X : Type) (e : E X) (k : X → prog E A).
Arguments Ret {E A} a.
Arguments Panic {E A} why.
Arguments Vis {E A X} e k.

(** A call that was made, with the answer it got. *)
Inductive call (E : Type → Type) : Type :=
| Call (X : Type) (e : E X) (x : X).
Arguments Call {E X} e x.

#[global] Instance prog_ret E : MRet (prog E) := @Ret E.
#[global] Instance prog_bind E : MBind (prog E) :=
  fix bind {A B} (f : A → prog E B) (p : prog E A) : prog E B :=
    match p with
    | Ret a => f a
    | Panic w => Panic w
    | Vis e k => Vis e (λ x, bind f (k x))
    end.

Definition trigger {E X} (e : E X) : prog E X := Vis e Ret.

Section semantics.
Context {E : Type → Type}.

(** All answers the guarantee [G] allows lead to [Q]. *)
Fixpoint under {A} (G : call E → Prop) (p : prog E A)
    (Q : list (call E) → outcome A → Prop) : Prop :=
  match p with
  | Ret a => Q [] (Done a)
  | Panic w => Q [] (Panicked w)
  | Vis e k => ∀ x, G (Call e x) → under G (k x) (λ t o, Q (Call e x :: t) o)
  end.

Definition anything : call E → Prop := λ _, True.
Definition always {A} := @under A anything.

(** Execution against a stateful environment. *)
Fixpoint run {S A} (h : ∀ X, E X → S → X * S) (p : prog E A) (s : S)
    : outcome A * S * list (call E) :=
  match p with
  | Ret a => (Done a, s, [])
  | Panic w => (Panicked w, s, [])
  | Vis e k =>
      let '(x, s1) := h _ e s in
      let '(o, s2, t) := run h (k x) s1 in
      (o, s2, Call e x :: t)
  end.

Lemma under_mono {A} (G G' : call E → Prop) (p : prog E A) (Q Q' : _ → _ → Prop) :
  (∀ c, G' c → G c) → (∀ t o, Q t o → Q' t o) → under G p Q → under G' p Q'.
Proof.
  intros HG. revert Q Q'. induction p as [a|w|X e k IH]; simpl; eauto.
  intros Q Q' HQ H x Hx. eapply IH; [|eauto]. simpl. eauto.
Qed.

Lemma under_true {A} G (p : prog E A) : under G p (λ _ _, True).
Proof. induction p as [a|w|X e k IH]; simpl; auto. Qed.

Lemma under_conj {A} G (p : prog E A) Q Q' :
  under G p Q → under G p Q' → under G p (λ t o, Q t o ∧ Q' t o).
Proof.
  revert Q Q'. induction p as [a|w|X e k IH]; simpl; [done..|].
  intros Q Q' H H' x Hx. eapply IH; eauto.
Qed.

Lemma under_forall {A X} G (p : prog E A) (Q : X → list (call E) → outcome A → Prop) :
  (∀ x, under G p (Q x)) → under G p (λ t o, ∀ x, Q x t o).
Proof.
  revert Q. induction p as [a|w|Y e k IH]; intros Q H; cbn in H |- *; [done..|].
  intros y Hy. apply (IH y (λ x t o, Q x (Call e y :: t) o)). intros x. by apply H.
Qed.

(** The answers that occur satisfy the guarantee. *)
Lemma under_guarantee {A} G (p : prog E A) Q :
  under G p Q → under G p (λ t o, Forall G t ∧ Q t o).
Proof.
  revert Q. induction p as [a|w|X e k IH]; simpl; [by auto..|].
  intros Q H x Hx. eapply under_mono; [eauto | | by apply IH, H].
  intros t o [??]. simpl. auto.
Qed.

Lemma under_bind {A B} G (p : prog E A) (f : A → prog E B) Q :
  under G (p ≫= f) Q ↔
  under G p (λ t o, match o with
    | Done a => under G (f a) (λ t' o', Q (t ++ t') o')
    | Panicked w => Q t (Panicked w)
    end).
Proof.
  revert Q. induction p as [a|w|X e k IH]; intros Q; simpl; [done..|].
  split; intros H x Hx; specialize (IH x (λ t o, Q (Call e x :: t) o));
    [exact (proj1 IH (H x Hx)) | exact (proj2 IH (H x Hx))].
Qed.

(** One call: whatever it answers, the rest goes on from there. *)
Lemma under_call {X A} G (e : E X) (k : X → prog E A) (Q : _ → _ → Prop) :
  (∀ x, G (Call e x) → under G (k x) (λ t o, Q (Call e x :: t) o)) →
  under G (trigger e ≫= k) Q.
Proof. done. Qed.

Lemma under_bind_intro {A B} G (p : prog E A) (f : A → prog E B) (Q R : _ → _ → Prop) :
  under G p R →
  (∀ t w, R t (Panicked w) → Q t (Panicked w)) →
  (∀ t a, R t (Done a) → under G (f a) (λ t' o', Q (t ++ t') o')) →
  under G (p ≫= f) Q.
Proof.
  intros Hp Hw Hf. apply under_bind. eapply under_mono; [done| |exact Hp].
  intros t [a|w] HR; auto.
Qed.

Lemma under_run {A S} G (h : ∀ X, E X → S → X * S) (p : prog E A) Q s :
  (∀ X (e : E X) s, G (Call e (h X e s).1)) →
  under G p Q → let '(o, _, t) := run h p s in Q t o.
Proof.
  intros HG. revert Q s. induction p as [a|w|X e k IH]; intros Q s; simpl; [done..|].
  intros H. specialize (HG X e s). destruct (h X e s) as [x s1]. simpl in HG.
  specialize (IH x _ s1 (H x HG)). by destruct (run h (k x) s1) as [[o s2] t].
Qed.

Lemma always_run {A S} (h : ∀ X, E X → S → X * S) (p : prog E A) Q s :
  always p Q → let '(o, _, t) := run h p s in Q t o.
Proof. apply under_run. done. Qed.

(** Sequential composition runs one program after the other. *)
Lemma run_bind {A B S} (h : ∀ X, E X → S → X * S) (p : prog E A) (f : A → prog E B) s :
  run h (p ≫= f) s =
  match run h p s with
  | (Done a, s1, t) => let '(o, s2, t') := run h (f a) s1 in (o, s2, t ++ t')
  | (Panicked w, s1, t) => (Panicked w, s1, t)
  end.
Proof.
  revert s. induction p as [a|w|X e k IH]; intros s; simpl; [| done |].
  - by destruct (run h (f a) s) as [[??]?].
  - destruct (h X e s) as [x s1]. change (prog_bind E A B f (k x)) with (k x ≫= f).
    rewrite IH. destruct (run h (k x) s1) as [[[a|w] s2] t]; [|done].
    by destruct (run h (f a) s2) as [[??]?].
Qed.

(** *** Equivalence of programs: no environment tells them apart *)

#[global] Instance prog_equiv {A} : Equiv (prog E A) := λ p q,
  ∀ (S : Type) (h : ∀ X, E X → S → X * S) s, run h p s = run h q s.

#[global] Instance prog_equivalence {A} : Equivalence (≡@{prog E A}).
Proof.
  split; [by intros ???? | by intros p q H ???; symmetry |].
  intros p q r Hpq Hqr ???. etrans; [apply Hpq | apply Hqr].
Qed.

#[global] Instance bind_proper {A B} :
  Proper (pointwise_relation A (≡) ==> (≡@{prog E A}) ==> (≡@{prog E B})) mbind.
Proof.
  intros f g Hfg p q Hpq S h s. rewrite !run_bind, Hpq.
  destruct (run h q s) as [[[a|w] s1] t]; [|done]. by rewrite (Hfg a S h s1).
Qed.

Lemma bind_ret_r {A} (p : prog E A) : p ≫= mret ≡ p.
Proof.
  intros S h s. rewrite run_bind.
  destruct (run h p s) as [[[a|w] s1] t]; simpl; [by rewrite app_nil_r | done].
Qed.

Lemma bind_assoc {A B C} (p : prog E A) (f : A → prog E B) (g : B → prog E C) :
  (p ≫= f) ≫= g ≡ p ≫= (λ a, f a ≫= g).
Proof.
  intros S h s. rewrite !run_bind.
  destruct (run h p s) as [[[a|w] s1] t]; [|done]. rewrite run_bind.
  destruct (run h (f a) s1) as [[[b|w] s2] t']; [|done].
  destruct (run h (g b) s2) as [[o s3] t'']. by rewrite app_assoc.
Qed.
End semantics.

(** ** Calls of a component made by its client *)

Fixpoint translate {E F A} (f : ∀ X, E X → F X) (p : prog E A) : prog F A :=
  match p with
  | Ret a => Ret a
  | Panic w => Panic w
  | Vis e k => Vis (f _ e) (λ x, translate f (k x))
  end.

Definition translate_call {E F} (f : ∀ X, E X → F X) (c : call E) : call F :=
  match c with Call e x => Call (f _ e) x end.

Lemma under_translate {E F A} (f : ∀ X, E X → F X) G (p : prog E A) Q :
  under G (translate f p) Q ↔
  under (λ c, G (translate_call f c)) p (λ t o, Q (map (translate_call f) t) o).
Proof.
  revert Q. induction p as [a|w|X e k IH]; intros Q; simpl; [done..|].
  split; intros H x Hx; specialize (IH x (λ t o, Q (Call (f X e) x :: t) o));
    [exact (proj1 IH (H x Hx)) | exact (proj2 IH (H x Hx))].
Qed.

Lemma run_translate {E F A S} (f : ∀ X, E X → F X) (h : ∀ X, F X → S → X * S) (p : prog E A) s :
  run h (translate f p) s =
  let '(o, s', t) := run (λ X e, h X (f X e)) p s in (o, s', map (translate_call f) t).
Proof.
  revert s. induction p as [a|w|X e k IH]; intros s; simpl; [done..|].
  destruct (h X (f X e) s) as [x s1]. rewrite IH.
  by destruct (run (λ X e, h X (f X e)) (k x) s1) as [[o s2] t].
Qed.

(** An environment that acts on a part of its state only. *)
Lemma run_part {E A S W} (put : S → W) (h : ∀ X, E X → S → X * S) (g : ∀ X, E X → W → X * W)
    (p : prog E A) s :
  (∀ X (e : E X) s, g X e (put s) = ((h X e s).1, put (h X e s).2)) →
  run g p (put s) = let '(o, s', t) := run h p s in (o, put s', t).
Proof.
  intros Hg. revert s. induction p as [a|w|X e k IH]; intros s; simpl; [done..|].
  rewrite Hg. destruct (h X e s) as [x s1]. simpl. rewrite IH.
  by destruct (run h (k x) s1) as [[o s2] t].
Qed.

(** The calls of [p] carried out by programs of another component, which keeps
    a state of its own. *)
Fixpoint interp {E F A S} (h : ∀ X, E X → S → prog F (X * S)) (p : prog E A) (s : S)
    : prog F (A * S) :=
  match p with
  | Ret a => Ret (a, s)
  | Panic w => Panic w
  | Vis e k => '(x, s) ← h _ e s; interp h (k x) s
  end.

Section interp.
Context {E F : Type → Type} {S : Type} (h : ∀ X, E X → S → prog F (X * S)).

Lemma interp_bind {A B} (p : prog E A) (f : A → prog E B) s :
  interp h (p ≫= f) s ≡ ('(a, s) ← interp h p s; interp h (f a) s).
Proof.
  revert s. induction p as [a|w|X e k IH]; intros s; [done|done|]. cbn [interp mbind prog_bind].
  rewrite bind_assoc. f_equiv. intros [x s']. apply IH.
Qed.

Lemma under_interp_bind {A B} G (p : prog E A) (f : A → prog E B) s Q :
  under G (interp h p s) (λ t o, match o with
    | Done (a, s) => under G (interp h (f a) s) (λ t' o', Q (t ++ t') o')
    | Panicked w => Q t (Panicked w)
    end) → under G (interp h (p ≫= f) s) Q.
Proof.
  revert s Q. induction p as [a|w|X e k IH]; intros s Q; [done|done|]. intros H.
  cbn [interp] in H. apply under_bind in H. cbn [interp mbind prog_bind]. apply under_bind.
  eapply under_mono; [done| |exact H]. intros t [[x s']|w] Ht; [|done].
  apply IH. eapply under_mono; [done| |exact Ht].
  intros t' [[a s'']|w] Ht'; [|done].
  eapply under_mono; [done| |exact Ht']. intros t'' o. by rewrite app_assoc.
Qed.

(** One call of the client. *)
Lemma under_interp_call {X A} G (e : E X) (k : X → prog E A) s Q :
  under G (h _ e s) (λ t o, match o with
    | Done (x, s) => under G (interp h (k x) s) (λ t' o', Q (t ++ t') o')
    | Panicked w => Q t (Panicked w)
    end) → under G (interp h (trigger e ≫= k) s) Q.
Proof.
  intros H. cbn [interp mbind prog_bind trigger]. apply under_bind.
  eapply under_mono; [done| |exact H]. by intros t [[x s']|w] Ht.
Qed.

(** What every call keeps of the component's state, the client keeps. *)
Lemma under_interp_inv {A} G (R : S → S → Prop) `{!PreOrder R} (p : prog E A) s :
  (∀ X (e : E X) s, under G (h _ e s) (λ _ o, ∀ x s', o = Done (x, s') → R s s')) →
  under G (interp h p s) (λ _ o, ∀ a s', o = Done (a, s') → R s s').
Proof.
  intros Hh. revert s. induction p as [a|w|X e k IH]; intros s; [by intros ?? [= _ <-]|done|].
  cbn [interp]. apply under_bind. eapply under_mono; [done| |apply Hh].
  intros t [[x s1]|w] HR; [|done]. eapply under_mono; [done| |apply IH].
  intros t' o Ho a s' ->. etrans; [by eapply HR | by eapply Ho].
Qed.
End interp.

(** ** Loops *)

(** [for x in l { body?; }]: the first error ends the loop. *)
Fixpoint for_try {E A Er} (l : list A) (body : A → prog E (result unit Er))
    : prog E (result unit Er) :=
  match l with
  | [] => mret (Ok ())
  | a :: l =>
      r ← body a;
      match r with
      | Ok _ => for_try l body
      | Err e => mret (Err e)
      end
  end.

(** [for x in l { body }] with a state the body updates. *)
Fixpoint for_state {E A S} (l : list A) (s : S) (body : A → S → prog E S) : prog E S :=
  match l with
  | [] => mret s
  | a :: l => s1 ← body a s; for_state l s1 body
  end.

Section loops.
Context {E : Type → Type}.

(** A loop's invariant over the calls made so far: [I done trace]. *)
Lemma under_for_try {A Er} G (l : list A) (body : A → prog E (result unit Er))
    (I : list A → list (call E) → Prop)
    (Q : list (call E) → outcome (result unit Er) → Prop) :
  I [] [] →
  (∀ d a r t, l = d ++ a :: r → I d t →
    under G (body a) (λ t' o, match o with
      | Done (Ok _) => I (d ++ [a]) (t ++ t')
      | Done (Err e) => Q (t ++ t') (Done (Err e))
      | Panicked w => Q (t ++ t') (Panicked w)
      end)) →
  (∀ t, I l t → Q t (Done (Ok ()))) →
  under G (for_try l body) Q.
Proof.
  intros HI Hbody HQ.
  assert (∀ d r t, l = d ++ r → I d t →
    under G (for_try r body) (λ t' o, Q (t ++ t') o)) as H; [|exact (H [] l [] eq_refl HI)].
  intros d r. revert d. induction r as [|a r IH]; intros d t Hl Ht; simpl.
  { rewrite app_nil_r in *. subst d. by apply HQ. }
  apply under_bind. eapply under_mono; [done | | by eapply Hbody].
  intros t' [[[]|e]|w]; simpl; rewrite ?app_nil_r; [|done..].
  intros Ht'. eapply under_mono; [done| |eapply (IH (d ++ [a])); [|done]].
  - intros t'' o. by rewrite app_assoc.
  - by rewrite <-app_assoc.
Qed.
End loops.

(** ** Guarded calls *)

(** Reasoning about what a program calls from what happened before: [hist] is
    the list of earlier calls, [J] says which call may be made after which
    history, and [Q] holds of the whole history and the value at the end. *)
Section guards.
Context {E : Type → Type} (G : call E → Prop) (J : list (call E) → call E → Prop).

Definition all_justified (hist t : list (call E)) : Prop :=
  ∀ i c, t !! i = Some c → J (hist ++ take i t) c.

Definition guards {A} (hist : list (call E)) (p : prog E A)
    (Q : list (call E) → A → Prop) : Prop :=
  under G p (λ t o, all_justified hist t ∧ ∀ a, o = Done a → Q (hist ++ t) a).

Lemma all_justified_nil hist : all_justified hist [].
Proof. by intros i c. Qed.

Lemma all_justified_cons hist c t :
  J hist c → all_justified (hist ++ [c]) t → all_justified hist (c :: t).
Proof.
  intros Hc Ht [|i] d; simpl; [intros [= <-]; by rewrite app_nil_r|].
  intros Hd. specialize (Ht i d Hd). by rewrite <-app_assoc in Ht.
Qed.

Lemma all_justified_app hist t t' :
  all_justified hist t → all_justified (hist ++ t) t' → all_justified hist (t ++ t').
Proof.
  revert hist. induction t as [|c t IH]; intros hist Ht Ht'; [by rewrite app_nil_r in Ht'|].
  apply all_justified_cons.
  - specialize (Ht 0%nat c eq_refl). by rewrite app_nil_r in Ht.
  - apply IH; [|by rewrite <-app_assoc].
    intros i d Hd. specialize (Ht (S i) d Hd). by rewrite <-app_assoc.
Qed.

Lemma guards_ret {A} hist (a : A) (Q : _ → _ → Prop) : Q hist a → guards hist (mret a) Q.
Proof.
  intros Ha. split; [apply all_justified_nil|]. intros ? [= <-]. by rewrite app_nil_r.
Qed.

Lemma guards_panic {A} hist w (Q : _ → A → Prop) : guards hist (Panic w) Q.
Proof. split; [apply all_justified_nil | done]. Qed.

Lemma guards_call {X A} hist (e : E X) (k : X → prog E A) Q :
  (∀ x, G (Call e x) → J hist (Call e x)) →
  (∀ x, G (Call e x) → guards (hist ++ [Call e x]) (k x) Q) →
  guards hist (trigger e ≫= k) Q.
Proof.
  intros HJ Hk x Hx. eapply under_mono; [done| |exact (Hk x Hx)].
  intros t o [Ht Ho]. split; [apply all_justified_cons; auto|].
  by rewrite <-app_assoc in Ho.
Qed.

Lemma guards_bind {A B} hist (p : prog E A) (k : A → prog E B) R Q :
  guards hist p R → (∀ h a, R h a → guards h (k a) Q) → guards hist (p ≫= k) Q.
Proof.
  intros Hp Hk. unfold guards in *. eapply under_bind_intro; [exact Hp|by intros t w [? _]|].
  intros t a [Ht Ha]. eapply under_mono; [done| |apply (Hk (hist ++ t)); by apply Ha].
  intros t' o [Ht' Ho]. split; [by apply all_justified_app|]. by rewrite app_assoc.
Qed.

Lemma guards_trigger {X} hist (e : E X) (Q : _ → _ → Prop) :
  (∀ x, G (Call e x) → J hist (Call e x)) →
  (∀ x, G (Call e x) → Q (hist ++ [Call e x]) x) → guards hist (trigger e) Q.
Proof.
  intros HJ HQ x Hx. split; [apply all_justified_cons; [by apply HJ | apply all_justified_nil]|].
  intros ? [= <-]. by apply HQ.
Qed.

Lemma guards_mono {A} hist (p : prog E A) (Q Q' : _ → _ → Prop) :
  (∀ h a, Q h a → Q' h a) → guards hist p Q → guards hist p Q'.
Proof.
  intros HQ Hp. eapply under_mono; [done| |exact Hp]. intros t o [Ht Ho]. eauto.
Qed.

Lemma guards_calls {A} (p : prog E A) Q :
  guards [] p Q → under G p (λ t _, ∀ i c, t !! i = Some c → J (take i t) c).
Proof. apply under_mono; [done|]. by intros t o [Ht _]. Qed.
End guards.

(** ** Running against an environment *)

(** What holds when [p], run from [s], is over. *)
Section wp.
Context {E : Type → Type} {S : Type} (h : ∀ X, E X → S → X * S).

Definition wp {A} (p : prog E A) (s : S) (Q : outcome A → S → Prop) : Prop :=
  let '(o, s', _) := run h p s in Q o s'.

Lemma wp_ret {A} (a : A) s (Q : _ → _ → Prop) : Q (Done a) s → wp (mret a) s Q.
Proof. done. Qed.

Lemma wp_bind {A B} (p : prog E A) (k : A → prog E B) s (Q : _ → _ → Prop) :
  wp p s (λ o s', match o with
    | Done a => wp (k a) s' Q
    | Panicked w => Q (Panicked w) s'
    end) → wp (p ≫= k) s Q.
Proof.
  unfold wp. rewrite run_bind. destruct (run h p s) as [[[a|w] s1] t]; [|done].
  by destruct (run h (k a) s1) as [[??]?].
Qed.

Lemma wp_call {X A} (e : E X) (k : X → prog E A) s (Q : _ → _ → Prop) :
  wp (k (h X e s).1) (h X e s).2 Q → wp (trigger e ≫= k) s Q.
Proof. intros Hk. apply wp_bind. unfold wp at 1. simpl. by destruct (h X e s). Qed.

Lemma wp_trigger {X} (e : E X) s (Q : _ → _ → Prop) :
  Q (Done (h X e s).1) (h X e s).2 → wp (trigger e) s Q.
Proof. unfold wp. simpl. by destruct (h X e s). Qed.

Lemma wp_mono {A} (p : prog E A) s (Q Q' : _ → _ → Prop) :
  (∀ o s', Q o s' → Q' o s') → wp p s Q → wp p s Q'.
Proof. unfold wp. destruct (run h p s) as [[??]?]. auto. Qed.

Lemma wp_conj {A} (p : prog E A) s (Q Q' : _ → _ → Prop) :
  wp p s Q → wp p s Q' → wp p s (λ o s', Q o s' ∧ Q' o s').
Proof. unfold wp. by destruct (run h p s) as [[??]?]. Qed.

(** What holds when [p] succeeds. *)
Definition wp_ok {A Er} (p : prog E (result A Er)) (s : S) (R : A → S → Prop) : Prop :=
  wp p s (λ o s', ∀ a, o = Done (Ok a) → R a s').

Lemma wp_ok_ret {A Er} (a : A) s (R : _ → _ → Prop) :
  R a s → wp_ok (mret (Ok a) : prog E (result A Er)) s R.
Proof. intros Ha. apply wp_ret. by intros ? [= <-]. Qed.

Lemma wp_ok_err {A Er} (e : Er) s (R : A → _ → Prop) : wp_ok (mret (Err e)) s R.
Proof. by apply wp_ret. Qed.

Lemma wp_ok_call {X A Er} (e : E X) (k : X → prog E (result A Er)) s (R : _ → _ → Prop) :
  wp_ok (k (h X e s).1) (h X e s).2 R → wp_ok (trigger e ≫= k) s R.
Proof. apply wp_call. Qed.

Lemma wp_ok_panic {A Er} why s (R : A → _ → Prop) :
  wp_ok (Panic why : prog E (result A Er)) s R.
Proof. done. Qed.

Lemma wp_ok_mono {A Er} (p : prog E (result A Er)) s (R R' : _ → _ → Prop) :
  (∀ a s', R a s' → R' a s') → wp_ok p s R → wp_ok p s R'.
Proof. intros HR. apply wp_mono. eauto. Qed.

(** [match p with Ok a => k a | Err e => Err e end]. *)
Lemma wp_ok_bind {A B Er Er'} (p : prog E (result A Er)) (k : A → prog E (result B Er'))
    (f : Er → Er') s (R : _ → _ → Prop) :
  wp_ok p s (λ a s', wp_ok (k a) s' R) →
  wp_ok (r ← p; match r with Ok a => k a | Err e => mret (Err (f e)) end) s R.
Proof.
  intros Hp. apply wp_bind. eapply wp_mono; [|exact Hp].
  intros [[a|e]|w] s' Ha; [by apply Ha | apply wp_ok_err | done].
Qed.

Lemma wp_ok_for_try {A Er} (l : list A) (body : A → prog E (result unit Er))
    (I : list A → S → Prop) s (R : unit → S → Prop) :
  I [] s →
  (∀ d a r s, l = d ++ a :: r → I d s → wp_ok (body a) s (λ _ s', I (d ++ [a]) s')) →
  (∀ s, I l s → R () s) → wp_ok (for_try l body) s R.
Proof.
  intros HI Hbody HR.
  assert (∀ d r s, l = d ++ r → I d s → wp_ok (for_try r body) s R) as H;
    [|exact (H [] l s eq_refl HI)].
  intros d r. revert d. induction r as [|a r IH]; intros d s' Hl Hs'; cbn [for_try].
  { rewrite app_nil_r in Hl. subst d. by apply wp_ok_ret, HR. }
  apply (wp_ok_bind _ (λ _, for_try r body) (λ e, e)).
  eapply wp_ok_mono; [|by eapply Hbody]. intros u s'' Hs''.
  apply (IH (d ++ [a])); [by rewrite <-app_assoc | done].
Qed.

Lemma wp_under {A} G (p : prog E A) s (Q : outcome A → Prop) :
  (∀ X (e : E X) s, G (Call e (h X e s).1)) →
  under G p (λ _ o, Q o) → wp p s (λ o _, Q o).
Proof.
  intros HG Hp. unfold wp. pose proof (under_run G h p _ s HG Hp) as Hr.
  by destruct (run h p s) as [[??]?].
Qed.
End wp.

(** ** Observing a trace *)

(** The values [f] extracts from the calls of a trace, in order. *)
Definition observe {E A} (f : call E → option A) (t : list (call E)) : list A := omap f t.

Lemma observe_app {E A} (f : call E → option A) t t' :
  observe f (t ++ t') = observe f t ++ observe f t'.
Proof. apply omap_app. Qed.

#[export] Hint Rewrite @observe_app : drasi.

(** When every call of a client is carried out so that what [f] sees is what [g]
    says of the call, a run of the client seen through [f] is one of its own runs
    seen through [g]. *)
Lemma under_interp_observe {E F S A B} (h : ∀ X, E X → S → prog F (X * S))
    (f : call F → option B) (g : call E → list B) G G' (p : prog E A) Q s :
  under G p Q →
  (∀ X (e : E X) s, under G' (h X e s) (λ t o, ∀ x s', o = Done (x, s') →
     G (Call e x) ∧ observe f t = g (Call e x))) →
  under G' (interp h p s) (λ t o, ∀ a s', o = Done (a, s') →
    ∃ te, Q te (Done a) ∧ observe f t = flat_map g te).
Proof.
  intros HQ Hh. revert Q s HQ. induction p as [a|w|X e k IH]; intros Q s HQ; cbn [interp].
  - intros ? ? [= <- <-]. by exists [].
  - done.
  - apply under_bind. eapply under_mono; [done| |exact (Hh X e s)].
    intros t [[x s1]|w] Ho; [|done]. destruct (Ho x s1 eq_refl) as [HG Hf].
    eapply under_mono; [done| |exact (IH x _ s1 (HQ x HG))].
    intros t' o Ho' a s' ->. destruct (Ho' a s' eq_refl) as (te & Hte & He).
    exists (Call e x :: te). split; [done|]. by rewrite observe_app, Hf, He.
Qed.

(** [steps] unfolds a straight-line program in a goal [under G p Q]. *)
Ltac step :=
  match goal with
  | |- under _ _ _ => progress cbn
  | |- ∀ _, _ => intro
  | |- under _ (match ?x with _ => _ end) _ => destruct x eqn:?
  | |- under _ (if ?x then _ else _) _ => destruct x eqn:?
  end.
Ltac steps := repeat step.

(** ** What a program may call *)

(** Every call the program may make, whatever is answered, is allowed. *)
Fixpoint confined {E : Type → Type} {A} (ok : ∀ X, E X → Prop) (p : prog E A) : Prop :=
  match p with
  | Ret _ | Panic _ => True
  | Vis e k => ok _ e ∧ ∀ x, confined ok (k x)
  end.

Section confined.
Context {E : Type → Type} (ok : ∀ X, E X → Prop).

Lemma confined_bind {A B} (p : prog E A) (f : A → prog E B) :
  confined ok p → (∀ a, confined ok (f a)) → confined ok (p ≫= f).
Proof.
  intros Hp Hf. induction p as [a|w|X e k IH]; [apply Hf | done |].
  destruct Hp as [He Hk]. split; [done|]. intros x. apply IH, Hk.
Qed.

Lemma confined_always {A} (p : prog E A) :
  confined ok p → always p (λ t _, Forall (λ c, match c with Call e _ => ok _ e end) t).
Proof.
  induction p as [a|w|X e k IH]; intros Hp; [constructor..|]. destruct Hp as [He Hk]. intros x _.
  eapply (under_mono anything); [done| |apply IH, Hk]. intros t o Ht. by constructor.
Qed.
End confined.

Lemma confined_translate {E F : Type → Type} {A} (ok : ∀ X, F X → Prop) (f : ∀ X, E X → F X)
    (p : prog E A) : (∀ X (e : E X), ok X (f X e)) → confined ok (translate f p).
Proof. intros Hf. induction p as [a|w|X e k IH]; [done..|]. split; [apply Hf | done]. Qed.
