(* ===== verification/BTree.v ===== *)
(** * BTree: ordered maps with string keys

    Rust's [BTreeMap<String, A>] as an association list kept in increasing
    byte order of the keys. *)
From S2P Require Import Prelude.

Notation btree A := (list (string * A)).

Lemma compare_eq_iff a b : String.compare a b = Eq ↔ a = b.
Proof.
  split; [apply String.compare_eq_iff|]. intros ->.
  pose proof (String.compare_antisym b b) as H.
  destruct (String.compare b b); simpl in H; congruence.
Qed.

Lemma str_eqb_compare a b :
  str_eqb a b = match String.compare a b with Eq => true | _ => false end.
Proof.
  destruct (String.compare a b) eqn:E.
  - apply compare_eq_iff in E. subst. apply str_eqb_refl.
  - apply bool_decide_eq_false. intros ->. rewrite (proj2 (compare_eq_iff b b)) in E; done.
  - apply bool_decide_eq_false. intros ->. rewrite (proj2 (compare_eq_iff b b)) in E; done.
Qed.

Section btree.
Context {A : Type}.
Implicit Types (m : btree A) (v : A).

(** [BTreeMap::get]. *)
Fixpoint jget (k : string) (m : btree A) : option A :=
  match m with
  | [] => None
  | (k', v) :: m => if str_eqb k k' then Some v else jget k m
  end.

(** [BTreeMap::insert]. *)
Fixpoint jset (k : string) (v : A) (m : btree A) : btree A :=
  match m with
  | [] => [(k, v)]
  | (k', v') :: m' =>
      match String.compare k k' with
      | Lt => (k, v) :: m
      | Eq => (k, v) :: m'
      | Gt => (k', v') :: jset k v m'
      end
  end.

(** Entries inserted in order, into an empty map: [collect()] or [json!]. *)
Definition jobject (l : list (string * A)) : btree A :=
  foldl (λ m kv, jset kv.1 kv.2 m) [] l.

(** The keys in increasing order: what a [BTreeMap] maintains. *)
Fixpoint jsorted (m : btree A) : bool :=
  match m with
  | [] => true
  | (k, _) :: m' =>
      match m' with
      | [] => true
      | (k', _) :: _ => String.ltb k k' && jsorted m'
      end
  end.

Lemma jget_jset_eq k v m : jget k (jset k v m) = Some v.
Proof.
  induction m as [|[k' v'] m IH]; simpl; [by rewrite str_eqb_refl|].
  destruct (String.compare k k') eqn:E; simpl.
  - by rewrite str_eqb_refl.
  - by rewrite str_eqb_refl.
  - rewrite str_eqb_compare, E. done.
Qed.

Lemma jget_jset_ne k k' v m : k ≠ k' → jget k' (jset k v m) = jget k' m.
Proof.
  intros Hne.
  assert (Hf : str_eqb k' k = false) by (apply bool_decide_eq_false; congruence).
  induction m as [|[k2 v2] m IH]; simpl; [by rewrite Hf|].
  destruct (String.compare k k2) eqn:E; simpl.
  - apply compare_eq_iff in E. subst k2. by rewrite Hf.
  - by rewrite Hf.
  - by rewrite IH.
Qed.

Lemma jget_jset k k' v m :
  jget k' (jset k v m) = if decide (k = k') then Some v else jget k' m.
Proof. case_decide; subst; [apply jget_jset_eq | by apply jget_jset_ne]. Qed.

Lemma jset_sorted k v m : jsorted m = true → jsorted (jset k v m) = true.
Proof.
  induction m as [|[k1 v1] m IH]; [done|].
  destruct m as [|[k2 v2] m]; intros H.
  - simpl. destruct (String.compare k k1) eqn:E; simpl; [done | unfold String.ltb; by rewrite E |].
    unfold String.ltb. rewrite String.compare_antisym, E. done.
  - simpl in H. apply andb_prop in H as [H1 H2]. specialize (IH H2).
    simpl. destruct (String.compare k k1) eqn:E.
    + apply compare_eq_iff in E. subst k1. simpl in *. by rewrite H1, H2.
    + simpl in *. unfold String.ltb at 1. rewrite E. by rewrite H1, H2.
    + simpl in *. assert (Hk : String.ltb k1 k = true)
        by (unfold String.ltb; rewrite String.compare_antisym, E; done).
      destruct (String.compare k k2) eqn:E2; simpl in *; by rewrite ?Hk, ?H1, ?IH.
Qed.

Lemma jobject_sorted l : jsorted (jobject l) = true.
Proof.
  unfold jobject. assert (jsorted [] = true) as H by done. revert H.
  generalize (@nil (string * A)). induction l as [|[k v] l IH]; intros m H; simpl; [done|].
  by apply IH, jset_sorted.
Qed.

Lemma elem_of_jget k v m : jget k m = Some v → (k, v) ∈ m.
Proof.
  induction m as [|[k' v'] m IH]; simpl; [done|].
  destruct (str_eqb k k') eqn:E; [|by intros ?%IH; right].
  apply str_eqb_true in E. intros [= ->]. subst. left.
Qed.

Lemma jget_None k m : jget k m = None ↔ k ∉ m.*1.
Proof.
  induction m as [|[k' v'] m IH]; simpl; [set_solver|].
  destruct (str_eqb k k') eqn:E.
  - apply str_eqb_true in E. subst. set_solver.
  - apply bool_decide_eq_false in E. rewrite IH. set_solver.
Qed.
End btree.

#[export] Hint Rewrite @jget_jset_eq : drasi.
#[export] Hint Resolve jset_sorted jobject_sorted : drasi.

Lemma jget_elem_of {A} k (v : A) (m : btree A) : NoDup m.*1 → (k, v) ∈ m → jget k m = Some v.
Proof.
  induction m as [|[k' v'] m IH]; simpl; [intros _ H; by apply elem_of_nil in H|].
  intros [Hni Hnd]%list.NoDup_cons [[= <- <-]|Hin]%list.elem_of_cons.
  - by rewrite str_eqb_refl.
  - destruct (str_eqb k k') eqn:E; [|by apply IH].
    apply str_eqb_true in E. subst. destruct Hni. apply list_elem_of_fmap. by exists (k', v).
Qed.

Lemma ltb_lt_trans a b c : String.ltb a b = true → String.ltb b c = true → String.ltb a c = true.
Proof.
  unfold String.ltb. revert b c. induction a as [|x a IH]; intros [|y b] [|z c]; simpl; try done.
  destruct (Ascii.compare x y) eqn:E1; [| |done]; destruct (Ascii.compare y z) eqn:E2; try done.
  - apply Ascii.compare_eq_iff in E1, E2. subst.
    assert (Ascii.compare z z = Eq) as -> by (unfold Ascii.compare; apply N.compare_refl). apply IH.
  - apply Ascii.compare_eq_iff in E1. subst. by rewrite E2.
  - apply Ascii.compare_eq_iff in E2. subst. by rewrite E1.
  - intros _ _. unfold Ascii.compare in *. apply N.compare_lt_iff in E1, E2.
    replace (N.compare _ _) with Lt; [done|]. symmetry. apply N.compare_lt_iff.
    by etrans.
Qed.

Lemma jsorted_lt {A} k (v : A) m k' : jsorted ((k, v) :: m) = true → k' ∈ m.*1 →
  String.ltb k k' = true.
Proof.
  revert k v. induction m as [|[k1 v1] m IH]; intros k v H Hin; [by apply elem_of_nil in Hin|].
  cbn [jsorted] in H. apply andb_prop in H as [Hlt Hs].
  rewrite fmap_cons in Hin. apply list.elem_of_cons in Hin as [->|Hin]; [done|].
  eapply ltb_lt_trans; [done|]. by apply (IH k1 v1).
Qed.

Lemma jsorted_tail {A} (kv : string * A) m : jsorted (kv :: m) = true → jsorted m = true.
Proof. destruct kv as [k v], m as [|[k' v'] m]; [done|]. cbn [jsorted]. by intros [??]%andb_prop. Qed.

(** An ordered map has every key once. *)
Lemma jsorted_NoDup {A} (m : btree A) : jsorted m = true → NoDup m.*1.
Proof.
  induction m as [|[k v] m IH]; intros H; [constructor|]. rewrite fmap_cons. constructor.
  - intros Hin. pose proof (jsorted_lt _ _ _ _ H Hin) as Hlt. cbn in Hlt. unfold String.ltb in Hlt.
    by rewrite (proj2 (compare_eq_iff k k) eq_refl) in Hlt.
  - eapply IH, jsorted_tail, H.
Qed.
