(* ===== verification/Json.v ===== *)
(** * Json: [serde_json] values as the Rust code uses them

    A [Map<String, Value>] is serde_json's default map, a [BTreeMap]: an
    association list kept in increasing byte order of the keys.  Numbers keep
    the three forms serde_json distinguishes. *)
From S2P Require Import Prelude BTree.

Inductive jnum : Type :=
| NPos (n : Z)       (** a [u64] *)
| NNeg (n : Z)       (** a negative [i64] *)
| NFloat (bits : Z). (** the 64 bits of an [f64] *)

Inductive value : Type :=
| VNull
| VBool (b : bool)
| VNumber (n : jnum)
| VString (s : string)
| VArray (l : list value)
| VObject (m : list (string * value)).

Notation jmap := (btree value).

#[global] Instance jnum_eq_dec : EqDecision jnum.
Proof. solve_decision. Defined.

#[global] Instance value_eq_dec : EqDecision value.
Proof.
  refine (fix go (v w : value) : Decision (v = w) :=
    match v, w with
    | VNull, VNull => left eq_refl
    | VBool a, VBool b => cast_if (decide (a = b))
    | VNumber a, VNumber b => cast_if (decide (a = b))
    | VString a, VString b => cast_if (decide (a = b))
    | VArray a, VArray b => cast_if (@decide (a = b) (@list_eq_dec _ go a b))
    | VObject a, VObject b =>
        cast_if (@decide (a = b) (@list_eq_dec _
          (@prod_eq_dec _ _ _ go) a b))
    | _, _ => right _
    end); abstract congruence.
Defined.

(** ** Access *)

Definition as_str (v : value) : option string :=
  match v with VString s => Some s | _ => None end.

Definition as_array (v : value) : option (list value) :=
  match v with VArray l => Some l | _ => None end.

Definition as_object (v : value) : option jmap :=
  match v with VObject m => Some m | _ => None end.

Definition as_u64_num (v : value) : option Z :=
  match v with VNumber (NPos n) => Some n | _ => None end.

(** [Number::as_i64]: a [u64] above [i64::MAX] and a float have none. *)
Definition num_as_i64 (n : jnum) : option Z :=
  match n with
  | NPos n => if (n <? 2 ^ 63)%Z then Some n else None
  | NNeg n => Some n
  | NFloat _ => None
  end.

(** [v["k"]]: [Null] when [v] is not an object or has no such key. *)
Definition jindex (v : value) (k : string) : value :=
  match v with VObject m => default VNull (jget k m) | _ => VNull end.

(** [v["a"]["b"]...] *)
Definition jpath (v : value) (ks : list string) : value := foldl jindex v ks.

(** [v == "s"] *)
Definition is_str (v : value) (s : string) : bool :=
  match v with VString t => str_eqb t s | _ => false end.

(** [v["a"]["b"]... = w]: [IndexMut] turns [Null] into an object, adds a
    missing key, and panics on any other value. *)
Fixpoint jset_path (v : value) (ks : list string) (w : value) : option value :=
  match ks with
  | [] => Some w
  | k :: ks =>
      match v with
      | VNull => w' ← jset_path VNull ks w; Some (VObject (jset k w' []))
      | VObject m =>
          w' ← jset_path (default VNull (jget k m)) ks w; Some (VObject (jset k w' m))
      | _ => None
      end
  end.

(** [labels.iter().map(|l| l.as_str().unwrap_or(""))] *)
Definition label_strs (l : list value) : list string :=
  map (λ v, default EmptyString (as_str v)) l.

(** [json!(n)] for an [i64]. *)
Definition v_i64 (n : Z) : value := VNumber (if (n <? 0)%Z then NNeg n else NPos n).

(** A field of a serialised [Option]: [None] is [null]. *)
Definition of_option {A} (f : A → value) (o : option A) : value :=
  match o with Some a => f a | None => VNull end.

(** ** Lemmas *)

Lemma jindex_jset_eq k v m : jindex (VObject (jset k v m)) k = v.
Proof. simpl. by rewrite jget_jset_eq. Qed.

Lemma jindex_jset_ne k k' v m :
  k ≠ k' → jindex (VObject (jset k v m)) k' = jindex (VObject m) k'.
Proof. intros. simpl. by rewrite jget_jset_ne. Qed.

Lemma is_str_true v s : is_str v s = true ↔ v = VString s.
Proof. destruct v; simpl; rewrite ?str_eqb_true; naive_solver. Qed.

(** What was written can be read back at the same path. *)
Lemma jpath_jset_path v ks w v' : jset_path v ks w = Some v' → jpath v' ks = w.
Proof.
  revert v v'. induction ks as [|k ks IH]; intros v v'; simpl; [by intros [= ->]|].
  destruct v as [| | | | |m]; try done.
  - destruct (jset_path VNull ks w) eqn:E; [|done]. intros [= <-]. simpl.
    rewrite str_eqb_refl. by eapply IH.
  - destruct (jset_path (default VNull (jget k m)) ks w) eqn:E; [|done]. intros [= <-].
    unfold jpath. cbn [foldl]. rewrite jindex_jset_eq. by eapply IH.
Qed.

(** ... and nothing else changed, at the first level. *)
Lemma jindex_jset_path_ne v k ks w v' k' :
  jset_path v (k :: ks) w = Some v' → k ≠ k' → jindex v' k' = jindex v k'.
Proof.
  intros H Hne. cbn in H. destruct v as [| | | | |m]; try done.
  - destruct (jset_path VNull ks w); [|done]. injection H as <-. cbn.
    unfold str_eqb. by rewrite bool_decide_eq_false_2 by congruence.
  - destruct (jset_path _ ks w); [|done]. injection H as <-. by apply jindex_jset_ne.
Qed.

(** A path that can be written with one value can be with any. *)
Lemma jset_path_any v ks w w' : is_Some (jset_path v ks w) → is_Some (jset_path v ks w').
Proof.
  revert v. induction ks as [|k ks IH]; intros v; [by eexists|]. cbn.
  destruct v as [| | | | |m]; try by intros [].
  - intros H. destruct (jset_path VNull ks w) as [x|] eqn:E; [|by destruct H].
    destruct (IH VNull) as [y ->]; [by rewrite E|]. by eexists.
  - intros H. destruct (jset_path (default VNull (jget k m)) ks w) as [x|] eqn:E; [|by destruct H].
    destruct (IH (default VNull (jget k m))) as [y ->]; [by rewrite E|]. by eexists.
Qed.

#[export] Hint Rewrite @jindex_jset_eq : drasi.
