(* ===== verification/RustText.v ===== *)
(** * RustText: the text operations of Rust's standard library that the code
    uses, on byte strings. *)
From S2P Require Import Prelude.
From Stdlib Require Import Ascii.

Definition byte_of (c : ascii) : N := N_of_ascii c.

(** Whether a byte is a UTF-8 continuation byte. *)
Definition is_cont (c : ascii) : bool := (128 <=? byte_of c)%N && (byte_of c <? 192)%N.

Definition in_range (lo hi : N) (c : ascii) : bool :=
  (lo <=? byte_of c)%N && (byte_of c <=? hi)%N.

(** [str::from_utf8]'s acceptance: the well-formed UTF-8 byte sequences. *)
Fixpoint valid_utf8 (s : string) : bool :=
  match s with
  | EmptyString => true
  | String c s1 =>
      let b := byte_of c in
      if (b <? 128)%N then valid_utf8 s1
      else match s1 with
      | EmptyString => false
      | String c1 s2 =>
          if in_range 194 223 c then is_cont c1 && valid_utf8 s2
          else match s2 with
          | EmptyString => false
          | String c2 s3 =>
              if in_range 224 239 c then
                (if (b =? 224)%N then in_range 160 191 c1
                 else if (b =? 237)%N then in_range 128 159 c1 else is_cont c1)
                && is_cont c2 && valid_utf8 s3
              else match s3 with
              | EmptyString => false
              | String c3 s4 =>
                  in_range 240 244 c &&
                  (if (b =? 240)%N then in_range 144 191 c1
                   else if (b =? 244)%N then in_range 128 143 c1 else is_cont c1)
                  && is_cont c2 && is_cont c3 && valid_utf8 s4
              end
          end
      end
  end.

(** [String::from_utf8(bytes)] *)
Definition from_utf8 (bytes : string) : option string :=
  if valid_utf8 bytes then Some bytes else None.

Definition digit_of (c : ascii) : option Z :=
  if in_range 48 57 c then Some (Z.of_N (byte_of c) - 48)%Z else None.

(** The decimal digits of [s] after the value [acc], below [2^64]. *)
Fixpoint parse_digits (acc : Z) (s : string) : option Z :=
  match s with
  | EmptyString => Some acc
  | String c s =>
      match digit_of c with
      | Some d =>
          let acc' := (acc * 10 + d)%Z in
          if (acc' <? u64_modulus)%Z then parse_digits acc' s else None
      | None => None
      end
  end.

(** [s.parse::<u64>()]: an optional plus sign and at least one digit. *)
Definition parse_u64 (s : string) : option Z :=
  match s with
  | EmptyString => None
  | String "+"%char EmptyString => None
  | String "+"%char s => parse_digits 0 s
  | s => parse_digits 0 s
  end.

Definition lower_ascii (c : ascii) : ascii :=
  if in_range 65 90 c then ascii_of_N (byte_of c + 32) else c.

(** [to_lowercase] on ASCII text (the code compares the result with ASCII
    constants; a non-ASCII letter is left unchanged). *)
Fixpoint to_lowercase (s : string) : string :=
  match s with
  | EmptyString => EmptyString
  | String c s => String (lower_ascii c) (to_lowercase s)
  end.

Definition digit_char (d : Z) : ascii := ascii_of_N (Z.to_N (48 + d)).

(** The decimal digits of [n] put before [acc], at most [fuel] of them. *)
Fixpoint show_aux (fuel : nat) (n : Z) (acc : string) : string :=
  match fuel with
  | O => acc
  | S fuel =>
      let acc' := String (digit_char (n `mod` 10)) acc in
      if (n <? 10)%Z then acc' else show_aux fuel (n / 10) acc'
  end.

(** [n.to_string()] for an unsigned number: 39 digits hold any [u128]. *)
Definition show_unsigned (n : Z) : string := show_aux 39 n "".

(** [s.split(sep)] on one character. *)
Fixpoint split_on (sep : ascii) (s : string) : list string :=
  match s with
  | EmptyString => [EmptyString]
  | String c s' =>
      if Ascii.eqb c sep then EmptyString :: split_on sep s'
      else match split_on sep s' with
           | [] => [String c EmptyString]
           | w :: ws => String c w :: ws
           end
  end.

(** [s.split_once(sep)] *)
Fixpoint split_once (sep : ascii) (s : string) : option (string * string) :=
  match s with
  | EmptyString => None
  | String c s' =>
      if Ascii.eqb c sep then Some (EmptyString, s')
      else '(a, b) ← split_once sep s'; Some (String c a, b)
  end.

Definition is_space (c : ascii) : bool := in_range 9 13 c || (byte_of c =? 32)%N.

Fixpoint trim_start (s : string) : string :=
  match s with
  | String c s' => if is_space c then trim_start s' else s
  | EmptyString => EmptyString
  end.

Fixpoint str_rev (s acc : string) : string :=
  match s with EmptyString => acc | String c s => str_rev s (String c acc) end.

(** [s.trim()] on ASCII white space. *)
Definition trim (s : string) : string :=
  str_rev (trim_start (str_rev (trim_start s) "")) "".

(** [s.parse()] at an unsigned type with values below [bound] (at most [2^64]). *)
Definition parse_unsigned (bound : Z) (s : string) : option Z :=
  n ← parse_u64 s; if (n <? bound)%Z then Some n else None.

(** [s.parse::<u16>()] *)
Definition parse_u16 : string → option Z := parse_unsigned (2 ^ 16).

(** [s.parse::<i32>()]: a minus sign is accepted before the digits, but not
    before another sign. *)
Definition parse_i32 (s : string) : option Z :=
  match s with
  | String "-"%char EmptyString => None
  | String "-"%char s =>
      n ← parse_digits 0 s; if (n <=? 2 ^ 31)%Z then Some (- n)%Z else None
  | s => parse_unsigned (2 ^ 31) s
  end.

Definition hex_char (d : Z) : ascii :=
  ascii_of_N (Z.to_N (if (d <? 10)%Z then 48 + d else 87 + d)).

(** The hexadecimal digits of [n] put before [acc], at most [fuel] of them. *)
Fixpoint show_hex_aux (fuel : nat) (n : Z) (acc : string) : string :=
  match fuel with
  | O => acc
  | S fuel =>
      let acc' := String (hex_char (n `mod` 16)) acc in
      if (n <? 16)%Z then acc' else show_hex_aux fuel (n / 16) acc'
  end.

(** [format!("{:02x}", n)] for a [u64]: sixteen digits hold it. *)
Definition show_02x (n : Z) : string :=
  let s := show_hex_aux 16 n EmptyString in
  if (n <? 16)%Z then String "0" s else s.

(** Whether [p] starts [s]; the rest of [s] then. *)
Fixpoint strip_prefix (p s : string) : option string :=
  match p, s with
  | EmptyString, _ => Some s
  | String a p, String b s => if Ascii.eqb a b then strip_prefix p s else None
  | String _ _, EmptyString => None
  end.

(** [s.contains(p)] *)
Fixpoint str_contains (p s : string) : bool :=
  match strip_prefix p s with
  | Some _ => true
  | None => match s with EmptyString => false | String _ s => str_contains p s end
  end.

(** [s.replace(p, by)] for a pattern that is not empty; [skip] characters of an
    occurrence are still to be dropped. *)
Fixpoint replace_aux (p by_ : string) (skip : nat) (s : string) : string :=
  match s with
  | EmptyString => EmptyString
  | String c s' =>
      match skip with
      | S skip => replace_aux p by_ skip s'
      | O =>
          match strip_prefix p s with
          | Some _ => by_ +:+ replace_aux p by_ (String.length p - 1) s'
          | None => String c (replace_aux p by_ 0 s')
          end
      end
  end.
Definition str_replace (p by_ s : string) : string := replace_aux p by_ 0 s.

(** *** Facts *)

Lemma parse_digits_range acc s n :
  is_u64 acc → parse_digits acc s = Some n → is_u64 n.
Proof.
  revert acc. induction s as [|c s IH]; intros acc Hacc; simpl; [by intros [= <-]|].
  unfold digit_of. destruct (in_range 48 57 c) eqn:Hc; [|done].
  case_match eqn:E; [|done]. apply IH. apply Z.ltb_lt in E.
  unfold in_range in Hc. apply andb_prop in Hc as [H1%N.leb_le H2%N.leb_le].
  unfold is_u64 in *. lia.
Qed.

Lemma parse_u64_range s n : parse_u64 s = Some n → is_u64 n.
Proof.
  assert (is_u64 0) by (unfold is_u64, u64_modulus; lia).
  unfold parse_u64. intros H1.
  repeat case_match; try done; subst; by eapply parse_digits_range.
Qed.

(** The pieces of [split_on] joined by the separator give the text back. *)
Lemma split_on_nonempty sep s : split_on sep s ≠ [].
Proof. destruct s; simpl; [done|]. by repeat case_match. Qed.

Lemma join_split_on sep s : join (String sep EmptyString) (split_on sep s) = s.
Proof.
  induction s as [|c s IH]; [done|]. simpl.
  pose proof (split_on_nonempty sep s) as Hne.
  destruct (Ascii.eqb_spec c sep) as [->|Hc].
  - destruct (split_on sep s) as [|w ws] eqn:E; [done|].
    change (join (String sep "") (EmptyString :: w :: ws)) with
      ("" +:+ String sep "" +:+ join (String sep "") (w :: ws)).
    rewrite IH. done.
  - destruct (split_on sep s) as [|w ws] eqn:E; [done|].
    rewrite <-IH. destruct ws; done.
Qed.

(** Printing and parsing *)

Lemma digit_of_char d : (0 ≤ d < 10)%Z → digit_of (digit_char d) = Some d.
Proof.
  intros H. assert (d = 0 ∨ d = 1 ∨ d = 2 ∨ d = 3 ∨ d = 4 ∨ d = 5 ∨ d = 6 ∨
    d = 7 ∨ d = 8 ∨ d = 9)%Z as Hd by lia.
  by repeat destruct Hd as [->|Hd]; [..|subst].
Qed.

(** Parsing the digits [show_aux] prints multiplies the accumulator and adds
    the number. *)
Lemma parse_show_aux fuel n acc a :
  (0 ≤ n < 10 ^ Z.of_nat fuel)%Z → (0 ≤ a)%Z → (fuel > 0)%nat →
  ∃ p, (10 ≤ p)%Z ∧ ((a * p + n < u64_modulus)%Z →
    parse_digits a (show_aux fuel n acc) = parse_digits (a * p + n)%Z acc).
Proof.
  revert n acc. induction fuel as [|fuel IH]; intros n acc Hn Ha Hf; [lia|].
  cbn [show_aux]. pose proof (Z.mod_pos_bound n 10 ltac:(lia)) as Hm.
  pose proof (Z.div_mod n 10 ltac:(lia)) as Hdm.
  destruct (Z.ltb_spec n 10) as [Hlt|Hge].
  - exists 10%Z. split; [lia|]. intros Hb. cbn [parse_digits].
    rewrite (Z.mod_small n 10) in * by lia. rewrite digit_of_char by lia.
    destruct (Z.ltb_spec (a * 10 + n) u64_modulus); [done|lia].
  - assert (0 ≤ n / 10 < 10 ^ Z.of_nat fuel)%Z as Hq.
    { rewrite Nat2Z.inj_succ, Z.pow_succ_r in Hn by lia. split; [lia|].
      apply Z.div_lt_upper_bound; lia. }
    destruct fuel as [|fuel]; [simpl in Hq; lia|].
    destruct (IH (n / 10)%Z (String (digit_char (n mod 10)) acc)) as (p & Hp1 & Hp);
      [done..|lia|].
    exists (p * 10)%Z. split; [lia|]. intros Hb.
    assert (a * p + n / 10 < u64_modulus)%Z by nia.
    rewrite Hp by lia. cbn [parse_digits]. rewrite digit_of_char by lia.
    replace ((a * p + n / 10) * 10 + n mod 10)%Z with (a * (p * 10) + n)%Z by lia.
    destruct (Z.ltb_spec (a * (p * 10) + n) u64_modulus); [done|lia].
Qed.

Lemma show_aux_digit fuel n acc :
  (fuel > 0)%nat → (0 ≤ n)%Z → ∃ d s, show_aux fuel n acc = String (digit_char d) s ∧ (0 ≤ d < 10)%Z.
Proof.
  revert n acc. induction fuel as [|fuel IH]; intros n acc Hf Hn; [lia|]. simpl.
  pose proof (Z.mod_pos_bound n 10 ltac:(lia)).
  case_match; [by eauto|]. destruct fuel as [|fuel]; [by eauto|].
  apply IH; [lia|]. apply Z.div_pos; lia.
Qed.

Lemma parse_show_unsigned n : is_u64 n → parse_u64 (show_unsigned n) = Some n.
Proof.
  intros Hn. unfold is_u64, u64_modulus in Hn.
  assert (parse_digits 0 (show_unsigned n) = Some n) as H.
  { destruct (parse_show_aux 39 n "" 0) as (p & _ & Hp); [lia..|].
    unfold show_unsigned. rewrite Hp; [done|]. unfold u64_modulus. lia. }
  rewrite <-H. unfold show_unsigned.
  destruct (show_aux_digit 39 n "") as (d & s & -> & Hd); [lia..|].
  assert (d = 0 ∨ d = 1 ∨ d = 2 ∨ d = 3 ∨ d = 4 ∨ d = 5 ∨ d = 6 ∨
    d = 7 ∨ d = 8 ∨ d = 9)%Z as Hc by lia.
  by repeat destruct Hc as [->|Hc]; [..|subst].
Qed.

Lemma valid_utf8_ascii c s : (byte_of c < 128)%N → valid_utf8 (String c s) = valid_utf8 s.
Proof. intros H%N.ltb_lt. simpl. by rewrite H. Qed.

Lemma valid_utf8_show_aux fuel n acc :
  (0 ≤ n)%Z → valid_utf8 acc = true → valid_utf8 (show_aux fuel n acc) = true.
Proof.
  revert n acc. induction fuel as [|fuel IH]; intros n acc Hn Hacc; [done|].
  pose proof (Z.mod_pos_bound n 10 ltac:(lia)) as Hm.
  assert (valid_utf8 (String (digit_char (n mod 10)) acc) = true) as Hd.
  { rewrite valid_utf8_ascii; [done|].
    assert (n mod 10 = 0 ∨ n mod 10 = 1 ∨ n mod 10 = 2 ∨ n mod 10 = 3 ∨ n mod 10 = 4 ∨
      n mod 10 = 5 ∨ n mod 10 = 6 ∨ n mod 10 = 7 ∨ n mod 10 = 8 ∨ n mod 10 = 9)%Z as Hc by lia.
    by repeat destruct Hc as [->|Hc]; [..|rewrite Hc]. }
  cbn [show_aux]. case_match; [done|]. apply IH; [apply Z.div_pos; lia | done].
Qed.

Lemma from_utf8_show n : (0 ≤ n)%Z → from_utf8 (show_unsigned n) = Some (show_unsigned n).
Proof.
  intros H. unfold from_utf8, show_unsigned. by rewrite (valid_utf8_show_aux 39 n "" H eq_refl).
Qed.

Lemma show_unsigned_inj i j :
  is_u64 i → is_u64 j → show_unsigned i = show_unsigned j → i = j.
Proof.
  intros Hi Hj Heq. apply parse_show_unsigned in Hi, Hj. rewrite Heq in Hi. congruence.
Qed.

Lemma str_app_inj (p a b : string) : p +:+ a = p +:+ b → a = b.
Proof. induction p as [|c p IH]; [done|]. intros H. apply IH. by injection H. Qed.

Lemma str_app_app (a b c : string) : (a +:+ b) +:+ c = a +:+ (b +:+ c).
Proof. induction a as [|x a IH]; [done|]. exact (f_equal (String x) IH). Qed.

Lemma str_app_empty (a : string) : a +:+ "" = a.
Proof. induction a as [|c a IH]; [done|]. exact (f_equal (String c) IH). Qed.

Lemma str_length_app (a b : string) : String.length (a +:+ b) = String.length a + String.length b.
Proof. induction a as [|x a IH]; [done|]. exact (f_equal S IH). Qed.

Lemma str_app_inj_length (a b s t : string) :
  String.length s = String.length t → a +:+ s = b +:+ t → a = b ∧ s = t.
Proof.
  intros Hst. revert b. induction a as [|x a IH]; intros [|y b] H; [done|..].
  - apply (f_equal String.length) in H. rewrite !str_length_app in H. cbn in H. lia.
  - apply (f_equal String.length) in H. rewrite !str_length_app in H. cbn in H. lia.
  - injection H as -> H. by destruct (IH b H) as [-> ->].
Qed.

(** *** A number followed by a text that does not go on with digits *)

Fixpoint all_digits (s : string) : bool :=
  match s with
  | EmptyString => true
  | String c s => match digit_of c with Some _ => all_digits s | None => false end
  end.

Definition no_digit_first (s : string) : bool :=
  match s with
  | EmptyString => true
  | String c _ => match digit_of c with Some _ => false | None => true end
  end.

Lemma all_digits_show n : (0 ≤ n)%Z → all_digits (show_unsigned n) = true.
Proof.
  unfold show_unsigned. generalize 39%nat. intros fuel. assert (all_digits "" = true) as H by done.
  revert H. generalize ""%string. revert n.
  induction fuel as [|fuel IH]; intros n acc Hacc Hn; [done|]. cbn [show_aux].
  pose proof (Z.mod_pos_bound n 10 ltac:(lia)) as Hm.
  assert (all_digits (String (digit_char (n mod 10)) acc) = true) as Hd
    by (cbn [all_digits]; by rewrite digit_of_char).
  case_match; [done|]. apply IH; [done | apply Z.div_pos; lia].
Qed.

Lemma digits_app_inj p q s t :
  all_digits p = true → all_digits q = true → no_digit_first s = true → no_digit_first t = true →
  p +:+ s = q +:+ t → p = q ∧ s = t.
Proof.
  revert q. induction p as [|c p IH]; intros [|c' q] Hp Hq Hs Ht H; cbn in *.
  - done.
  - change (s = String c' (q +:+ t)) in H. subst s. cbn in Hs. by destruct (digit_of c').
  - change (String c (p +:+ s) = t) in H. subst t. cbn in Ht. by destruct (digit_of c).
  - change (String c (p +:+ s) = String c' (q +:+ t)) in H. injection H as -> H. destruct (digit_of c'); [|done]. by destruct (IH q) as [-> ->].
Qed.

(** ** The environment of a process ([env::var]) *)

Notation Env := (gmap string string) (only parsing).

Definition env_var_or (env : Env) (k d : string) : string := default d (env !! k).

Lemma env_var_or_none (e : Env) k d : e !! k = None → env_var_or e k d = d.
Proof. unfold env_var_or. by intros ->. Qed.

Lemma env_var_or_some (e : Env) k d v : e !! k = Some v → env_var_or e k d = v.
Proof. unfold env_var_or. by intros ->. Qed.

#[export] Hint Resolve parse_u64_range split_on_nonempty : drasi.
