(* ===== verification/Core.v ===== *)
(** * Core: the interface of the [drasi_core] library

    [drasi_core] (the continuous query engine) is a git submodule of the
    repository.  The services build its values with the constructors below and
    otherwise only call it.  What it does with them is an argument of the
    models: the class [DrasiCore] holds the types and conversions it exports. *)
From S2P Require Import Prelude BTree Json.

Record ElementReference := mkReference {
  ref_source_id : string;
  ref_element_id : string;
}.

Record ElementMetadata := mkMetadata {
  md_reference : ElementReference;
  md_labels : list string;
  md_effective_from : Z;
}.

Record FutureElementRef := mkFutureRef {
  fr_element_ref : ElementReference;
  fr_original_time : Z;
  fr_due_time : Z;
  fr_group_signature : Z;
}.

(** What the engine exports: property maps built from JSON objects, and query
    variables that convert to JSON. *)
Class DrasiCore := {
  ElementPropertyMap : Type;
  properties_of_map : jmap → ElementPropertyMap;
  VariableValue : Type;
  json_of_variable : VariableValue → value;
}.

Section types.
Context `{DrasiCore}.

Inductive Element : Type :=
| ENode (metadata : ElementMetadata) (properties : ElementPropertyMap)
| ERelation (metadata : ElementMetadata) (properties : ElementPropertyMap)
    (in_node out_node : ElementReference).

Inductive SourceChange : Type :=
| SInsert (element : Element)
| SUpdate (element : Element)
| SDelete (metadata : ElementMetadata)
| SFuture (future_ref : FutureElementRef).

(** A row of query variables. *)
Definition QueryVariables : Type := list (string * VariableValue).

Inductive QueryPartEvaluationContext : Type :=
| Adding (after : QueryVariables)
| Updating (before after : QueryVariables)
| Removing (before : QueryVariables)
| Aggregation (before : option QueryVariables) (after : QueryVariables)
    (grouping_keys : list string)
| Noop.

Definition element_metadata (e : Element) : ElementMetadata :=
  match e with ENode m _ => m | ERelation m _ _ _ => m end.

(** The element a change is about. *)
Definition change_reference (c : SourceChange) : ElementReference :=
  match c with
  | SInsert e | SUpdate e => md_reference (element_metadata e)
  | SDelete m => md_reference m
  | SFuture r => fr_element_ref r
  end.
End types.

(** The query configuration the engine is built from. *)
Record CoreQuerySourceElement := { cse_source_label : string }.

Record CoreQuerySubscription := mkCoreSub {
  cs_id : string;
  cs_nodes : list CoreQuerySourceElement;
  cs_relations : list CoreQuerySourceElement;
  cs_pipeline : list string;
}.

Record CoreQueryJoinKey := { cjk_label : string; cjk_property : string }.
Record CoreQueryJoin := { cj_id : string; cj_keys : list CoreQueryJoinKey }.
Record CoreMiddlewareConfig := { cm_kind : string; cm_name : string; cm_config : jmap }.

Record CoreQuerySources := {
  csrc_subscriptions : list CoreQuerySubscription;
  csrc_joins : list CoreQueryJoin;
  csrc_middleware : list CoreMiddlewareConfig;
}.

Record QueryConfig := {
  qc_mode : string;
  qc_query : string;
  qc_sources : CoreQuerySources;
  qc_storage_profile : option string;
}.

(** The parsed query: the labels its match clauses mention.  A clause is its
    start node's labels and its path of (relation, node) labels. *)
Record MatchClause := { mc_start : list string; mc_path : list (list string * list string) }.
Record QueryAst := { ast_parts : list (list MatchClause) }.
