(* ===== verification/HostApi.v ===== *)
(** * HostApi: the query host's wire types and conversions
    ([query-container/query-host/src/api.rs]) *)
From S2P Require Import Prelude BTree Json Core.

(** ** Query specifications *)

Inductive QueryLanguage := Cypher | GQL.

Record QuerySourceLabel := { sl_source_label : string }.

Record QuerySubscription := {
  qs_id : string;
  qs_nodes : list QuerySourceLabel;
  qs_relations : list QuerySourceLabel;
  qs_pipeline : list string;
}.

Record QueryJoinKey := { jk_label : string; jk_property : string }.
Record QueryJoin := { qj_id : string; qj_keys : list QueryJoinKey }.

Record SourceMiddlewareConfig := { mw_kind : string; mw_name : string; mw_config : jmap }.

Record QuerySources := {
  src_subscriptions : list QuerySubscription;
  src_joins : list QueryJoin;
  src_middleware : list SourceMiddlewareConfig;
}.

Inductive RetentionPolicy :=
| Latest
| Expire (after_seconds : Z)
| All.

Record ViewSpec := { vs_enabled : bool; vs_retention_policy : RetentionPolicy }.

Record QuerySpec := {
  spec_mode : string;
  spec_query : string;
  spec_query_language : option QueryLanguage;
  spec_sources : QuerySources;
  spec_storage_profile : option string;
  spec_view : ViewSpec;
  spec_transient : option bool;
}.

Record QueryStatus := {
  st_host_name : string;
  st_status : string;
  st_container : string;
  st_error_message : string;
}.

(** ** Conversion to the engine's configuration ([mod mappings]) *)

Definition source_label_into (v : QuerySourceLabel) : CoreQuerySourceElement :=
  {| cse_source_label := sl_source_label v |}.

Definition subscription_into (v : QuerySubscription) : CoreQuerySubscription :=
  {| cs_id := qs_id v;
     cs_nodes := map source_label_into (qs_nodes v);
     cs_relations := map source_label_into (qs_relations v);
     cs_pipeline := qs_pipeline v |}.

Definition join_key_into (v : QueryJoinKey) : CoreQueryJoinKey :=
  {| cjk_label := jk_label v; cjk_property := jk_property v |}.

Definition join_into (v : QueryJoin) : CoreQueryJoin :=
  {| cj_id := qj_id v; cj_keys := map join_key_into (qj_keys v) |}.

Definition middleware_into (v : SourceMiddlewareConfig) : CoreMiddlewareConfig :=
  {| cm_kind := mw_kind v; cm_name := mw_name v; cm_config := mw_config v |}.

Definition sources_into (v : QuerySources) : CoreQuerySources :=
  {| csrc_subscriptions := map subscription_into (src_subscriptions v);
     csrc_joins := map join_into (src_joins v);
     csrc_middleware := map middleware_into (src_middleware v) |}.

Definition spec_into (v : QuerySpec) : QueryConfig :=
  {| qc_mode := spec_mode v;
     qc_query := spec_query v;
     qc_sources := sources_into (spec_sources v);
     qc_storage_profile := spec_storage_profile v |}.

(** ** Incoming changes *)

Inductive ChangeType := CtInsert | CtUpdate | CtDelete | CtFuture.
Inductive ElementType := TNode | TRelation.

Record ChangeEventTime := { t_seq : Z; t_ms : Z }.

Record ChangePayload := mkPayload {
  p_id : option string;
  p_labels : option (list string);
  p_properties : option jmap;
  p_start_id : option string;
  p_end_id : option string;
}.

Record ChangeEvent := mkChangeEvent {
  ce_id : string;
  ce_source_id : string;
  ce_time : ChangeEventTime;
  ce_queries : list string;
  ce_op : ChangeType;
  ce_element_type : option ElementType;
  ce_before : option ChangePayload;
  ce_after : option ChangePayload;
  ce_future_due_time : option Z;
  ce_future_signature : option Z;
  ce_metadata : option jmap;
}.

(** [ApiError]: its only form is a bad request. *)
Inductive ApiError := BadRequest (msg : string).

Definition get_timestamp (e : ChangeEvent) : Z := t_ms (ce_time e).

Definition has_query (e : ChangeEvent) (query_id : string) : bool :=
  bool_decide (query_id ∈ ce_queries e).

Definition get_metadata (e : ChangeEvent) : jmap := default [] (ce_metadata e).

Definition from_future_ref (r : FutureElementRef) (query_id : string) : ChangeEvent :=
  {| ce_id := ref_element_id (fr_element_ref r);
     ce_source_id := ref_source_id (fr_element_ref r);
     ce_time := {| t_seq := 0; t_ms := fr_original_time r |};
     ce_queries := [query_id];
     ce_op := CtFuture;
     ce_future_due_time := Some (fr_due_time r);
     ce_future_signature := Some (fr_group_signature r);
     ce_element_type := None;
     ce_before := None;
     ce_after := None;
     ce_metadata := None |}.

Section conversion.
Context `{DrasiCore}.

Definition into_element_reference (p : ChangePayload) (source_id : string)
    : result ElementReference ApiError :=
  let? id := ok_or (p_id p) (BadRequest "Missing id") in
  Ok (mkReference source_id id).

Definition into_element (p : ChangePayload) (source_id : string)
    (element_type : ElementType) (timestamp : Z) : result Element ApiError :=
  let? id := ok_or (p_id p) (BadRequest "Missing id") in
  let labels := default [] (p_labels p) in
  let properties := default [] (p_properties p) in
  let metadata := mkMetadata (mkReference source_id id) labels timestamp in
  match element_type with
  | TNode => Ok (ENode metadata (properties_of_map properties))
  | TRelation =>
      let? start_id := ok_or (p_start_id p) (BadRequest "Missing start id") in
      let? end_id := ok_or (p_end_id p) (BadRequest "Missing end id") in
      Ok (ERelation metadata (properties_of_map properties)
            (mkReference source_id start_id) (mkReference source_id end_id))
  end.

(** [impl TryInto<SourceChange> for ChangeEvent] *)
Definition try_into (e : ChangeEvent) : result SourceChange ApiError :=
  match ce_op e with
  | CtInsert =>
      let? after := ok_or (ce_after e) (BadRequest "Missing after payload") in
      let? ty := ok_or (ce_element_type e) (BadRequest "missing element type") in
      let? element := into_element after (ce_source_id e) ty (t_ms (ce_time e)) in
      Ok (SInsert element)
  | CtUpdate =>
      let? after := ok_or (ce_after e) (BadRequest "Missing after payload") in
      let? ty := ok_or (ce_element_type e) (BadRequest "missing element type") in
      let? element := into_element after (ce_source_id e) ty (t_ms (ce_time e)) in
      Ok (SUpdate element)
  | CtDelete =>
      let labels :=
        match ce_before e with
        | Some before => default [] (p_labels before)
        | None => []
        end in
      let? before := ok_or (ce_before e) (BadRequest "Missing before payload") in
      let? reference := into_element_reference before (ce_source_id e) in
      Ok (SDelete (mkMetadata reference labels (t_ms (ce_time e))))
  | CtFuture =>
      let? due_time := ok_or (ce_future_due_time e) (BadRequest "Missing future due time") in
      let? signature :=
        ok_or (ce_future_signature e) (BadRequest "Missing future signature") in
      Ok (SFuture (mkFutureRef (mkReference (ce_source_id e) (ce_id e))
                     (t_ms (ce_time e)) due_time signature))
  end.
End conversion.

(** ** Outgoing results *)

Inductive ControlSignal :=
| BootstrapStarted | BootstrapCompleted | Running | Stopped | QueryDeleted.

#[global] Instance ControlSignal_eq_dec : EqDecision ControlSignal.
Proof. solve_decision. Defined.

Record UpdatePayload := {
  up_before : option jmap;
  up_after : option jmap;
  up_grouping_keys : option (list string);
}.

Record ResultChangeEvent := {
  rc_query_id : string;
  rc_sequence : Z;
  rc_source_time_ms : Z;
  rc_added_results : list jmap;
  rc_updated_results : list UpdatePayload;
  rc_deleted_results : list jmap;
  rc_metadata : option jmap;
}.

Record ResultControlEvent := {
  rk_query_id : string;
  rk_sequence : Z;
  rk_source_time_ms : Z;
  rk_metadata : option jmap;
  rk_control_signal : ControlSignal;
}.

Inductive ResultEvent :=
| RChange (e : ResultChangeEvent)
| RControl (e : ResultControlEvent).

Definition event_sequence (e : ResultEvent) : Z :=
  match e with RChange c => rc_sequence c | RControl c => rk_sequence c end.

Section results.
Context `{DrasiCore}.

Definition variables_to_json (source : QueryVariables) : jmap :=
  foldl (λ m kv, jset kv.1 (json_of_variable kv.2) m) [] source.

(** The three lists [from_query_results] fills, in order. *)
Record buckets := {
  b_added : list jmap;
  b_updated : list UpdatePayload;
  b_deleted : list jmap;
}.

Definition push_context (b : buckets) (ctx : QueryPartEvaluationContext) : buckets :=
  match ctx with
  | Adding after =>
      {| b_added := b_added b ++ [variables_to_json after];
         b_updated := b_updated b; b_deleted := b_deleted b |}
  | Updating before after =>
      {| b_added := b_added b;
         b_updated := b_updated b ++
           [{| up_before := Some (variables_to_json before);
               up_after := Some (variables_to_json after);
               up_grouping_keys := None |}];
         b_deleted := b_deleted b |}
  | Removing before =>
      {| b_added := b_added b; b_updated := b_updated b;
         b_deleted := b_deleted b ++ [variables_to_json before] |}
  | Aggregation before after grouping_keys =>
      {| b_added := b_added b;
         b_updated := b_updated b ++
           [{| up_before := variables_to_json <$> before;
               up_after := Some (variables_to_json after);
               up_grouping_keys := Some grouping_keys |}];
         b_deleted := b_deleted b |}
  | Noop => b
  end.

Definition from_query_results (query_id : string)
    (data : list QueryPartEvaluationContext) (sequence source_time_ms : Z)
    (metadata : option jmap) : ResultEvent :=
  let b := foldl push_context {| b_added := []; b_updated := []; b_deleted := [] |} data in
  RChange {|
    rc_query_id := query_id;
    rc_sequence := sequence;
    rc_source_time_ms := source_time_ms;
    rc_added_results := b_added b;
    rc_updated_results := b_updated b;
    rc_deleted_results := b_deleted b;
    rc_metadata := metadata |}.
End results.

Definition from_control_signal (query_id : string) (sequence source_time_ms : Z)
    (control_signal : ControlSignal) : ResultEvent :=
  RControl {|
    rk_query_id := query_id;
    rk_sequence := sequence;
    rk_source_time_ms := source_time_ms;
    rk_metadata := None;
    rk_control_signal := control_signal |}.
