(* ===== verification/ChangeStream.v ===== *)
(** * ChangeStream: the Redis change stream of the query host
    ([query-container/query-host/src/change_stream/redis_change_stream.rs])

    A stream object holds the one message that was delivered and not yet
    acknowledged; a background task fetches batches from Redis into a bounded
    channel.  Redis and the channel are reached through calls. *)
From S2P Require Import Prelude Effects RustText.

(** ** Messages *)

(** A field of a stream entry: bulk data, or another kind of Redis value. *)
Inductive redis_value := RData (bytes : string) | ROther.

Record StreamId := mkStreamId {
  sid_id : string;
  sid_map : gmap string redis_value;
}.

Record Message (T : Type) := mkMessage {
  msg_id : string;
  msg_data : T;
  msg_enqueue_time : option Z;
  msg_trace_state : option string;
  msg_trace_parent : option string;
}.
Arguments mkMessage {T}.
Arguments msg_id {T} m.
Arguments msg_data {T} m.
Arguments msg_enqueue_time {T} m.
Arguments msg_trace_state {T} m.
Arguments msg_trace_parent {T} m.

Inductive ChangeStreamError :=
| IOError (o : string)
| MessageError (id error : string)
| AckOutOfSequence
| OtherError (o : string).

Definition stream_error_to_string (e : ChangeStreamError) : string :=
  match e with
  | IOError o => "IOError: " +:+ o
  | MessageError id error => "MessageError: " +:+ id +:+ ", " +:+ error
  | AckOutOfSequence => "AckOutOfSequence"
  | OtherError o => "Other: " +:+ o
  end.

(** [RedisError]'s kind and detail. *)
Record RedisError := { re_is_io : bool; re_detail : option string }.

Definition from_redis_error (e : RedisError) : ChangeStreamError :=
  if re_is_io e then IOError (default EmptyString (re_detail e))
  else OtherError (default EmptyString (re_detail e)).

(** ** Deserialization *)

Section deserialize.
(** [serde_json::from_slice::<T>], and the text of its error. *)
Context {T : Type} (from_slice : string → result T string).

(** The optional text fields: bad UTF-8 is logged and dropped, a value that
    is not bulk data is an error. *)
Definition text_field (message : StreamId) (key wrong_type : string)
    : result (option string) ChangeStreamError :=
  match sid_map message !! key with
  | Some (RData data) => Ok (from_utf8 data)
  | Some ROther => Err (MessageError (sid_id message) wrong_type)
  | None => Ok None
  end.

Definition data_field (message : StreamId) : result T ChangeStreamError :=
  match sid_map message !! "data"%string with
  | Some (RData data) =>
      match from_slice data with
      | Ok data => Ok data
      | Err err =>
          Err (MessageError (sid_id message) ("Failed to deserialize data: " +:+ err))
      end
  | Some ROther => Err (MessageError (sid_id message) "Invalid data type")
  | None => Err (MessageError (sid_id message) "Missing data")
  end.

(** The debug form of the UTF-8 error, which ends its message, is left out. *)
Definition enqueue_time_field (message : StreamId)
    : result (option Z) ChangeStreamError :=
  match sid_map message !! "enqueue_time"%string with
  | Some (RData data) =>
      match from_utf8 data with
      | Some data_str =>
          match parse_u64 data_str with
          | Some parsed => Ok (Some parsed)
          | None => Err (MessageError (sid_id message) "Failed to parse enqueue_time")
          end
      | None => Err (MessageError (sid_id message) "Failed to deserialize enqueue_time: ")
      end
  | Some ROther => Ok None
  | None => Ok None
  end.

Definition deserialize_message (message : StreamId)
    : result (Message T) ChangeStreamError :=
  let? data := data_field message in
  let? trace_state := text_field message "tracestate" "Invalid tracestate type" in
  let? trace_parent := text_field message "traceparent" "Invalid traceparent type" in
  let? enqueue_time := enqueue_time_field message in
  Ok (mkMessage (sid_id message) data enqueue_time trace_state trace_parent).
End deserialize.

(** ** The stream object *)

(** The calls of the object: the channel's receiving end, Redis, and the
    notification that cancels the background task. *)
Inductive stream_call : Type → Type :=
| RxRecv : stream_call (option StreamId)
| XAck (topic group id : string) : stream_call (result Z RedisError)
| XGroupDelConsumer (topic group consumer : string) : stream_call (result Z RedisError)
| CancelNotifyOne : stream_call unit.

Record RedisChangeStream := mkStream {
  rs_topic : string;
  rs_group_id : string;
  rs_unack_item : option StreamId;
}.

Definition set_unack (o : option StreamId) (s : RedisChangeStream) : RedisChangeStream :=
  mkStream (rs_topic s) (rs_group_id s) o.

Section stream.
(** [deserialize_message] at the type of the messages. *)
Context {M : Type} (deserialize : StreamId → result M ChangeStreamError).

Definition recv (s : RedisChangeStream)
    : prog stream_call (result (option M) ChangeStreamError * RedisChangeStream) :=
  match rs_unack_item s with
  | None =>
      data ← trigger RxRecv;
      match data with
      | Some data =>
          match deserialize data with
          | Ok message => mret (Ok (Some message), set_unack (Some data) s)
          | Err e => mret (Err e, s)
          end
      | None => mret (Ok None, s)
      end
  | Some item =>
      match deserialize item with
      | Ok message => mret (Ok (Some message), s)
      | Err e => mret (Err e, s)
      end
  end.

Definition ack (id : string) (s : RedisChangeStream)
    : prog stream_call (result unit ChangeStreamError * RedisChangeStream) :=
  match rs_unack_item s with
  | Some item =>
      if str_eqb (sid_id item) id then
        res ← trigger (XAck (rs_topic s) (rs_group_id s) id);
        match res with
        | Ok _ => mret (Ok (), set_unack None s)
        | Err err => mret (Err (from_redis_error err), s)
        end
      else mret (Err AckOutOfSequence, s)
  | None => mret (Err AckOutOfSequence, s)
  end.

Definition unsubscribe (s : RedisChangeStream)
    : prog stream_call (result unit ChangeStreamError) :=
  _ ← trigger CancelNotifyOne;
  res ← trigger (XGroupDelConsumer (rs_topic s) (rs_group_id s) "qh");
  match res with
  | Ok _ => mret (Ok ())
  | Err err => mret (Err (from_redis_error err))
  end.
End stream.

(** ** The background task *)

(** How a [select!] between the cancellation and [tx.send] ends. *)
Inductive sent := Cancelled | SendOk | SendErr.

(** A reply to [XREADGROUP]: the streams and their entries. *)
Definition StreamReadReply : Type := list (string * list StreamId).

(** The second loop's [select!]: cancelled, or a reply. *)
Inductive fetched :=
| FetchCancelled
| Fetched (r : result StreamReadReply RedisError).

Inductive fetch_call : Type → Type :=
| XReadPending (topic start_id : string) : fetch_call (result StreamReadReply RedisError)
| XReadNew (topic : string) : fetch_call fetched
| TxSend (item : StreamId) : fetch_call sent.

(** The inner loop of [process_batch] over one stream's entries. *)
Fixpoint process_ids (ids : list StreamId) : prog fetch_call bool :=
  match ids with
  | [] => mret true
  | id :: ids =>
      r ← trigger (TxSend id);
      match r with
      | Cancelled => mret false
      | SendErr => mret false
      | SendOk => process_ids ids
      end
  end.

Fixpoint process_batch (batch : StreamReadReply) : prog fetch_call bool :=
  match batch with
  | [] => mret true
  | (_, ids) :: batch =>
      ok ← process_ids ids;
      if (ok : bool) then process_batch batch else mret false
  end.

(** Why the recovery loop ended: all pending entries forwarded, the task
    returned, or the given number of rounds was used up. *)
Inductive recovery := PendingDone | TaskReturned | OutOfRounds.

Fixpoint read_pending (fuel : nat) (topic start_id : string) : prog fetch_call recovery :=
  match fuel with
  | O => mret OutOfRounds
  | S fuel =>
      batch ← trigger (XReadPending topic start_id);
      match batch with
      | Err _ => read_pending fuel topic start_id
      | Ok batch =>
          match batch with
          | [] => mret PendingDone
          | (_, ids) :: _ =>
              match list.last ids with
              | None => mret PendingDone
              | Some id =>
                  ok ← process_batch batch;
                  if (ok : bool) then read_pending fuel topic (sid_id id)
                  else mret TaskReturned
              end
          end
      end
  end.

(** One round of the second loop: whether the task goes on. *)
Definition read_new (topic : string) : prog fetch_call bool :=
  r ← trigger (XReadNew topic);
  match r with
  | FetchCancelled => mret false
  | Fetched (Ok items) => process_batch items
  | Fetched (Err _) => mret true
  end.

(** The task: recovery, then at most [rounds] rounds of new entries. *)
Fixpoint read_loop (rounds : nat) (topic : string) : prog fetch_call unit :=
  match rounds with
  | O => mret ()
  | S rounds =>
      go ← read_new topic;
      if (go : bool) then read_loop rounds topic else mret ()
  end.

Definition background_task (fuel rounds : nat) (topic : string) : prog fetch_call unit :=
  r ← read_pending fuel topic "0";
  match r with
  | PendingDone => read_loop rounds topic
  | TaskReturned => mret ()
  | OutOfRounds => mret ()
  end.

(** ** Opening a stream *)

(** The calls of the constructor; the last one starts the background task. *)
Inductive open_call : Type → Type :=
| OpenClient (url : string) : open_call (result unit RedisError)
| GetConnection : open_call (result unit RedisError)
| XGroupCreateMkstream (topic group start : string) : open_call (result string RedisError)
| SpawnFetch (topic group consumer : string) (fetch_batch_size buffer_size : Z) : open_call unit.

(** [RedisChangeStream::new]: a group that cannot be created is only logged. *)
Definition new_stream (url topic group_id : string) (buffer_size fetch_batch_size : Z)
    (start_timestamp : Z)
    : prog open_call (result RedisChangeStream ChangeStreamError) :=
  client ← trigger (OpenClient url);
  match client with
  | Err e => mret (Err (from_redis_error e))
  | Ok _ =>
      connection ← trigger GetConnection;
      match connection with
      | Err e => mret (Err (from_redis_error e))
      | Ok _ =>
          let starting_position := show_unsigned start_timestamp +:+ "-0" in
          _ ← trigger (XGroupCreateMkstream topic group_id starting_position);
          bg_connection ← trigger GetConnection;
          match bg_connection with
          | Err e => mret (Err (from_redis_error e))
          | Ok _ =>
              _ ← trigger (SpawnFetch topic group_id "qh" fetch_batch_size buffer_size);
              mret (Ok (mkStream topic group_id None))
          end
      end
  end.

(** ** Abstract specification: a sequential stream

    The trait promises that a message is served until it is acknowledged, in
    order.  The abstract stream is the list of entries not yet acknowledged
    and whether its head was delivered. *)
Record SeqStream := mkSeq { sq_pending : list StreamId; sq_delivered : bool }.

Inductive response (M : Type) :=
| Received (r : result (option M) ChangeStreamError)
| Acked (r : result unit ChangeStreamError).
Arguments Received {M} r.
Arguments Acked {M} r.

Inductive stream_op := OpRecv | OpAck (id : string).

Section spec.
Context {M : Type} (deserialize : StreamId → result M ChangeStreamError).
(** Which acknowledgements the broker refuses. *)
Context (refuses : string → option RedisError).

Definition spec_recv (q : SeqStream)
    : result (option M) ChangeStreamError * SeqStream :=
  match sq_pending q with
  | [] => (Ok None, q)
  | x :: rest =>
      match deserialize x with
      | Ok m => (Ok (Some m), mkSeq (x :: rest) true)
      | Err e => (Err e, if sq_delivered q then q else mkSeq rest false)
      end
  end.

Definition spec_ack (id : string) (q : SeqStream)
    : result unit ChangeStreamError * SeqStream :=
  match sq_pending q with
  | x :: rest =>
      if sq_delivered q && str_eqb (sid_id x) id then
        match refuses id with
        | None => (Ok (), mkSeq rest false)
        | Some e => (Err (from_redis_error e), q)
        end
      else (Err AckOutOfSequence, q)
  | [] => (Err AckOutOfSequence, q)
  end.

Definition spec_op (o : stream_op) (q : SeqStream) : response M * SeqStream :=
  match o with
  | OpRecv => let '(r, q) := spec_recv q in (Received r, q)
  | OpAck id => let '(r, q) := spec_ack id q in (Acked r, q)
  end.

Fixpoint spec_ops (os : list stream_op) (q : SeqStream) : list (response M) * SeqStream :=
  match os with
  | [] => ([], q)
  | o :: os =>
      let '(r, q1) := spec_op o q in
      let '(rs, q2) := spec_ops os q1 in (r :: rs, q2)
  end.

(** The same operations on the stream object. *)
Definition do_op (o : stream_op) (s : RedisChangeStream)
    : prog stream_call (response M * RedisChangeStream) :=
  match o with
  | OpRecv => '(r, s) ← recv deserialize s; mret (Received r, s)
  | OpAck id => '(r, s) ← ack id s; mret (Acked r, s)
  end.

Fixpoint do_ops (os : list stream_op) (s : RedisChangeStream)
    : prog stream_call (list (response M) * RedisChangeStream) :=
  match os with
  | [] => mret ([], s)
  | o :: os =>
      '(r, s) ← do_op o s;
      '(rs, s) ← do_ops os s;
      mret (r :: rs, s)
  end.
End spec.

(** What the stream object relies on of the channel and of Redis: the channel
    gives its entries in order, then [None]; [XACK] leaves the channel alone
    and fails exactly for the refused identifiers. *)
Class StreamEnv (W : Type) := {
  stream_handler : ∀ X, stream_call X → W → X * W;
  channel : W → list StreamId;
}.

Class StreamEnvLaws (W : Type) `{StreamEnv W} (refuses : string → option RedisError) := {
  rx_some w x q : channel w = x :: q →
    (stream_handler _ RxRecv w).1 = Some x ∧ channel (stream_handler _ RxRecv w).2 = q;
  rx_none w : channel w = [] →
    (stream_handler _ RxRecv w).1 = None ∧ channel (stream_handler _ RxRecv w).2 = [];
  xack_answer w topic group id :
    (stream_handler _ (XAck topic group id) w).1 =
      match refuses id with None => Ok 1%Z | Some e => Err e end ∧
    channel (stream_handler _ (XAck topic group id) w).2 = channel w;
}.

(** An environment made of the channel's contents alone. *)
#[export] Instance list_env (refuses : string → option RedisError)
    : StreamEnv (list StreamId) := {
  stream_handler X e w :=
    match e in stream_call X return X * list StreamId with
    | RxRecv => (head w, tail w)
    | XAck _ _ id => (match refuses id with None => Ok 1%Z | Some e => Err e end, w)
    | XGroupDelConsumer _ _ _ => (Ok 1%Z, w)
    | CancelNotifyOne => ((), w)
    end;
  channel w := w;
}.

#[export] Instance list_env_laws refuses :
  @StreamEnvLaws (list StreamId) (list_env refuses) refuses.
Proof.
  split; simpl.
  - by intros w x q ->.
  - by intros w ->.
  - done.
Qed.

Section refinement.
Context {M : Type} (deserialize : StreamId → result M ChangeStreamError).
Context (refuses : string → option RedisError).
Context `{StreamEnvLaws W refuses}.

(** The abstract stream a stream object and its channel stand for. *)
Definition abs (s : RedisChangeStream) (w : W) : SeqStream :=
  mkSeq (option_list (rs_unack_item s) ++ channel w)
    (bool_decide (is_Some (rs_unack_item s))).

Lemma recv_refines s w :
  let '(o, w', _) := run stream_handler (recv deserialize s) w in
  ∃ r s', o = Done (r, s') ∧ spec_recv deserialize (abs s w) = (r, abs s' w').
Proof.
  destruct s as [topic group [item|]]; simpl.
  - unfold recv, spec_recv, abs; simpl.
    destruct (deserialize item); simpl; eauto.
  - unfold recv, spec_recv, abs; simpl.
    destruct (stream_handler _ RxRecv w) as [x w'] eqn:Hh.
    destruct (channel w) as [|y q] eqn:Hc; simpl.
    + destruct (rx_none w Hc) as [Hx Hq]. rewrite Hh in Hx, Hq. simpl in *. subst x.
      simpl. do 2 eexists. split; [done|]. simpl. by rewrite Hq.
    + destruct (rx_some w y q Hc) as [Hx Hq]. rewrite Hh in Hx, Hq. simpl in *. subst x.
      destruct (deserialize y); simpl;
        (do 2 eexists; split; [done|]; simpl; by rewrite Hq).
Qed.

Lemma ack_refines id s w :
  let '(o, w', _) := run stream_handler (ack id s) w in
  ∃ r s', o = Done (r, s') ∧ spec_ack refuses id (abs s w) = (r, abs s' w').
Proof.
  destruct s as [topic group [item|]]; unfold ack, spec_ack, abs; simpl.
  - destruct (str_eqb (sid_id item) id); simpl; [|by eauto].
    destruct (stream_handler _ (XAck topic group id) w) as [x w'] eqn:Hh.
    destruct (xack_answer w topic group id) as [Hx Hq]. rewrite Hh in Hx, Hq.
    simpl in Hx, Hq. subst x.
    destruct (refuses id); simpl; do 2 eexists; (split; [done|]); simpl; by rewrite Hq.
  - destruct (channel w) eqn:Hc; simpl; eexists _, (mkStream topic group None); split;
      rewrite ?Hc; done.
Qed.

Lemma do_op_refines o s w :
  let '(out, w', _) := run stream_handler (do_op deserialize o s) w in
  ∃ r s', out = Done (r, s') ∧ spec_op deserialize refuses o (abs s w) = (r, abs s' w').
Proof.
  destruct o as [|id]; unfold do_op, spec_op; rewrite run_bind.
  - pose proof (recv_refines s w) as Hr.
    destruct (run stream_handler (recv deserialize s) w) as [[o w'] t].
    destruct Hr as (r & s' & -> & ->). simpl. eauto.
  - pose proof (ack_refines id s w) as Hr.
    destruct (run stream_handler (ack id s) w) as [[o w'] t].
    destruct Hr as (r & s' & -> & ->). simpl. eauto.
Qed.

(** C6: against any environment whose channel is first-in first-out, every
    sequence of [recv] and [ack] calls on a Redis change stream answers
    exactly what the abstract sequential stream answers: an entry is served
    until it is acknowledged, entries are served in order, an
    acknowledgement that is not for the served entry is refused, and a
    refused [XACK] leaves the entry to be served again. *)
Theorem redis_stream_refines_sequential os s w :
  let '(out, w', _) := run stream_handler (do_ops deserialize os s) w in
  ∃ rs s', out = Done (rs, s') ∧
    spec_ops deserialize refuses os (abs s w) = (rs, abs s' w').
Proof.
  revert s w. induction os as [|o os IH]; intros s w; simpl; [by eauto|].
  change (prog_bind ?E ?A ?B ?f ?p) with (p ≫= f). rewrite run_bind.
  pose proof (do_op_refines o s w) as Hr.
  destruct (run stream_handler (do_op deserialize o s) w) as [[out w1] t].
  destruct Hr as (r & s1 & -> & Hs). rewrite Hs.
  change (prog_bind ?E ?A ?B ?f ?p) with (p ≫= f). rewrite run_bind.
  specialize (IH s1 w1).
  destruct (run stream_handler (do_ops deserialize os s1) w1) as [[out2 w2] t2].
  destruct IH as (rs & s2 & -> & ->). simpl. eauto.
Qed.
End refinement.

(** A stream with three entries, one of which does not parse, against a broker
    that refuses one acknowledgement. *)
Definition example_entry (id d : string) : StreamId :=
  mkStreamId id {["data"%string := RData d]}.
Definition example_entries : list StreamId :=
  [example_entry "1" "a"; example_entry "2" "bad"; example_entry "3" "c"].
Definition example_parse (s : string) : result string string :=
  if str_eqb s "bad" then Err "bad"%string else Ok s.
Definition example_refuses (id : string) : option RedisError :=
  if str_eqb id "3" then Some {| re_is_io := true; re_detail := None |} else None.
Definition example_ops : list stream_op :=
  [OpRecv; OpRecv; OpAck "1"; OpRecv; OpRecv; OpAck "3"; OpRecv].

Lemma redis_stream_refines_sequential_witness :
  let '(out, w', _) :=
    run (@stream_handler _ (list_env example_refuses))
      (do_ops (deserialize_message example_parse) example_ops (mkStream "t" "g" None)) example_entries in
  ∃ rs s', out = Done (rs, s') ∧
    spec_ops (deserialize_message example_parse) example_refuses example_ops
      (@abs _ (list_env example_refuses) (mkStream "t" "g" None) example_entries) =
    (rs, @abs _ (list_env example_refuses) s' w').
Proof.
  apply (@redis_stream_refines_sequential _ (deserialize_message example_parse) example_refuses (list StreamId)
    (list_env example_refuses) (list_env_laws example_refuses)).
Defined.

(** ** Recovery of pending entries *)

Definition sends (t : list (call fetch_call)) : list StreamId :=
  observe (λ c, match c with
    | @Call _ X e x =>
        match e in fetch_call X return X → option StreamId with
        | TxSend item => λ r, match r with SendOk => Some item | _ => None end
        | _ => λ _, None
        end x
    end) t.

Section pending.
(** The entries delivered to this consumer and not acknowledged when the
    task starts, and Redis's reply to a read of them after an identifier. *)
Context (topic : string) (count : nat) (pel : list StreamId).
Context (reply : string → list StreamId).

(** [XREADGROUP] with an explicit identifier returns the pending entries
    after it, at most [count] of them; the channel accepts every entry. *)
Definition pending_answers (c : call fetch_call) : Prop :=
  match c with
  | @Call _ X e x =>
      match e in fetch_call X return X → Prop with
      | XReadPending t start => λ r, r = Ok [(t, reply start)]
      | TxSend _ => λ r, r = SendOk
      | XReadNew _ => λ _, True
      end x
  end.

Lemma process_ids_sends ids :
  under pending_answers (process_ids ids) (λ t o, o = Done true ∧ sends t = ids).
Proof.
  induction ids as [|id ids IH]; [done|].
  simpl. intros x ->. eapply under_mono; [done| |exact IH].
  intros t o [-> Hs]. split; [done|]. simpl. by f_equal.
Qed.

Lemma read_pending_from fuel start rest :
  (∀ pre x r, rest = pre ++ x :: r → reply (sid_id x) = take count r) →
  reply start = take count rest → (0 < count)%nat → (length rest < fuel)%nat →
  under pending_answers (read_pending fuel topic start)
    (λ t o, o = Done PendingDone ∧ sends t = rest).
Proof.
  revert start rest. induction fuel as [|fuel IH]; intros start rest Hnext Hstart Hc Hf; [lia|].
  simpl. intros r ->. rewrite Hstart.
  destruct (list.last (take count rest)) as [id|] eqn:Hl.
  2:{ apply last_None in Hl. destruct rest, count; simpl in *; try lia; done. }
  apply last_Some in Hl as [pre Hpre].
  assert (Hsplit : rest = pre ++ id :: drop count rest).
  { rewrite <-(take_drop count rest) at 1. rewrite Hpre. by rewrite <-app_assoc. }
  simpl. rewrite Hpre.
  change (prog_bind ?E ?A ?B ?f ?p) with (p ≫= f).
  apply under_bind. apply under_bind. eapply under_mono; [done| |apply process_ids_sends].
  intros t o [-> Hs]. simpl. change (prog_bind ?E ?A ?B ?f ?p) with (p ≫= f).
  eapply under_mono; [done| |apply (IH _ (drop count rest))]; [..|lia|].
  - intros t' o' [-> Hs']. split; [done|]. rewrite app_nil_r.
    change (sends (Call (XReadPending topic start) (Ok [(topic, pre ++ [id])]) :: t ++ t'))
      with (sends (t ++ t')).
    unfold sends in *. rewrite observe_app, Hs, Hs'. rewrite Hsplit at 2.
    by rewrite <-app_assoc.
  - intros pre' x r Hr. eapply (Hnext (pre ++ id :: pre')).
    rewrite Hsplit, Hr. by rewrite <-app_assoc.
  - eapply Hnext, Hsplit.
  - rewrite Hsplit in Hf. rewrite length_app in Hf. simpl in Hf. lia.
Qed.

(** C17: when the task starts, every entry that was delivered to the consumer
    and never acknowledged is forwarded to the channel exactly once and in
    order, in at most as many rounds as there are entries plus one, whatever
    batch size is configured. *)
Theorem recovery_forwards_all_pending fuel :
  reply "0" = take count pel →
  (∀ pre x r, pel = pre ++ x :: r → reply (sid_id x) = take count r) →
  (0 < count)%nat → (length pel < fuel)%nat →
  under pending_answers (read_pending fuel topic "0")
    (λ t o, o = Done PendingDone ∧ sends t = pel).
Proof. intros. by apply read_pending_from. Qed.
End pending.

(** Two pending entries read in batches of one. *)
Definition example_pel : list StreamId := [example_entry "1" "a"; example_entry "2" "b"].
Definition example_reply (start : string) : list StreamId :=
  if str_eqb start "0" then [example_entry "1" "a"]
  else if str_eqb start "1" then [example_entry "2" "b"] else [].

Lemma recovery_forwards_all_pending_witness :
  under (pending_answers example_reply) (read_pending 3 "t" "0")
    (λ t o, o = Done PendingDone ∧ sends t = example_pel).
Proof.
  apply (recovery_forwards_all_pending "t" 1 example_pel example_reply 3).
  - done.
  - intros pre x r. destruct pre as [|a [|b [|c pre]]]; simpl; intros H;
      injection H; intros; subst; try done.
  - lia.
  - simpl. lia.
Defined.
