(* ===== verification/Publisher.v ===== *)
(** * Publisher: putting entries on a query container's change stream
    ([query-container/publish-api/src], and the query host's
    [change_stream/publisher.rs] and [future_consumer.rs]) *)
From S2P Require Import Prelude BTree Json Effects RustText Core HostApi ChangeStream.

Inductive StreamPublishError :=
| PubConnectionError (e : string)
| PubOther (e : string).

(** The debug form of the error, as [{:?}] prints it. *)
Definition publish_error_debug (debug_str : string → string) (e : StreamPublishError) : string :=
  match e with
  | PubConnectionError e => "ConnectionError(" +:+ debug_str e +:+ ")"
  | PubOther e => "Other(" +:+ debug_str e +:+ ")"
  end.

Inductive publisher_call : Type → Type :=
| ClientOpen (url : string) : publisher_call (result unit string)
| GetMultiplexed : publisher_call (result unit string)
| UnixNanos : publisher_call (result Z string)
| XAdd (topic id : string) (items : list (string * string))
    : publisher_call (result unit string).

(** Both services hold the topic and a connection. *)
Record Publisher := mkPublisher { pub_topic : string }.

Definition connect (url topic : string)
    : prog publisher_call (result Publisher StreamPublishError) :=
  client ← trigger (ClientOpen url);
  match client with
  | Err e => mret (Err (PubConnectionError ("Error connecting to redis: " +:+ e)))
  | Ok _ =>
      connection ← trigger GetMultiplexed;
      match connection with
      | Err e => mret (Err (PubConnectionError ("Error connecting to redis: " +:+ e)))
      | Ok _ => mret (Ok (mkPublisher topic))
      end
  end.

(** The fields of the entry. *)
Definition publish_items (data now : string) (trace_state trace_parent : option string)
    : list (string * string) :=
  [("data", data); ("enqueue_time", now)]%string ++
  match trace_state with Some ts => [("tracestate", ts)]%string | None => [] end ++
  match trace_parent with Some tp => [("traceparent", tp)]%string | None => [] end.

Definition xadd (p : Publisher) (items : list (string * string))
    : prog publisher_call (result unit StreamPublishError) :=
  r ← trigger (XAdd (pub_topic p) "*" items);
  match r with
  | Ok _ => mret (Ok ())
  | Err e => mret (Err (PubOther ("Error publishing to topic: " +:+ e)))
  end.

(** The publish API's [Publisher::publish]. *)
Definition api_publish (p : Publisher) (data : string)
    (trace_state trace_parent : option string) : prog publisher_call (result unit StreamPublishError) :=
  now ← trigger UnixNanos;
  match now with
  | Ok now => xadd p (publish_items data (show_unsigned now) trace_state trace_parent)
  | Err e => mret (Err (PubOther ("Error getting current time: " +:+ e)))
  end.

(** The query host's: a clock before the epoch panics. *)
Definition host_publish (p : Publisher) (data : string)
    (trace_state trace_parent : option string) : prog publisher_call (result unit StreamPublishError) :=
  now ← trigger UnixNanos;
  match now with
  | Ok now => xadd p (publish_items data (show_unsigned now) trace_state trace_parent)
  | Err _ => Panic "called `Result::unwrap()` on an `Err` value"
  end.

(** ** The publish API's handlers *)

Inductive StatusCode := SC_OK | SC_BAD_GATEWAY.

Section handlers.
(** [HeaderValue::to_str] *)
Context (to_str : string → option string).

Definition header_str (headers : gmap string string) (name : string) : option string :=
  match headers !! name with
  | Some trace_state => match to_str trace_state with Some ts => Some ts | None => None end
  | None => None
  end.

Definition change (p : Publisher) (headers : gmap string string) (body : string)
    : prog publisher_call StatusCode :=
  let trace_state := header_str headers "tracestate" in
  let trace_parent := header_str headers "traceparent" in
  r ← api_publish p body trace_state trace_parent;
  match r with
  | Ok _ => mret SC_OK
  | Err _ => mret SC_BAD_GATEWAY
  end.

Definition data (p : Publisher) (headers : gmap string string) (body : string)
    : prog publisher_call StatusCode :=
  let trace_state := header_str headers "tracestate" in
  let trace_parent := header_str headers "traceparent" in
  r ← api_publish p body trace_state trace_parent;
  match r with
  | Ok _ => mret SC_OK
  | Err _ => mret SC_BAD_GATEWAY
  end.
End handlers.

(** ** The query host's future consumer *)

Section future.
(** [serde_json::to_string], and the debug form of a string. *)
Context (to_string : ChangeEvent → result string string).
Context (debug_str : string → string).

Definition on_due (p : Publisher) (query_id : string) (future_ref : FutureElementRef)
    : prog publisher_call (result unit string) :=
  let change := from_future_ref future_ref query_id in
  match to_string change with
  | Err e => mret (Err ("Error serializing future change: " +:+ e))
  | Ok data =>
      r ← host_publish p data None None;
      match r with
      | Ok _ => mret (Ok ())
      | Err e =>
          mret (Err ("Error publishing future change: " +:+ publish_error_debug debug_str e))
      end
  end.

(** [now]: whole seconds, in milliseconds, on [u64]. *)
Definition future_now (unix_secs : Z) : Z := u64_mul unix_secs 1000.
End future.

(** ** Properties *)

(** The stored entry of a stream has exactly the fields that were added. *)
Definition stores (items : list (string * string)) (m : StreamId) : Prop :=
  ∀ k, sid_map m !! k = RData <$> (list_to_map items : gmap string string) !! k.

Definition utf8_opt (o : option string) : Prop :=
  ∀ s, o = Some s → valid_utf8 s = true.

(** The entries a program added, with Redis's answer. *)
Definition added_of (c : call publisher_call) : option (string * list (string * string) * bool) :=
  match c with
  | @Call _ X e x =>
      match e in publisher_call X return X → _ with
      | XAdd topic _ items => λ r, Some (topic, items, is_ok r)
      | _ => λ _, None
      end x
  end.
Definition added t := observe added_of t.

Lemma text_field_stored m key wrong s items :
  stores items m → (list_to_map items : gmap string string) !! key = s → utf8_opt s →
  text_field m key wrong = Ok s.
Proof.
  intros Hst Hk Hu. unfold text_field. rewrite (Hst key), Hk.
  destruct s as [s|]; simpl; [|done]. unfold from_utf8. by rewrite (Hu s eq_refl).
Qed.

Section roundtrip.
Context {T : Type} (from_slice : string → result T string).

Lemma publish_items_decode data now ts tp m v :
  stores (publish_items data (show_unsigned now) ts tp) m → from_slice data = Ok v →
  is_u64 now → utf8_opt ts → utf8_opt tp →
  deserialize_message from_slice m = Ok (mkMessage (sid_id m) v (Some now) ts tp).
Proof.
  intros Hst Hv Hn Hts Htp. unfold deserialize_message.
  assert (data_field from_slice m = Ok v) as ->.
  { unfold data_field. rewrite (Hst "data"%string).
    assert ((list_to_map (publish_items data (show_unsigned now) ts tp) : gmap string string)
      !! "data"%string = Some data) as -> by by destruct ts, tp.
    simpl. by rewrite Hv. }
  rewrite (text_field_stored m "tracestate" _ ts _ Hst); [|by destruct ts, tp|done].
  rewrite (text_field_stored m "traceparent" _ tp _ Hst); [|by destruct ts, tp|done].
  unfold enqueue_time_field. rewrite (Hst "enqueue_time"%string).
  assert ((list_to_map (publish_items data (show_unsigned now) ts tp) : gmap string string)
    !! "enqueue_time"%string = Some (show_unsigned now)) as -> by by destruct ts, tp.
  simpl. rewrite from_utf8_show by (unfold is_u64 in Hn; lia).
  by rewrite parse_show_unsigned.
Qed.

(** A change posted to the publish API and acknowledged with [200 OK] is
    on the container's stream as exactly one entry, and the query host reads
    that entry back as a message with the posted document, the time it was
    published and the trace headers of the request, the state and the parent
    each in its own place; any other answer means nothing was stored. *)
Theorem change_roundtrip to_str p headers body v :
  from_slice body = Ok v →
  (∀ h s, to_str h = Some s → valid_utf8 s = true) →
  under (λ c, match c with
      | @Call _ X e x =>
          match e in publisher_call X return X → Prop with
          | UnixNanos => λ r, ∀ n, r = Ok n → is_u64 n
          | _ => λ _, True
          end x
      end)
    (change to_str p headers body) (λ t o,
      (o = Done SC_OK ∧ ∃ now items, added t = [(pub_topic p, items, true)] ∧
         ∀ m, stores items m →
           deserialize_message from_slice m = Ok (mkMessage (sid_id m) v (Some now)
             (header_str to_str headers "tracestate")
             (header_str to_str headers "traceparent"))) ∨
      (o = Done SC_BAD_GATEWAY ∧ ∀ topic items, (topic, items, true) ∉ added t)).
Proof.
  intros Hv Hutf. unfold change, api_publish.
  assert (∀ name, utf8_opt (header_str to_str headers name)) as Hu.
  { intros name s. unfold header_str. destruct (headers !! name) as [h|]; [|done].
    destruct (to_str h) eqn:E; [|done]. intros [= <-]. eauto. }
  intros [now|e] Hn; simpl in Hn |- *.
  - intros [[]|e] _; simpl.
    + left. split; [done|]. eexists now, _. split; [done|]. intros m Hm.
      eapply publish_items_decode; eauto.
    + right. split; [done|]. intros topic items Hin. cbn in Hin.
      by apply list_elem_of_singleton in Hin.
  - right. split; [done|]. intros topic items Hin. cbn in Hin. by apply elem_of_nil in Hin.
Qed.
End roundtrip.

(** When a future element falls due, the consumer either fails without
    storing anything, or stores one entry on the container's stream that the
    query host reads back, for this query only, as the change that carries
    the same future reference to the engine. *)
Theorem future_roundtrip `{DrasiCore} (from_slice : string → result ChangeEvent string)
    to_string debug_str p query_id future_ref :
  (∀ d, to_string (from_future_ref future_ref query_id) = Ok d →
     from_slice d = Ok (from_future_ref future_ref query_id)) →
  under (λ c, match c with
      | @Call _ X e x =>
          match e in publisher_call X return X → Prop with
          | UnixNanos => λ r, ∃ n, r = Ok n ∧ is_u64 n
          | _ => λ _, True
          end x
      end)
    (on_due to_string debug_str p query_id future_ref) (λ t o,
      (o = Done (Ok ()) ∧ ∃ items, added t = [(pub_topic p, items, true)] ∧
         ∀ m, stores items m → ∃ msg, deserialize_message from_slice m = Ok msg ∧
           ce_queries (msg_data msg) = [query_id] ∧
           try_into (msg_data msg) = Ok (SFuture future_ref)) ∨
      (∃ e, o = Done (Err e) ∧ ∀ topic items, (topic, items, true) ∉ added t)).
Proof.
  intros Hser. unfold on_due, host_publish.
  destruct (to_string (from_future_ref future_ref query_id)) as [d|e] eqn:Hd.
  2:{ right. eexists. split; [done|]. intros ?? Hin. by apply elem_of_nil in Hin. }
  intros r (now & -> & Hn). intros [[]|e] _; simpl.
  - left. split; [done|]. eexists. split; [done|]. intros m Hm. eexists. split.
    + by eapply publish_items_decode; eauto.
    + split; [done|]. by destruct future_ref as [[]].
  - right. eexists. split; [done|]. intros ?? Hin. cbn in Hin.
    by apply list_elem_of_singleton in Hin.
Qed.

Definition example_publisher : Publisher := mkPublisher "c-publish".
Definition example_headers : gmap string string := {["traceparent" := "00-1"]}%string.

Lemma change_roundtrip_witness :
  under (λ c, match c with
      | @Call _ X e x =>
          match e in publisher_call X return X → Prop with
          | UnixNanos => λ r, ∀ n, r = Ok n → is_u64 n
          | _ => λ _, True
          end x
      end)
    (change from_utf8 example_publisher example_headers "{}") (λ t o,
      (o = Done SC_OK ∧ ∃ now items, added t = [("c-publish"%string, items, true)] ∧
         ∀ m, stores items m →
           deserialize_message (λ s, Ok s) m = Ok (mkMessage (sid_id m) "{}"%string (Some now)
             (header_str from_utf8 example_headers "tracestate")
             (header_str from_utf8 example_headers "traceparent"))) ∨
      (o = Done SC_BAD_GATEWAY ∧ ∀ topic items, (topic, items, true) ∉ added t)).
Proof.
  apply (change_roundtrip (λ s, Ok s) from_utf8 example_publisher example_headers "{}" "{}").
  - done.
  - intros h s. unfold from_utf8. destruct (valid_utf8 h) eqn:E; [|done]. by intros [= <-].
Defined.

(** A serialiser for the one change of the example. *)
#[local] Instance example_core : DrasiCore :=
  {| ElementPropertyMap := unit; properties_of_map := λ _, (); VariableValue := value;
     json_of_variable := λ v, v |}.
Definition example_ref : FutureElementRef :=
  mkFutureRef (mkReference "s" "e") 1 2 3.
Definition example_to_string (c : ChangeEvent) : result string string := Ok "{..}"%string.
Definition example_from_slice (d : string) : result ChangeEvent string :=
  if str_eqb d "{..}" then Ok (from_future_ref example_ref "q") else Err "EOF"%string.

Lemma future_roundtrip_witness :
  under (λ c, match c with
      | @Call _ X e x =>
          match e in publisher_call X return X → Prop with
          | UnixNanos => λ r, ∃ n, r = Ok n ∧ is_u64 n
          | _ => λ _, True
          end x
      end)
    (on_due example_to_string (λ s, s) example_publisher "q" example_ref) (λ t o,
      (o = Done (Ok ()) ∧ ∃ items, added t = [("c-publish"%string, items, true)] ∧
         ∀ m, stores items m → ∃ msg, deserialize_message example_from_slice m = Ok msg ∧
           ce_queries (msg_data msg) = ["q"%string] ∧
           try_into (msg_data msg) = Ok (SFuture example_ref)) ∨
      (∃ e, o = Done (Err e) ∧ ∀ topic items, (topic, items, true) ∉ added t)).
Proof.
  apply (future_roundtrip example_from_slice). intros d Hd. injection Hd as <-. reflexivity.
Defined.
