(* ===== verification/IndexFactory.v ===== *)
(** * IndexFactory: the query host's storage configuration
    ([query-container/query-host/src/index_factory.rs]) *)
From S2P Require Import Prelude BTree Effects RustText.

Inductive StorageSpec :=
| Memory (enable_archive : bool)
| Redis (connection_string : string) (cache_size : option Z)
| RocksDb (enable_archive direct_io : bool).

Record IndexFactory := mkFactory {
  default_store : string;
  storage_specs : btree StorageSpec;
}.

(** ** Reading the environment *)

Section environment.
(** The environment variables that are set. *)
Context (env : gmap string string).

Definition store_var (i : Z) (suffix : string) : string :=
  "STORE_" +:+ show_unsigned i +:+ suffix.

(** A flag that is false when unset. *)
Definition env_flag (name : string) : bool :=
  match env !! name with
  | Some v => str_eqb (to_lowercase v) "true"
  | None => false
  end.

(** The body of the loop of [IndexFactory::new]: the specification store [i]
    contributes, [None] where the code logs an error and goes on. *)
Definition read_store (i : Z) : option StorageSpec :=
  store_type ← env !! store_var i "_TYPE";
  let ty := to_lowercase store_type in
  if str_eqb ty "memory" then
    Some (Memory (env_flag (store_var i "_ENABLE_ARCHIVE")))
  else if str_eqb ty "redis" then
    connection_string ← env !! store_var i "_CONNECTION_STRING";
    let cache_size :=
      match env !! store_var i "_CACHE_SIZE" with
      | Some c =>
          let size := default 0%Z (parse_u64 c) in
          if (size <? 1)%Z then None else Some size
      | None => None
      end in
    Some (Redis connection_string cache_size)
  else if str_eqb ty "rocksdb" then
    Some (RocksDb (env_flag (store_var i "_ENABLE_ARCHIVE"))
            (env_flag (store_var i "_DIRECT_IO")))
  else None.

(** [while let Ok(store) = env::var(format!("STORE_{}", store_index))]:
    [None] when [fuel] rounds were not enough. *)
Fixpoint read_stores (fuel : nat) (i : Z) (specs : btree StorageSpec)
    : option (btree StorageSpec) :=
  match fuel with
  | O => None
  | S fuel =>
      match env !! store_var i "" with
      | None => Some specs
      | Some store =>
          match read_store i with
          | Some spec => read_stores fuel (i + 1) (jset store spec specs)
          | None => read_stores fuel (i + 1) specs
          end
      end
  end.

Definition new (fuel : nat) : option IndexFactory :=
  storage_specs ← read_stores fuel 0 [];
  let storage_specs :=
    match storage_specs with
    | [] => [("memory", Memory false)]
    | _ => storage_specs
    end%string in
  default_store ←
    match env !! "DEFAULT_STORE"%string with
    | Some store => Some store
    | None => fst <$> head storage_specs
    end;
  Some (mkFactory default_store storage_specs).
End environment.

(** ** Building the indexes of a query *)

(** The engine's index back ends are libraries; an index is described by how it
    was made. *)
Inductive index_impl :=
| InMemoryElements (archive : bool)
| InMemoryOther
| GarnetIndex
| CachedIndex (size : Z)
| RocksElements (archive direct_io : bool)
| RocksOther.

Record IndexSet := mkIndexSet {
  element_index : index_impl;
  archive_index : index_impl;
  result_index : index_impl;
  future_queue : index_impl;
}.

Inductive IndexError :=
| UnknownStore (store : string)
| NotSupported
| OtherIndexError (what : string).

Inductive index_call : Type → Type :=
| GarnetElementConnect (query_id connection : string) : index_call (result unit IndexError)
| GarnetResultConnect (query_id connection : string) : index_call (result unit IndexError)
| GarnetFutureConnect (query_id connection : string) : index_call (result unit IndexError)
| CachedElementNew (size : Z) : index_call (result unit string)
| CachedResultNew (size : Z) : index_call (result unit string)
| RocksElementNew (query_id dir : string) (archive direct_io : bool)
    : index_call (result unit IndexError)
| RocksResultNew (query_id dir : string) : index_call (result unit IndexError)
| RocksFutureNew (query_id dir : string) : index_call (result unit IndexError).

(** [c?] on a call. *)
Definition try_call {E A Er B} (e : E (result A Er)) (k : A → prog E (result B Er))
    : prog E (result B Er) :=
  r ← trigger e;
  match r with Ok a => k a | Err e => mret (Err e) end.

Definition resolve_store (f : IndexFactory) (store : option string) : string :=
  match store with Some store => store | None => default_store f end.

Definition build (f : IndexFactory) (store : option string) (query_id : string)
    : prog index_call (result IndexSet IndexError) :=
  let store := resolve_store f store in
  match jget store (storage_specs f) with
  | None => mret (Err (UnknownStore store))
  | Some (Memory enable_archive) =>
      mret (Ok (mkIndexSet (InMemoryElements enable_archive) (InMemoryElements enable_archive)
                  InMemoryOther InMemoryOther))
  | Some (Redis connection_string cache_size) =>
      try_call (GarnetElementConnect query_id connection_string) (λ _,
      try_call (GarnetResultConnect query_id connection_string) (λ _,
      try_call (GarnetFutureConnect query_id connection_string) (λ _,
      match cache_size with
      | Some cache_size =>
          c ← trigger (CachedElementNew cache_size);
          match c with
          | Err _ => mret (Err NotSupported)
          | Ok _ =>
              c ← trigger (CachedResultNew cache_size);
              match c with
              | Err _ => mret (Err NotSupported)
              | Ok _ =>
                  mret (Ok (mkIndexSet (CachedIndex cache_size) GarnetIndex
                              (CachedIndex cache_size) GarnetIndex))
              end
          end
      | None => mret (Ok (mkIndexSet GarnetIndex GarnetIndex GarnetIndex GarnetIndex))
      end)))
  | Some (RocksDb enable_archive direct_io) =>
      try_call (RocksElementNew query_id "/data" enable_archive direct_io) (λ _,
      try_call (RocksResultNew query_id "/data") (λ _,
      try_call (RocksFutureNew query_id "/data") (λ _,
      mret (Ok (mkIndexSet (RocksElements enable_archive direct_io)
                  (RocksElements enable_archive direct_io)
                  RocksOther RocksOther)))))
  end.

Definition is_volatile (f : IndexFactory) (store : option string) : bool :=
  let store := resolve_store f store in
  match jget store (storage_specs f) with
  | None => false
  | Some (Memory _) => true
  | Some (Redis _ _) => false
  | Some (RocksDb _ _) => false
  end.

(** ** Properties *)

(** The stored element index keeps its data when the process restarts. *)
Definition durable (i : index_impl) : bool :=
  match i with InMemoryElements _ | InMemoryOther => false | _ => true end.

(** The variables [STORE_i .. STORE_(i+n-1)]. *)
Definition store_vars (i : Z) (n : nat) : list string :=
  map (λ k, store_var (i + Z.of_nat k) "") (seq 0 n).

Lemma NoDup_store_vars i n :
  (0 ≤ i)%Z → (i + Z.of_nat n < u64_modulus)%Z → NoDup (store_vars i n).
Proof.
  intros Hi Hn. unfold store_vars. apply (NoDup_fmap_2_strong (A:=nat)); [|apply list.NoDup_seq].
  intros a b Ha%list.elem_of_seq Hb%list.elem_of_seq Heq. unfold store_var in Heq.
  rewrite !str_app_empty in Heq. apply str_app_inj in Heq.
  apply show_unsigned_inj in Heq; unfold is_u64; lia.
Qed.

Lemma store_vars_bound (env : gmap string string) i n :
  (0 ≤ i)%Z → (i + Z.of_nat n < u64_modulus)%Z →
  (∀ k, (k < n)%nat → is_Some (env !! store_var (i + Z.of_nat k) "")) →
  (n ≤ size env)%nat.
Proof.
  intros Hi Hn Hall.
  assert (list_to_set (store_vars i n) ⊆ dom env) as Hsub.
  { intros x Hx%elem_of_list_to_set. unfold store_vars in Hx.
    apply list_elem_of_fmap in Hx as (k & -> & Hk%list.elem_of_seq).
    apply elem_of_dom, Hall. lia. }
  apply subseteq_size in Hsub.
  rewrite size_list_to_set in Hsub by (by apply NoDup_store_vars).
  unfold store_vars in Hsub. rewrite length_map, length_seq, size_dom in Hsub. done.
Qed.

Lemma read_stores_total env fuel i specs n :
  i = Z.of_nat n → (∀ k, (k < n)%nat → is_Some (env !! store_var (Z.of_nat k) "")) →
  (size env < n + fuel)%nat → (Z.of_nat (n + fuel) < u64_modulus)%Z →
  is_Some (read_stores env fuel i specs).
Proof.
  revert i specs n. induction fuel as [|fuel IH]; intros i specs n -> Hall Hf Hb.
  - assert (n ≤ size env)%nat; [|lia].
    eapply (store_vars_bound env 0); [lia|lia|]. intros k Hk. by apply Hall.
  - simpl. destruct (env !! store_var (Z.of_nat n) "") as [s|] eqn:E; [|done].
    assert (∀ k, (k < S n)%nat → is_Some (env !! store_var (Z.of_nat k) "")) as Hall'.
    { intros k Hk. destruct (decide (k = n)) as [->|]; [by rewrite E|]. apply Hall. lia. }
    destruct (read_store env (Z.of_nat n)); apply (IH _ _ (S n)); try lia; done.
Qed.

Lemma jset_ne_nil {A} k (v : A) m : jset k v m ≠ [].
Proof. destruct m as [|[k' v'] m]; simpl; [done|]. by case_match. Qed.

(** The constructor terminates and never panics: with one more round than
    there are environment variables it returns a factory, and when no default
    is configured the default store is one that exists. *)
Theorem factory_new_total env :
  (Z.of_nat (S (size env)) < u64_modulus)%Z →
  ∃ f, new env (S (size env)) = Some f ∧ storage_specs f ≠ [] ∧
    (env !! "DEFAULT_STORE"%string = None → is_Some (jget (default_store f) (storage_specs f))).
Proof.
  intros Hsz. destruct (read_stores_total env (S (size env)) 0 [] 0) as [specs Hs];
    [done | lia | lia | lia |].
  unfold new. rewrite Hs. simpl.
  set (specs' := match specs with [] => _ | _ => specs end).
  assert (∃ k s r, specs' = (k, s) :: r) as (k & s & r & Heq).
  { unfold specs'. destruct specs as [|[k s] r]; eauto. }
  rewrite Heq. simpl.
  destruct (env !! "DEFAULT_STORE"%string) as [d|] eqn:Hd; simpl.
  - eexists. split; [done|]. done.
  - eexists. split; [done|]. split; [done|]. intros _. simpl. by rewrite str_eqb_refl.
Qed.

Definition example_env : gmap string string :=
  {["STORE_0" := "s"; "STORE_0_TYPE" := "Redis"; "STORE_1" := "m";
    "STORE_1_TYPE" := "Memory"]}%string.

Lemma factory_new_total_witness :
  ∃ f, new example_env (S (size example_env)) = Some f ∧ storage_specs f ≠ [] ∧
    (example_env !! "DEFAULT_STORE"%string = None →
     is_Some (jget (default_store f) (storage_specs f))).
Proof. apply factory_new_total. vm_compute. done. Defined.

(** Whatever the back ends answer, a query's index set is kept across a
    restart exactly when its store is not reported volatile: the worker
    re-bootstraps a query if and only if its data would be lost. *)
Theorem build_durable_iff_not_volatile f store query_id :
  always (build f store query_id) (λ _ o, ∃ r, o = Done r ∧
    ∀ set, r = Ok set →
      durable (element_index set) = negb (is_volatile f store) ∧
      durable (result_index set) = negb (is_volatile f store)).
Proof.
  unfold build, is_volatile, try_call. destruct (jget _ _) as [[]|].
  - eexists. split; [done|]. by intros ? [= <-].
  - cbn. intros [] _; [|by eexists]. intros [] _; [|by eexists]. intros [] _; [|by eexists].
    destruct cache_size.
    + intros [] _; [|by eexists]. intros [] _; [|by eexists].
      eexists. split; [done|]. by intros ? [= <-].
    + eexists. split; [done|]. by intros ? [= <-].
  - cbn. intros [] _; [|by eexists]. intros [] _; [|by eexists]. intros [] _; [|by eexists].
    eexists. split; [done|]. by intros ? [= <-].
  - by eexists.
Qed.
