(* ===== verification/Lifecycle.v ===== *)
(** * Lifecycle: the states of a query
    ([query-container/query-host/src/models.rs]) *)
From S2P Require Import Prelude.

Inductive QueryState :=
| New
| Configured
| Bootstrapping
| StRunning
| Deleted
| TerminalError (o : string)
| TransientError (o : string).

#[export] Instance QueryState_eq_dec : EqDecision QueryState.
Proof. solve_decision. Defined.

(** [impl Display for QueryState] *)
Definition state_to_string (s : QueryState) : string :=
  match s with
  | New => "New"
  | Configured => "Configured"
  | Bootstrapping => "Bootstrapping"
  | StRunning => "Running"
  | Deleted => "Deleted"
  | TerminalError _ => "TerminalError"
  | TransientError _ => "TransientError"
  end.

(** The shared cell and its watch channel; [lc_sent] is what was sent on the
    channel, the latest last. *)
Record QueryLifecycle := mkLifecycle {
  lc_state : QueryState;
  lc_sent : list QueryState;
}.

Definition lifecycle_new (initial : QueryState) : QueryLifecycle := mkLifecycle initial [].
Definition get_state (l : QueryLifecycle) : QueryState := lc_state l.
Definition init_state (s : QueryState) (l : QueryLifecycle) : QueryLifecycle :=
  mkLifecycle s (lc_sent l).
Definition change_state (s : QueryState) (l : QueryLifecycle) : QueryLifecycle :=
  mkLifecycle s (lc_sent l ++ [s]).

Definition get_error (l : QueryLifecycle) : option string :=
  match get_state l with
  | TerminalError o => Some o
  | TransientError o => Some o
  | _ => None
  end.

(** ** Errors; the inner errors are kept as their text *)

Inductive QueryError :=
| QueryBootstrapFailure (e : string)
| QueryParseError (e : string)
| QueryOther (e : string).

Inductive BootstrapError :=
| FetchFailed (source_id inner : string)
| ProcessFailed (source_id element_id inner : string)
| PublishError (inner : string)
| BootstrapOther (inner : string).

Definition query_error_to_string (e : QueryError) : string :=
  match e with
  | QueryBootstrapFailure e => "Bootstrap failure: " +:+ e
  | QueryParseError e => "Parse error: " +:+ e
  | QueryOther e => e
  end.

Definition bootstrap_error_to_string (e : BootstrapError) : string :=
  match e with
  | FetchFailed source_id inner =>
      "Failed to fetch data from source '" +:+ source_id +:+ "': " +:+ inner
  | ProcessFailed source_id element_id inner =>
      "Failed to process element '" +:+ element_id +:+ "' from source '" +:+ source_id +:+
      "': " +:+ inner
  | PublishError inner => "Failed to publish: " +:+ inner
  | BootstrapOther inner => inner
  end.

Inductive UnsubscriptionError :=
| UnsubscribeFailed (o : string)
| UnsubscribeOther (o : string).
