(* ===== verification/SourceClient.v ===== *)
(** * SourceClient: subscribing to a source
    ([query-container/query-host/src/source_client.rs]) *)
From S2P Require Import Prelude BTree Json Core Effects Lifecycle.

(** [v2::BootstrapElement]: one line of the reply. *)
Record BootstrapElement := mkBootElement {
  be_id : string;
  be_labels : list string;
  be_properties : jmap;
  be_start_id : option string;
  be_end_id : option string;
}.

(** What the HTTP client reports: a transport error, a failure status with its
    text, or the reply's lines, each parsed or not. *)
Inductive subscribe_reply :=
| SendFailed (e : string)
| BadStatus (status body : string)
| Stream (lines : list (result BootstrapElement string)).

Inductive unsubscribe_reply :=
| DelSendFailed (e : string)
| DelBadStatus (body : string)
| DelOk.

Inductive source_call : Type → Type :=
| PostSubscription (app_id : string) (body : value) : source_call subscribe_reply
| DeleteSubscription (app_id query_container_id query_id : string)
    : source_call unsubscribe_reply.

Section client.
Context `{DrasiCore}.

(** The conversion of an element: [end_id.unwrap()] panics when a relation
    has no end. *)
Definition into_source_change (e : BootstrapElement) (source_id : string)
    : outcome SourceChange :=
  let metadata := mkMetadata (mkReference source_id (be_id e)) (be_labels e) 0 in
  match be_start_id e with
  | Some start_id =>
      match be_end_id e with
      | Some end_id =>
          Done (SInsert (ERelation metadata (properties_of_map (be_properties e))
                  (mkReference source_id start_id) (mkReference source_id end_id)))
      | None => Panicked "called `Option::unwrap()` on a `None` value"
      end
  | None => Done (SInsert (ENode metadata (properties_of_map (be_properties e))))
  end.

Definition subscription_body (query_container_id query_id : string)
    (s : CoreQuerySubscription) : value :=
  VObject (jobject [
    ("queryNodeId", VString query_container_id);
    ("queryId", VString query_id);
    ("nodeLabels", VArray (map (λ l, VString (cse_source_label l)) (cs_nodes s)));
    ("relLabels", VArray (map (λ l, VString (cse_source_label l)) (cs_relations s)))]%string).

Definition subscribe (query_container_id query_id : string) (s : CoreQuerySubscription)
    : prog source_call (result (list (result BootstrapElement string)) BootstrapError) :=
  let app_id := cs_id s +:+ "-query-api" in
  resp ← trigger (PostSubscription app_id (subscription_body query_container_id query_id s));
  match resp with
  | SendFailed e => mret (Err (FetchFailed (cs_id s) e))
  | BadStatus status body => mret (Err (FetchFailed (cs_id s) (status +:+ " " +:+ body)))
  | Stream lines => mret (Ok lines)
  end.

(** The stream the caller polls: each line converted when it is reached. *)
Definition stream_item (s : CoreQuerySubscription) (line : result BootstrapElement string)
    : outcome (result SourceChange BootstrapError) :=
  match line with
  | Ok element =>
      match into_source_change element (cs_id s) with
      | Done c => Done (Ok c)
      | Panicked w => Panicked w
      end
  | Err e => Done (Err (FetchFailed (cs_id s) e))
  end.

Definition unsubscribe_source (query_container_id query_id subscription_id : string)
    : prog source_call (result unit UnsubscriptionError) :=
  let app_id := subscription_id +:+ "-query-api" in
  resp ← trigger (DeleteSubscription app_id query_container_id query_id);
  match resp with
  | DelSendFailed e =>
      mret (Err (UnsubscribeFailed
        ("Failed to unsubscribe from app '" +:+ app_id +:+ "': " +:+ e)))
  | DelBadStatus body =>
      mret (Err (UnsubscribeFailed
        ("Failed to unsubscribe from query node '" +:+ query_id +:+ "': " +:+ body)))
  | DelOk => mret (Ok ())
  end.
End client.
