(* ===== verification/QueryWorker.v ===== *)
(** * QueryWorker: the task that runs one query
    ([query-container/query-host/src/query_worker.rs] and
    [result_publisher.rs]) *)
From S2P Require Import Prelude BTree Json Core HostApi Effects RustText ChangeStream IndexFactory Lifecycle SourceClient Publisher.

Inductive Command := CmdShutdown | CmdDelete | CmdPause.

(** Which branch a [select!] of the loop takes. *)
Inductive selected :=
| SelCommand (c : option Command)
| SelMessage.

Inductive which_index := ElementIdx | ResultIdx | ArchiveIdx.

(** [drasi_core]'s [ResultSequence]. *)
Record ResultSequence := mkSeqNo { sequence : Z; source_change_id : string }.

Inductive worker_call `{DrasiCore} : Type → Type :=
| WIndex {X} (c : index_call X) : worker_call X
| WStream {X} (c : stream_call X) : worker_call X
| WSource {X} (c : source_call X) : worker_call X
| BuildQuery (language : option QueryLanguage) (config : QueryConfig) (indexes : IndexSet)
    : worker_call (result QueryAst string)
| WPublisher {X} (c : publisher_call X) : worker_call X
| WOpen {X} (c : open_call X) : worker_call X
| SetFutureConsumer (query_id : string) : worker_call unit
| TerminateFutureConsumer : worker_call unit
| InvokeViewActor (actor_type actor_id method : string) (spec : option ViewSpec)
    : worker_call (result unit string)
| GetState : worker_call QueryState
| ChangeState (s : QueryState) : worker_call unit
| GetSequence : worker_call (result ResultSequence string)
| SendSequence (s : ResultSequence) : worker_call unit
| ClearIndex (i : which_index) : worker_call (result unit string)
| ProcessSourceChange (c : SourceChange)
    : worker_call (result (list QueryPartEvaluationContext) string)
| PostResult (topic : string) (e : ResultEvent) : worker_call (result Z string)
| NowNanos : worker_call Z
| Select : worker_call selected.

Section worker.
Context `{DrasiCore}.
(** [SourceChange::get_transaction_time] and the text of an [IndexError],
    both of [drasi_core]. *)
Context (transaction_time : SourceChange → Z).
Context (index_error_to_string : IndexError → string).
(** [serde_json::from_slice::<ChangeEvent>]. *)
Context (change_from_slice : string → result ChangeEvent string).
(** [ChangeStreamConfig]. *)
Context (redis_url : string) (buffer_size fetch_batch_size : Z).

Notation P := (prog worker_call).

(** ** Labels *)

Definition merge_query_source_labels (spec : list CoreQuerySourceElement)
    (labels : list string) : list CoreQuerySourceElement :=
  foldl (λ spec label,
    if existsb (λ s, str_eqb (cse_source_label s) label) spec then spec
    else spec ++ [{| cse_source_label := label |}]) spec labels.

Definition merge_leg (s : CoreQuerySubscription) (leg : list string * list string)
    : CoreQuerySubscription :=
  mkCoreSub (cs_id s)
    (merge_query_source_labels (cs_nodes s) leg.2)
    (merge_query_source_labels (cs_relations s) leg.1)
    (cs_pipeline s).

Definition merge_clause (s : CoreQuerySubscription) (mc : MatchClause)
    : CoreQuerySubscription :=
  foldl merge_leg
    (mkCoreSub (cs_id s) (merge_query_source_labels (cs_nodes s) (mc_start mc))
       (cs_relations s) (cs_pipeline s))
    (mc_path mc).

Definition fill_subscription (ast : QueryAst) (source : CoreQuerySubscription)
    : CoreQuerySubscription :=
  match cs_nodes source, cs_relations source with
  | [], [] => foldl (λ s ph, foldl merge_clause s ph) source (ast_parts ast)
  | _, _ => source
  end.

Definition fill_default_source_labels (spec : QueryConfig) (ast : QueryAst) : QueryConfig :=
  {| qc_mode := qc_mode spec;
     qc_query := qc_query spec;
     qc_sources :=
       {| csrc_subscriptions :=
            map (fill_subscription ast) (csrc_subscriptions (qc_sources spec));
          csrc_joins := csrc_joins (qc_sources spec);
          csrc_middleware := csrc_middleware (qc_sources spec) |};
     qc_storage_profile := qc_storage_profile spec |}.

(** ** Sequence numbers *)

Definition increment (source_change_id : string) (sm : ResultSequence)
    : P (Z * ResultSequence) :=
  let value := mkSeqNo (u64_add (sequence sm) 1) source_change_id in
  _ ← trigger (SendSequence value);
  mret (sequence value, value).

(** ** Publishing ([ResultPublisher::publish]): any HTTP response counts. *)
Definition publish (query_id : string) (data : ResultEvent) : P (result unit string) :=
  let topic := query_id +:+ "-results" in
  response ← trigger (PostResult topic data);
  match response with
  | Ok _ => mret (Ok ())
  | Err e => mret (Err e)
  end.

(** Publishing a control signal, the sequence incremented first. *)
Definition publish_control (query_id : string) (signal : ControlSignal)
    (sm : ResultSequence) : P (result unit string * ResultSequence) :=
  '(seq, sm) ← increment "control" sm;
  now ← trigger NowNanos;
  r ← publish query_id (from_control_signal query_id seq (as_u64 (now / 1000000)) signal);
  mret (r, sm).

(** ** Processing one change *)

(** The entry the worker adds under ["tracking"]["query"]. *)
Definition tracking_entry (enqueue_time : option Z) (dequeue_time start_ns end_ns : Z)
    : jmap :=
  jobject [
    ("dequeue_ns", VNumber (NPos dequeue_time));
    ("enqueue_ns",
      match enqueue_time with Some n => VNumber (NPos n) | None => VNull end);
    ("queryStart_ns", VNumber (NPos start_ns));
    ("queryEnd_ns", VNumber (NPos end_ns))]%string.

(** [metadata.entry("tracking").or_insert({}).as_object_mut()] *)
Definition add_tracking (qt : jmap) (metadata : jmap) : jmap :=
  match default (VObject []) (jget "tracking" metadata) with
  | VObject tracking =>
      jset "tracking" (VObject (jset "query" (VObject qt) tracking)) metadata
  | _ => metadata
  end.

Definition api_error_to_string (e : ApiError) : string :=
  match e with BadRequest msg => "Bad request: " +:+ msg end.

Definition process_change (query_id : string) (evt : Message ChangeEvent)
    (enqueue_time : option Z) (dequeue_time : Z) (sm : ResultSequence)
    : P (result unit string * ResultSequence) :=
  let timestamp := get_timestamp (msg_data evt) in
  let metadata := get_metadata (msg_data evt) in
  match try_into (msg_data evt) with
  | Err err => mret (Err (api_error_to_string err), sm)
  | Ok source_change =>
      process_start_time ← trigger NowNanos;
      changes ← trigger (ProcessSourceChange source_change);
      match changes with
      | Err err => mret (Err err, sm)
      | Ok changes =>
          process_end_time ← trigger NowNanos;
          match changes with
          | [] => mret (Ok (), sm)
          | _ =>
              let qt := tracking_entry enqueue_time dequeue_time
                          (as_u64 process_start_time) (as_u64 process_end_time) in
              let metadata := add_tracking qt metadata in
              '(seq, sm) ← increment (msg_id evt) sm;
              r ← publish query_id
                    (from_query_results query_id changes seq timestamp (Some metadata));
              match r with
              | Ok _ => mret (Ok (), sm)
              | Err err => mret (Err err, sm)
              end
          end
      end
  end.

(** ** Bootstrap *)

(** The lines of one source's reply. *)
Fixpoint bootstrap_lines (query_id : string) (source : CoreQuerySubscription)
    (lines : list (result BootstrapElement string)) (sm : ResultSequence)
    : P (result unit BootstrapError * ResultSequence) :=
  match lines with
  | [] => mret (Ok (), sm)
  | line :: lines =>
      match stream_item source line with
      | Panicked w => Panic w
      | Done (Err err) => mret (Err err, sm)
      | Done (Ok change) =>
          let timestamp := transaction_time change in
          let element_id := ref_element_id (change_reference change) in
          change_results ← trigger (ProcessSourceChange change);
          match change_results with
          | Err e => mret (Err (ProcessFailed (cs_id source) element_id e), sm)
          | Ok change_results =>
              '(seq, sm) ← increment "bootstrap" sm;
              result ← publish query_id
                (from_query_results query_id change_results seq timestamp None);
              match result with
              | Ok _ => bootstrap_lines query_id source lines sm
              | Err err => mret (Err (PublishError err), sm)
              end
          end
      end
  end.

Fixpoint bootstrap_sources (query_container_id query_id : string)
    (sources : list CoreQuerySubscription) (sm : ResultSequence)
    : P (result unit BootstrapError * ResultSequence) :=
  match sources with
  | [] => mret (Ok (), sm)
  | source :: sources =>
      initial_data ← translate (λ X c, WSource c)
                       (subscribe query_container_id query_id source);
      match initial_data with
      | Err e => mret (Err e, sm)
      | Ok lines =>
          '(r, sm) ← bootstrap_lines query_id source lines sm;
          match r with
          | Ok _ => bootstrap_sources query_container_id query_id sources sm
          | Err e => mret (Err e, sm)
          end
      end
  end.

Definition bootstrap (query_container_id query_id : string) (config : QueryConfig)
    (sm : ResultSequence) : P (result unit BootstrapError * ResultSequence) :=
  '(r, sm) ← publish_control query_id BootstrapStarted sm;
  match r with
  | Err err => mret (Err (PublishError err), sm)
  | Ok _ =>
      _ ← trigger (ClearIndex ElementIdx);
      _ ← trigger (ClearIndex ResultIdx);
      '(r, sm) ← bootstrap_sources query_container_id query_id
                   (csrc_subscriptions (qc_sources config)) sm;
      match r with
      | Err e => mret (Err e, sm)
      | Ok _ =>
          '(r, sm) ← publish_control query_id BootstrapCompleted sm;
          match r with
          | Err err => mret (Err (PublishError err), sm)
          | Ok _ => mret (Ok (), sm)
          end
      end
  end.

(** ** The result view *)

Definition invoke_view (query_container query_id method : string)
    (arg : option ViewSpec) (view_spec : ViewSpec) : P (result unit QueryError) :=
  if negb (vs_enabled view_spec) then mret (Ok ())
  else
    r ← trigger (InvokeViewActor (query_container +:+ ".View") query_id method arg);
    match r with
    | Err e => mret (Err (QueryOther e))
    | Ok _ => mret (Ok ())
    end.

Definition configure_result_view (query_container query_id : string) (view_spec : ViewSpec)
    : P (result unit QueryError) :=
  invoke_view query_container query_id "configure" (Some view_spec) view_spec.

Definition deprovision_result_view (query_container query_id : string)
    (view_spec : ViewSpec) : P (result unit QueryError) :=
  invoke_view query_container query_id "deprovision" None view_spec.

(** ** The main loop *)

Record worker_state := mkWorker {
  ws_sm : ResultSequence;
  ws_stream : RedisChangeStream;
}.

Inductive loop_next := LoopContinue | LoopBreak.

Fixpoint unsubscribe_all (query_container_id query_id : string)
    (subscriptions : list CoreQuerySubscription) : P unit :=
  match subscriptions with
  | [] => mret ()
  | s :: rest =>
      _ ← translate (λ X c, WSource c)
            (unsubscribe_source query_container_id query_id (cs_id s));
      unsubscribe_all query_container_id query_id rest
  end.

Definition on_delete (query_container_id query_id : string) (config : QueryConfig)
    (view_spec : ViewSpec) (w : worker_state) : P (loop_next * worker_state) :=
  _ ← trigger (ClearIndex ElementIdx);
  _ ← trigger (ClearIndex ResultIdx);
  _ ← trigger (ClearIndex ArchiveIdx);
  _ ← translate (λ X c, WStream c) (unsubscribe (ws_stream w));
  _ ← unsubscribe_all query_container_id query_id (csrc_subscriptions (qc_sources config));
  '(_, sm) ← publish_control query_id QueryDeleted (ws_sm w);
  _ ← deprovision_result_view query_container_id query_id view_spec;
  mret (LoopBreak, mkWorker sm (ws_stream w)).

Definition on_command (query_container_id query_id : string) (config : QueryConfig)
    (view_spec : ViewSpec) (cmd : option Command) (w : worker_state)
    : P (loop_next * worker_state) :=
  match cmd with
  | Some CmdShutdown => mret (LoopBreak, w)
  | Some CmdDelete => on_delete query_container_id query_id config view_spec w
  | Some CmdPause => Panic "not yet implemented"
  | None =>
      _ ← trigger (ChangeState (TerminalError "Command channel closed unexpectedly"));
      mret (LoopBreak, w)
  end.

Definition do_ack (id : string) (s : RedisChangeStream)
    : P (result unit ChangeStreamError * RedisChangeStream) :=
  translate (λ X c, WStream c) (ack id s).

(** A message taken from the change stream. *)
Definition on_event (query_id : string) (evt : Message ChangeEvent) (w : worker_state)
    : P (loop_next * worker_state) :=
  now ← trigger NowNanos;
  let dequeue_time := as_u64 now in
  let enqueue_time := msg_enqueue_time evt in
  if negb (has_query (msg_data evt) query_id) then
    '(_, stream) ← do_ack (msg_id evt) (ws_stream w);
    mret (LoopContinue, mkWorker (ws_sm w) stream)
  else
    '(r, sm) ← process_change query_id evt enqueue_time dequeue_time (ws_sm w);
    match r with
    | Err err =>
        _ ← trigger (ChangeState (TransientError err));
        mret (LoopBreak, mkWorker sm (ws_stream w))
    | Ok _ =>
        '(_, stream) ← do_ack (msg_id evt) (ws_stream w);
        mret (LoopContinue, mkWorker sm stream)
    end.

Definition on_message (query_id : string) (w : worker_state)
    : P (loop_next * worker_state) :=
  '(msg, stream) ← translate (λ X c, WStream c) 
    (recv (deserialize_message change_from_slice) (ws_stream w));
  let w := mkWorker (ws_sm w) stream in
  match msg with
  | Err err =>
      _ ← trigger (ChangeState (TransientError (stream_error_to_string err)));
      mret (LoopBreak, w)
  | Ok None => mret (LoopContinue, w)
  | Ok (Some evt) => on_event query_id evt w
  end.

Definition loop_round (query_container_id query_id : string) (config : QueryConfig)
    (view_spec : ViewSpec) (w : worker_state) : P (loop_next * worker_state) :=
  s ← trigger Select;
  match s with
  | SelCommand cmd => on_command query_container_id query_id config view_spec cmd w
  | SelMessage => on_message query_id w
  end.

(** At most [rounds] rounds; the flag says whether the loop was left. *)
Fixpoint worker_loop (rounds : nat) (query_container_id query_id : string)
    (config : QueryConfig) (view_spec : ViewSpec) (w : worker_state)
    : P (bool * worker_state) :=
  match rounds with
  | O => mret (false, w)
  | S rounds =>
      '(next, w) ← loop_round query_container_id query_id config view_spec w;
      match next with
      | LoopBreak => mret (true, w)
      | LoopContinue => worker_loop rounds query_container_id query_id config view_spec w
      end
  end.

(** ** The task *)

Inductive worker_end := EndedEarly | EndedStopped | StillLooping.

(** From the change stream on: the part after the bootstrap. *)
Definition worker_stream (rounds : nat) (query_container_id query_id : string)
    (config : QueryConfig) (view_spec : ViewSpec) (start_timestamp : Z)
    (sm : ResultSequence) : P worker_end :=
  let topic := query_container_id +:+ "-publish" in
  change_stream ← translate (λ X c, WOpen c)
    (new_stream redis_url topic query_id buffer_size fetch_batch_size start_timestamp);
  match change_stream with
  | Err err =>
      _ ← trigger (ChangeState (TransientError (stream_error_to_string err)));
      mret EndedEarly
  | Ok change_stream =>
      '(_, sm) ← publish_control query_id Running sm;
      '(ended, w) ← worker_loop rounds query_container_id query_id config view_spec
                     (mkWorker sm change_stream);
      if (ended : bool) then
        _ ← trigger TerminateFutureConsumer;
        _ ← publish_control query_id Stopped (ws_sm w);
        mret EndedStopped
      else mret StillLooping
  end.

(** The states that decide whether to bootstrap. *)
Definition worker_bootstrap (query_container_id query_id : string)
    (config : QueryConfig) (sm : ResultSequence)
    : P (option ResultSequence) :=
  state ← trigger GetState;
  match state with
  | Configured | Bootstrapping =>
      _ ← trigger (ChangeState Bootstrapping);
      _ ← trigger (ClearIndex ElementIdx);
      _ ← trigger (ClearIndex ResultIdx);
      _ ← trigger (ClearIndex ArchiveIdx);
      '(r, sm) ← bootstrap query_container_id query_id config sm;
      match r with
      | Err err =>
          _ ← trigger (ChangeState (TerminalError (bootstrap_error_to_string err)));
          mret None
      | Ok _ => mret (Some sm)
      end
  | TerminalError _ => Panic "not yet implemented"
  | _ => mret (Some sm)
  end.

Definition worker_run (rounds : nat) (factory : IndexFactory)
    (query_container_id query_id : string) (spec : QuerySpec) : P worker_end :=
  let topic := query_container_id +:+ "-publish" in
  let view_spec := spec_view spec in
  let config := spec_into spec in
  index_set ← translate (λ X c, WIndex c)
                (build factory (qc_storage_profile config) query_id);
  match index_set with
  | Err err =>
      _ ← trigger (ChangeState (TransientError (index_error_to_string err)));
      mret EndedEarly
  | Ok index_set =>
      continuous_query ← trigger (BuildQuery (spec_query_language spec) config index_set);
      match continuous_query with
      | Err err => _ ← trigger (ChangeState (TerminalError err)); mret EndedEarly
      | Ok ast =>
          now ← trigger NowNanos;
          let start_timestamp := (now / 1000000)%Z in
          let modified_config := fill_default_source_labels config ast in
          source_publisher ← translate (λ X c, WPublisher c) (connect redis_url topic);
          match source_publisher with
          | Err _ => Panic "called `Result::unwrap()` on an `Err` value"
          | Ok _ =>
              _ ← trigger (SetFutureConsumer query_id);
              view ← configure_result_view query_container_id query_id view_spec;
              match view with
              | Err err =>
                  _ ← trigger (ChangeState (TransientError (query_error_to_string err)));
                  mret EndedEarly
              | Ok _ =>
                  state ← trigger GetState;
                  _ ← (if bool_decide (state = StRunning) &&
                          is_volatile factory (qc_storage_profile modified_config)
                       then trigger (ChangeState Configured)
                       else mret ());
                  sequence_manager ← trigger GetSequence;
                  match sequence_manager with
                  | Err err =>
                      _ ← trigger (ChangeState (TransientError err)); mret EndedEarly
                  | Ok sm =>
                      boot ← worker_bootstrap query_container_id query_id
                               modified_config sm;
                      match boot with
                      | None => mret EndedEarly
                      | Some sm =>
                          _ ← trigger (ChangeState StRunning);
                          worker_stream rounds query_container_id query_id
                            modified_config view_spec start_timestamp sm
                      end
                  end
              end
          end
      end
  end.
End worker.
