(* ===== verification/QueryWorkerSpec.v ===== *)
(** * QueryWorkerSpec: what a query worker guarantees *)
From S2P Require Import Prelude BTree Json Core HostApi Effects ChangeStream IndexFactory Lifecycle SourceClient Publisher QueryWorker.

(** ** Default source labels *)

Section labels.
Notation labels_of l := (map cse_source_label l).

Lemma merge_query_source_labels_spec spec labels :
  (∀ x, x ∈ labels_of (merge_query_source_labels spec labels) ↔
     x ∈ labels_of spec ∨ x ∈ labels) ∧
  (NoDup (labels_of spec) → NoDup (labels_of (merge_query_source_labels spec labels))).
Proof.
  unfold merge_query_source_labels. revert spec.
  induction labels as [|l labels IH]; intros spec; simpl; [set_solver|].
  assert (existsb (λ s, str_eqb (cse_source_label s) l) spec = true ↔ l ∈ labels_of spec)
    as He.
  { rewrite existsb_exists, <-list_elem_of_In, in_map_iff || rewrite existsb_exists.
    rewrite list_elem_of_In, in_map_iff. setoid_rewrite str_eqb_true. naive_solver. }
  destruct (existsb _ spec).
  - destruct (IH spec) as [IH1 IH2]. split; [|done]. intros x. rewrite IH1. set_solver.
  - destruct (IH (spec ++ [{| cse_source_label := l |}])) as [IH1 IH2].
    rewrite map_app in *. simpl in *. split.
    + intros x. rewrite IH1. set_solver.
    + intros Hd. apply IH2. apply list.NoDup_app. split_and!; [done| |apply NoDup_singleton].
      intros x Hx Hx'. assert (x = l) as -> by set_solver. by apply He in Hx.
Qed.

Definition node_labels (s : CoreQuerySubscription) := labels_of (cs_nodes s).
Definition rel_labels (s : CoreQuerySubscription) := labels_of (cs_relations s).

(** [s'] is [s] with node labels [ns] and relation labels [rs] added. *)
Definition adds (ns rs : list string) (s s' : CoreQuerySubscription) : Prop :=
  cs_id s' = cs_id s ∧ cs_pipeline s' = cs_pipeline s ∧
  (∀ x, x ∈ node_labels s' ↔ x ∈ node_labels s ∨ x ∈ ns) ∧
  (∀ x, x ∈ rel_labels s' ↔ x ∈ rel_labels s ∨ x ∈ rs) ∧
  (NoDup (node_labels s) → NoDup (node_labels s')) ∧
  (NoDup (rel_labels s) → NoDup (rel_labels s')).

Lemma adds_nil s : adds [] [] s s.
Proof. unfold adds. set_solver. Qed.

Lemma adds_trans ns1 rs1 ns2 rs2 s1 s2 s3 :
  adds ns1 rs1 s1 s2 → adds ns2 rs2 s2 s3 → adds (ns1 ++ ns2) (rs1 ++ rs2) s1 s3.
Proof.
  intros (? & ? & Hn1 & Hr1 & ? & ?) (? & ? & Hn2 & Hr2 & ? & ?).
  split_and!; [congruence..| | |tauto|tauto]; intros x;
    rewrite ?Hn2, ?Hr2, ?Hn1, ?Hr1, elem_of_app; tauto.
Qed.

(** Folding a step that adds labels adds all of them. *)
Lemma foldl_adds {A} (f : CoreQuerySubscription → A → CoreQuerySubscription)
    (ns rs : A → list string) l s :
  (∀ s a, adds (ns a) (rs a) s (f s a)) →
  adds (concat (map ns l)) (concat (map rs l)) s (foldl f s l).
Proof.
  intros Hf. revert s. induction l as [|a l IH]; intros s; simpl; [apply adds_nil|].
  eapply adds_trans; [apply Hf | apply IH].
Qed.

Lemma merge_leg_adds s leg : adds leg.2 leg.1 s (merge_leg s leg).
Proof.
  unfold adds, merge_leg, node_labels, rel_labels; simpl.
  destruct (merge_query_source_labels_spec (cs_nodes s) leg.2) as [??].
  destruct (merge_query_source_labels_spec (cs_relations s) leg.1) as [??]. done.
Qed.

Definition clause_nodes (mc : MatchClause) : list string :=
  mc_start mc ++ concat (map snd (mc_path mc)).
Definition clause_rels (mc : MatchClause) : list string := concat (map fst (mc_path mc)).

(** The labels the query mentions on nodes and on relations. *)
Definition ast_nodes (ast : QueryAst) : list string :=
  concat (map (λ ph, concat (map clause_nodes ph)) (ast_parts ast)).
Definition ast_rels (ast : QueryAst) : list string :=
  concat (map (λ ph, concat (map clause_rels ph)) (ast_parts ast)).

Lemma merge_clause_adds s mc : adds (clause_nodes mc) (clause_rels mc) s (merge_clause s mc).
Proof.
  unfold merge_clause, clause_nodes, clause_rels.
  apply (adds_trans (mc_start mc) [] _ _ _ (mkCoreSub (cs_id s)
    (merge_query_source_labels (cs_nodes s) (mc_start mc)) (cs_relations s) (cs_pipeline s))).
  - unfold adds, node_labels, rel_labels; simpl.
    destruct (merge_query_source_labels_spec (cs_nodes s) (mc_start mc)) as [??].
    set_solver.
  - apply (foldl_adds merge_leg snd fst). intros. apply merge_leg_adds.
Qed.

(** A subscription that names no label subscribes to exactly the labels
    the query's match clauses mention, nodes and relations apart, each once;
    a subscription that names labels is left as it is, and the order and the
    other fields of the subscriptions are unchanged. *)
Theorem fill_default_source_labels_spec spec ast i s :
  csrc_subscriptions (qc_sources spec) !! i = Some s →
  ∃ s', csrc_subscriptions (qc_sources (fill_default_source_labels spec ast)) !! i = Some s' ∧
    cs_id s' = cs_id s ∧ cs_pipeline s' = cs_pipeline s ∧
    if decide (cs_nodes s = [] ∧ cs_relations s = [])
    then (∀ x, x ∈ node_labels s' ↔ x ∈ ast_nodes ast) ∧ NoDup (node_labels s') ∧
         (∀ x, x ∈ rel_labels s' ↔ x ∈ ast_rels ast) ∧ NoDup (rel_labels s')
    else s' = s.
Proof.
  intros Hi. exists (fill_subscription ast s). simpl.
  split. { by rewrite list_lookup_fmap, Hi. }
  unfold fill_subscription.
  destruct s as [id nodes rels pipe]; simpl. case_decide as Hd.
  - destruct Hd as [-> ->]. set (s0 := mkCoreSub id [] [] pipe).
    assert (adds (ast_nodes ast) (ast_rels ast) s0
      (foldl (λ s ph, foldl merge_clause s ph) s0 (ast_parts ast))) as Ha.
    { apply (foldl_adds (λ s ph, foldl merge_clause s ph)). intros. apply foldl_adds.
      intros. apply merge_clause_adds. }
    destruct Ha as (-> & -> & Hn & Hr & Hdn & Hdr).
    split_and!; [done..| | | |].
    + intros x. rewrite Hn. unfold s0, node_labels. simpl. set_solver.
    + apply Hdn. constructor.
    + intros x. rewrite Hr. unfold s0, rel_labels. simpl. set_solver.
    + apply Hdr. constructor.
  - destruct nodes, rels; naive_solver.
Qed.
End labels.

Definition example_config : QueryConfig :=
  {| qc_mode := "query"; qc_query := "";
     qc_sources := {| csrc_subscriptions := [mkCoreSub "s" [] [] []];
                      csrc_joins := []; csrc_middleware := [] |};
     qc_storage_profile := None |}.

Definition example_ast : QueryAst :=
  {| ast_parts := [[{| mc_start := ["A"]; mc_path := [(["R"], ["B"]); (["R"], ["A"])] |}]] |}%string.

Lemma fill_default_source_labels_spec_witness :
  ∃ s', csrc_subscriptions (qc_sources (fill_default_source_labels example_config example_ast))
          !! 0%nat = Some s' ∧
    cs_id s' = "s"%string ∧ cs_pipeline s' = [] ∧
    (if decide (@nil CoreQuerySourceElement = [] ∧ @nil CoreQuerySourceElement = [])
     then (∀ x, x ∈ node_labels s' ↔ x ∈ ast_nodes example_ast) ∧ NoDup (node_labels s') ∧
          (∀ x, x ∈ rel_labels s' ↔ x ∈ ast_rels example_ast) ∧ NoDup (rel_labels s')
     else s' = mkCoreSub "s" [] [] []).
Proof.
  apply (fill_default_source_labels_spec example_config example_ast 0
           (mkCoreSub "s" [] [] [])). reflexivity.
Defined.

(** ** Observations of a worker's calls *)

Section observations.
Context `{DrasiCore}.

(** Events posted to the results topic, and those whose post was answered. *)
Definition posted_of (c : call worker_call) : option (ResultEvent * bool) :=
  match c with
  | @Call _ X e x =>
      match e in worker_call X return X → option (ResultEvent * bool) with
      | PostResult _ e => λ r, Some (e, is_ok r)
      | _ => λ _, None
      end x
  end.
Definition posted (t : list (call worker_call)) : list (ResultEvent * bool) :=
  observe posted_of t.
Definition published (t : list (call worker_call)) : list ResultEvent := (posted t).*1.

(** Changes handed to the query engine. *)
Definition processed_of (c : call worker_call) : option SourceChange :=
  match c with
  | @Call _ X e x =>
      match e in worker_call X return X → option SourceChange with
      | ProcessSourceChange c => λ _, Some c
      | _ => λ _, None
      end x
  end.
Definition processed (t : list (call worker_call)) : list SourceChange :=
  observe processed_of t.

(** Subscription requests, with the source and the reply. *)
Definition source_post_of X (e : source_call X) : X → option (string * subscribe_reply) :=
  match e in source_call X return X → option (string * subscribe_reply) with
  | PostSubscription app _ => λ r, Some (app, r)
  | DeleteSubscription _ _ _ => λ _, None
  end.
Definition subscribed_of (c : call worker_call) : option (string * subscribe_reply) :=
  match c with
  | @Call _ X e x =>
      match e in worker_call X return X → option (string * subscribe_reply) with
      | @WSource _ X c => source_post_of X c
      | _ => λ _, None
      end x
  end.
Definition subscribed (t : list (call worker_call)) : list (string * subscribe_reply) :=
  observe subscribed_of t.

Lemma published_app t t' : published (t ++ t') = published t ++ published t'.
Proof. unfold published, posted. by rewrite observe_app, fmap_app. Qed.
Lemma published_cons c t :
  published (c :: t) =
    match posted_of c with Some p => p.1 :: published t | None => published t end.
Proof. unfold published, posted, observe. cbn [omap list_omap]. by destruct (posted_of c). Qed.
Lemma posted_app t t' : posted (t ++ t') = posted t ++ posted t'.
Proof. apply observe_app. Qed.
Lemma processed_app t t' : processed (t ++ t') = processed t ++ processed t'.
Proof. apply observe_app. Qed.
Lemma subscribed_app t t' : subscribed (t ++ t') = subscribed t ++ subscribed t'.
Proof. apply observe_app. Qed.

(** Calls of the index factory and of the change stream are none of these. *)
Lemma posted_index t :
  posted (map (translate_call (λ X (c : index_call X), WIndex c)) t) = [].
Proof. induction t as [|[X e x] t IH]; [done|]. exact IH. Qed.
Lemma posted_stream t :
  posted (map (translate_call (λ X (c : stream_call X), WStream c)) t) = [].
Proof. induction t as [|[X e x] t IH]; [done|]. exact IH. Qed.
Lemma posted_publisher t :
  posted (map (translate_call (λ X (c : publisher_call X), WPublisher c)) t) = [].
Proof. induction t as [|[X e x] t IH]; [done|]. exact IH. Qed.
Lemma posted_open t :
  posted (map (translate_call (λ X (c : open_call X), WOpen c)) t) = [].
Proof. induction t as [|[X e x] t IH]; [done|]. exact IH. Qed.
Lemma posted_source t :
  posted (map (translate_call (λ X (c : source_call X), WSource c)) t) = [].
Proof. induction t as [|[X e x] t IH]; [done|]. exact IH. Qed.
End observations.

(** ** Sequence numbers *)

(** The number after [l] was published from [n], [None] when an event does not
    carry its predecessor's number plus one. *)
Fixpoint seq_after (n : Z) (l : list ResultEvent) : option Z :=
  match l with
  | [] => Some n
  | e :: l =>
      if decide (event_sequence e = u64_add n 1) then seq_after (event_sequence e) l
      else None
  end.

Lemma seq_after_app n n' l l' :
  seq_after n l = Some n' → seq_after n (l ++ l') = seq_after n' l'.
Proof.
  revert n. induction l as [|e l IH]; intros n; simpl; [by intros [= ->]|].
  case_decide; [apply IH | done].
Qed.

Lemma u64_add_assoc n i j : u64_add (u64_add n i) j = u64_add n (i + j).
Proof. unfold u64_add, u64_modulus. rewrite Zplus_mod_idemp_l. f_equal. lia. Qed.

Lemma seq_after_lookup n l n' i e :
  seq_after n l = Some n' → l !! i = Some e →
  event_sequence e = u64_add n (Z.of_nat (S i)).
Proof.
  revert n i. induction l as [|e' l IH]; intros n i; simpl; [done|].
  case_decide as He; [|done]. intros Hl. destruct i as [|i]; simpl.
  - intros [= <-]. done.
  - intros Hi. rewrite (IH _ _ Hl Hi), He, u64_add_assoc. f_equal. lia.
Qed.

Section numbering.
Context `{DrasiCore}.
Context (transaction_time : SourceChange → Z).
Context (index_error_to_string : IndexError → string).
Context (change_from_slice : string → result ChangeEvent string).
Context (redis_url : string) (buffer_size fetch_batch_size : Z).

(** [p] publishes in sequence from [n] on and ends with the number [f] reads
    off its result. *)
Definition keeps {A} (n : Z) (p : prog worker_call A) (f : A → Z → Prop) : Prop :=
  always p (λ t o, ∃ n', seq_after n (published t) = Some n' ∧
    ∀ a, o = Done a → f a n').

Lemma keeps_bind {A B} n (p : prog worker_call A) f (k : A → prog worker_call B) g :
  keeps n p f → (∀ a n', f a n' → keeps n' (k a) g) → keeps n (p ≫= k) g.
Proof.
  intros Hp Hk. unfold keeps in *. eapply under_bind_intro; [exact Hp|..].
  - intros t w (n' & Hn & _). by exists n'.
  - intros t a (n' & Hn & Ha). eapply under_mono; [done| |apply Hk; eauto].
    intros t' o (n'' & Hn' & Hb). exists n''. split; [|done].
    by rewrite published_app, (seq_after_app _ _ _ _ Hn).
Qed.

Lemma keeps_ret {A} n (a : A) (f : A → Z → Prop) : f a n → keeps n (mret a) f.
Proof. intros Ha. exists n. split; [done|]. by intros ? [= <-]. Qed.

Lemma keeps_panic {A} n w (f : A → Z → Prop) : keeps n (Panic w) f.
Proof. exists n. split; [done|]. done. Qed.

(** A call that publishes nothing. *)
Lemma keeps_call {X A} n (e : worker_call X) (k : X → prog worker_call A) f :
  (∀ x, posted_of (Call e x) = None) → (∀ x, keeps n (k x) f) →
  keeps n (trigger e ≫= k) f.
Proof.
  intros He Hk. unfold keeps. simpl. intros x _.
  eapply under_mono; [done| |apply Hk]. intros t o (n' & Hn & Ha). exists n'.
  split; [|done]. by rewrite published_cons, He.
Qed.

Lemma keeps_translate {E A B} n (tr : ∀ X, E X → worker_call X) (p : prog E A)
    (k : A → prog worker_call B) g :
  (∀ t, posted (map (translate_call tr) t) = []) → (∀ a, keeps n (k a) g) →
  keeps n (translate tr p ≫= k) g.
Proof.
  intros Htr Hk. apply (keeps_bind n _ (λ _ n', n' = n)); [|naive_solver].
  unfold keeps. apply under_translate. eapply under_mono; [intros c Hc; exact Hc| |apply under_true].
  intros t o _. exists n. unfold published. rewrite Htr. naive_solver.
Qed.

Lemma keeps_post {A} n topic e (k : result Z string → prog worker_call A) f :
  event_sequence e = u64_add n 1 → (∀ r, keeps (event_sequence e) (k r) f) →
  keeps n (trigger (PostResult topic e) ≫= k) f.
Proof.
  intros He Hk. unfold keeps. simpl. intros r _.
  eapply under_mono; [done| |apply Hk]. intros t o (n' & Hn & Ha). exists n'.
  split; [|done]. change (published (Call (PostResult topic e) r :: t))
    with (e :: published t). simpl. by rewrite decide_True.
Qed.

(** [keeps] for the worker's parts, by their structure. *)
Ltac keep :=
  match goal with
  | |- keeps _ (Panic _) _ => apply keeps_panic
  | |- keeps _ (mret _) _ => apply keeps_ret; solve [done | simpl; auto]
  | |- keeps _ (trigger _ ≫= _) _ => apply keeps_call; [by intros | intros]
  | |- keeps _ (translate _ _ ≫= _) _ =>
      apply keeps_translate;
        [first [apply posted_index | apply posted_stream | apply posted_source |
               apply posted_publisher | apply posted_open] | intros]
  | |- keeps _ (match ?x with _ => _ end) _ => destruct x eqn:?
  | |- keeps _ (match ?x with _ => _ end ≫= _) _ => destruct x eqn:?
  end.

Notation follows := (λ (a : _ * ResultSequence) n', sequence a.2 = n').

Lemma increment_keeps id sm :
  always (increment id sm) (λ t o, published t = [] ∧
    o = Done (u64_add (sequence sm) 1, mkSeqNo (u64_add (sequence sm) 1) id)).
Proof. done. Qed.

(** Incrementing and publishing the event that carries the number. *)
Lemma increment_publish_keeps {A} id sm query_id (ev : Z → ResultEvent)
    (k : result unit string → ResultSequence → prog worker_call A) f :
  (∀ s, event_sequence (ev s) = s) →
  (∀ r sm', sequence sm' = u64_add (sequence sm) 1 → keeps (sequence sm') (k r sm') f) →
  keeps (sequence sm) ('(seq, sm') ← increment id sm; r ← publish query_id (ev seq); k r sm') f.
Proof.
  intros Hev Hk. unfold increment, publish. simpl.
  apply (keeps_call _ (SendSequence _)); [done|]. intros _.
  apply keeps_post; [apply Hev|]. intros r. rewrite Hev.
  destruct r; apply (Hk _ (mkSeqNo _ _)); done.
Qed.

Lemma publish_control_keeps query_id signal sm :
  keeps (sequence sm) (publish_control query_id signal sm) follows.
Proof.
  unfold publish_control, increment, publish. simpl.
  apply (keeps_call _ (SendSequence _)); [done|]. intros _.
  apply (keeps_call _ NowNanos); [done|]. intros now.
  apply keeps_post; [done|]. intros r. destruct r; by apply keeps_ret.
Qed.

Lemma process_change_keeps query_id evt enq deq sm :
  keeps (sequence sm) (process_change query_id evt enq deq sm) follows.
Proof.
  unfold process_change. repeat keep.
  apply increment_publish_keeps; [done|]. intros [] sm' Hs; repeat keep.
Qed.

Lemma bootstrap_lines_keeps query_id source lines sm :
  keeps (sequence sm) (bootstrap_lines transaction_time query_id source lines sm) follows.
Proof.
  revert sm. induction lines as [|line lines IH]; intros sm; cbn [bootstrap_lines]; repeat keep.
  apply increment_publish_keeps; [done|]. intros [] sm' Hs; [apply IH | repeat keep].
Qed.

Lemma bootstrap_sources_keeps container query_id sources sm :
  keeps (sequence sm)
    (bootstrap_sources transaction_time container query_id sources sm) follows.
Proof.
  revert sm. induction sources as [|source sources IH]; intros sm;
    cbn [bootstrap_sources]; repeat keep.
  eapply keeps_bind; [apply bootstrap_lines_keeps|]. intros [r sm'] n' <-.
  destruct r; [apply IH | repeat keep].
Qed.

Lemma bootstrap_keeps container query_id config sm :
  keeps (sequence sm) (bootstrap transaction_time container query_id config sm) follows.
Proof.
  unfold bootstrap. eapply keeps_bind; [apply publish_control_keeps|].
  intros [r sm1] n' <-. destruct r; repeat keep.
  eapply keeps_bind; [apply bootstrap_sources_keeps|]. intros [r sm2] n' <-.
  destruct r; repeat keep.
  eapply keeps_bind; [apply publish_control_keeps|]. intros [r sm3] n' <-.
  destruct r; repeat keep.
Qed.

Lemma unsubscribe_all_keeps {A} n container query_id subs
    (k : unit → prog worker_call A) f :
  keeps n (k ()) f → keeps n (unsubscribe_all container query_id subs ≫= k) f.
Proof.
  intros Hk. apply (keeps_bind n _ (λ _ n', n' = n)); [|by intros [] ? ->].
  induction subs as [|s subs IH]; cbn [unsubscribe_all]; repeat keep. apply IH.
Qed.

Lemma invoke_view_keeps {A} n container query_id method arg view
    (k : result unit QueryError → prog worker_call A) f :
  (∀ r, keeps n (k r) f) →
  keeps n (invoke_view container query_id method arg view ≫= k) f.
Proof.
  intros Hk. apply (keeps_bind n _ (λ _ n', n' = n)); [|by intros ?? ->].
  unfold invoke_view. repeat keep.
Qed.

Notation loops := (λ (a : _ * worker_state) n', sequence (ws_sm a.2) = n').

Lemma on_command_keeps container query_id config view cmd w :
  keeps (sequence (ws_sm w)) (on_command container query_id config view cmd w) loops.
Proof.
  unfold on_command, on_delete. repeat keep.
  apply unsubscribe_all_keeps.
  eapply keeps_bind; [apply publish_control_keeps|]. intros [r sm] n' <-.
  apply invoke_view_keeps. intros. by apply keeps_ret.
Qed.

Lemma on_event_keeps query_id evt w :
  keeps (sequence (ws_sm w)) (on_event query_id evt w) loops.
Proof.
  unfold on_event, do_ack. repeat keep.
  eapply keeps_bind; [apply process_change_keeps|]. intros [r sm] n' <-.
  destruct r; repeat keep.
Qed.

Lemma loop_round_keeps container query_id config view w :
  keeps (sequence (ws_sm w))
    (loop_round change_from_slice container query_id config view w) loops.
Proof.
  unfold loop_round, on_message. repeat keep; try apply on_command_keeps.
  apply (on_event_keeps query_id _ (mkWorker (ws_sm w) _)).
Qed.

Lemma worker_loop_keeps rounds container query_id config view w :
  keeps (sequence (ws_sm w))
    (worker_loop change_from_slice rounds container query_id config view w) loops.
Proof.
  revert w. induction rounds as [|rounds IH]; intros w; cbn [worker_loop]; repeat keep.
  eapply keeps_bind; [apply loop_round_keeps|]. intros [next w'] n' <-.
  destruct next; [apply IH | repeat keep].
Qed.

Lemma worker_stream_keeps rounds container query_id config view ts sm :
  keeps (sequence sm)
    (worker_stream change_from_slice redis_url buffer_size fetch_batch_size rounds container query_id config view ts sm)
    (λ _ _, True).
Proof.
  unfold worker_stream. repeat keep.
  eapply keeps_bind; [apply publish_control_keeps|]. intros [r sm1] n' <-.
  eapply keeps_bind; [apply worker_loop_keeps|]. intros [ended w] n' <-.
  repeat keep.
  eapply keeps_bind; [apply publish_control_keeps|]. intros [r' sm2] n' <-.
  repeat keep.
Qed.

Lemma worker_bootstrap_keeps {A} container query_id config sm
    (k : option ResultSequence → prog worker_call A) f :
  (∀ n, keeps n (k None) f) → (∀ sm', keeps (sequence sm') (k (Some sm')) f) →
  keeps (sequence sm)
    (worker_bootstrap transaction_time container query_id config sm ≫= k) f.
Proof.
  intros Hn Hs. apply (keeps_bind _ _
    (λ a n', match a with Some sm' => sequence sm' = n' | None => True end)).
  - unfold worker_bootstrap. repeat keep;
      (eapply keeps_bind; [apply bootstrap_keeps|]; intros [r sm'] n' <-;
       destruct r; repeat keep).
  - intros [sm'|] n' Ha; [subst; apply Hs | apply Hn].
Qed.

(** Nothing is published before the stored sequence number is read, and then
    the published events are numbered from it. *)
Definition numbered_run {A} (p : prog worker_call A) : Prop :=
  always p (λ t o, published t = [] ∨ ∃ sm t1 t2 n',
    t = t1 ++ Call GetSequence (Ok sm) :: t2 ∧ published t1 = [] ∧
    seq_after (sequence sm) (published t2) = Some n').

Lemma numbered_ret {A} (a : A) : numbered_run (mret a).
Proof. by left. Qed.
Lemma numbered_panic {A} w : numbered_run (A:=A) (Panic w).
Proof. by left. Qed.

Lemma numbered_quiet {A B} (p : prog worker_call A) (k : A → prog worker_call B) :
  always p (λ t o, published t = []) → (∀ a, numbered_run (k a)) → numbered_run (p ≫= k).
Proof.
  intros Hp Hk. unfold numbered_run. eapply under_bind_intro; [exact Hp| by left |].
  intros t a Ht. eapply under_mono; [done| |apply Hk].
  intros t' o [Ht'|(sm & t1 & t2 & n' & -> & Ht1 & Hn)].
  - left. by rewrite published_app, Ht, Ht'.
  - right. exists sm, (t ++ t1), t2, n'. rewrite <-app_assoc.
    by rewrite published_app, Ht, Ht1.
Qed.

Lemma quiet_call {X} (e : worker_call X) :
  (∀ x, posted_of (Call e x) = None) → always (trigger e) (λ t o, published t = []).
Proof. intros He x _. unfold under. by rewrite published_cons, He. Qed.

Lemma quiet_translate {E A} (tr : ∀ X, E X → worker_call X) (p : prog E A) :
  (∀ t, posted (map (translate_call tr) t) = []) →
  always (translate tr p) (λ t o, published t = []).
Proof.
  intros Htr. apply under_translate.
  eapply under_mono; [intros c Hc; exact Hc| |apply under_true].
  intros t o _. unfold published. by rewrite Htr.
Qed.

Lemma quiet_view container query_id method arg view :
  always (invoke_view container query_id method arg view) (λ t o, published t = []).
Proof. unfold invoke_view. destruct (negb _); [done|]. by intros [] _. Qed.

Lemma numbered_get {A} (k : result ResultSequence string → prog worker_call A) :
  (∀ err, numbered_run (k (Err err))) →
  (∀ sm, keeps (sequence sm) (k (Ok sm)) (λ _ _, True)) →
  numbered_run (trigger GetSequence ≫= k).
Proof.
  intros He Hk. unfold numbered_run. simpl. intros [sm|err] _.
  - eapply under_mono; [done| |apply Hk]. intros t o (n' & Hn & _). right.
    by exists sm, [], t, n'.
  - eapply under_mono; [done| |apply He].
    intros t o [Ht|(sm & t1 & t2 & n' & -> & Ht1 & Hn)].
    + left. by rewrite published_cons.
    + right. exists sm, (Call GetSequence (Err err) :: t1), t2, n'.
      by rewrite published_cons.
Qed.

Ltac quiet :=
  match goal with
  | |- numbered_run (Panic _) => apply numbered_panic
  | |- numbered_run (mret _) => apply numbered_ret
  | |- numbered_run (trigger GetSequence ≫= _) => apply numbered_get; intros
  | |- numbered_run (trigger _ ≫= _) =>
      apply numbered_quiet; [by apply quiet_call | intros]
  | |- numbered_run (translate _ _ ≫= _) =>
      apply numbered_quiet;
        [apply quiet_translate; first [apply posted_index | apply posted_publisher] | intros]
  | |- numbered_run (configure_result_view _ _ _ ≫= _) =>
      apply numbered_quiet; [apply quiet_view | intros]
  | |- numbered_run ((if ?b then _ else _) ≫= _) =>
      apply numbered_quiet; [destruct b; [by apply quiet_call | done] | intros]
  | |- numbered_run (match ?x with _ => _ end) => destruct x
  end.

Lemma worker_run_numbered rounds factory container query_id spec :
  numbered_run (worker_run transaction_time index_error_to_string change_from_slice redis_url
    buffer_size fetch_batch_size rounds factory container query_id spec).
Proof.
  unfold worker_run. repeat quiet.
  apply worker_bootstrap_keeps; intros; repeat keep. apply worker_stream_keeps.
Qed.

(** Across the whole life of a worker, whatever the services answer, the events it
    publishes carry the numbers that follow the stored sequence number one by one,
    in the order they are published: bootstrap results, control signals and changes
    alike, with no number skipped or reused. *)
Lemma worker_publishes_in_sequence rounds factory container query_id spec :
  always (worker_run transaction_time index_error_to_string change_from_slice redis_url
            buffer_size fetch_batch_size rounds
            factory container query_id spec)
    (λ t o, ∀ i e, published t !! i = Some e →
       ∃ sm t1 t2, t = t1 ++ Call GetSequence (Ok sm) :: t2 ∧ published t1 = [] ∧
         event_sequence e = u64_add (sequence sm) (Z.of_nat (S i))).
Proof.
  eapply under_mono; [done| |apply worker_run_numbered].
  intros t o [Ht|(sm & t1 & t2 & n' & -> & Ht1 & Hseq)] i e.
  - by rewrite Ht.
  - rewrite published_app, Ht1, published_cons. simpl. intros Hi.
    exists sm, t1, t2. split_and!; [done..|]. by eapply seq_after_lookup.
Qed.
End numbering.

(** ** The bootstrap *)

(** What a worker does to the outside: posts (with whether a response came
    back), changes given to the engine (with the results), subscriptions. *)
Inductive action `{DrasiCore} :=
| APost (e : ResultEvent) (answered : bool)
| AProcess (c : SourceChange) (r : result (list QueryPartEvaluationContext) string)
| ASubscribe (app_id : string) (reply : subscribe_reply).

Section bootstrap.
Context `{DrasiCore}.
Context (transaction_time : SourceChange → Z).

Definition source_action X (e : source_call X) : X → option action :=
  match e in source_call X return X → option action with
  | PostSubscription app _ => λ r, Some (ASubscribe app r)
  | DeleteSubscription _ _ _ => λ _, None
  end.

Definition action_of (c : call worker_call) : option action :=
  match c with
  | @Call _ X e x =>
      match e in worker_call X return X → option action with
      | PostResult _ e => λ r, Some (APost e (is_ok r))
      | ProcessSourceChange c => λ r, Some (AProcess c r)
      | @WSource _ X c => source_action X c
      | _ => λ _, None
      end x
  end.

Definition actions (t : list (call worker_call)) : list action := observe action_of t.

Lemma actions_app t t' : actions (t ++ t') = actions t ++ actions t'.
Proof. apply observe_app. Qed.

Lemma actions_cons c t :
  actions (c :: t) = match action_of c with Some a => a :: actions t | None => actions t end.
Proof. unfold actions, observe. cbn [omap list_omap]. by destruct (action_of c). Qed.

Definition signal (e : ResultEvent) : option ControlSignal :=
  match e with RChange _ => None | RControl c => Some (rk_control_signal c) end.

(** No response came back for a [BootstrapCompleted] signal. *)
Definition not_completed (l : list action) : Prop :=
  ∀ e, APost e true ∈ l → signal e ≠ Some BootstrapCompleted.

Lemma not_completed_app l l' : not_completed l → not_completed l' → not_completed (l ++ l').
Proof. unfold not_completed. intros H1 H2 e [?|?]%elem_of_app; eauto. Qed.

Lemma not_completed_cons a l :
  (∀ e, a = APost e true → signal e ≠ Some BootstrapCompleted) →
  not_completed l → not_completed (a :: l).
Proof. intros H1 H2 e [Ha|?]%elem_of_cons; eauto. Qed.

Lemma not_completed_nil : not_completed [].
Proof. intros e He. set_solver. Qed.

(** One line of a source's reply: the change goes to the engine, then its
    results are published. *)
Definition line_actions (query_id : string) (source : CoreQuerySubscription)
    (line : result BootstrapElement string) (l : list action) : Prop :=
  ∃ c results seq, stream_item source line = Done (Ok c) ∧
    l = [AProcess c (Ok results);
         APost (from_query_results query_id results seq (transaction_time c) None) true].

Definition source_actions (query_id : string) (source : CoreQuerySubscription)
    (l : list action) : Prop :=
  ∃ lines ls, Forall2 (line_actions query_id source) lines ls ∧
    l = ASubscribe (cs_id source +:+ "-query-api") (Stream lines) :: concat ls.

Lemma line_actions_not_completed query_id source lines ls :
  Forall2 (line_actions query_id source) lines ls → not_completed (concat ls).
Proof.
  induction 1 as [|line l lines ls (c & results & seq & _ & ->) _ IH]; simpl;
    [apply not_completed_nil|].
  apply not_completed_cons; [done|]. apply not_completed_cons; [|done].
  by intros e [= <-].
Qed.

Lemma source_actions_not_completed query_id sources ls :
  Forall2 (source_actions query_id) sources ls → not_completed (concat ls).
Proof.
  induction 1 as [|s l sources ls (lines & ls' & Hl & ->) _ IH]; simpl;
    [apply not_completed_nil|].
  apply not_completed_cons; [done|]. apply not_completed_app; [|done].
  by eapply line_actions_not_completed.
Qed.

Ltac acts := rewrite ?actions_app, ?actions_cons; simpl.

Lemma bootstrap_lines_actions query_id source lines sm :
  always (bootstrap_lines transaction_time query_id source lines sm) (λ t o,
    match o with
    | Done (Ok _, _) => ∃ ls, Forall2 (line_actions query_id source) lines ls ∧
        actions t = concat ls
    | _ => not_completed (actions t)
    end).
Proof.
  revert sm. induction lines as [|line lines IH]; intros sm; cbn [bootstrap_lines].
  { by exists []. }
  destruct (stream_item source line) as [[change|err]|w] eqn:Hi;
    [|apply not_completed_nil..].
  unfold increment, publish. simpl. intros [results|e] _; simpl.
  2:{ acts. apply not_completed_cons; [done | apply not_completed_nil]. }
  intros u _. intros [status|e] _; simpl.
  - eapply under_mono; [done| |apply IH]. intros t [[[[]|e] sm']|w]; acts.
    + intros (ls & Hls & ->). eexists ([_; _] :: ls). split; [|simpl; reflexivity].
      constructor; [|done]. exists change, results. eauto.
    + intros Ht. do 2 (apply not_completed_cons; [naive_solver|]). done.
    + intros Ht. do 2 (apply not_completed_cons; [naive_solver|]). done.
  - acts. do 2 (apply not_completed_cons; [naive_solver|]). apply not_completed_nil.
Qed.

Lemma bootstrap_sources_actions container query_id sources sm :
  always (bootstrap_sources transaction_time container query_id sources sm) (λ t o,
    match o with
    | Done (Ok _, _) => ∃ ls, Forall2 (source_actions query_id) sources ls ∧
        actions t = concat ls
    | _ => not_completed (actions t)
    end).
Proof.
  revert sm. induction sources as [|source sources IH]; intros sm; cbn [bootstrap_sources].
  { by exists []. }
  unfold subscribe. simpl. intros reply _.
  destruct reply as [e|status body|lines]; simpl;
    try (acts; apply not_completed_cons; [done | apply not_completed_nil]).
  eapply under_bind_intro; [apply bootstrap_lines_actions| |].
  { intros t w Ht. acts. by apply not_completed_cons. }
  intros t [[[]|e] sm'] Ht; simpl.
  - destruct Ht as (ls & Hls & Ht). eapply under_mono; [done| |apply IH].
    intros t' [[[[]|e] sm'']|w]; acts; rewrite Ht.
    + intros (ls' & Hls' & ->). eexists ((_ :: concat ls) :: ls'). split; [|simpl; reflexivity].
      constructor; [|done]. exists lines, ls. done.
    + intros Ht'. apply not_completed_cons; [done|].
      apply not_completed_app; [by eapply line_actions_not_completed | done].
    + intros Ht'. apply not_completed_cons; [done|].
      apply not_completed_app; [by eapply line_actions_not_completed | done].
  - acts. rewrite app_nil_r. by apply not_completed_cons.
Qed.

Lemma bootstrap_actions container query_id config sm :
  always (bootstrap transaction_time container query_id config sm) (λ t o,
    match o with
    | Done (Ok _, _) =>
        ∃ ls s1 ms1 s2 ms2,
          Forall2 (source_actions query_id) (csrc_subscriptions (qc_sources config)) ls ∧
          actions t =
            APost (from_control_signal query_id s1 ms1 BootstrapStarted) true ::
            concat ls ++
            [APost (from_control_signal query_id s2 ms2 BootstrapCompleted) true]
    | _ => not_completed (actions t)
    end).
Proof.
  unfold bootstrap, publish_control, increment, publish. simpl.
  intros u _ now _ [status|e] _; simpl.
  2:{ acts. apply not_completed_cons; [naive_solver | apply not_completed_nil]. }
  intros u1 _ u2 _. eapply under_bind_intro; [apply bootstrap_sources_actions| |].
  { intros t w Ht. acts. apply not_completed_cons; [by intros ? [= <-] | done]. }
  intros t [[[]|e] sm'] Ht; simpl.
  - destruct Ht as (ls & Hls & Ht). intros u3 _ now' _ [status'|e] _; simpl; acts; rewrite Ht.
    + do 5 eexists. done.
    + apply not_completed_cons; [by intros ? [= <-]|].
      apply not_completed_app; [by eapply source_actions_not_completed|].
      apply not_completed_cons; [done | apply not_completed_nil].
  - acts. rewrite app_nil_r. apply not_completed_cons; [by intros ? [= <-] | done].
Qed.

(** C8: a bootstrap that succeeds has published [BootstrapStarted], then has
    subscribed to every source of the query in order, giving every element of
    each reply to the engine in order and publishing its results before the
    next one, and has finally published [BootstrapCompleted]; a bootstrap
    that fails or panics never gets [BootstrapCompleted] out. *)
Theorem bootstrap_publishes_all_initial_data container query_id config sm :
  always (bootstrap transaction_time container query_id config sm) (λ t o,
    match o with
    | Done (Ok _, _) =>
        ∃ ls s1 ms1 s2 ms2,
          Forall2 (source_actions query_id) (csrc_subscriptions (qc_sources config)) ls ∧
          actions t =
            APost (from_control_signal query_id s1 ms1 BootstrapStarted) true ::
            concat ls ++
            [APost (from_control_signal query_id s2 ms2 BootstrapCompleted) true]
    | _ => not_completed (actions t)
    end).
Proof. apply bootstrap_actions. Qed.
End bootstrap.

(** ** Acknowledgements *)

Section acks.
Context `{DrasiCore}.
Context (change_from_slice : string → result ChangeEvent string).
Notation trace := (list (call worker_call)).

Definition stream_ack_of X (e : stream_call X) : option string :=
  match e with XAck _ _ id => Some id | _ => None end.

(** The entry an acknowledgement is for. *)
Definition ack_of (c : call worker_call) : option string :=
  match c with
  | @Call _ X e x => match e with @WStream _ X c => stream_ack_of X c | _ => None end
  end.

(** The change was given to the engine and, unless it produced nothing, its
    results were posted to the query's topic. *)
Definition handled (query_id : string) (evt : Message ChangeEvent) (hist : trace) : Prop :=
  ∃ c results, try_into (msg_data evt) = Ok c ∧
    Call (ProcessSourceChange c) (Ok results) ∈ hist ∧
    (results = [] ∨ ∃ seq metadata status,
       Call (PostResult (query_id +:+ "-results")
               (from_query_results query_id results seq (get_timestamp (msg_data evt))
                  metadata)) (Ok status) ∈ hist).

(** The entry was received, and it is not for this query or was handled. *)
Definition justified (query_id : string) (hist : trace) (id : string) : Prop :=
  ∃ item evt, Call (WStream RxRecv) (Some item) ∈ hist ∧
    deserialize_message change_from_slice item = Ok evt ∧ sid_id item = id ∧
    (has_query (msg_data evt) query_id = false ∨ handled query_id evt hist).

Definition acks_justified (query_id : string) (hist t : trace) : Prop :=
  ∀ i c id, t !! i = Some c → ack_of c = Some id →
    justified query_id (hist ++ take i t) id.

Lemma justified_mono query_id hist hist' id :
  (∀ c, c ∈ hist → c ∈ hist') → justified query_id hist id → justified query_id hist' id.
Proof.
  intros Hs (item & evt & Hr & Hd & Hi & Hh). exists item, evt. split_and!; eauto.
  destruct Hh as [|(c & results & Ht & Hc & Hp)]; [by left|]. right.
  exists c, results. split_and!; eauto. destruct Hp as [|(?&?&?&?)]; [by left|]. right. eauto 6.
Qed.

Lemma acks_justified_none query_id hist t :
  Forall (λ c, ack_of c = None) t → acks_justified query_id hist t.
Proof.
  intros Ht i c id Hi Hc. rewrite Forall_lookup in Ht. by rewrite (Ht _ _ Hi) in Hc.
Qed.

Lemma acks_justified_app query_id hist t t' :
  acks_justified query_id hist t → acks_justified query_id (hist ++ t) t' →
  acks_justified query_id hist (t ++ t').
Proof.
  intros Ht Ht' i c id [Hi|[Hle Hi]]%lookup_app_Some Hc.
  - rewrite take_app_le by (apply Nat.lt_le_incl; by eapply lookup_lt_Some). eauto.
  - rewrite take_app_ge by done. rewrite app_assoc. eauto.
Qed.

Lemma deserialize_msg_id item evt :
  deserialize_message change_from_slice item = Ok evt → msg_id evt = sid_id item.
Proof.
  unfold deserialize_message. rewrite !result_bind_Ok.
  intros (? & _ & H1). rewrite result_bind_Ok in H1. destruct H1 as (? & _ & H1).
  rewrite result_bind_Ok in H1. destruct H1 as (? & _ & H1).
  rewrite result_bind_Ok in H1. destruct H1 as (? & _ & [= <-]). done.
Qed.

Lemma process_change_handles query_id evt enq deq sm :
  always (process_change query_id evt enq deq sm) (λ t o,
    Forall (λ c, ack_of c = None) t ∧
    ∀ sm', o = Done (Ok (), sm') → handled query_id evt t).
Proof.
  unfold process_change, handled.
  destruct (try_into (msg_data evt)) as [c|err]; [|by split].
  simpl. intros start _ [results|err] _; simpl; [|split; [by repeat constructor | done]].
  intros end_ _. destruct results as [|r results].
  { split; [by repeat constructor|]. intros sm' _. exists c, []. set_solver. }
  unfold increment, publish. simpl. intros u _ [status|err] _; simpl;
    (split; [by repeat constructor | intros sm' [= <-]]).
  exists c, (r :: results). split_and!; [done|set_solver|]. right. do 3 eexists.
  do 4 right. left.
Qed.

(** The entry a stream still holds was received. *)
Definition holds (hist : trace) (s : RedisChangeStream) : Prop :=
  ∀ item, rs_unack_item s = Some item → Call (WStream RxRecv) (Some item) ∈ hist.

Lemma holds_app hist t s : holds hist s → holds (hist ++ t) s.
Proof. intros Hs item Hi. apply elem_of_app. left. auto. Qed.

Lemma do_ack_justified query_id hist id s :
  (rs_unack_item s = None ∨ justified query_id hist id) → holds hist s →
  always (do_ack id s) (λ t o, acks_justified query_id hist t ∧
    ∃ r s', o = Done (r, s') ∧ holds (hist ++ t) s').
Proof.
  unfold do_ack, ack. intros Hj Hs. destruct (rs_unack_item s) as [item|] eqn:Hu.
  2:{ split; [by apply acks_justified_none|]. rewrite app_nil_r. eauto. }
  destruct (str_eqb (sid_id item) id) eqn:E.
  2:{ split; [by apply acks_justified_none|]. rewrite app_nil_r. eauto. }
  assert (∀ r : result Z RedisError, acks_justified query_id hist
    [Call (WStream (XAck (rs_topic s) (rs_group_id s) id)) r]) as Ha.
  { intros r [|i] c id'; [|done]. intros [= <-] [= <-]. rewrite app_nil_r.
    destruct Hj; [done|]. done. }
  simpl. intros [n|e] _; (split; [apply Ha|]); do 2 eexists; (split; [done|]).
  - intros ? [=].
  - by apply holds_app.
Qed.

(** What a part of the loop preserves. *)
Definition ack_inv {A} (query_id : string) (hist : trace)
    (p : prog worker_call (A * worker_state)) : Prop :=
  always p (λ t o, acks_justified query_id hist t ∧
    ∀ a w, o = Done (a, w) → holds (hist ++ t) (ws_stream w)).

Lemma ack_inv_bind {A B} query_id hist (p : prog worker_call (A * worker_state))
    (k : A * worker_state → prog worker_call (B * worker_state)) :
  ack_inv query_id hist p →
  (∀ t a w, holds (hist ++ t) (ws_stream w) → ack_inv query_id (hist ++ t) (k (a, w))) →
  ack_inv query_id hist (p ≫= k).
Proof.
  intros Hp Hk. unfold ack_inv in *. eapply under_bind_intro; [exact Hp|..].
  - by intros t w [Ht _].
  - intros t [a w] [Ht Hw]. eapply under_mono; [done| |apply (Hk t a w)]; [|by eapply Hw].
    intros t' o [Ht' Ho]. split; [by apply acks_justified_app|]. by rewrite app_assoc.
Qed.

(** A part that makes no acknowledgement and keeps the stream. *)
Definition no_ack {A} (p : prog worker_call A) : Prop :=
  always p (λ t _, Forall (λ c, ack_of c = None) t).

Lemma no_ack_bind {A B} (p : prog worker_call A) (k : A → prog worker_call B) :
  no_ack p → (∀ a, no_ack (k a)) → no_ack (p ≫= k).
Proof.
  intros Hp Hk. unfold no_ack. eapply under_bind_intro; [exact Hp|done|].
  intros t a Ht. eapply under_mono; [done| |apply Hk]. intros t' o Ht'.
  by apply Forall_app.
Qed.

Lemma no_ack_ret {A} (a : A) : no_ack (mret a).
Proof. constructor. Qed.

Lemma no_ack_call {X} (e : worker_call X) : (∀ x, ack_of (Call e x) = None) → no_ack (trigger e).
Proof. intros He x _. repeat constructor. apply He. Qed.

Lemma no_ack_source {A} (p : prog source_call A) :
  no_ack (translate (λ X c, WSource c) p).
Proof.
  unfold no_ack. apply under_translate.
  eapply under_mono; [intros c Hc; exact Hc| |apply under_true]. intros t _ _.
  induction t as [|[X e x] t IH]; by constructor.
Qed.

Lemma no_ack_control query_id sig sm : no_ack (publish_control query_id sig sm).
Proof.
  unfold publish_control, increment, publish. simpl.
  intros u _ now _ [] _; repeat constructor.
Qed.

Lemma no_ack_inv {A} query_id hist (p : prog worker_call A) (B : Type)
    (k : A → prog worker_call (B * worker_state)) :
  no_ack p → (∀ t a, ack_inv query_id (hist ++ t) (k a)) → ack_inv query_id hist (p ≫= k).
Proof.
  intros Hp Hk. unfold ack_inv. eapply under_bind_intro; [exact Hp|..].
  - intros t w Ht. split; [by apply acks_justified_none | done].
  - intros t a Ht. eapply under_mono; [done| |apply (Hk t)].
    intros t' o [Ht' Ho]. rewrite app_assoc. split; [|done].
    apply acks_justified_app; [by apply acks_justified_none | done].
Qed.

Lemma ack_inv_ret {A} query_id hist (a : A) w :
  holds hist (ws_stream w) → ack_inv query_id hist (mret (a, w)).
Proof.
  intros Hw. split; [by apply acks_justified_none|]. intros ?? [= <- <-].
  by rewrite app_nil_r.
Qed.

Lemma on_command_acks container query_id config view cmd w hist :
  holds hist (ws_stream w) →
  ack_inv query_id hist (on_command container query_id config view cmd w).
Proof.
  intros Hw. unfold on_command, on_delete. destruct cmd as [[]|].
  - by apply ack_inv_ret.
  - do 3 (apply no_ack_inv; [by apply no_ack_call | intros]).
    apply no_ack_inv; [|intros].
    { unfold unsubscribe. simpl. intros u _ [] _; repeat constructor. }
    apply no_ack_inv; [|intros].
    { induction (csrc_subscriptions (qc_sources config)) as [|s l IH];
        cbn [unsubscribe_all]; [apply no_ack_ret|].
      apply no_ack_bind; [apply no_ack_source | done]. }
    apply no_ack_inv; [apply no_ack_control | intros ? [r sm]].
    apply no_ack_inv; [|intros].
    { unfold deprovision_result_view, invoke_view.
      destruct (negb _); [apply no_ack_ret|]. intros [] _; repeat constructor. }
    apply ack_inv_ret. simpl. by repeat apply holds_app.
  - split; [by apply acks_justified_none | done].
  - apply no_ack_inv; [by apply no_ack_call | intros].
    apply ack_inv_ret. by apply holds_app.
Qed.

Lemma do_ack_inv {A} query_id hist id s sm (a : A) :
  (rs_unack_item s = None ∨ justified query_id hist id) → holds hist s →
  ack_inv query_id hist ('(_, stream) ← do_ack id s; mret (a, mkWorker sm stream)).
Proof.
  intros Hj Hs. unfold ack_inv. eapply under_bind_intro; [by apply do_ack_justified|..].
  - by intros t w [Ht (? & ? & ? & _)].
  - intros t [r s'] [Ht (r' & s'' & [= <- <-] & Hh)]. simpl. rewrite app_nil_r.
    split; [done|]. intros ?? [= <- <-]. done.
Qed.

Lemma on_event_acks query_id evt w hist item :
  Call (WStream RxRecv) (Some item) ∈ hist →
  deserialize_message change_from_slice item = Ok evt →
  holds hist (ws_stream w) →
  ack_inv query_id hist (on_event query_id evt w).
Proof.
  intros Hr Hd Hw. pose proof (deserialize_msg_id _ _ Hd) as Hid. unfold on_event.
  apply no_ack_inv; [by apply no_ack_call | intros t now].
  destruct (has_query (msg_data evt) query_id) eqn:Hq; simpl.
  - unfold ack_inv. eapply under_bind_intro; [apply process_change_handles|..].
    { intros t' w' [Ht _]. split; [by apply acks_justified_none | done]. }
    intros t' [[[]|err] sm] [Ht Hh].
    + eapply under_mono; [done| |apply (do_ack_inv query_id ((hist ++ t) ++ t'))].
      * intros t'' o [Hj Ho]. rewrite app_assoc. split; [|done].
        apply acks_justified_app; [by apply acks_justified_none | done].
      * right. rewrite Hid. exists item, evt. split_and!; [set_solver|done..|]. right.
        destruct (Hh sm eq_refl) as (c & results & Hc & Hp & Hres).
        exists c, results. split_and!; [done|set_solver|].
        destruct Hres as [|(?&?&?&Hpost)]; [by left|]. right. do 3 eexists.
        apply elem_of_app. right. exact Hpost.
      * by do 2 apply holds_app.
    + simpl. intros u _. split.
      * apply acks_justified_none. rewrite Forall_app. by repeat constructor.
      * intros ?? [= <- <-]. simpl. by repeat apply holds_app.
  - apply do_ack_inv; [|by apply holds_app].
    right. rewrite Hid. exists item, evt. split_and!; [set_solver|done..|]. by left.
Qed.

Lemma loop_round_acks container query_id config view w hist :
  holds hist (ws_stream w) →
  ack_inv query_id hist (loop_round change_from_slice container query_id config view w).
Proof.
  intros Hw. unfold loop_round.
  apply no_ack_inv; [by apply no_ack_call | intros t s].
  apply (holds_app _ t) in Hw. revert Hw. generalize (hist ++ t). intros hist' Hw.
  destruct s as [cmd|]; [by apply on_command_acks|]. unfold on_message, recv.
  assert (∀ err, ack_inv query_id hist' (A:=loop_next) (_ ← trigger (ChangeState (TransientError
    (stream_error_to_string err))); mret (LoopBreak, w))) as Herr.
  { intros err. apply no_ack_inv; [by apply no_ack_call|]. intros.
    apply ack_inv_ret. by apply holds_app. }
  destruct w as [sm [topic group unack]]. simpl in *. destruct unack as [item|]; simpl.
  - destruct (deserialize_message change_from_slice item) as [evt|err] eqn:Hd; simpl.
    + eapply on_event_acks; [|done..]. by apply Hw.
    + apply Herr.
  - intros [item|] _; simpl.
    + destruct (deserialize_message change_from_slice item) as [evt|err] eqn:Hd; simpl.
      * set (rx := Call (WStream RxRecv) (Some item)).
        assert (always (on_event query_id evt (mkWorker sm (mkStream topic group (Some item))))
          (λ t' o, acks_justified query_id hist' (rx :: t') ∧
             ∀ a w, o = Done (a, w) → holds (hist' ++ rx :: t') (ws_stream w))) as Hev;
          [|exact Hev].
        eapply under_mono; [done| |apply (on_event_acks query_id evt _ (hist' ++ [rx]) item)];
          [|set_solver|done|].
        -- intros t' o [Hj Ho]. split; [|by rewrite cons_middle, app_assoc].
           apply (acks_justified_app query_id hist' [rx]); [|done].
           apply acks_justified_none. by repeat constructor.
        -- intros item' [= <-]. set_solver.
      * intros u _. split; [apply acks_justified_none; by repeat constructor|].
        intros ?? [= <- <-] item'. done.
    + split; [apply acks_justified_none; by repeat constructor|].
      intros ?? [= <- <-] item'. done.
Qed.

Lemma worker_loop_acks rounds container query_id config view w hist :
  holds hist (ws_stream w) →
  ack_inv query_id hist
    (worker_loop change_from_slice rounds container query_id config view w).
Proof.
  revert w hist. induction rounds as [|rounds IH]; intros w hist Hw; cbn [worker_loop].
  { by apply ack_inv_ret. }
  apply ack_inv_bind; [by apply loop_round_acks|]. intros t [] w' Hw'.
  - by apply IH.
  - by apply ack_inv_ret.
Qed.

(** C1: at-least-once processing.  In any run of a worker's main loop, an
    entry of the change stream is acknowledged to Redis only after it was
    received and either it was found not to be addressed to this query, or
    the engine processed its change and, if that produced results, the
    results were posted to the query's topic and a response came back. *)
Theorem change_acked_only_after_handled rounds container query_id config view sm topic :
  always (worker_loop change_from_slice rounds container query_id config view
            (mkWorker sm (mkStream topic query_id None)))
    (λ t _, ∀ i c id, t !! i = Some c → ack_of c = Some id →
       justified query_id (take i t) id).
Proof.
  eapply under_mono; [done| |apply (worker_loop_acks _ _ query_id _ _ _ [])].
  - intros t o [Hj _] i c id Hi Hc. exact (Hj i c id Hi Hc).
  - by intros item.
Qed.
End acks.

(** ** Which states bootstrap *)

Section states.
Context `{DrasiCore}.
Context (transaction_time : SourceChange → Z).
Context (index_error_to_string : IndexError → string).
Context (change_from_slice : string → result ChangeEvent string).
Context (redis_url : string) (buffer_size fetch_batch_size : Z).

Definition must_bootstrap (s : QueryState) : bool :=
  match s with Configured | Bootstrapping => true | _ => false end.

(** A complete bootstrap of the query's sources, and nothing else. *)
Definition bootstrapped (query_id : string) (config : QueryConfig) (l : list action) : Prop :=
  ∃ ls s1 ms1 s2 ms2,
    Forall2 (source_actions transaction_time query_id) (csrc_subscriptions (qc_sources config)) ls ∧
    l = APost (from_control_signal query_id s1 ms1 BootstrapStarted) true ::
        concat ls ++ [APost (from_control_signal query_id s2 ms2 BootstrapCompleted) true].

(** A call that does not set the query running. *)
Definition keeps_stopped X (e : worker_call X) : Prop :=
  match e with ChangeState StRunning => False | _ => True end.
(** A call that besides does nothing to the outside. *)
Definition silent X (e : worker_call X) : Prop :=
  keeps_stopped X e ∧ ∀ x, action_of (Call e x) = None.

Definition stopped (t : list (call worker_call)) : Prop :=
  Forall (λ c, match c with @Call _ X e _ => keeps_stopped X e end) t.
Definition quiet (t : list (call worker_call)) : Prop := stopped t ∧ actions t = [].

Lemma confined_quiet {A} (p : prog worker_call A) :
  confined silent p → always p (λ t _, quiet t).
Proof.
  intros Hp. eapply under_mono; [done| |by apply confined_always].
  intros t o Ht. split; [eapply list.Forall_impl; [exact Ht|]; by intros [X e x] []|].
  induction Ht as [|c t Hc Ht IH]; [done|]. destruct c as [X e x], Hc as [_ Hx].
  by rewrite actions_cons, Hx.
Qed.

Lemma quietly_app t t' : quiet t → quiet t' → quiet (t ++ t').
Proof. intros [? Hq] [? Hq']. split; [by apply Forall_app|]. by rewrite actions_app, Hq, Hq'. Qed.

Lemma publish_control_stopped query_id sig sm :
  confined keeps_stopped (publish_control query_id sig sm).
Proof using Type. split; [done|]. intros x. split; [done|]. intros y. split; [done|]. by intros []. Qed.

Lemma bootstrap_lines_stopped query_id source lines sm :
  confined keeps_stopped (bootstrap_lines transaction_time query_id source lines sm).
Proof using Type.
  revert sm. induction lines as [|line lines IH]; intros sm; [done|]. cbn [bootstrap_lines].
  destruct (stream_item source line) as [[c|e]|w]; [|done..].
  split; [done|]. intros [results|e]; [|done]. split; [done|]. intros u.
  split; [done|]. intros [status|e]; [apply IH|done].
Qed.

Lemma bootstrap_sources_stopped container query_id sources sm :
  confined keeps_stopped (bootstrap_sources transaction_time container query_id sources sm).
Proof using Type.
  revert sm. induction sources as [|source sources IH]; intros sm; [done|]. cbn [bootstrap_sources].
  apply confined_bind; [by apply confined_translate|]. intros [lines|e]; [|done].
  apply confined_bind; [apply bootstrap_lines_stopped|]. intros [[[]|e] sm']; [apply IH|done].
Qed.

Lemma bootstrap_stopped container query_id config sm :
  confined keeps_stopped (bootstrap transaction_time container query_id config sm).
Proof using Type.
  unfold bootstrap. apply confined_bind; [apply publish_control_stopped|]. intros [[[]|e] sm1]; [|done].
  split; [done|]. intros u1. split; [done|]. intros u2.
  apply confined_bind; [apply bootstrap_sources_stopped|]. intros [[[]|e] sm2]; [|done].
  apply confined_bind; [apply publish_control_stopped|]. by intros [[[]|e] sm3].
Qed.

(** What the state read decides. *)
Definition booted (query_id : string) (config : QueryConfig) (s : QueryState)
    (t : list (call worker_call)) : Prop :=
  (∀ e, s ≠ TerminalError e) ∧
  if must_bootstrap s then bootstrapped query_id config (actions t) else t = [].

Definition given_up (t : list (call worker_call)) : Prop :=
  ∃ e, list.last t = Some (Call (ChangeState (TerminalError e)) ()).

Lemma worker_bootstrap_boots container query_id config sm :
  always (worker_bootstrap transaction_time container query_id config sm) (λ t o,
    stopped t ∧ ∃ s t', t = Call GetState s :: t' ∧
      match o with
      | Done (Some _) => booted query_id config s t'
      | Done None => not_completed (actions t') ∧ given_up t
      | Panicked _ => not_completed (actions t')
      end).
Proof.
  unfold worker_bootstrap. apply under_call. intros s _.
  assert (under anything (_ ← trigger (ChangeState Bootstrapping);
      _ ← trigger (ClearIndex ElementIdx); _ ← trigger (ClearIndex ResultIdx);
      _ ← trigger (ClearIndex ArchiveIdx);
      '(r, sm) ← bootstrap transaction_time container query_id config sm;
      match r with
      | Err err =>
          _ ← trigger (ChangeState (TerminalError (bootstrap_error_to_string err)));
          mret None
      | Ok _ => mret (Some sm)
      end) (λ t o, stopped t ∧
        match o with
        | Done (Some _) => bootstrapped query_id config (actions t)
        | Done None => not_completed (actions t) ∧ given_up t
        | Panicked _ => not_completed (actions t)
        end)) as Hboot.
  { do 4 (apply under_call; intros ? _).
    eapply under_bind_intro; [apply under_conj; [apply bootstrap_actions |
      apply confined_always, bootstrap_stopped]| |].
    - intros t w [Ht Hs]. split; [by repeat constructor|]. by rewrite !actions_cons.
    - intros t [[[]|e] sm'] [Ht Hs]; simpl.
      + rewrite app_nil_r. split; [by repeat constructor|]. exact Ht.
      + intros [] _. split; [do 4 (constructor; [done|]); apply Forall_app; by repeat constructor|].
        split; [rewrite actions_app, actions_cons; simpl; by rewrite app_nil_r|].
        exists (bootstrap_error_to_string e). by rewrite !app_comm_cons, list.last_snoc. }
  destruct s; try (split; [by repeat constructor|]; eexists _, _; split; [reflexivity|];
      simpl; first [done | apply not_completed_nil]);
    (eapply under_mono; [done| |exact Hboot]);
    (intros t [[sm'|]|w] [Hs Ht]; (split; [by constructor|]); eexists _, _; (split; [reflexivity|]);
      [by split | | done]; destruct Ht as [? [e He]]; split; [done|]; exists e;
      by destruct t as [|c t]).
Qed.

Section run.
Context (factory : IndexFactory) (query_id : string) (spec : QuerySpec).

(** The configuration with the labels the query itself names. *)
Definition labelled_config (ast : QueryAst) : QueryConfig :=
  fill_default_source_labels (spec_into spec) ast.

(** The query was built with this tree. *)
Definition built (t : list (call worker_call)) (ast : QueryAst) : Prop :=
  ∃ indexes, Call (BuildQuery (spec_query_language spec) (spec_into spec) indexes) (Ok ast) ∈ t.

(** A query that was running on a store that loses its data was set back. *)
Definition set_back (ast : QueryAst) (t : list (call worker_call)) : Prop :=
  ∃ s, Call GetState s ∈ t ∧
    (s = StRunning → is_volatile factory (qc_storage_profile (labelled_config ast)) = true →
     Call (ChangeState Configured) () ∈ t).

Definition ran_booted (t : list (call worker_call)) : Prop :=
  ∃ ast t0 s tb t2, t = t0 ++ Call GetState s :: tb ++ Call (ChangeState StRunning) () :: t2 ∧
    quiet t0 ∧ stopped tb ∧ built t0 ast ∧ set_back ast t0 ∧ booted query_id (labelled_config ast) s tb.

Definition never_ran (t : list (call worker_call)) (o : outcome worker_end) : Prop :=
  stopped t ∧ not_completed (actions t) ∧
  match o with
  | Done EndedEarly => actions t = [] ∨ given_up t
  | Done _ => False
  | Panicked _ => True
  end.

(** What a worker does after [hist]. *)
Definition boots (hist : list (call worker_call)) (p : prog worker_call worker_end) : Prop :=
  always p (λ t o, ran_booted (hist ++ t) ∨ never_ran (hist ++ t) o).

Lemma quiet_never_ran t o :
  quiet t → match o with Done EndedEarly | Panicked _ => True | _ => False end → never_ran t o.
Proof using Type.
  intros [Hs Ha] Ho. split; [done|]. rewrite Ha. split; [apply not_completed_nil|].
  destruct o as [[]|w]; auto.
Qed.

Lemma boots_early hist : quiet hist → boots hist (mret EndedEarly).
Proof using Type. intros Hq. right. rewrite app_nil_r. by apply quiet_never_ran. Qed.

Lemma boots_panic hist w : quiet hist → boots hist (Panic w).
Proof using Type. intros Hq. right. rewrite app_nil_r. by apply quiet_never_ran. Qed.

Lemma boots_bind {A} hist (p : prog worker_call A) k :
  quiet hist → confined silent p → (∀ t a, quiet (hist ++ t) → boots (hist ++ t) (k a)) →
  boots hist (p ≫= k).
Proof using Type.
  intros Hh Hp Hk. unfold boots. eapply under_bind_intro; [by apply confined_quiet| |].
  - intros t w Ht. right. apply quiet_never_ran; [by apply quietly_app|done].
  - intros t a Ht. eapply under_mono; [done| |apply (Hk t a); by apply quietly_app].
    intros t' o. by rewrite app_assoc.
Qed.

Lemma boots_call {X} hist (e : worker_call X) k :
  quiet hist → silent X e →
  (∀ x, quiet (hist ++ [Call e x]) → boots (hist ++ [Call e x]) (k x)) → boots hist (trigger e ≫= k).
Proof using Type.
  intros Hh [He Hx] Hk. unfold boots. apply under_call. intros x _.
  eapply under_mono; [done| |apply (Hk x)].
  - intros t o. cbn beta. by rewrite <-(app_assoc hist [Call e x] t).
  - apply quietly_app; [done|]. split; [by constructor|]. by rewrite actions_cons, Hx.
Qed.

(** The bootstrap, and what follows it. *)
Lemma boots_bootstrap hist ast container sm (rest : ResultSequence → prog worker_call worker_end) :
  quiet hist → built hist ast → set_back ast hist →
  boots hist (boot ← worker_bootstrap transaction_time container query_id (labelled_config ast) sm;
    match boot with
    | None => mret EndedEarly
    | Some sm => _ ← trigger (ChangeState StRunning); rest sm
    end).
Proof using Type.
  intros [Hs Ha] Hb Hv. unfold boots. eapply under_bind_intro; [apply worker_bootstrap_boots| |].
  - intros t w (Ht & s & t' & -> & Hn). right. split; [by apply Forall_app|]. split; [|done].
    by rewrite actions_app, Ha, actions_cons.
  - intros t [sm'|] (Ht & s & t' & -> & Hn); simpl.
    + intros [] _. eapply under_mono; [done| |apply under_true]. intros t2 o _. left.
      exists ast, hist, s, t', t2. split; [done|]. by inversion Ht.
    + rewrite app_nil_r. right. split; [by apply Forall_app|].
      rewrite actions_app, Ha, actions_cons. split; [apply Hn|]. right.
      destruct Hn as [_ [e He]]. exists e. by rewrite list.last_app, He.
Qed.
End run.

(** C16: a worker runs its query only after what the query's state asks for.
    Whatever the services answer: when the worker sets the query running, then
    before that, and after it built the query, it read the query's state, having
    published nothing, given the engine nothing and subscribed to nothing; if the
    state was Configured or Bootstrapping, all of this it did from there on was one
    complete bootstrap: [BootstrapStarted], for every
    source of the query, with the labels the query names, the subscription and
    each element with its results in order, and [BootstrapCompleted], each
    post answered.  In the other states it did none of it, and the state was not
    TerminalError: a query that was running, or that failed with a
    TransientError, is run as it is ([transient_error_skips_bootstrap]: also when
    its bootstrap was never finished).  A query that was running on a volatile
    store was set back to Configured before.  A worker that does not set the query
    running ends early or panics, without a completed bootstrap; when it ends and
    had published, processed or subscribed anything, it left the query in
    TerminalError. *)
Theorem worker_runs_only_bootstrapped rounds factory container query_id spec :
  always (worker_run transaction_time index_error_to_string change_from_slice redis_url
            buffer_size fetch_batch_size rounds factory container query_id spec)
    (λ t o, ran_booted factory query_id spec t ∨ never_ran t o).
Proof.
  change (boots factory query_id spec [] (worker_run transaction_time index_error_to_string
    change_from_slice redis_url buffer_size fetch_batch_size rounds factory container query_id spec)).
  assert (quiet []) as H0 by (split; [constructor|done]).
  assert (∀ hist s, quiet hist → s ≠ StRunning →
    boots factory query_id spec hist (_ ← trigger (ChangeState s); mret EndedEarly)) as Hfail.
  { intros hist s Hq Hs. apply boots_call; [done|by split; [destruct s|]|].
    intros x Hx. by apply boots_early. }
  unfold worker_run. apply boots_bind; [done|by apply confined_translate|].
  intros t1 [indexes|err] H1; [|by apply Hfail].
  apply boots_call; [done|done|]. intros [ast|err] H2; [|by apply Hfail].
  set (h2 := (([] ++ t1) ++ _)) in *.
  assert (built spec h2 ast) as Hb by (exists indexes; apply elem_of_app; right; by left).
  clearbody h2. apply boots_call; [done|done|]. intros now H3.
  apply boots_bind; [done|by apply confined_translate|]. intros t4 [u|err] H4; [|by apply boots_panic].
  apply boots_call; [done|done|]. intros u5 H5. apply boots_bind; [done| |].
  { unfold configure_result_view, invoke_view. destruct (negb _); [done|]. split; [done|]. by intros []. }
  intros t6 [u6|err] H6; [|by apply Hfail].
  set (h6 := ((((h2 ++ _) ++ _) ++ _) ++ _)) in *.
  assert (built spec h6 ast) as Hb6.
  { destruct Hb as [idx Hb]. exists idx. unfold h6. by repeat (apply elem_of_app; left). }
  clearbody h6. apply boots_call; [done|done|]. intros s H7.
  assert (∀ hist sm rest, quiet hist → h6 ++ [Call GetState s] `prefix_of` hist →
    (s = StRunning → is_volatile factory (qc_storage_profile (labelled_config spec ast)) = true →
     Call (ChangeState Configured) () ∈ hist) →
    boots factory query_id spec hist
      (boot ← worker_bootstrap transaction_time container query_id (labelled_config spec ast) sm;
       match boot with
       | None => mret EndedEarly
       | Some sm => _ ← trigger (ChangeState StRunning); rest sm
       end)) as Hboot.
  { intros hist sm rest Hq [l ->] Hv. apply boots_bootstrap; [done| |].
    - destruct Hb6 as [idx Hb6]. exists idx. by do 2 (apply elem_of_app; left).
    - exists s. split; [apply elem_of_app; left; apply elem_of_app; right; by left | done]. }
  change (fill_default_source_labels (spec_into spec) ast) with (labelled_config spec ast).
  destruct (bool_decide (s = StRunning) && is_volatile _ _) eqn:Hv.
  - apply boots_call; [done|done|]. intros u8 H8. apply boots_call; [done|done|].
    intros [sm|err] H9; [|by apply Hfail]. apply Hboot; [done| |].
    + rewrite <-!(assoc_L (++)). eexists. by rewrite <-(assoc_L (++)).
    + intros _ _. rewrite <-(assoc_L (++)). apply elem_of_app. right. destruct u8. by left.
  - apply (boots_call _ _ _ (h6 ++ [Call GetState s]) GetSequence); [done|done|].
    intros [sm|err] H9; [|by apply Hfail]. apply Hboot; [done|by eexists|].
    intros -> Hvol. rewrite Hvol in Hv. by rewrite bool_decide_eq_true_2 in Hv.
Qed.

Definition restarts_in (s : QueryState) (c : call worker_call) : Prop :=
  match c with
  | @Call _ X e x =>
      match e in worker_call X return X → Prop with
      | GetState => λ r, r = s
      | _ => λ _, True
      end x
  end.

Lemma quiet_actions_translate {E A} G (tr : ∀ X, E X → worker_call X) (p : prog E A) :
  (∀ X (e : E X) x, action_of (Call (tr X e) x) = None) →
  under G (translate tr p) (λ t _, actions t = []).
Proof.
  intros Htr. apply under_translate.
  eapply under_mono; [intros c Hc; exact Hc| |apply under_true].
  intros t _ _. induction t as [|[X e x] t IH]; [done|].
  change (map ?f (?c :: t)) with (f c :: map f t). cbn [translate_call].
  by rewrite actions_cons, Htr.
Qed.

Lemma quiet_actions_view G container query_id method arg view :
  under G (invoke_view container query_id method arg view) (λ t _, actions t = []).
Proof. unfold invoke_view. destruct (negb _); [done|]. by intros [] _. Qed.

(** A worker restarted after a transient error marks the query as running
    without any bootstrap, whatever the error was: nothing has been posted,
    no source subscribed to and no change processed when the state is set,
    even if the error happened before the first bootstrap or the query's
    indexes live in memory and were lost. *)
Theorem transient_error_skips_bootstrap rounds factory container query_id spec err :
  under (restarts_in (TransientError err))
    (worker_run transaction_time index_error_to_string change_from_slice redis_url
            buffer_size fetch_batch_size rounds
       factory container query_id spec)
    (λ t o, o = Done EndedStopped ∨ o = Done StillLooping →
       ∃ t1 t2, t = t1 ++ Call (ChangeState StRunning) () :: t2 ∧ actions t1 = []).
Proof.
  unfold worker_run.
  eapply under_bind_intro; [by apply quiet_actions_translate|naive_solver|].
  intros t0 [set|e] Ht0; [|simpl; naive_solver].
  apply under_call; intros [ast|e] _; [|simpl; naive_solver].
  apply under_call; intros now _.
  eapply under_bind_intro; [by apply quiet_actions_translate|naive_solver|].
  intros tc [p|e] Htc; [|simpl; naive_solver].
  apply under_call; intros u _.
  eapply under_bind_intro; [apply quiet_actions_view|naive_solver|].
  intros t1 [[]|e] Ht1; [|simpl; naive_solver].
  apply under_call; intros s ->. rewrite bool_decide_eq_false_2 by done.
  apply (under_call _ GetSequence); intros [sm|e] _; [|simpl; naive_solver].
  apply (under_call _ GetState); intros s ->. apply (under_call _ (ChangeState _)). intros [] _.
  eapply under_mono; [intros c Hc; exact Hc| |apply under_true].
  intros t _ _ _. eexists (t0 ++ _ :: _ :: tc ++ _ :: t1 ++ [_; _; _]), t. split.
  - rewrite <-app_assoc. simpl. rewrite <-app_assoc. simpl. rewrite <-app_assoc.
    simpl. reflexivity.
  - rewrite actions_app, Ht0, !actions_cons. simpl.
    by rewrite actions_app, Htc, actions_cons; simpl; rewrite actions_app, Ht1.
Qed.
End states.
