(* ===== verification/SequenceStore.v ===== *)
(** * SequenceStore: the stored sequence number of a query
    ([query-container/query-host/src/query_worker.rs], [SequenceManager])

    The manager hands its number to a task of its own, through a [watch] channel,
    and the task writes it to the result index.  The two run side by side: a run
    is a schedule of their steps.  What is stored when the manager is gone is what
    the next worker of the query goes on from. *)
From S2P Require Import Prelude Core HostApi Effects RustText ChangeStream IndexFactory Lifecycle.
From S2P Require Import SourceClient Publisher QueryWorker QueryWorkerSpec.

(** ** The task *)

(** Where the task is: in [rx.changed()], before reading the value ([chg] says
    whether [changed] answered [Ok]), in [apply_sequence], or over ([stored] says
    whether its last write worked). *)
Inductive task_point :=
| Waiting
| Reading (chg : bool)
| Applying (latest : ResultSequence) (chg : bool)
| Finished (stored : bool).

(** The channel, with the version of the value and the one the task has seen, and
    the number in the index. *)
Record Sequencer := mkSequencer {
  sq_value : ResultSequence;
  sq_version : nat;
  sq_seen : nat;
  sq_open : bool;
  sq_point : task_point;
  sq_stored : ResultSequence;
}.

Inductive seq_step :=
| Send (v : ResultSequence)
| DropSender
| Changed
| Borrow
| Apply (refused : bool).

(** [SequenceManager::new]: the channel holds the default, which counts as seen. *)
Definition sequencer_new (default_sequence stored : ResultSequence) : Sequencer :=
  mkSequencer default_sequence 0 0 true Waiting stored.

(** One step, [None] when it cannot be taken.  [changed] waits for a value that was
    not seen, or for the sender to be gone. *)
Definition take_step (e : seq_step) (s : Sequencer) : option Sequencer :=
  let '(mkSequencer value version seen open point stored) := s in
  match e, point with
  | Send v, _ =>
      if open then Some (mkSequencer v (S version) seen open point stored) else None
  | DropSender, _ => if open then Some (mkSequencer value version seen false point stored) else None
  | Changed, Waiting =>
      if decide (version ≠ seen) then
        Some (mkSequencer value version version open (Reading true) stored)
      else if open then None
      else Some (mkSequencer value version seen open (Reading false) stored)
  | Borrow, Reading chg => Some (mkSequencer value version seen open (Applying value chg) stored)
  | Apply refused, Applying latest chg =>
      let stored := if refused : bool then stored else latest in
      Some (mkSequencer value version seen open
              (if chg then Waiting else Finished (negb refused)) stored)
  | _, _ => None
  end.

Fixpoint take_steps (es : list seq_step) (s : Sequencer) : option Sequencer :=
  match es with
  | [] => Some s
  | e :: es => s ← take_step e s; take_steps es s
  end.

Definition sends_of (es : list seq_step) : list ResultSequence :=
  omap (λ e, match e with Send v => Some v | _ => None end) es.

(** *** What is stored in the end *)

(** The value that was sent last; once the sender is gone it stays, and the task's
    last round writes it. *)
Definition sequencer_ok (last_sent : ResultSequence) (s : Sequencer) : Prop :=
  sq_value s = last_sent ∧
  match sq_point s with
  | Waiting => True
  | Reading chg => chg = false → sq_open s = false
  | Applying latest chg => chg = false → sq_open s = false ∧ latest = last_sent
  | Finished stored => sq_open s = false ∧ (stored = true → sq_stored s = last_sent)
  end.

Lemma take_step_ok v e s s' :
  sequencer_ok v s → take_step e s = Some s' →
  sequencer_ok (match e with Send w => w | _ => v end) s'.
Proof.
  destruct s as [value version seen open point stored]. unfold sequencer_ok. cbn.
  intros (-> & Hp) Hs. destruct e as [w| | | |refused], point; cbn in *; repeat case_match;
    simplify_eq; cbn; naive_solver.
Qed.

Lemma take_steps_ok v es s s' :
  sequencer_ok v s → take_steps es s = Some s' →
  sequencer_ok (default v (list.last (sends_of es))) s'.
Proof.
  revert v s. induction es as [|e es IH]; intros v s Hok; cbn; [by intros [= <-]|].
  destruct (take_step e s) as [s1|] eqn:E; [|done]. cbn. intros Hes.
  specialize (IH _ _ (take_step_ok _ _ _ _ Hok E) Hes).
  destruct e; cbn in IH |- *; try exact IH. fold (sends_of es).
  destruct (sends_of es) as [|w l] eqn:El; [exact IH|].
  change (list.last (v0 :: w :: l)) with (list.last (w :: l)).
  destruct (list.last (w :: l)) eqn:Elast; [exact IH|]. by apply last_None in Elast.
Qed.

(** When the task is over and its last write worked, the index holds the number
    that was sent last - or, when none was sent, the channel's default. *)
Lemma sequencer_stores_last dflt stored0 es s :
  take_steps es (sequencer_new dflt stored0) = Some s → sq_point s = Finished true →
  sq_stored s = default dflt (list.last (sends_of es)).
Proof.
  intros Hes Hp. destruct (take_steps_ok dflt es (sequencer_new dflt stored0) s) as [_ Hs]; [done..|].
  rewrite Hp in Hs. by apply Hs.
Qed.

(** *** The task comes to its end *)

Definition task_step (e : seq_step) : bool :=
  match e with Changed | Borrow | Apply _ => true | _ => false end.

(** The steps the task still takes once the sender is gone, at most. *)
Definition steps_left (s : Sequencer) : nat :=
  match sq_point s with
  | Finished _ => 0
  | Applying _ chg => if chg then 4 + (if decide (sq_version s = sq_seen s) then 0 else 3) else 1
  | Reading chg => if chg then 5 + (if decide (sq_version s = sq_seen s) then 0 else 3) else 2
  | Waiting => 3 + (if decide (sq_version s = sq_seen s) then 0 else 3)
  end.

Lemma task_step_less e s s' :
  sq_open s = false → take_step e s = Some s' →
  sq_open s' = false ∧ steps_left s' < steps_left s.
Proof.
  destruct s as [value version seen open point stored]. cbn. intros -> Hs.
  destruct e as [w| | | |refused], point as [|[]|latest []|]; cbn in Hs; repeat case_match;
    simplify_eq; unfold steps_left; cbn; repeat case_decide; (split; [done|]); try done; lia.
Qed.

Lemma task_goes_on s :
  sq_open s = false → (∃ stored, sq_point s = Finished stored) ∨
  ∃ e s', task_step e = true ∧ take_step e s = Some s'.
Proof.
  destruct s as [value version seen open point stored]. cbn. intros ->.
  destruct point as [|chg|latest chg|st].
  - right. exists Changed. cbn. case_decide; by eexists.
  - right. exists Borrow. by eexists.
  - right. exists (Apply false). by eexists.
  - left. by exists st.
Qed.

(** Once the manager is gone, the task takes at most eight more steps, and it
    stops nowhere but at its end. *)
Lemma sequencer_finishes s es s' :
  sq_open s = false → take_steps es s = Some s' →
  length es ≤ 8 ∧ ((∃ stored, sq_point s' = Finished stored) ∨
    ∃ e s'', task_step e = true ∧ take_step e s' = Some s'').
Proof.
  intros Ho Hes. assert (Hall : length es ≤ steps_left s ∧ sq_open s' = false).
  { revert s Ho Hes. induction es as [|e es IH]; intros s Ho; cbn [take_steps].
    - intros [= <-]. cbn. split; [lia|done].
    - destruct (take_step e s) as [s1|] eqn:E; [|done]. intros Hes.
      destruct (task_step_less e s s1 Ho E) as [Ho1 Hless].
      destruct (IH s1 Ho1 Hes) as [Hl Ho']. cbn. split; [lia|done]. }
  destruct Hall as [Hl Ho']. split; [|by apply task_goes_on].
  etrans; [exact Hl|]. unfold steps_left. repeat case_match; lia.
Qed.

(** ** What a worker sends the task *)

Section worker.
Context `{DrasiCore}.
Context (transaction_time : SourceChange → Z).
Context (index_error_to_string : IndexError → string).
Context (change_from_slice : string → result ChangeEvent string).
Context (redis_url : string) (buffer_size fetch_batch_size : Z).

Definition sent_of (c : call worker_call) : option ResultSequence :=
  match c with
  | @Call _ X e _ => match e with SendSequence v => Some v | _ => None end
  end.

Notation sent t := (observe sent_of t).

(** The numbers sent are those of the events published, one for one. *)
Definition mirrors (t : list (call worker_call)) : Prop :=
  map sequence (sent t) = map event_sequence (published t).

Definition mirrored {A} (p : prog worker_call A) : Prop :=
  always p (λ t o, ∀ a, o = Done a → mirrors t).

Lemma mirrors_app t t' : mirrors t → mirrors t' → mirrors (t ++ t').
Proof.
  unfold mirrors. intros Ht Ht'. by rewrite observe_app, published_app, !map_app, Ht, Ht'.
Qed.

Lemma mirrored_ret {A} (a : A) : mirrored (mret a).
Proof. done. Qed.
Lemma mirrored_panic {A} w : mirrored (A:=A) (Panic w).
Proof. done. Qed.

Lemma mirrored_bind {A B} (p : prog worker_call A) (k : A → prog worker_call B) :
  mirrored p → (∀ a, mirrored (k a)) → mirrored (p ≫= k).
Proof.
  intros Hp Hk. unfold mirrored. eapply under_bind_intro; [exact Hp|done|].
  intros t a Ht. eapply under_mono; [done| |apply Hk].
  intros t' o Ho b ->. apply mirrors_app; [by eapply Ht|by eapply Ho].
Qed.

Lemma mirrored_call {X A} (e : worker_call X) (k : X → prog worker_call A) :
  (∀ x, posted_of (Call e x) = None ∧ sent_of (Call e x) = None) → (∀ x, mirrored (k x)) →
  mirrored (trigger e ≫= k).
Proof.
  intros He Hk x _. eapply under_mono; [done| |apply Hk]. intros t o Ho a ->.
  destruct (He x) as [Hp Hs]. unfold mirrors, observe. cbn [omap list_omap].
  rewrite published_cons, Hp, Hs. exact (Ho a eq_refl).
Qed.

Lemma mirrored_trigger {X} (e : worker_call X) :
  (∀ x, posted_of (Call e x) = None ∧ sent_of (Call e x) = None) → mirrored (trigger e).
Proof. intros He. by apply (mirrored_call e mret). Qed.

Lemma mirrored_translate {E A} (tr : ∀ X, E X → worker_call X) (p : prog E A) :
  (∀ X (e : E X) x, posted_of (Call (tr X e) x) = None ∧ sent_of (Call (tr X e) x) = None) →
  mirrored (translate tr p).
Proof.
  intros Htr. unfold mirrored. apply under_translate.
  eapply under_mono; [| |apply (under_true anything)]; [done|].
  intros t o _ a _. induction t as [|[X e x] t IH]; [done|].
  change (map (translate_call tr) (Call e x :: t))
    with ([Call (tr X e) x] ++ map (translate_call tr) t).
  apply mirrors_app; [|exact IH]. destruct (Htr X e x) as [Hp Hs].
  unfold mirrors, observe. cbn [omap list_omap]. by rewrite published_cons, Hp, Hs.
Qed.

(** Incrementing and publishing the event with the number. *)
Lemma increment_publish_mirrored {A} id sm query_id (ev : Z → ResultEvent)
    (k : result unit string → ResultSequence → prog worker_call A) :
  (∀ s, event_sequence (ev s) = s) → (∀ r sm', mirrored (k r sm')) →
  mirrored ('(seq, sm') ← increment id sm; r ← publish query_id (ev seq); k r sm').
Proof.
  intros Hev Hk [] _ r _.
  assert (Hone : ∀ sm' (p : prog worker_call A), mirrored p → always p (λ t o, ∀ a, o = Done a →
    mirrors (Call (SendSequence sm') () ::
      Call (PostResult (query_id +:+ "-results") (ev (sequence sm'))) r :: t))).
  { intros sm' p Hp. eapply under_mono; [done| |exact Hp]. intros t o Ho a ->.
    apply (mirrors_app [_; _]); [|by eapply Ho]. unfold mirrors. cbn. by rewrite Hev. }
  destruct r; apply Hone, Hk.
Qed.

Lemma publish_control_mirrored query_id signal sm : mirrored (publish_control query_id signal sm).
Proof. intros [] _ now _ r _. unfold publish_control. by destruct r. Qed.

(** [mirrored] for the worker's parts, by their structure. *)
Ltac mirror :=
  match goal with
  | |- mirrored (mret _) => apply mirrored_ret
  | |- mirrored (Panic _) => apply mirrored_panic
  | |- mirrored (trigger _ ≫= _) => apply mirrored_call; [by intros|intros]
  | |- mirrored (trigger _) => apply mirrored_trigger; by intros
  | |- mirrored (translate _ _) => apply mirrored_translate; by intros
  | |- mirrored (publish_control _ _ _) => apply publish_control_mirrored
  | |- mirrored (match ?x with _ => _ end) => destruct x
  | |- mirrored (_ ≫= _) => apply mirrored_bind; [|intros]
  end.

Lemma invoke_view_mirrored container query_id method arg view :
  mirrored (invoke_view container query_id method arg view).
Proof. unfold invoke_view. repeat mirror. Qed.

Lemma process_change_mirrored query_id evt enq deq sm :
  mirrored (process_change query_id evt enq deq sm).
Proof.
  unfold process_change. destruct (try_into _); [|apply mirrored_ret].
  apply mirrored_call; [by intros|intros start].
  apply mirrored_call; [by intros|intros [changes|err]]; [|apply mirrored_ret].
  apply mirrored_call; [by intros|intros end_]. destruct changes; [apply mirrored_ret|].
  apply increment_publish_mirrored; [done|]. intros [] ?; apply mirrored_ret.
Qed.

Lemma bootstrap_lines_mirrored query_id source lines sm :
  mirrored (bootstrap_lines transaction_time query_id source lines sm).
Proof.
  revert sm. induction lines as [|line lines IH]; intros sm; cbn [bootstrap_lines]; [apply mirrored_ret|].
  destruct (stream_item source line) as [[change|e]|w]; [|apply mirrored_ret|apply mirrored_panic].
  apply mirrored_call; [by intros|intros [results|e]]; [|apply mirrored_ret].
  apply increment_publish_mirrored; [done|]. intros [] sm'; [apply IH|apply mirrored_ret].
Qed.

Lemma bootstrap_sources_mirrored container query_id sources sm :
  mirrored (bootstrap_sources transaction_time container query_id sources sm).
Proof.
  revert sm. induction sources as [|source sources IH]; intros sm; cbn [bootstrap_sources];
    [apply mirrored_ret|]. apply mirrored_bind; [repeat mirror|]. intros [lines|e]; [|apply mirrored_ret].
  apply mirrored_bind; [apply bootstrap_lines_mirrored|]. intros [[] sm']; [apply IH|apply mirrored_ret].
Qed.

Lemma bootstrap_mirrored container query_id config sm :
  mirrored (bootstrap transaction_time container query_id config sm).
Proof.
  unfold bootstrap. apply mirrored_bind; [mirror|]. intros [[] sm1]; [|apply mirrored_ret].
  do 2 (apply mirrored_call; [by intros|intros]).
  apply mirrored_bind; [apply bootstrap_sources_mirrored|]. intros [[] sm2]; repeat mirror.
Qed.

Lemma unsubscribe_all_mirrored container query_id subs :
  mirrored (unsubscribe_all container query_id subs).
Proof. induction subs as [|s subs IH]; cbn [unsubscribe_all]; repeat mirror. exact IH. Qed.

Lemma loop_round_mirrored container query_id config view w :
  mirrored (loop_round change_from_slice container query_id config view w).
Proof.
  unfold loop_round. apply mirrored_call; [by intros|]. intros [cmd|].
  - unfold on_command, on_delete. destruct cmd as [[]|]; repeat mirror;
      try apply unsubscribe_all_mirrored; apply invoke_view_mirrored.
  - unfold on_message. apply mirrored_bind; [repeat mirror|]. intros [[[evt|]|err] stream]; repeat mirror.
    unfold on_event, do_ack. apply mirrored_call; [by intros|intros now].
    destruct (negb _); [repeat mirror|].
    apply mirrored_bind; [apply process_change_mirrored|]. intros [[] sm]; repeat mirror.
Qed.

Lemma worker_loop_mirrored rounds container query_id config view w :
  mirrored (worker_loop change_from_slice rounds container query_id config view w).
Proof.
  revert w. induction rounds as [|rounds IH]; intros w; cbn [worker_loop]; [apply mirrored_ret|].
  apply mirrored_bind; [apply loop_round_mirrored|]. intros [[] w']; [apply IH|apply mirrored_ret].
Qed.

Lemma worker_run_mirrored rounds factory container query_id spec :
  mirrored (worker_run transaction_time index_error_to_string change_from_slice redis_url
    buffer_size fetch_batch_size rounds factory container query_id spec).
Proof.
  unfold worker_run, configure_result_view, worker_bootstrap, worker_stream.
  repeat first [apply invoke_view_mirrored|apply bootstrap_mirrored|apply worker_loop_mirrored|mirror].
Qed.

(** ** Across restarts *)

Notation run_of := (worker_run transaction_time index_error_to_string change_from_slice redis_url
  buffer_size fetch_batch_size).

(** The number read at the start, and the events numbered from it. *)
Definition numbered_from (n : Z) (l : list ResultEvent) : Prop :=
  ∀ i e, l !! i = Some e → event_sequence e = u64_add n (Z.of_nat (S i)).

Lemma seq_after_last n l n' :
  seq_after n l = Some n' → n' = default n (list.last (map event_sequence l)).
Proof.
  revert n. induction l as [|e l IH]; intros n; cbn [seq_after]; [by intros [= ->]|].
  case_decide as He; [|done]. intros Hl. rewrite (IH _ Hl). cbn [map].
  destruct l as [|e' l]; [done|].
  change (list.last (event_sequence e :: map event_sequence (e' :: l)))
    with (list.last (map event_sequence (e' :: l))).
  destruct (list.last (map event_sequence (e' :: l))) eqn:E; [done|]. by apply last_None in E.
Qed.

(** C2: A query's results stay numbered without a gap across restarts.  Whatever the
    services answer, the events a worker publishes carry the numbers that follow
    the one it reads at its start, one by one, in the order they are published.
    When its run is over and it published something, then however the task that
    stores the numbers was interleaved with it, once that task is over and its last
    write worked, a next worker of the query, which reads what was stored, goes on
    from there: the events of both are numbered consecutively. *)
Theorem numbering_survives_restart dflt stored0 rounds factory container query_id spec
    rounds' factory' container' query_id' spec' :
  always (run_of rounds factory container query_id spec) (λ t o,
    (∃ sm, (Call GetSequence (Ok sm) ∈ t ∨ published t = []) ∧
       numbered_from (sequence sm) (published t) ∧
    (∀ a, o = Done a → published t ≠ [] → ∀ sched s,
      sends_of sched = sent t → take_steps sched (sequencer_new dflt stored0) = Some s →
      sq_point s = Finished true →
      always (run_of rounds' factory' container' query_id' spec') (λ t' _,
        (∀ r, Call GetSequence r ∈ t' → r = Ok (sq_stored s)) →
        numbered_from (sequence sm) (published t ++ published t'))))).
Proof.
  eapply under_mono; [done| |apply under_conj; [apply worker_run_numbered|apply worker_run_mirrored]].
  intros t o [[Ht|(sm & t1 & t2 & n' & -> & Ht1 & Hseq)] Hm].
  { exists dflt. rewrite Ht. split_and!; [by right|by intros i e|done]. }
  assert (Hpub : published (t1 ++ Call GetSequence (Ok sm) :: t2) = published t2).
  { by rewrite published_app, Ht1, published_cons. }
  exists sm. rewrite Hpub in *. split_and!.
  - left. apply elem_of_app. right. by left.
  - intros i e Hi. by eapply seq_after_lookup.
  - intros a -> Hne sched s Hsends Hsched Hfin.
    assert (Hstored : sequence (sq_stored s) = n').
    { rewrite (sequencer_stores_last _ _ _ _ Hsched Hfin), Hsends, (seq_after_last _ _ _ Hseq).
      specialize (Hm a eq_refl). unfold mirrors in Hm. rewrite Hpub in Hm. rewrite <-Hm.
      rewrite fmap_last. destruct (list.last (sent _)) as [v|] eqn:E; [done|].
      apply last_None in E. rewrite E in Hm. by destruct (published t2). }
    eapply under_mono; [done| |apply (worker_run_numbered transaction_time index_error_to_string
      change_from_slice redis_url buffer_size fetch_batch_size rounds' factory' container' query_id' spec')].
    intros t' o' [Ht'|(sm' & t1' & t2' & m & -> & Ht1' & Hseq')] Hread.
    { rewrite Ht', app_nil_r. intros i e Hi. by eapply seq_after_lookup. }
    assert (Hsm : Ok (E:=string) sm' = Ok (sq_stored s)).
    { apply Hread, elem_of_app. right. by left. }
    injection Hsm as ->. rewrite Hstored in Hseq'.
    rewrite published_app, Ht1', published_cons. cbn [app].
    intros i e Hi. eapply seq_after_lookup; [|exact Hi]. by rewrite (seq_after_app _ _ _ _ Hseq).
Qed.

(** The broker cannot be reached. *)
Definition unreachable (c : call worker_call) : Prop :=
  match c with
  | @Call _ X e x =>
      match e in worker_call X return X → Prop with
      | WOpen c =>
          match c in open_call X return X → Prop with
          | OpenClient _ => λ r, is_ok r = false
          | _ => λ _, True
          end
      | _ => λ _, True
      end x
  end.

(** A worker that ends before it publishes anything - after its bootstrap its stream
    cannot be opened, say - resets the stored number to the channel's default: its
    manager sent nothing, and the task's last round writes what the channel holds. *)
Lemma early_end_resets_sequence dflt stored0 rounds container query_id config view start sm :
  under unreachable
    (worker_stream change_from_slice redis_url buffer_size fetch_batch_size rounds container
       query_id config view start sm) (λ t o, o = Done EndedEarly ∧
    ∀ sched s, sends_of sched = sent t → take_steps sched (sequencer_new dflt stored0) = Some s →
      sq_point s = Finished true → sq_stored s = dflt).
Proof.
  unfold worker_stream, new_stream. intros [u|err] Hr; [done|]. intros [] _. split; [done|].
  intros sched s Hs Hsched Hfin. by rewrite (sequencer_stores_last _ _ _ _ Hsched Hfin), Hs.
Qed.
End worker.

(** ** Examples *)

(** The task may read late: it stores the second number only, and the last one. *)
Definition example_schedule : list seq_step :=
  [Send (mkSeqNo 8 "control"); Send (mkSeqNo 9 "a"); Changed; Borrow; Send (mkSeqNo 10 "control");
   Apply false; DropSender; Changed; Borrow; Apply false; Changed; Borrow; Apply false]%string.

Example late_task_stores_last :
  sq_stored <$> take_steps example_schedule (sequencer_new (mkSeqNo 0 "") (mkSeqNo 7 "x")) =
    Some (mkSeqNo 10 "control").
Proof. reflexivity. Qed.

(** Nothing was sent: the stored number is gone. *)
Example unused_manager_resets :
  sq_stored <$> take_steps [DropSender; Changed; Borrow; Apply false]
    (sequencer_new (mkSeqNo 0 "") (mkSeqNo 7 "x")) = Some (mkSeqNo 0 "").
Proof. reflexivity. Qed.
