(* ===== verification/Dapr.v ===== *)
(** * Dapr: the actor runtime's interface, shared by the actors

    The [dapr] library's types, and the state store its sidecar keeps for an
    actor. *)
From S2P Require Import Prelude.

(** [ActorStateOperation] *)
Inductive state_op :=
| Upsert (key : string) (value : string)
| DeleteKey (key : string).

Inductive ActorError :=
| MethodError (e : string)
| SerializationError
| CorruptedState.

(** The answer of an actor's HTTP method. *)
Inductive response :=
| RespOk
| RespConflict (msg : string)
| RespInternal (msg : string).

(** ** The state store *)

Definition apply_op (kv : gmap string string) (o : state_op) : gmap string string :=
  match o with Upsert k v => <[k := v]> kv | DeleteKey k => delete k kv end.

(** A value that is not there reads as no bytes. *)
Definition stored_value (kv : gmap string string) (key : string) : string :=
  default EmptyString (kv !! key).

Lemma stored_value_upsert kv k v : stored_value (apply_op kv (Upsert k v)) k = v.
Proof. unfold stored_value. simpl. by rewrite lookup_insert_eq. Qed.
