(* ===== verification/QueryActor.v ===== *)
(** * QueryActor: the actor that owns a query
    ([query-container/query-host/src/query_actor.rs])

    The actor's optional values are its state; the lifecycle it shares with the
    worker, the worker itself and the Dapr sidecar are reached by calls. *)
From S2P Require Import Prelude BTree Json HostApi Effects Lifecycle Dapr QueryWorker.

(** ** State and calls *)

(** A started worker, by the number of its start. *)
Definition worker_handle := nat.

Record QueryActor := mkActor {
  qa_config : option QuerySpec;
  qa_worker : option worker_handle;
  qa_watcher : bool;
}.

Definition actor_new : QueryActor := mkActor None None false.

Inductive actor_call : Type → Type :=
| LcGet : actor_call QueryState
| LcInit (s : QueryState) : actor_call unit
| LcChange (s : QueryState) : actor_call unit
| GetActorState (key : string) : actor_call (result string string)
| ExecuteTransaction (ops : list state_op) : actor_call (result unit string)
| RegisterReminder (name : string) (due period : Z) : actor_call (result unit string)
| UnregisterReminder (name : string) : actor_call (result unit string)
| SpawnWatcher : actor_call unit
| AbortWatcher : actor_call unit
| StartWorker (spec : QuerySpec) : actor_call worker_handle
| HandleFinished (w : worker_handle) : actor_call bool
| SendCommand (w : worker_handle) (c : Command) : actor_call (result unit string)
| TakeShutdownRx (w : worker_handle) : actor_call bool
| AwaitShutdown (w : worker_handle) : actor_call unit
| HostName : actor_call (option string).

Definition set_config (c : option QuerySpec) (a : QueryActor) : QueryActor :=
  mkActor c (qa_worker a) (qa_watcher a).
Definition set_worker (w : option worker_handle) (a : QueryActor) : QueryActor :=
  mkActor (qa_config a) w (qa_watcher a).
Definition set_watcher (b : bool) (a : QueryActor) : QueryActor :=
  mkActor (qa_config a) (qa_worker a) b.

Section actor.
(** [serde_json] on the two stored values. *)
Context (config_to_vec : option QuerySpec → result string string).
Context (config_from_slice : string → result (option QuerySpec) string).
Context (state_to_vec : QueryState → result string string).
Context (state_from_slice : string → result QueryState string).

Notation P := (prog actor_call).

(** ** The worker's handle ([QueryWorker]'s methods) *)

Definition worker_delete (w : worker_handle) : P unit :=
  _ ← trigger (SendCommand w CmdDelete); mret ().

Definition worker_pause (w : worker_handle) : P unit :=
  _ ← trigger (SendCommand w CmdPause); mret ().

Definition worker_shutdown (w : worker_handle) : P unit :=
  finished ← trigger (HandleFinished w);
  if (finished : bool) then mret ()
  else _ ← trigger (SendCommand w CmdShutdown); mret ().

(** The receiver can be taken once. *)
Definition worker_shutdown_async (w : worker_handle) : P unit :=
  _ ← worker_shutdown w;
  rx ← trigger (TakeShutdownRx w);
  if (rx : bool) then trigger (AwaitShutdown w) else mret ().

Definition worker_is_finished (w : worker_handle) : P bool := trigger (HandleFinished w).

(** ** Helpers *)

Definition register_reminder : P (result unit ActorError) :=
  r ← trigger (RegisterReminder "ping" 10 60);
  match r with
  | Ok _ => mret (Ok ())
  | Err e => mret (Err (MethodError e))
  end.

Definition unregister_reminder : P (result unit ActorError) :=
  r ← trigger (UnregisterReminder "ping");
  match r with
  | Ok _ => mret (Ok ())
  | Err e => mret (Err (MethodError e))
  end.

Definition persist_config (a : QueryActor) : P (result unit ActorError) :=
  match config_to_vec (qa_config a) with
  | Err _ => mret (Err SerializationError)
  | Ok s =>
      result ← trigger (ExecuteTransaction [Upsert "config" s]);
      match result with
      | Ok _ => mret (Ok ())
      | Err _ => mret (Err CorruptedState)
      end
  end.

(** The second half of [read_state]. *)
Definition read_config (a : QueryActor) : P (result unit ActorError * QueryActor) :=
  config ← trigger (GetActorState "config");
  match config with
  | Err _ => mret (Err CorruptedState, a)
  | Ok data =>
      if str_eqb data "" then mret (Ok (), set_config None a)
      else
        match config_from_slice data with
        | Err _ => mret (Err SerializationError, a)
        | Ok (Some c) => mret (Ok (), set_config (Some c) a)
        | Ok None => mret (Ok (), set_config None a)
        end
  end.

Definition read_state (a : QueryActor) : P (result unit ActorError * QueryActor) :=
  status ← trigger (GetActorState "status");
  match status with
  | Err _ => mret (Err CorruptedState, a)
  | Ok data =>
      if str_eqb data "" then
        _ ← trigger (LcInit New);
        read_config a
      else
        match state_from_slice data with
        | Err _ => mret (Err SerializationError, a)
        | Ok s =>
            _ ← trigger (LcInit s);
            read_config a
        end
  end.

Definition init_worker (a : QueryActor) : P (result unit ActorError * QueryActor) :=
  running ← match qa_worker a with
            | Some w => finished ← worker_is_finished w; mret (negb finished)
            | None => mret false
            end;
  if (running : bool) then mret (Err (MethodError "Query worker already running"), a)
  else
    match qa_config a with
    | None =>
        _ ← trigger (LcChange (TerminalError "Not configured"));
        mret (Err (MethodError "Missing config"), a)
    | Some config =>
        worker ← trigger (StartWorker config);
        mret (Ok (), set_worker (Some worker) a)
    end.

(** ** The actor's methods *)

Definition configure (spec : QuerySpec) (a : QueryActor) : P (response * QueryActor) :=
  match qa_config a with
  | Some _ => mret (RespConflict "Query already configured", a)
  | None =>
      let a := set_config (Some spec) a in
      _ ← trigger (LcChange Configured);
      r ← persist_config a;
      match r with
      | Err _ => mret (RespInternal "Error persisting state", a)
      | Ok _ =>
          r ← register_reminder;
          match r with
          | Err _ => mret (RespInternal "Error registering reminder", a)
          | Ok _ =>
              '(r, a) ← init_worker a;
              match r with
              | Err _ => mret (RespInternal "Error initializing worker", a)
              | Ok _ => mret (RespOk, a)
              end
          end
      end
  end.

Definition reconcile (a : QueryActor) : P (response * QueryActor) := mret (RespOk, a).

Definition get_status (container : string) (a : QueryActor) : P QueryStatus :=
  host ← trigger HostName;
  s ← trigger LcGet;
  e ← trigger LcGet;
  mret {| st_host_name := default EmptyString host;
          st_status := state_to_string s;
          st_container := container;
          st_error_message := default EmptyString (get_error (lifecycle_new e)) |}.

Definition deprovision (a : QueryActor) : P (response * QueryActor) :=
  a ← match qa_worker a with
      | Some w =>
          _ ← worker_delete w;
          _ ← worker_shutdown w;
          mret (set_worker None a)
      | None => mret a
      end;
  r ← unregister_reminder;
  match r with
  | Err _ => mret (RespInternal "Error unregistering reminder", a)
  | Ok _ =>
      let a := set_config None a in
      _ ← trigger (LcChange Deleted);
      r ← persist_config a;
      match r with
      | Err _ => mret (RespInternal "Error persisting state", a)
      | Ok _ => mret (RespOk, a)
      end
  end.

(** ** Activation, deactivation, reminders *)

Definition on_activate (a : QueryActor) : P (result unit ActorError * QueryActor) :=
  '(r, a) ← read_state a;
  match r with
  | Err e => mret (Err e, a)
  | Ok _ =>
      _ ← trigger SpawnWatcher;
      let a := set_watcher true a in
      s ← trigger LcGet;
      match s with
      | Configured | StRunning => '(_, a) ← init_worker a; mret (Ok (), a)
      | Bootstrapping => '(_, a) ← init_worker a; mret (Ok (), a)
      | TerminalError _ => _ ← unregister_reminder; mret (Ok (), a)
      | _ => mret (Ok (), a)
      end
  end.

Definition is_transient (a : QueryActor) : bool :=
  match qa_config a with
  | Some c => match spec_transient c with Some f => f | None => false end
  | None => false
  end.

Definition on_deactivate (a : QueryActor) : P (result unit ActorError * QueryActor) :=
  let transient := is_transient a in
  a ← match qa_worker a with
      | Some w =>
          let a := set_worker None a in
          if transient then
            _ ← worker_delete w;
            _ ← worker_shutdown w;
            _ ← unregister_reminder;
            let a := set_config None a in
            _ ← trigger (LcChange Deleted);
            _ ← persist_config a;
            mret a
          else
            _ ← worker_shutdown_async w;
            mret a
      | None => mret a
      end;
  if qa_watcher a then
    _ ← trigger AbortWatcher;
    mret (Ok (), set_watcher false a)
  else mret (Ok (), a).

Definition on_reminder (a : QueryActor) : P (result unit ActorError * QueryActor) :=
  s ← trigger LcGet;
  match s with
  | TransientError _ =>
      '(r, a) ← init_worker a;
      match r with
      | Err e => mret (Err e, a)
      | Ok _ => mret (Ok (), a)
      end
  | _ => mret (Ok (), a)
  end.

(** ** The status watcher *)

(** The task's own calls: the watch channel and the sidecar. *)
Inductive watcher_call : Type → Type :=
| OnChanged : watcher_call (option QueryState)
| UpdateStatus (ops : list state_op) : watcher_call (result unit string).

(** [OnChanged] answers with the latest state, or [None] when the channel is
    closed; at most [rounds] changes. *)
Fixpoint watch_status (rounds : nat) : prog watcher_call bool :=
  match rounds with
  | O => mret false
  | S rounds =>
      changed ← trigger OnChanged;
      match changed with
      | None => mret true
      | Some state =>
          match state_to_vec state with
          | Err _ => watch_status rounds
          | Ok s =>
              _ ← trigger (UpdateStatus [Upsert "status" s]);
              watch_status rounds
          end
      end
  end.

(** ** Sequences of operations *)

Inductive actor_op :=
| AConfigure (spec : QuerySpec)
| AReconcile
| ADeprovision
| AActivate
| ADeactivate
| AReminder.

Definition actor_step (o : actor_op) (a : QueryActor) : P QueryActor :=
  match o with
  | AConfigure spec => '(_, a) ← configure spec a; mret a
  | AReconcile => '(_, a) ← reconcile a; mret a
  | ADeprovision => '(_, a) ← deprovision a; mret a
  | AActivate => '(_, a) ← on_activate a; mret a
  | ADeactivate => '(_, a) ← on_deactivate a; mret a
  | AReminder => '(_, a) ← on_reminder a; mret a
  end.

(** The actor's turns: Dapr runs one method at a time. *)
Fixpoint actor_steps (os : list actor_op) (a : QueryActor) : P QueryActor :=
  match os with
  | [] => mret a
  | o :: os => a ← actor_step o a; actor_steps os a
  end.
End actor.
