(* ===== verification/QueryActorSpec.v ===== *)
(** * QueryActorSpec: what the query actor guarantees *)
From S2P Require Import Prelude BTree Json HostApi Effects Lifecycle Dapr QueryWorker QueryActor.

(** ** Workers *)

Section workers.
Context (config_to_vec : option QuerySpec → result string string).
Context (config_from_slice : string → result (option QuerySpec) string).
Context (state_from_slice : string → result QueryState string).

Notation trace := (list (call actor_call)).

(** The worker [h] was seen finished, or was told to end. *)
Definition ended (t : trace) (h : worker_handle) : Prop :=
  Call (HandleFinished h) true ∈ t ∨
  ∃ c r, Call (SendCommand h c) r ∈ t ∧ c ≠ CmdPause.

Definition starts (c : call actor_call) : option (QuerySpec * worker_handle) :=
  match c with
  | @Call _ X e x =>
      match e in actor_call X return X → _ with
      | StartWorker spec => λ h, Some (spec, h)
      | _ => λ _, None
      end x
  end.

(** Every worker started in [t] was ended in [t], but for the ones in [w]. *)
Definition only_alive (t : trace) (w : option worker_handle) : Prop :=
  ∀ spec h, Call (StartWorker spec) h ∈ t → ended t h ∨ w = Some h.

(** A worker is started only when no other is alive. *)
Definition may_start (t : trace) (c : call actor_call) : Prop :=
  is_Some (starts c) → only_alive t None.

Definition alive_inv (t : trace) (a : QueryActor) : Prop := only_alive t (qa_worker a).

Notation guarded := (guards anything may_start).

Lemma ended_app t t' h : ended t h → ended (t ++ t') h.
Proof. unfold ended. set_solver. Qed.

(** A call that starts no worker keeps the invariant. *)
Lemma only_alive_snoc t c w : starts c = None → only_alive t w → only_alive (t ++ [c]) w.
Proof.
  intros Hc Ht spec h [Hin|Hin]%elem_of_app.
  - destruct (Ht spec h Hin); [left; by apply ended_app | by right].
  - apply list_elem_of_singleton in Hin. by subst c.
Qed.

Lemma only_alive_start t spec h :
  only_alive t None → only_alive (t ++ [Call (StartWorker spec) h]) (Some h).
Proof.
  intros Ht spec' h' [Hin|Hin]%elem_of_app.
  - destruct (Ht spec' h' Hin); [left; by apply ended_app | done].
  - apply list_elem_of_singleton in Hin. apply (f_equal starts) in Hin.
    simpl in Hin. simplify_eq. by right.
Qed.

(** A worker that ended may be forgotten. *)
Lemma only_alive_forget t w :
  only_alive t w → (∀ h, w = Some h → ended t h) → only_alive t None.
Proof. intros Ht Hw spec h Hin. destruct (Ht spec h Hin); auto. Qed.

Lemma actor_quiet_call {X A} t (e : actor_call X) (k : X → prog actor_call A) w Q :
  (∀ x, starts (Call e x) = None) → only_alive t w →
  (∀ x, only_alive (t ++ [Call e x]) w → guarded (t ++ [Call e x]) (k x) Q) →
  guarded t (trigger e ≫= k) Q.
Proof.
  intros He Ht Hk. apply guards_call.
  - intros x _ [y Hy]. by rewrite He in Hy.
  - intros x _. by apply Hk, only_alive_snoc.
Qed.

(** Steps through calls that start nothing; the invariant is [H]. *)
Ltac quiet H :=
  repeat first
    [ apply guards_ret
    | eapply actor_quiet_call; [by intros | exact H | clear H; intros ? H]
    | match goal with |- guards _ _ _ (match ?x with _ => _ end) _ => destruct x end
    | match goal with |- guards _ _ _ (match ?x with _ => _ end ≫= _) _ => destruct x end ].

Lemma init_worker_alive t a :
  alive_inv t a → guarded t (init_worker a) (λ t' r, alive_inv t' r.2).
Proof.
  intros Ht. unfold init_worker.
  apply (guards_bind _ _ _ _ _ (λ t' running, alive_inv t' a ∧
    (running = false → only_alive t' None))).
  - unfold alive_inv in *. destruct (qa_worker a) as [w|] eqn:Hw; [|by apply guards_ret].
    eapply actor_quiet_call; [by intros | exact Ht|]. intros finished Ht'. apply guards_ret.
    split; [done|]. intros Hf. apply (only_alive_forget _ _ Ht').
    intros h [= ->]. left. destruct finished; [set_solver|done].
  - intros t' [] [Ha Hn]; [by apply guards_ret|].
    destruct (qa_config a) as [config|]; [|quiet Ha; done].
    apply guards_call; [by intros h _ _; apply Hn|]. intros h _. apply guards_ret.
    apply only_alive_start. by apply Hn.
Qed.

Lemma persist_config_alive t a b :
  alive_inv t b → guarded t (persist_config config_to_vec a) (λ t' _, alive_inv t' b).
Proof. intros Ht. unfold persist_config, alive_inv in *. quiet Ht; done. Qed.

Lemma unregister_alive t b :
  alive_inv t b → guarded t unregister_reminder (λ t' _, alive_inv t' b).
Proof. intros Ht. unfold unregister_reminder, alive_inv in *. quiet Ht; done. Qed.

(** Telling a worker to delete itself and shut down ends it. *)
Lemma delete_shutdown_alive t a w :
  alive_inv t a → qa_worker a = Some w →
  guarded t (worker_delete w) (λ t' _, only_alive t' None).
Proof.
  intros Ht Hw. unfold worker_delete, alive_inv in *. eapply actor_quiet_call; [by intros|exact Ht|].
  intros r Ht'. apply guards_ret. apply (only_alive_forget _ _ Ht'). rewrite Hw.
  intros h [= ->]. right. exists CmdDelete, r. set_solver.
Qed.

Lemma worker_shutdown_alive t a w :
  alive_inv t a → qa_worker a = Some w →
  guarded t (worker_shutdown w) (λ t' _, only_alive t' None).
Proof.
  intros Ht Hw. unfold worker_shutdown, alive_inv in *.
  eapply actor_quiet_call; [by intros|exact Ht|]. intros [] Ht'.
  - apply guards_ret. apply (only_alive_forget _ _ Ht'). rewrite Hw.
    intros h [= ->]. left. set_solver.
  - eapply actor_quiet_call; [by intros|exact Ht'|]. intros r Ht''. apply guards_ret.
    apply (only_alive_forget _ _ Ht''). rewrite Hw.
    intros h [= ->]. right. exists CmdShutdown, r. set_solver.
Qed.

Lemma shutdown_none t w :
  only_alive t None → guarded t (worker_shutdown w) (λ t' _, only_alive t' None).
Proof. intros Ht. unfold worker_shutdown. quiet Ht; done. Qed.

Lemma configure_alive t spec a :
  alive_inv t a → guarded t (configure config_to_vec spec a) (λ t' r, alive_inv t' r.2).
Proof.
  intros Ht. unfold configure. destruct (qa_config a); [by apply guards_ret|].
  eapply actor_quiet_call; [by intros | exact Ht | intros u Ht1].
  eapply guards_bind; [apply (persist_config_alive _ _ (set_config (Some spec) a) Ht1)|].
  intros t2 [[]|e] Ht2; [|by apply guards_ret].
  eapply guards_bind.
  { unfold register_reminder. eapply actor_quiet_call; [by intros | exact Ht2 | intros r Ht3].
    instantiate (1 := λ t' _, alive_inv t' (set_config (Some spec) a)).
    destruct r; by apply guards_ret. }
  intros t3 [[]|e] Ht3; [|by apply guards_ret].
  eapply guards_bind; [apply (init_worker_alive _ _ Ht3)|].
  intros t4 [[|] a4] Ht4; by apply guards_ret.
Qed.

Lemma deprovision_alive t a :
  alive_inv t a → guarded t (deprovision config_to_vec a) (λ t' r, alive_inv t' r.2).
Proof.
  intros Ht. unfold deprovision.
  apply (guards_bind _ _ _ _ _ (λ t' a', alive_inv t' a')).
  { destruct (qa_worker a) as [w|] eqn:Hw; [|by apply guards_ret].
    eapply guards_bind; [by eapply delete_shutdown_alive|]. intros t1 ? Ht1.
    eapply guards_bind; [by eapply shutdown_none|]. intros t2 ? Ht2. by apply guards_ret. }
  intros t1 a1 Ht1. eapply guards_bind; [by apply unregister_alive|].
  intros t2 [[]|e] Ht2; [|by apply guards_ret].
  eapply actor_quiet_call; [by intros | exact Ht2 | intros u Ht3].
  eapply guards_bind; [apply (persist_config_alive _ _ (set_config None a1) Ht3)|].
  intros t4 [[]|e] Ht4; by apply guards_ret.
Qed.

Lemma on_activate_alive t a :
  alive_inv t a →
  guarded t (on_activate config_from_slice state_from_slice a) (λ t' r, alive_inv t' r.2).
Proof.
  intros Ht. unfold on_activate.
  apply (guards_bind _ _ _ _ _ (λ t' (r : _ * QueryActor), alive_inv t' r.2)).
  { unfold read_state, read_config. unfold alive_inv in *. quiet Ht; done. }
  intros t1 [[[]|e] a1] Ht1; [|by apply guards_ret]. simpl in Ht1.
  assert (alive_inv t1 (set_watcher true a1)) as Ht1' by done.
  unfold alive_inv in Ht1'.
  eapply actor_quiet_call; [by intros | exact Ht1' | intros u Ht2].
  eapply actor_quiet_call; [by intros | exact Ht2 | intros s Ht3].
  destruct s; try (by apply guards_ret);
    try (eapply guards_bind; [apply (init_worker_alive _ (set_watcher true a1) Ht3)|];
         intros t4 [r a4] Ht4; by apply guards_ret).
  eapply guards_bind; [apply (unregister_alive _ (set_watcher true a1) Ht3)|].
  intros t4 r Ht4. by apply guards_ret.
Qed.

Lemma on_deactivate_alive t a :
  alive_inv t a → guarded t (on_deactivate config_to_vec a) (λ t' r, alive_inv t' r.2).
Proof.
  intros Ht. unfold on_deactivate.
  apply (guards_bind _ _ _ _ _ (λ t' a', alive_inv t' a' )).
  { destruct (qa_worker a) as [w|] eqn:Hw; [|by apply guards_ret].
    destruct (is_transient a).
    - eapply guards_bind; [by eapply delete_shutdown_alive|]. intros t1 ? Ht1.
      eapply guards_bind; [by eapply shutdown_none|]. intros t2 ? Ht2.
      eapply guards_bind; [apply (unregister_alive _ (set_worker None a) Ht2)|]. intros t3 ? Ht3.
      eapply actor_quiet_call; [by intros | exact Ht3 | intros u Ht4].
      eapply guards_bind;
        [apply (persist_config_alive _ _ (set_config None (set_worker None a)) Ht4)|].
      intros t5 ? Ht5. by apply guards_ret.
    - apply (guards_bind _ _ _ _ _ (λ t' _, only_alive t' None));
        [|intros t1 ? Ht1; by apply guards_ret].
      unfold worker_shutdown_async.
      eapply guards_bind; [by eapply worker_shutdown_alive|]. intros t1 ? Ht1.
      eapply actor_quiet_call; [by intros | exact Ht1 | intros rx Ht2].
      destruct rx; [|by apply guards_ret].
      intros x _. split; [apply all_justified_cons; [by intros [y Hy]|apply all_justified_nil]|].
      intros ? _. by apply only_alive_snoc. }
  intros t1 a1 Ht1. destruct (qa_watcher a1); [|by apply guards_ret].
  eapply actor_quiet_call; [by intros | exact Ht1 | intros u Ht2]. by apply guards_ret.
Qed.

Lemma on_reminder_alive t a :
  alive_inv t a → guarded t (on_reminder a) (λ t' r, alive_inv t' r.2).
Proof.
  intros Ht. unfold on_reminder. eapply actor_quiet_call; [by intros | exact Ht | intros s Ht1].
  destruct s; try by apply guards_ret.
  eapply guards_bind; [by apply init_worker_alive|].
  intros t2 [[]a2] Ht2; by apply guards_ret.
Qed.

Lemma actor_steps_alive t os a :
  alive_inv t a →
  guarded t (actor_steps config_to_vec config_from_slice state_from_slice os a) alive_inv.
Proof.
  revert t a. induction os as [|o os IH]; intros t a Ht; cbn [actor_steps].
  { by apply guards_ret. }
  eapply guards_bind; [|intros; by apply IH].
  destruct o; cbn [actor_step]; (eapply guards_bind;
    [ first [ by apply configure_alive | by apply deprovision_alive | by apply on_activate_alive
            | by apply on_deactivate_alive | by apply on_reminder_alive
            | by apply (guards_ret _ _ t (RespOk, a) (λ t' r, alive_inv t' r.2)) ]
    | intros t' [r a'] Ha; by apply guards_ret ]).
Qed.

(** C32: over any sequence of turns of an actor, whatever the services answer, a
    worker is started only when every worker started before it was seen
    finished or was told to delete itself or to shut down. *)
Theorem one_worker_at_a_time os :
  always (actor_steps config_to_vec config_from_slice state_from_slice os actor_new)
    (λ t _, ∀ i c, t !! i = Some c → is_Some (starts c) →
       ∀ spec h, Call (StartWorker spec) h ∈ take i t → ended (take i t) h).
Proof.
  eapply under_mono; [done| |eapply guards_calls, actor_steps_alive].
  - intros t o Ht i c Hi Hc spec h Hin. by destruct (Ht i c Hi Hc spec h Hin).
  - intros spec h Hin. by apply elem_of_nil in Hin.
Qed.
End workers.

(** ** The stored configuration *)

(** A sidecar whose actor state works: reads answer the stored value (empty
    when there is none), transactions are applied, nothing else touches it. *)
Class ActorEnv (W : Type) := {
  actor_handler : ∀ X, actor_call X → W → X * W;
  actor_kv : W → gmap string string;
}.

(** The effect a call has on the stored values. *)
Definition kv_after {X} (e : actor_call X) (kv : gmap string string) : gmap string string :=
  match e with ExecuteTransaction ops => foldl apply_op kv ops | _ => kv end.

Class ActorEnvLaws (W : Type) `{ActorEnv W} := {
  kv_step X (e : actor_call X) w : actor_kv (actor_handler X e w).2 = kv_after e (actor_kv w);
  get_answer key w :
    (actor_handler _ (GetActorState key) w).1 = Ok (stored_value (actor_kv w) key);
  transaction_answer ops w : (actor_handler _ (ExecuteTransaction ops) w).1 = Ok ();
}.

Section stored.
Context (config_to_vec : option QuerySpec → result string string).
Context (config_from_slice : string → result (option QuerySpec) string).
Context (state_from_slice : string → result QueryState string).
(** [serde_json] writes a configuration as a text it reads back. *)
Definition roundtrips (c : option QuerySpec) : Prop :=
  ∃ s, config_to_vec c = Ok s ∧ s ≠ ""%string ∧ config_from_slice s = Ok c.
Context (none_roundtrips : roundtrips None).
Context `{ActorEnvLaws W}.

(** The configuration a fresh activation reads. *)
Definition stored_config (w : W) : result (option QuerySpec) string :=
  let s := stored_value (actor_kv w) "config" in
  if str_eqb s "" then Ok None else config_from_slice s.

Definition agrees (a : QueryActor) (w : W) : Prop := stored_config w = Ok (qa_config a).

Notation wpa := (wp actor_handler).

(** A call that is no transaction leaves the stored configuration alone. *)
Lemma stored_config_step {X} (e : actor_call X) w :
  (∀ kv, kv_after e kv = kv) → stored_config (actor_handler X e w).2 = stored_config w.
Proof. intros He. unfold stored_config. by rewrite kv_step, He. Qed.

Lemma agrees_call {X A} (e : actor_call X) (k : X → prog actor_call A) a w Q :
  (∀ kv, kv_after e kv = kv) → agrees a w →
  (∀ x w', agrees a w' → wpa (k x) w' Q) → wpa (trigger e ≫= k) w Q.
Proof.
  intros He Hw Hk. apply wp_call, Hk. unfold agrees. by rewrite stored_config_step.
Qed.

(** Calls that keep the store, whatever the agreement is. *)
Lemma neutral_call {X A} (e : actor_call X) (k : X → prog actor_call A) w Q :
  (∀ kv, kv_after e kv = kv) → (∀ x w', wpa (k x) w' Q) → wpa (trigger e ≫= k) w Q.
Proof. intros He Hk. by apply wp_call. Qed.

Lemma persist_stores {A} a w (k : result unit ActorError → prog actor_call A) Q :
  roundtrips (qa_config a) → (∀ w', agrees a w' → wpa (k (Ok ())) w' Q) →
  wpa (persist_config config_to_vec a ≫= k) w Q.
Proof.
  intros Hrt Hk. apply wp_bind. unfold persist_config.
  destruct Hrt as (s & -> & Hs & Hd).
  apply wp_call. rewrite transaction_answer. apply wp_ret, Hk.
  unfold agrees, stored_config, stored_value. rewrite kv_step. simpl.
  rewrite lookup_insert_eq. simpl. unfold str_eqb. by rewrite bool_decide_eq_false_2.
Qed.

Ltac walk H :=
  repeat first
    [ match goal with |- wp _ (match ?x with _ => _ end) _ _ => destruct x end
    | match goal with |- wp _ (match ?x with _ => _ end ≫= _) _ _ => destruct x end
    | eapply agrees_call; [by intros | exact H | clear H; intros ? ? H] ].

Lemma init_worker_stores {B} (a : QueryActor) (k : _ → prog actor_call B) w Q :
  agrees a w → (∀ r a' w', agrees a' w' → wpa (k (r, a')) w' Q) →
  wpa (init_worker a ≫= k) w Q.
Proof.
  intros Hw Hk. apply wp_bind. unfold init_worker.
  assert (∀ w', agrees a w' → wpa (match qa_config a with
    | None => _ ← trigger (LcChange (TerminalError "Not configured"));
        mret (Err (MethodError "Missing config"), a)
    | Some config => worker ← trigger (StartWorker config);
        mret (Ok (), set_worker (Some worker) a) end) w'
    (λ o s', match o with Done x => wpa (k x) s' Q | Panicked w => Q (Panicked w) s' end)).
  { intros w' Hw'. destruct (qa_config a) eqn:Hc; walk Hw'; apply wp_ret, Hk; [|done].
    unfold agrees in *. simpl. by rewrite Hw'. }
  apply wp_bind. destruct (qa_worker a) as [wk|]; [|by apply wp_ret; auto].
  eapply agrees_call; [by intros | exact Hw | intros fin w' Hw'].
  apply wp_ret. destruct fin; simpl; [auto|]. by apply wp_ret, Hk.
Qed.

Definition then_agrees {A} (f : A → QueryActor) (o : outcome A) (w : W) : Prop :=
  ∀ r, o = Done r → agrees (f r) w.

Lemma then_agrees_ret {A} (f : A → QueryActor) r w :
  agrees (f r) w → wpa (mret r) w (then_agrees f).
Proof. intros Hr. apply wp_ret. by intros ? [= <-]. Qed.

Lemma configure_stores spec a w :
  roundtrips (Some spec) → agrees a w → wpa (configure config_to_vec spec a) w (then_agrees snd).
Proof.
  intros Hrt Hw. unfold configure. destruct (qa_config a); [by apply then_agrees_ret|].
  apply neutral_call; [done|intros u w1]. apply persist_stores; [done|]. intros w2 Hw2.
  apply wp_bind. unfold register_reminder.
  eapply agrees_call; [by intros | exact Hw2 | intros r w3 Hw3].
  destruct r; apply wp_ret; [|by apply then_agrees_ret].
  apply init_worker_stores; [done|]. intros [] a' w' Hw'; by apply then_agrees_ret.
Qed.

Lemma unregister_stores {A} (a : QueryActor) (k : _ → prog actor_call A) w Q :
  agrees a w → (∀ r w', agrees a w' → wpa (k r) w' Q) → wpa (unregister_reminder ≫= k) w Q.
Proof.
  intros Hw Hk. apply wp_bind. unfold unregister_reminder.
  eapply agrees_call; [by intros | exact Hw | intros r w1 Hw1].
  destruct r; apply wp_ret; by apply Hk.
Qed.

Lemma shutdown_stores {A} (a : QueryActor) h (k : _ → prog actor_call A) w Q :
  agrees a w → (∀ w', agrees a w' → wpa (k ()) w' Q) → wpa (worker_shutdown h ≫= k) w Q.
Proof.
  intros Hw Hk. apply wp_bind. unfold worker_shutdown. walk Hw; apply wp_ret; by apply Hk.
Qed.

Lemma deprovision_stores a w :
  agrees a w → wpa (deprovision config_to_vec a) w (then_agrees snd).
Proof.
  intros Hw. unfold deprovision. apply wp_bind.
  assert (∀ a w, agrees a w → wpa (r ← unregister_reminder; match r with
    | Err _ => mret (RespInternal "Error unregistering reminder", a)
    | Ok _ =>
      let a := set_config None a in
      _ ← trigger (LcChange Deleted);
      r ← persist_config config_to_vec a;
      match r with
      | Err _ => mret (RespInternal "Error persisting state", a)
      | Ok _ => mret (RespOk, a)
      end end) w (then_agrees snd)) as Hrest.
  { clear a w Hw. intros a w Hw. apply (unregister_stores a); [done|]. intros [] w1 Hw1;
      [|by apply then_agrees_ret].
    apply neutral_call; [done|intros u w2]. apply persist_stores; [done|]. intros w3 Hw3.
    by apply then_agrees_ret. }
  destruct (qa_worker a) as [h|]; [|by apply wp_ret, Hrest].
  apply wp_bind. unfold worker_delete.
  eapply agrees_call; [by intros | exact Hw | intros r w1 Hw1]. apply wp_ret.
  apply (shutdown_stores a); [done|]. intros w2 Hw2. by apply wp_ret, Hrest.
Qed.

Lemma on_deactivate_stores a w :
  agrees a w → wpa (on_deactivate config_to_vec a) w (then_agrees snd).
Proof.
  intros Hw. unfold on_deactivate. apply wp_bind.
  assert (∀ a w, agrees a w → wpa (if qa_watcher a then _ ← trigger AbortWatcher;
    mret (Ok (), set_watcher false a) else mret (Ok () : result unit ActorError, a)) w
    (then_agrees snd)) as Hrest.
  { clear a w Hw. intros a w Hw. destruct (qa_watcher a); [|by apply then_agrees_ret].
    eapply agrees_call; [by intros | exact Hw | intros r w1 Hw1]. by apply then_agrees_ret. }
  destruct (qa_worker a) as [h|]; [|by apply wp_ret, Hrest].
  destruct (is_transient a).
  - apply wp_bind. unfold worker_delete.
    eapply agrees_call; [by intros | exact Hw | intros r w1 Hw1]. apply wp_ret.
    apply (shutdown_stores a); [done|]. intros w2 Hw2.
    apply (unregister_stores a); [done|]. intros r' w3 Hw3.
    apply neutral_call; [done|intros u w4]. apply persist_stores; [done|]. intros w5 Hw5.
    by apply wp_ret, Hrest.
  - apply wp_bind. unfold worker_shutdown_async. apply (shutdown_stores a); [done|].
    intros w2 Hw2. eapply agrees_call; [by intros | exact Hw2 | intros rx w3 Hw3].
    destruct rx.
    + apply wp_trigger, wp_ret, Hrest. unfold agrees. by rewrite stored_config_step.
    + by apply wp_ret, wp_ret, Hrest.
Qed.

Lemma read_config_stores a w :
  wpa (read_config config_from_slice a) w (λ o w', ∀ r a', o = Done (r, a') →
    stored_config w' = stored_config w ∧ qa_worker a' = qa_worker a ∧
    (r = Ok () → agrees a' w') ∧ (∀ e, r = Err e → a' = a)).
Proof.
  unfold read_config. apply wp_call. rewrite get_answer.
  assert (∀ c, stored_config w = Ok c → agrees (set_config c a)
    (actor_handler _ (GetActorState "config") w).2) as Hag.
  { intros c Hc. unfold agrees. by rewrite stored_config_step. }
  pose proof (stored_config_step (GetActorState "config") w (λ _, eq_refl)) as Hst.
  unfold stored_config at 1 in Hag.
  destruct (str_eqb _ ""); [|destruct (config_from_slice _) as [[c|]|e] eqn:Hc];
    apply wp_ret; intros r a' [= <- <-]; naive_solver.
Qed.

(** What an activation reads is what the store holds. *)
Lemma read_state_stores a w :
  wpa (read_state config_from_slice state_from_slice a) w (λ o w', ∀ r a', o = Done (r, a') →
    stored_config w' = stored_config w ∧ (r = Ok () → agrees a' w') ∧
    (∀ e, r = Err e → a' = a)).
Proof.
  unfold read_state. apply wp_call.
  set (w1 := (actor_handler _ (GetActorState "status") w).2).
  assert (stored_config w1 = stored_config w) as Hw1 by by apply stored_config_step.
  rewrite get_answer.
  assert (∀ s w', w' = (actor_handler _ (LcInit s) w1).2 →
    wpa (read_config config_from_slice a) w' (λ o w', ∀ r a', o = Done (r, a') →
      stored_config w' = stored_config w ∧ (r = Ok () → agrees a' w') ∧
      (∀ e, r = Err e → a' = a))) as Hrest.
  { intros s w' ->. eapply wp_mono; [|apply read_config_stores].
    intros o w' Ho r a' Hr. destruct (Ho r a' Hr) as (Hst & _ & Hok & Herr).
    rewrite stored_config_step in Hst by done. split_and!; [congruence|done..]. }
  destruct (str_eqb _ ""); [by apply wp_call, (Hrest New)|].
  destruct (state_from_slice _) as [st|e]; [by apply wp_call, (Hrest st)|].
  apply wp_ret. intros r a' [= <- <-]. done.
Qed.

Lemma on_activate_stores a w :
  agrees a w → wpa (on_activate config_from_slice state_from_slice a) w (then_agrees snd).
Proof.
  intros Hw. unfold on_activate. apply wp_bind. eapply wp_mono; [|apply read_state_stores].
  intros [[r a1]|why] w1 Ho; [|done]. destruct (Ho r a1 eq_refl) as (Hst & Hok & Herr).
  destruct r as [[]|e].
  2:{ apply then_agrees_ret. simpl. rewrite (Herr e eq_refl). unfold agrees. by rewrite Hst. }
  assert (agrees (set_watcher true a1) w1) as Hw1 by by apply Hok.
  eapply agrees_call; [by intros | exact Hw1 | intros u w2 Hw2].
  eapply agrees_call; [by intros | exact Hw2 | intros s w3 Hw3].
  destruct s; try (by apply then_agrees_ret);
    try (apply init_worker_stores; [done|]; intros r a' w' Hw'; by apply then_agrees_ret).
  apply (unregister_stores (set_watcher true a1)); [done|]. intros r w4 Hw4.
  by apply then_agrees_ret.
Qed.

Lemma on_reminder_stores a w :
  agrees a w → wpa (on_reminder a) w (then_agrees snd).
Proof.
  intros Hw. unfold on_reminder. eapply agrees_call; [by intros | exact Hw | intros s w1 Hw1].
  destruct s; try (by apply then_agrees_ret).
  apply init_worker_stores; [done|]. intros [] a' w' Hw'; by apply then_agrees_ret.
Qed.

Notation steps_of := (actor_steps config_to_vec config_from_slice state_from_slice).

Lemma actor_steps_stores os a w :
  (∀ spec, AConfigure spec ∈ os → roundtrips (Some spec)) → agrees a w → wpa (steps_of os a) w (then_agrees id).
Proof.
  intros Hrt. revert a w. induction os as [|o os IH]; intros a w Hw; cbn [actor_steps].
  { by apply then_agrees_ret. }
  assert (∀ spec, o = AConfigure spec → roundtrips (Some spec)) as Ho
    by (intros spec ->; apply Hrt; left).
  specialize (IH (λ spec Hs, Hrt spec (list_elem_of_further _ _ _ Hs))).
  apply wp_bind. apply (wp_mono _ _ _ (then_agrees id)).
  { intros [a1|why] w1 Ha1; [|done]. by apply IH, (Ha1 a1). }
  destruct o; cbn [actor_step]; apply wp_bind; (eapply wp_mono;
    [| first [ by apply configure_stores; [apply Ho|] | by apply deprovision_stores
             | by apply on_activate_stores | by apply on_deactivate_stores
             | by apply on_reminder_stores
             | by apply (then_agrees_ret snd (RespOk, a)) ] ]);
    (intros [[r a1]|why] w1 Ha1; [|done]); by apply then_agrees_ret, (Ha1 (r, a1)).
Qed.

End stored.

(** A sidecar holding the stored values, and a serialiser of the actor's
    configurations that tells apart the two of the example. *)
#[local] Instance kv_env : ActorEnv (gmap string string) := {
  actor_handler X e w :=
    match e in actor_call X return X * gmap string string with
    | LcGet => (StRunning, w)
    | LcInit _ | LcChange _ | SpawnWatcher | AbortWatcher => ((), w)
    | GetActorState key => (Ok (stored_value w key), w)
    | ExecuteTransaction ops => (Ok (), foldl apply_op w ops)
    | RegisterReminder _ _ _ | UnregisterReminder _ => (Ok (), w)
    | StartWorker _ => (0%nat, w)
    | HandleFinished _ => (true, w)
    | SendCommand _ _ => (Ok (), w)
    | TakeShutdownRx _ => (false, w)
    | AwaitShutdown _ => ((), w)
    | HostName => (None, w)
    end;
  actor_kv w := w;
}.

#[local] Instance kv_env_laws : ActorEnvLaws (gmap string string).
Proof. split; [|done..]. by intros X []. Qed.

Definition example_spec : QuerySpec :=
  {| spec_mode := "query"; spec_query := "MATCH (n) RETURN n"; spec_query_language := None;
     spec_sources := {| src_subscriptions := []; src_joins := []; src_middleware := [] |};
     spec_storage_profile := None;
     spec_view := {| vs_enabled := false; vs_retention_policy := Latest |};
     spec_transient := Some true |}.

Definition example_config_to_vec (c : option QuerySpec) : result string string :=
  Ok match c with Some _ => "{..}" | None => "null" end%string.
Definition example_config_from_slice (s : string) : result (option QuerySpec) string :=
  if str_eqb s "null" then Ok None else Ok (Some example_spec).
Definition example_turns : list actor_op :=
  [AConfigure example_spec; AReminder; ADeprovision; AConfigure example_spec].


(** ** Configuration *)

Section configuring.
Context (config_to_vec : option QuerySpec → result string string).

Definition no_start (t : list (call actor_call)) : Prop :=
  ∀ spec h, Call (StartWorker spec) h ∉ t.

Lemma no_start_nil : no_start [].
Proof. intros spec' h Hin. by apply elem_of_nil in Hin. Qed.

Lemma no_start_cons c t : starts c = None → no_start t → no_start (c :: t).
Proof. intros Hs Ht spec' h [Heq|Hin]%elem_of_cons; [by subst c | by eapply Ht]. Qed.

Ltac no_start := repeat (apply no_start_cons; [done|]); first [assumption | apply no_start_nil].

(** The answer, the actor afterwards, and the calls: a configured actor refuses
    without a call; otherwise a worker is started last, after the configuration
    was stored and the reminder registered. *)
Definition configured_by (spec : QuerySpec) (a : QueryActor) (t : list (call actor_call))
    (r : response) (a' : QueryActor) : Prop :=
  match r with
  | RespOk => ∃ s r1 t' h, qa_worker a' = Some h ∧ config_to_vec (Some spec) = Ok s ∧
      t = Call (LcChange Configured) () ::
          Call (ExecuteTransaction [Upsert "config" s]) (Ok ()) ::
          Call (RegisterReminder "ping" 10 60) r1 :: t' ++ [Call (StartWorker spec) h] ∧
      is_ok r1 = true
  | RespConflict _ => False
  | RespInternal _ => no_start t
  end.

Lemma init_worker_outcome a spec :
  qa_config a = Some spec →
  always (init_worker a) (λ t o, ∃ r a', o = Done (r, a') ∧ qa_config a' = Some spec ∧
    match r with
    | Ok _ => ∃ t' h, t = t' ++ [Call (StartWorker spec) h] ∧ qa_worker a' = Some h
    | Err _ => no_start t
    end).
Proof.
  intros Hc. unfold init_worker, worker_is_finished.
  destruct (qa_worker a) as [w|]; [intros [] _|]; simpl; rewrite ?Hc.
  - intros h _. eexists _, _. split; [done|]. split; [done|]. exists [Call (HandleFinished w) true], h.
    done.
  - eexists _, _. split; [done|]. split; [done|]. no_start.
  - intros h _. eexists _, _. split; [done|]. split; [done|]. by exists [], h.
Qed.

(** Configuring an actor that has a configuration is refused and changes
    nothing.  Otherwise the answer is success exactly when a worker was
    started, which happens only after the configuration was stored and the
    reminder registered; and whatever the answer is, the actor keeps the
    configuration in memory, so that the next attempt is refused even when
    this one failed and nothing was stored. *)
Theorem configure_outcomes spec a :
  always (configure config_to_vec spec a) (λ t o, ∃ r a', o = Done (r, a') ∧
    match qa_config a with
    | Some _ => t = [] ∧ r = RespConflict "Query already configured" ∧ a' = a
    | None => configured_by spec a t r a' ∧ qa_config a' = Some spec ∧
        ∀ spec', configure config_to_vec spec' a' =
          mret (RespConflict "Query already configured", a')
    end).
Proof.
  unfold configure at 1. destruct (qa_config a) as [c|] eqn:Hc; [by eexists _, _|].
  assert (∀ a' spec', qa_config a' = Some spec → configure config_to_vec spec' a' =
    mret (RespConflict "Query already configured", a')) as Hretry.
  { intros a' spec' Ha'. unfold configure. by rewrite Ha'. }
  intros [] _. unfold persist_config. simpl. destruct (config_to_vec (Some spec)) as [s|e] eqn:Hs.
  2:{ eexists _, _. split; [done|]. split; [no_start|]. split; [done|]. by auto. }
  intros [[]|e] _; simpl.
  2:{ eexists _, _. split; [done|]. split; [no_start|]. split; [done|]. by auto. }
  intros [u|e] _; simpl.
  2:{ eexists _, _. split; [done|]. split; [no_start|]. split; [done|]. by auto. }
  eapply under_bind_intro; [by apply (init_worker_outcome (set_config (Some spec) a) spec)| |].
  { by intros t w (r & a' & ? & _). }
  intros t [r a'] (r' & a'' & [= <- <-] & Ha & Ht). destruct r as [[]|e].
  - destruct Ht as (t' & h & -> & Hh). eexists _, _. split; [done|]. rewrite app_nil_r.
    split; [|by auto]. exists s, (Ok u), t', h. done.
  - eexists _, _. split; [done|]. rewrite app_nil_r. split; [no_start|]. by auto.
Qed.
End configuring.
