(* ===== verification/ViewApi.v ===== *)
(** * ViewApi: the view service's types and its read endpoint
    ([query-container/view-svc/src/api.rs], [models.rs], [view_store.rs]) *)
From S2P Require Import Prelude BTree Json Effects RustText.

(** ** Types *)

Inductive RetentionPolicy :=
| Latest
| Expire (after_seconds : Z)
| All.

Record ViewSpec := { retention_policy : RetentionPolicy }.

Inductive ControlSignal :=
| BootstrapStarted | BootstrapCompleted | Running | Stopped | QueryDeleted.

#[export] Instance ControlSignal_eq_dec : EqDecision ControlSignal.
Proof. solve_decision. Defined.

(** [impl Display for ControlSignal] *)
Definition signal_to_string (s : ControlSignal) : string :=
  match s with
  | BootstrapStarted => "bootstrapping"
  | BootstrapCompleted => "bootstrap complete"
  | Running => "running"
  | Stopped => "stopped"
  | QueryDeleted => "deleted"
  end.

Record UpdatePayload := mkUpdate {
  u_before : option jmap;
  u_after : option jmap;
  u_grouping_keys : option (list string);
}.

Record ResultChangeEvent := mkChange {
  c_query_id : string;
  c_sequence : Z;
  c_source_time_ms : Z;
  c_added_results : list jmap;
  c_updated_results : list UpdatePayload;
  c_deleted_results : list jmap;
  c_metadata : option jmap;
}.

Record ResultControlEvent := mkControl {
  k_query_id : string;
  k_sequence : Z;
  k_source_time_ms : Z;
  k_metadata : option jmap;
  k_control_signal : ControlSignal;
}.

Inductive ResultEvent :=
| EvChange (e : ResultChangeEvent)
| EvControl (e : ResultControlEvent).

Inductive ViewElement :=
| Header (sequence timestamp : Z) (state : option string)
| Data (row : jmap).

Inductive ViewError :=
| StoreError (e : string)
| ViewOther (e : string)
| NotFound.

(** [impl Display for ViewError] *)
Definition view_error_to_string (e : ViewError) : string :=
  match e with
  | StoreError e => "`" +:+ e +:+ "`"
  | ViewOther e => "`" +:+ e +:+ "`"
  | NotFound => "Not Found"
  end.

(** ** Deserialisation ([#[derive(Deserialize)]] with the attributes of the
    types): an absent optional field is [None], other fields must be there. *)

Definition field (m : jmap) (k : string) : option value := jget k m.

Definition opt_field {A} (f : value → option A) (m : jmap) (k : string) : option (option A) :=
  match field m k with
  | None | Some VNull => Some None
  | Some v => a ← f v; Some (Some a)
  end.

Definition of_list {A} (f : value → option A) (v : value) : option (list A) :=
  l ← as_array v; mapM f l.

Definition update_from_value (v : value) : option UpdatePayload :=
  m ← as_object v;
  before ← opt_field as_object m "before";
  after ← opt_field as_object m "after";
  keys ← opt_field (of_list as_str) m "grouping_keys";
  Some (mkUpdate before after keys).

Definition signal_from_value (v : value) : option ControlSignal :=
  m ← as_object v;
  kind ← field m "kind" ≫= as_str;
  if str_eqb kind "bootstrapStarted" then Some BootstrapStarted
  else if str_eqb kind "bootstrapCompleted" then Some BootstrapCompleted
  else if str_eqb kind "running" then Some Running
  else if str_eqb kind "stopped" then Some Stopped
  else if str_eqb kind "deleted" then Some QueryDeleted
  else None.

Definition change_from_object (m : jmap) : option ResultChangeEvent :=
  query_id ← field m "queryId" ≫= as_str;
  sequence ← field m "sequence" ≫= as_u64_num;
  source_time_ms ← field m "sourceTimeMs" ≫= as_u64_num;
  added ← field m "addedResults" ≫= of_list as_object;
  updated ← field m "updatedResults" ≫= of_list update_from_value;
  deleted ← field m "deletedResults" ≫= of_list as_object;
  metadata ← opt_field as_object m "metadata";
  Some (mkChange query_id sequence source_time_ms added updated deleted metadata).

Definition control_from_object (m : jmap) : option ResultControlEvent :=
  query_id ← field m "queryId" ≫= as_str;
  sequence ← field m "sequence" ≫= as_u64_num;
  source_time_ms ← field m "sourceTimeMs" ≫= as_u64_num;
  metadata ← opt_field as_object m "metadata";
  signal ← field m "controlSignal" ≫= signal_from_value;
  Some (mkControl query_id sequence source_time_ms metadata signal).

Definition event_from_value (v : value) : option ResultEvent :=
  m ← as_object v;
  kind ← field m "kind" ≫= as_str;
  if str_eqb kind "change" then EvChange <$> change_from_object m
  else if str_eqb kind "control" then EvControl <$> control_from_object m
  else None.

(** ** The read endpoint *)

Inductive view_response :=
| JsonArray (elements : list ViewElement)
| Status404 (body : string)
| Status500 (body : string).

(** [view_stream], over the store's [get_view]. *)
Section endpoint.
Context {E : Type → Type}.
Context (get_view : string → option Z → prog E (result (list ViewElement) ViewError)).

Definition view_stream (query_id : string) (params : gmap string string)
    : prog E view_response :=
  let timestamp :=
    match params !! "timestamp"%string with
    | Some ts => match parse_u64 ts with Some ts => Some ts | None => None end
    | None => None
    end in
  r ← get_view query_id timestamp;
  match r with
  | Ok stream => mret (JsonArray stream)
  | Err NotFound => mret (Status404 ("View `" +:+ query_id +:+ "` not found"))
  | Err e => mret (Status500 ("Error: " +:+ view_error_to_string e))
  end.
End endpoint.
