(* ===== verification/Wire.v ===== *)
(** * Wire: the JSON forms the services exchange

    The query host serialises its result events ([api.rs] of query-host), the
    view service deserialises them ([api.rs] of view-svc): two separate
    definitions of the same wire format.  The change events the host reads come
    from the source's services.  (Structs are read from objects; the positional
    form serde also accepts occurs nowhere.) *)
From S2P Require Import Prelude BTree Json Core HostApi ViewApi.
From S2P Require SourceClient.

(** ** What the host writes ([#[derive(Serialize)]] with its attributes) *)

Definition host_update_to_value (u : HostApi.UpdatePayload) : value :=
  VObject (jobject [
    ("before", of_option VObject (up_before u));
    ("after", of_option VObject (up_after u));
    ("grouping_keys", of_option (λ l, VArray (map VString l)) (up_grouping_keys u))]%string).

Definition host_signal_to_value (s : HostApi.ControlSignal) : value :=
  let kind := match s with
    | HostApi.BootstrapStarted => "bootstrapStarted"
    | HostApi.BootstrapCompleted => "bootstrapCompleted"
    | HostApi.Running => "running"
    | HostApi.Stopped => "stopped"
    | HostApi.QueryDeleted => "deleted"
    end%string in
  VObject (jobject [("kind", VString kind)]%string).

Definition host_change_to_fields (c : HostApi.ResultChangeEvent) : list (string * value) :=
  [ ("queryId", VString (rc_query_id c));
    ("sequence", VNumber (NPos (rc_sequence c)));
    ("sourceTimeMs", VNumber (NPos (rc_source_time_ms c)));
    ("addedResults", VArray (map VObject (rc_added_results c)));
    ("updatedResults", VArray (map host_update_to_value (rc_updated_results c)));
    ("deletedResults", VArray (map VObject (rc_deleted_results c)));
    ("metadata", of_option VObject (rc_metadata c)) ]%string.

Definition host_control_to_fields (c : HostApi.ResultControlEvent) : list (string * value) :=
  [ ("queryId", VString (rk_query_id c));
    ("sequence", VNumber (NPos (rk_sequence c)));
    ("sourceTimeMs", VNumber (NPos (rk_source_time_ms c)));
    ("metadata", of_option VObject (rk_metadata c));
    ("controlSignal", host_signal_to_value (rk_control_signal c)) ]%string.

Definition host_event_to_value (e : HostApi.ResultEvent) : value :=
  match e with
  | RChange c => VObject (jobject (("kind", VString "change")%string :: host_change_to_fields c))
  | RControl c => VObject (jobject (("kind", VString "control")%string :: host_control_to_fields c))
  end.

(** ** What the view service should see *)

Definition signal_view (s : HostApi.ControlSignal) : ViewApi.ControlSignal :=
  match s with
  | HostApi.BootstrapStarted => ViewApi.BootstrapStarted
  | HostApi.BootstrapCompleted => ViewApi.BootstrapCompleted
  | HostApi.Running => ViewApi.Running
  | HostApi.Stopped => ViewApi.Stopped
  | HostApi.QueryDeleted => ViewApi.QueryDeleted
  end.

Definition update_view (u : HostApi.UpdatePayload) : ViewApi.UpdatePayload :=
  mkUpdate (up_before u) (up_after u) (up_grouping_keys u).

Definition event_view (e : HostApi.ResultEvent) : ViewApi.ResultEvent :=
  match e with
  | RChange c => EvChange (mkChange (rc_query_id c) (rc_sequence c) (rc_source_time_ms c)
      (rc_added_results c) (map update_view (rc_updated_results c)) (rc_deleted_results c)
      (rc_metadata c))
  | RControl c => EvControl (mkControl (rk_query_id c) (rk_sequence c) (rk_source_time_ms c)
      (rk_metadata c) (signal_view (rk_control_signal c)))
  end.

(** ** Change events as the query host reads them ([#[derive(Deserialize)]]) *)

(** A unit variant: its name, or an object with only the name. *)
Definition variant_name (v : value) : option string :=
  match v with
  | VString s => Some s
  | VObject [(s, VNull)] => Some s
  | _ => None
  end.

Definition change_type_from_value (v : value) : option ChangeType :=
  s ← variant_name v;
  if str_eqb s "i" then Some CtInsert
  else if str_eqb s "u" then Some CtUpdate
  else if str_eqb s "d" then Some CtDelete
  else if str_eqb s "f" then Some CtFuture
  else None.

Definition element_type_from_value (v : value) : option ElementType :=
  s ← variant_name v;
  if str_eqb s "node" then Some TNode
  else if str_eqb s "rel" then Some TRelation
  else None.

Definition time_from_value (v : value) : option ChangeEventTime :=
  m ← as_object v;
  seq ← field m "seq" ≫= as_u64_num;
  ms ← field m "ms" ≫= as_u64_num;
  Some {| t_seq := seq; t_ms := ms |}.

Definition payload_from_value (v : value) : option ChangePayload :=
  m ← as_object v;
  id ← opt_field as_str m "id";
  labels ← opt_field (of_list as_str) m "labels";
  properties ← opt_field as_object m "properties";
  start_id ← opt_field as_str m "startId";
  end_id ← opt_field as_str m "endId";
  Some (mkPayload id labels properties start_id end_id).

Definition change_event_from_value (v : value) : option ChangeEvent :=
  m ← as_object v;
  id ← field m "id" ≫= as_str;
  source_id ← field m "sourceId" ≫= as_str;
  time ← field m "time" ≫= time_from_value;
  queries ← field m "queries" ≫= of_list as_str;
  op ← field m "type" ≫= change_type_from_value;
  element_type ← opt_field element_type_from_value m "elementType";
  before ← opt_field payload_from_value m "before";
  after ← opt_field payload_from_value m "after";
  future_due_time ← opt_field as_u64_num m "futureDueTime";
  future_signature ← opt_field as_u64_num m "futureSignature";
  metadata ← opt_field as_object m "metadata";
  Some (mkChangeEvent id source_id time queries op element_type before after
    future_due_time future_signature metadata).

(** A line of a source's initial data, as the query host reads it. *)
Definition boot_element_from_value (v : value) : option SourceClient.BootstrapElement :=
  m ← as_object v;
  id ← field m "id" ≫= as_str;
  labels ← field m "labels" ≫= of_list as_str;
  properties ← field m "properties" ≫= as_object;
  start_id ← opt_field as_str m "startId";
  end_id ← opt_field as_str m "endId";
  Some (SourceClient.mkBootElement id labels properties start_id end_id).

(** ** The round trip *)

Lemma of_list_map {A B} (f : value → option A) (g : B → value) (h : B → A) l :
  (∀ b, f (g b) = Some (h b)) → of_list f (VArray (map g l)) = Some (map h l).
Proof.
  intros Hfg. unfold of_list. simpl. induction l as [|b l IH]; [done|]. simpl.
  rewrite Hfg. simpl. by rewrite IH.
Qed.

Lemma of_list_objects l : of_list as_object (VArray (map VObject l)) = Some l.
Proof. rewrite (of_list_map _ _ id); [|done]. f_equal. apply map_id. Qed.

Lemma of_list_strings l : of_list as_str (VArray (map VString l)) = Some l.
Proof. rewrite (of_list_map _ _ id); [|done]. f_equal. apply map_id. Qed.

Lemma opt_field_of {A} (f : value → option A) (g : A → value) m k o :
  jget k m = Some (of_option g o) → (∀ a, f (g a) = Some a) → (∀ a, g a ≠ VNull) →
  opt_field f m k = Some o.
Proof.
  intros Hm Hfg Hnull. unfold opt_field, field. rewrite Hm.
  destruct o as [a|]; [|done]. cbn [of_option]. specialize (Hnull a).
  destruct (g a) eqn:Hg; [done|..]; by rewrite <-Hg, Hfg.
Qed.

Lemma update_from_to u : update_from_value (host_update_to_value u) = Some (update_view u).
Proof.
  unfold update_from_value, host_update_to_value. cbn [as_object mbind option_bind].
  rewrite (opt_field_of _ VObject _ "before" (up_before u)); [|reflexivity|done..]. simpl.
  rewrite (opt_field_of _ VObject _ "after" (up_after u)); [|reflexivity|done..]. simpl.
  rewrite (opt_field_of _ (λ l, VArray (map VString l)) _ "grouping_keys" (up_grouping_keys u));
    [done|reflexivity|apply of_list_strings|done].
Qed.

(** Every result event the query host publishes is read back by the view
    service as the same event: the two services' separate definitions of the
    wire format agree, for all kinds of events, control signals and optional
    fields. *)
Theorem result_event_roundtrip e :
  event_from_value (host_event_to_value e) = Some (event_view e).
Proof.
  destruct e as [c|c]; unfold event_from_value; cbn [host_event_to_value as_object mbind option_bind].
  - change (field _ "kind") with (Some (VString "change")). cbn [mbind option_bind as_str].
    rewrite str_eqb_refl. unfold change_from_object.
    set (m := jobject _).
    change (field m "queryId") with (Some (VString (rc_query_id c))).
    change (field m "sequence") with (Some (VNumber (NPos (rc_sequence c)))).
    change (field m "sourceTimeMs") with (Some (VNumber (NPos (rc_source_time_ms c)))).
    change (field m "addedResults") with (Some (VArray (map VObject (rc_added_results c)))).
    change (field m "updatedResults")
      with (Some (VArray (map host_update_to_value (rc_updated_results c)))).
    change (field m "deletedResults") with (Some (VArray (map VObject (rc_deleted_results c)))).
    cbn [mbind option_bind as_str as_u64_num].
    rewrite !of_list_objects. cbn [mbind option_bind].
    rewrite (of_list_map _ _ update_view) by apply update_from_to. cbn [mbind option_bind].
    rewrite (opt_field_of _ VObject _ "metadata" (rc_metadata c)); [done|reflexivity|done..].
  - change (field _ "kind") with (Some (VString "control")). cbn [mbind option_bind as_str].
    rewrite str_eqb_refl. change (str_eqb "control" "change") with false. cbn match.
    unfold control_from_object. set (m := jobject _).
    change (field m "queryId") with (Some (VString (rk_query_id c))).
    change (field m "sequence") with (Some (VNumber (NPos (rk_sequence c)))).
    change (field m "sourceTimeMs") with (Some (VNumber (NPos (rk_source_time_ms c)))).
    change (field m "controlSignal") with (Some (host_signal_to_value (rk_control_signal c))).
    cbn [mbind option_bind as_str as_u64_num].
    rewrite (opt_field_of _ VObject _ "metadata" (rk_metadata c)); [|reflexivity|done..].
    cbn [mbind option_bind]. by destruct c as [???? []].
Qed.

(** Reading a field of an object through its index. *)
Lemma field_index m k v : jindex (VObject m) k = v → v ≠ VNull → field m k = Some v.
Proof. unfold field. cbn. by destruct (jget k m) as [w|]; cbn; intros ->. Qed.

Lemma opt_field_index {A} (f : value → option A) m k :
  opt_field f m k =
    match jindex (VObject m) k with VNull => Some None | v => a ← f v; Some (Some a) end.
Proof. unfold opt_field, field. cbn. destruct (jget k m) as [[]|]; done. Qed.

Lemma opt_field_missing {A} (f : value → option A) m k :
  jget k m = None → opt_field f m k = Some None.
Proof. unfold opt_field, field. by intros ->. Qed.
