(* ===== verification/ViewStore.v ===== *)
(** * ViewStore: result views kept in MongoDB
    ([query-container/view-svc/src/mongo_view_store.rs])

    A view is a collection of documents, each a result row with the interval of
    time it was valid in, and one metadata document.  MongoDB is reached
    through calls. *)
From S2P Require Import Prelude BTree Json Effects ViewApi.

Definition MAX_TIMESTAMP : Z := 253402300799999.

(** ** Hashing of rows *)

(** The writes a hasher receives; SipHash turns them into 16 bytes. *)
Inductive hash_write :=
| WU8 (n : Z)
| WI64 (n : Z)
| WU64 (n : Z)
| WBytes (s : string).

(** [str::hash]: the bytes and a terminator. *)
Definition hash_str (s : string) : list hash_write := [WBytes s; WU8 255].

Definition hash_number (n : jnum) : list hash_write :=
  match num_as_i64 n with
  | Some n => [WI64 n]
  | None =>
      match n with
      | NPos n => [WU64 n]
      | NNeg _ => []
      | NFloat bits => [WU64 bits]
      end
  end.

(** The keys of an object are sorted: here the entries, with what is written for
    them, are put in the order of their keys. *)
Fixpoint hash_value (v : value) : list hash_write :=
  match v with
  | VNull => [WU8 0]
  | VBool b => [WU8 (if b then 1 else 2)]
  | VNumber n => hash_number n
  | VString s => [WBytes s]
  | VArray l => concat (map hash_value l)
  | VObject m => concat (map snd (jobject (map (λ kv, (kv.1, WBytes kv.1 :: hash_value kv.2)) m)))
  end.

(** ** Documents *)

Record ViewDocument := mkDoc {
  d_hash : string;
  d_result : jmap;
  d_valid_from : Z;
  d_valid_to : Z;
}.

Record MetadataDocument := mkMeta {
  m_seq : Z;
  m_ts : Z;
  m_state : option string;
}.

Inductive ViewItem :=
| IView (d : ViewDocument)
| IMetadata (m : MetadataDocument).

(** The filter of the updates: a hash and a [validTo]. *)
Record doc_filter := mkFilter { f_hash : string; f_valid_to : Z }.

Definition matches (f : doc_filter) (d : ViewDocument) : bool :=
  str_eqb (d_hash d) (f_hash f) && (d_valid_to d =? f_valid_to f)%Z.

Inductive mongo_call : Type → Type :=
| CreateIndexes (coll : string) : mongo_call (result unit string)
| DropCollection (coll : string) : mongo_call (result unit string)
| FindOneAndDelete (coll : string) (f : doc_filter)
    : mongo_call (result (option ViewItem) string)
| FindOneAndSetValidTo (coll : string) (f : doc_filter) (valid_to : Z)
    : mongo_call (result (option ViewItem) string)
| FindOneAndReplace (coll : string) (f : doc_filter) (d : ViewDocument)
    : mongo_call (result (option ViewItem) string)
| SetMetadata (coll : string) (seq ts : Z) (state : option string)
    : mongo_call (result (option ViewItem) string)
| FindMetadata (coll : string) : mongo_call (result (option ViewItem) string)
| FindEffective (coll : string) (at_ : Z) : mongo_call (result (list (result ViewItem string)) string)
| DeleteOlder (coll : string) (epoch : Z) : mongo_call (result unit string)
| NowMillis : mongo_call (option Z).

(** ** The store *)

Record MongoViewStore := mkStore { retention : gmap string RetentionPolicy }.

Section store.
(** SipHash 1-3's 128-bit result over the writes. *)
Context (finish128 : list hash_write → string).

Definition hash_values (values : jmap) : string :=
  finish128 (concat (map (λ kv, hash_str kv.1 ++ hash_value kv.2) values)).

Definition hash_grouping_values (values : jmap) (grouping_keys : list string) : string :=
  finish128 (concat (map (λ key,
    match jget key values with
    | Some value => hash_str key ++ hash_value value
    | None => []
    end) grouping_keys)).

Notation P := (prog mongo_call).

Definition store_result {A} (r : result A string) : P (result unit ViewError) :=
  match r with
  | Ok _ => mret (Ok ())
  | Err e => mret (Err (StoreError e))
  end.

Definition set_retention_policy (query_id : string) (policy : RetentionPolicy)
    (s : MongoViewStore) : MongoViewStore :=
  mkStore (<[query_id := policy]> (retention s)).

Definition init_view (query_id : string) (policy : RetentionPolicy) (s : MongoViewStore)
    : P (result unit ViewError * MongoViewStore) :=
  let s := set_retention_policy query_id policy s in
  r ← trigger (CreateIndexes query_id);
  r ← store_result r;
  mret (r, s).

Definition delete_view (query_id : string) (s : MongoViewStore)
    : P (result unit ViewError * MongoViewStore) :=
  let s := mkStore (delete query_id (retention s)) in
  r ← trigger (DropCollection query_id);
  r ← store_result r;
  mret (r, s).

Definition alive (key : string) : doc_filter := mkFilter key MAX_TIMESTAMP.

(** Removing a row: forgotten, or closed just before [ts]. *)
Definition remove_row (query_id : string) (policy : RetentionPolicy) (ts : Z) (key : string)
    : P (result unit ViewError) :=
  response ← match policy with
             | Latest => trigger (FindOneAndDelete query_id (alive key))
             | _ => trigger (FindOneAndSetValidTo query_id (alive key) (as_i64 (ts - 1)))
             end;
  store_result response.

(** Adding a row valid from [ts]: the live row with the same key is replaced. *)
Definition upsert_row (query_id : string) (ts : Z) (key : string) (row : jmap)
    : P (result unit ViewError) :=
  response ← trigger (FindOneAndReplace query_id (alive key)
               (mkDoc key row ts MAX_TIMESTAMP));
  store_result response.

Definition update_key (u : UpdatePayload) (row : jmap) : string :=
  match u_grouping_keys u with
  | Some keys => hash_grouping_values row keys
  | None => hash_values row
  end.

Definition record_update (query_id : string) (policy : RetentionPolicy) (ts : Z)
    (update : UpdatePayload) : P (result unit ViewError) :=
  r ← match u_before update with
      | Some before => remove_row query_id policy ts (update_key update before)
      | None => mret (Ok ())
      end;
  match r with
  | Err e => mret (Err e)
  | Ok _ =>
      match u_after update with
      | Some after => upsert_row query_id ts (update_key update after) after
      | None => mret (Ok ())
      end
  end.

Definition record_change (query_id : string) (change : ResultChangeEvent)
    (s : MongoViewStore) : P (result unit ViewError) :=
  match retention s !! query_id with
  | None => mret (Err NotFound)
  | Some policy =>
      let ts := as_i64 (c_source_time_ms change) in
      r ← for_try (c_deleted_results change) (λ del,
            remove_row query_id policy ts (hash_values del));
      match r with
      | Err e => mret (Err e)
      | Ok _ =>
          r ← for_try (c_updated_results change) (record_update query_id policy ts);
          match r with
          | Err e => mret (Err e)
          | Ok _ =>
              r ← for_try (c_added_results change) (λ add,
                    upsert_row query_id ts (hash_values add) add);
              match r with
              | Err e => mret (Err e)
              | Ok _ =>
                  seq_result ← trigger (SetMetadata query_id (as_i64 (c_sequence change)) ts None);
                  store_result seq_result
              end
          end
      end
  end.

(** The rows of the cursor; unreadable documents are logged and skipped. *)
Definition view_rows (items : list (result ViewItem string)) : list ViewElement :=
  omap (λ i, match i with Ok (IView v) => Some (Data (d_result v)) | _ => None end) items.

Definition get_view (s : MongoViewStore) (query_id : string) (timestamp : option Z)
    : P (result (list ViewElement) ViewError) :=
  match retention s !! query_id with
  | None => mret (Err NotFound)
  | Some policy =>
      metadata ← trigger (FindMetadata query_id);
      match metadata with
      | Err err => mret (Err (StoreError err))
      | Ok (Some (IMetadata metadata)) =>
          now ← trigger NowMillis;
          match now with
          | None => Panic "called `Result::unwrap()` on an `Err` value"
          | Some now =>
              let now := as_u64 now in
              let timestamp := as_i64 (default now timestamp) in
              let effective_at := Z.min (m_ts metadata) timestamp in
              if match policy with
                 | Expire after_seconds =>
                     (timestamp <? as_i64 (u64_sub now (u64_mul after_seconds 1000)))%Z
                 | _ => false
                 end
              then mret (Err NotFound)
              else
                data ← trigger (FindEffective query_id effective_at);
                match data with
                | Err err => mret (Err (StoreError err))
                | Ok data =>
                    mret (Ok (Header (as_u64 (m_seq metadata)) (as_u64 (m_ts metadata))
                                (m_state metadata) :: view_rows data))
                end
          end
      | Ok _ => mret (Err NotFound)
      end
  end.

Definition set_state (query_id : string) (sequence ts : Z) (state : string)
    : P (result unit ViewError) :=
  seq_result ← trigger (SetMetadata query_id (as_i64 sequence) (as_i64 ts) (Some state));
  store_result seq_result.

(** [collect_garbage], over the entries of the policy snapshot. *)
Fixpoint collect_policies (now : Z) (policies : list (string * RetentionPolicy)) : P unit :=
  match policies with
  | [] => mret ()
  | (query_id, policy) :: policies =>
      match policy with
      | Latest | All => collect_policies now policies
      | Expire after_seconds =>
          let epoch := as_i64 (now - as_i64 (as_i64 after_seconds * 1000)) in
          _ ← trigger (DeleteOlder query_id epoch);
          collect_policies now policies
      end
  end.

Definition collect_garbage (s : MongoViewStore) : P unit :=
  now ← trigger NowMillis;
  match now with
  | None => Panic "called `Result::unwrap()` on an `Err` value"
  | Some now => collect_policies (as_i64 now) (map_to_list (retention s))
  end.
End store.
