(* ===== verification/ViewStoreSpec.v ===== *)
(** * ViewStoreSpec: what a view contains, now and in the past *)
From S2P Require Import Prelude BTree Json Effects ViewApi ViewStore.

(** ** MongoDB, as the store relies on it *)

Class MongoEnv (W : Type) := {
  mongo_handler : ∀ X, mongo_call X → W → X * W;
  view_docs : W → string → list ViewDocument;
  view_meta : W → string → option MetadataDocument;
}.

(** [findOneAnd...]: one document that matches is replaced by [g], or [none] is
    added when there is none. *)
Definition edited (f : doc_filter) (g : ViewDocument → list ViewDocument)
    (none : list ViewDocument) (l l' : list ViewDocument) : Prop :=
  (∃ d r, l ≡ₚ d :: r ∧ matches f d = true ∧ l' ≡ₚ g d ++ r) ∨
  (Forall (λ d, matches f d = false) l ∧ l' ≡ₚ none ++ l).

Definition close (valid_to : Z) (d : ViewDocument) : ViewDocument :=
  mkDoc (d_hash d) (d_result d) (d_valid_from d) valid_to.

Definition effective (t : Z) (d : ViewDocument) : Prop :=
  (d_valid_from d ≤ t ≤ d_valid_to d)%Z.

#[export] Instance effective_dec t d : Decision (effective t d).
Proof. unfold effective. apply _. Defined.

(** The effect of the calls that succeed. *)
Class MongoLaws (W : Type) `{MongoEnv W} := {
  law_delete c f w r : (mongo_handler _ (FindOneAndDelete c f) w).1 = Ok r →
    let w' := (mongo_handler _ (FindOneAndDelete c f) w).2 in
    edited f (λ _, []) [] (view_docs w c) (view_docs w' c) ∧ view_meta w' c = view_meta w c;
  law_close c f vt w r : (mongo_handler _ (FindOneAndSetValidTo c f vt) w).1 = Ok r →
    let w' := (mongo_handler _ (FindOneAndSetValidTo c f vt) w).2 in
    edited f (λ d, [close vt d]) [] (view_docs w c) (view_docs w' c) ∧
    view_meta w' c = view_meta w c;
  law_replace c f d w r : (mongo_handler _ (FindOneAndReplace c f d) w).1 = Ok r →
    let w' := (mongo_handler _ (FindOneAndReplace c f d) w).2 in
    edited f (λ _, [d]) [d] (view_docs w c) (view_docs w' c) ∧ view_meta w' c = view_meta w c;
  law_set_metadata c seq ts st w r : (mongo_handler _ (SetMetadata c seq ts st) w).1 = Ok r →
    let w' := (mongo_handler _ (SetMetadata c seq ts st) w).2 in
    view_docs w' c = view_docs w c ∧
    view_meta w' c = Some (mkMeta seq ts
      (match st with Some st => Some st | None => view_meta w c ≫= m_state end));
  law_find_metadata c w r : (mongo_handler _ (FindMetadata c) w).1 = Ok r →
    let w' := (mongo_handler _ (FindMetadata c) w).2 in
    r = IMetadata <$> view_meta w c ∧ view_docs w' c = view_docs w c ∧
    view_meta w' c = view_meta w c;
  law_find c t w r : (mongo_handler _ (FindEffective c t) w).1 = Ok r →
    r ≡ₚ map (λ d, Ok (IView d)) (filter (effective t) (view_docs w c));
  law_indexes c w : let w' := (mongo_handler _ (CreateIndexes c) w).2 in
    view_docs w' c = view_docs w c ∧ view_meta w' c = view_meta w c;
  law_now c w : let w' := (mongo_handler _ NowMillis w).2 in
    view_docs w' c = view_docs w c ∧ view_meta w' c = view_meta w c;
  (** Even when it fails, [delete_many] removes only what matches. *)
  law_older c epoch w : let w' := (mongo_handler _ (DeleteOlder c epoch) w).2 in
    (∃ gone, view_docs w c ≡ₚ gone ++ view_docs w' c ∧
      Forall (λ d, d_valid_to d < epoch)%Z gone) ∧
    (∀ c', c' ≠ c → view_docs w' c' = view_docs w c') ∧
    (∀ c', view_meta w' c' = view_meta w c') ∧
    (∀ r, (mongo_handler _ (DeleteOlder c epoch) w).1 = Ok r →
      Forall (λ d, epoch ≤ d_valid_to d)%Z (view_docs w' c));
}.

(** ** The abstract view: the live rows by key *)

Definition live (l : list ViewDocument) : list ViewDocument :=
  filter (λ d, d_valid_to d = MAX_TIMESTAMP) l.

Definition rows_of (l : list ViewDocument) : gmap string jmap :=
  list_to_map (map (λ d, (d_hash d, d_result d)) l).

(** At most one live document per key. *)
Definition unique (l : list ViewDocument) : Prop := NoDup (map d_hash (live l)).

Definition rows (l : list ViewDocument) : gmap string jmap := rows_of (live l).

(** Every document starts at [t] or before, and is live or ended before [t]. *)
Definition settled (t : Z) (l : list ViewDocument) : Prop :=
  ∀ d, d ∈ l → (d_valid_from d ≤ t)%Z ∧ (d_valid_to d = MAX_TIMESTAMP ∨ d_valid_to d < t)%Z.

Section spec.
Context (finish128 : list hash_write → string).
Notation hash := (hash_values finish128).

Definition spec_remove (key : string) (m : gmap string jmap) : gmap string jmap := delete key m.

Definition spec_update (m : gmap string jmap) (u : UpdatePayload) : gmap string jmap :=
  let m := match u_before u with
           | Some before => delete (update_key finish128 u before) m
           | None => m
           end in
  match u_after u with
  | Some after => <[update_key finish128 u after := after]> m
  | None => m
  end.

(** Deletions, then updates, then additions. *)
Definition spec_change (m : gmap string jmap) (c : ResultChangeEvent) : gmap string jmap :=
  let m := foldl (λ m del, delete (hash del) m) m (c_deleted_results c) in
  let m := foldl spec_update m (c_updated_results c) in
  foldl (λ m add, <[hash add := add]> m) m (c_added_results c).
End spec.

(** *** Edits of the documents *)

Lemma live_perm l l' : l ≡ₚ l' → live l ≡ₚ live l'.
Proof. intros Hl. unfold live. by rewrite Hl. Qed.

Lemma rows_of_perm l l' :
  NoDup (map d_hash l) → l ≡ₚ l' → rows_of l = rows_of l'.
Proof.
  intros Hnd Hl. unfold rows_of. apply list_to_map_proper.
  - by rewrite <-list_fmap_compose.
  - by apply Permutation_map.
Qed.

Definition others (k : string) (l : list ViewDocument) : list ViewDocument :=
  filter (λ d, d_hash d ≠ k) l.

Lemma rows_of_others k l : rows_of (others k l) = delete k (rows_of l).
Proof.
  unfold rows_of, others. induction l as [|d l IH]; simpl; [by rewrite delete_empty|].
  destruct (decide (d_hash d = k)) as [Heq|Hne].
  - rewrite filter_cons_False by auto. rewrite IH, Heq. by rewrite delete_insert_eq.
  - rewrite filter_cons_True by done. simpl. rewrite IH. by rewrite delete_insert_ne.
Qed.

Lemma others_absent k l : k ∉ map d_hash l → others k l = l.
Proof.
  unfold others. induction l as [|d l IH]; intros Hk; [done|]. simpl in Hk.
  rewrite filter_cons_True by set_solver. f_equal. apply IH. set_solver.
Qed.

Lemma matches_alive k d :
  matches (alive k) d = true ↔ d_hash d = k ∧ d_valid_to d = MAX_TIMESTAMP.
Proof. unfold matches, alive. simpl. by rewrite andb_true_iff, str_eqb_true, Z.eqb_eq. Qed.

(** The live documents after an edit of the live document with key [k]. *)
Lemma edited_live k g none n l l' :
  unique l → (∀ d, matches (alive k) d = true → live (g d) = n) → live none = n →
  edited (alive k) g none l l' → live l' ≡ₚ n ++ others k (live l).
Proof.
  intros Hu Hg Hnone [(d & r & Hl & Hm & Hl')|[Hall Hl']].
  - pose proof (proj1 (matches_alive k d) Hm) as [Hk Hv].
    assert (live l ≡ₚ d :: live r) as Hlive.
    { rewrite (live_perm _ _ Hl). unfold live. by rewrite filter_cons_True. }
    rewrite (live_perm _ _ Hl'). unfold live. rewrite list.filter_app. apply Permutation_app.
    { by rewrite <-(Hg d Hm). }
    unfold unique in Hu. rewrite Hlive in Hu. simpl in Hu. apply list.NoDup_cons in Hu as [Hn _].
    unfold others. rewrite Hlive. rewrite filter_cons_False by auto.
    rewrite Hk in Hn. apply others_absent in Hn. unfold others in Hn. by rewrite Hn.
  - rewrite (live_perm _ _ Hl'). unfold live at 1. rewrite list.filter_app.
    apply Permutation_app; [by rewrite <-Hnone|].
    rewrite others_absent; [done|]. intros Hin.
    apply list_elem_of_fmap in Hin as (d & -> & Hd). unfold live in Hd.
    apply list_elem_of_filter in Hd as [Hv Hd]. rewrite list.Forall_forall in Hall.
    specialize (Hall d Hd). by rewrite (proj2 (matches_alive _ d)) in Hall.
Qed.

Lemma NoDup_others k l : NoDup (map d_hash l) → NoDup (map d_hash (others k l)).
Proof.
  unfold others. induction l as [|d l IH]; simpl; [done|].
  intros [Hd Hl]%list.NoDup_cons. case (decide (d_hash d = k)) as [Heq|Hne].
  - rewrite filter_cons_False by auto. auto.
  - rewrite filter_cons_True by done. simpl. apply list.NoDup_cons. split; [|auto].
    intros Hin. apply Hd. apply list_elem_of_fmap in Hin as (e & -> & He).
    apply list_elem_of_filter in He as [_ He]. by apply list_elem_of_fmap_2.
Qed.

Lemma others_fresh k l : k ∉ map d_hash (others k l).
Proof.
  intros Hin. apply list_elem_of_fmap in Hin as (e & -> & He).
  by apply list_elem_of_filter in He as [He _].
Qed.

Lemma edited_remove k g l l' :
  (∀ d, matches (alive k) d = true → live (g d) = []) →
  unique l → edited (alive k) g [] l l' → unique l' ∧ rows l' = delete k (rows l).
Proof.
  intros Hg Hu He. pose proof (edited_live k g [] [] l l' Hu Hg eq_refl He) as Hl'. simpl in Hl'.
  assert (unique l') as Hu'.
  { unfold unique. rewrite Hl'. by apply NoDup_others. }
  split; [done|]. unfold rows. rewrite <-rows_of_others. by apply rows_of_perm.
Qed.

Lemma edited_upsert k row ts l l' :
  unique l → edited (alive k) (λ _, [mkDoc k row ts MAX_TIMESTAMP])
    [mkDoc k row ts MAX_TIMESTAMP] l l' →
  unique l' ∧ rows l' = <[k := row]> (rows l).
Proof.
  intros Hu He. set (d := mkDoc k row ts MAX_TIMESTAMP) in *.
  pose proof (edited_live k (λ _, [d]) [d] [d] l l' Hu (λ _ _, eq_refl) eq_refl He) as Hl'.
  assert (unique l') as Hu'.
  { unfold unique. rewrite Hl'. simpl. apply list.NoDup_cons. split; [apply others_fresh|].
    by apply NoDup_others. }
  split; [done|]. unfold rows. rewrite (rows_of_perm _ _ Hu' Hl').
  change (rows_of ([d] ++ others k (live l))) with (<[k := row]> (rows_of (others k (live l)))).
  by rewrite rows_of_others, insert_delete_eq.
Qed.

Lemma edited_settled t f g none l l' :
  settled t l → (∀ d, d ∈ l → settled t (g d)) → settled t none →
  edited f g none l l' → settled t l'.
Proof.
  intros Hl Hg Hn [(d & r & Hp & _ & Hp')|[_ Hp']] e; rewrite Hp'; intros [He|He]%elem_of_app.
  - eapply Hg; [|done]. rewrite Hp. left.
  - apply Hl. rewrite Hp. by right.
  - by apply Hn.
  - by apply Hl.
Qed.

Lemma settled_mono t t' l : (t ≤ t')%Z → settled t l → settled t' l.
Proof. intros Ht Hl d Hd. specialize (Hl d Hd). lia. Qed.

(** What is effective at [t] is exactly what is live. *)
Lemma settled_effective t l :
  (t ≤ MAX_TIMESTAMP)%Z → settled t l → filter (effective t) l = live l.
Proof.
  intros Ht Hl. unfold live. apply filter_ext_in. intros d Hd.
  specialize (Hl d Hd). unfold effective. lia.
Qed.

(** ** Recording changes *)

Section recording.
Context (finish128 : list hash_write → string).
Context `{MongoLaws W}.
Context (q : string).

Notation wpm := (wp_ok mongo_handler).

(** The view's documents stand for the rows [m], all settled at [t]. *)
Definition stands_for (mt : option MetadataDocument) (t : Z) (m : gmap string jmap) (w : W)
    : Prop :=
  unique (view_docs w q) ∧ rows (view_docs w q) = m ∧ settled t (view_docs w q) ∧
  view_meta w q = mt.

Definition valid_time (t : Z) : Prop := (0 ≤ t ≤ MAX_TIMESTAMP)%Z.

Lemma valid_time_i64 t : valid_time t → as_i64 t = t.
Proof. unfold valid_time, MAX_TIMESTAMP. intros. apply as_i64_small. lia. Qed.

Lemma pred_i64 t : valid_time t → as_i64 (t - 1) = (t - 1)%Z.
Proof.
  unfold valid_time, MAX_TIMESTAMP. intros Ht.
  destruct (decide (t = 0)%Z) as [->|]; [done|]. apply as_i64_small. lia.
Qed.

Lemma wp_store_result {X} (e : mongo_call (result X string)) w (R : unit → W → Prop) :
  (∀ x, (mongo_handler _ e w).1 = Ok x → R () (mongo_handler _ e w).2) →
  wpm (response ← trigger e; store_result response) w R.
Proof.
  intros Hk. apply wp_call. destruct (mongo_handler _ e w).1 as [x|err] eqn:Hx; simpl.
  - apply wp_ok_ret. eauto.
  - apply wp_ok_err.
Qed.

Lemma remove_row_stands mt t m policy key w :
  valid_time t → stands_for mt t m w →
  wpm (remove_row q policy t key) w (λ _ w', stands_for mt t (delete key m) w').
Proof.
  intros Ht (Hu & Hm & Hs & Hmt). unfold remove_row. rewrite (pred_i64 t Ht).
  assert (∀ g l', (∀ d, matches (alive key) d = true → live (g d) = []) →
    (∀ d, d ∈ view_docs w q → settled t (g d)) →
    edited (alive key) g [] (view_docs w q) l' →
    unique l' ∧ rows l' = delete key m ∧ settled t l') as Hedit.
  { intros g l' Hg Hgs He. destruct (edited_remove key g _ l' Hg Hu He) as [Hu' Hr'].
    split_and!; [done | by rewrite Hr', Hm |].
    eapply edited_settled; [exact Hs | exact Hgs | by intros ? ?%elem_of_nil | exact He]. }
  assert (∀ d, live [close (t - 1) d] = []) as Hc.
  { intros d. unfold live. rewrite filter_cons_False; [done|]. simpl.
    destruct Ht. lia. }
  assert (∀ d, d ∈ view_docs w q → settled t [close (t - 1) d]) as Hcs.
  { intros d Hd e He. apply list_elem_of_singleton in He. subst e. simpl.
    destruct (Hs d Hd). lia. }
  destruct policy; apply wp_store_result; intros x Hx.
  - destruct (law_delete _ _ _ _ Hx) as [He Hmeta]. rewrite <-Hmeta in Hmt.
    assert (∀ d, d ∈ view_docs w q → settled t []) as Hnil by by intros d _ e ?%elem_of_nil.
    by destruct (Hedit (λ _, []) _ (λ _ _, eq_refl) Hnil He) as (?&?&?).
  - destruct (law_close _ _ _ _ _ Hx) as [He Hmeta]. rewrite <-Hmeta in Hmt.
    by destruct (Hedit _ _ (λ d _, Hc d) Hcs He) as (?&?&?).
  - destruct (law_close _ _ _ _ _ Hx) as [He Hmeta]. rewrite <-Hmeta in Hmt.
    by destruct (Hedit _ _ (λ d _, Hc d) Hcs He) as (?&?&?).
Qed.

Lemma upsert_row_stands mt t m key row w :
  valid_time t → stands_for mt t m w →
  wpm (upsert_row q t key row) w (λ _ w', stands_for mt t (<[key := row]> m) w').
Proof.
  intros Ht (Hu & Hm & Hs & Hmt). unfold upsert_row. apply wp_store_result. intros x Hx.
  destruct (law_replace _ _ _ _ _ Hx) as [He Hmeta].
  destruct (edited_upsert _ _ _ _ _ Hu He) as [Hu' Hr'].
  split_and!; [done | by rewrite Hr', Hm | | by rewrite Hmeta].
  assert (settled t [mkDoc key row t MAX_TIMESTAMP]) as Hd.
  { intros d Hd. apply list_elem_of_singleton in Hd. subst d. simpl. lia. }
  eapply edited_settled; [exact Hs | intros ? _; exact Hd | exact Hd | exact He].
Qed.

Lemma record_update_stands mt t m policy u w :
  valid_time t → stands_for mt t m w →
  wpm (record_update finish128 q policy t u) w
    (λ _ w', stands_for mt t (spec_update finish128 m u) w').
Proof.
  intros Ht Hw. unfold record_update, spec_update.
  apply (wp_ok_bind _ _ _ (λ e, e)).
  apply (wp_ok_mono _ _ _ (λ _ w', stands_for mt t (match u_before u with
    | Some before => delete (update_key finish128 u before) m | None => m end) w')).
  { intros [] w' Hw'. destruct (u_after u); [by apply upsert_row_stands | by apply wp_ok_ret]. }
  destruct (u_before u); [by apply remove_row_stands | by apply wp_ok_ret].
Qed.

(** Folding a step that refines its specification. *)
Lemma for_try_stands {A} mt t (l : list A)
    (body : A → prog mongo_call (result unit ViewError)) (f : gmap string jmap → A → gmap string jmap) m w :
  (∀ a m w, stands_for mt t m w → wpm (body a) w (λ _ w', stands_for mt t (f m a) w')) →
  stands_for mt t m w →
  wpm (for_try l body) w (λ _ w', stands_for mt t (foldl f m l) w').
Proof.
  intros Hbody Hw.
  apply (wp_ok_for_try _ _ _ (λ d w', stands_for mt t (foldl f m d) w')); [done| |done].
  intros d a r w' _ Hw'. eapply wp_ok_mono; [|by apply Hbody].
  intros [] w'' Hw''. by rewrite foldl_app.
Qed.

Lemma record_change_stands mt t m c s w :
  (t ≤ c_source_time_ms c)%Z → valid_time (c_source_time_ms c) → stands_for mt t m w →
  wpm (record_change finish128 q c s) w (λ _, 
    stands_for (Some (mkMeta (as_i64 (c_sequence c)) (c_source_time_ms c) (mt ≫= m_state)))
      (c_source_time_ms c) (spec_change finish128 m c)).
Proof.
  intros Ht Hc (Hu & Hm & Hs & Hmt). unfold record_change, spec_change.
  rewrite (valid_time_i64 _ Hc). set (ts := c_source_time_ms c) in *.
  destruct (retention s !! q) as [policy|]; [|apply wp_ok_err].
  apply (wp_ok_bind _ _ _ (λ e, e)). eapply wp_ok_mono; [|
    eapply (for_try_stands mt ts _ _ (λ m del, delete (hash_values finish128 del) m) m)].
  2:{ intros a m' w' Hw'. by apply remove_row_stands. }
  2:{ split_and!; [done..| |done]. by eapply settled_mono. }
  intros [] w1 Hw1. apply (wp_ok_bind _ _ _ (λ e, e)). eapply wp_ok_mono; [|
    eapply (for_try_stands mt ts _ _ (spec_update finish128) _ w1); [|exact Hw1]].
  2:{ intros a m' w' Hw'. by apply record_update_stands. }
  intros [] w2 Hw2. apply (wp_ok_bind _ _ _ (λ e, e)). eapply wp_ok_mono; [|
    eapply (for_try_stands mt ts _ _
      (λ m add, <[hash_values finish128 add := add]> m) _ w2); [|exact Hw2]].
  2:{ intros a m' w' Hw'. by apply upsert_row_stands. }
  intros [] w3 (Hu3 & Hm3 & Hs3 & Hmt3). apply wp_store_result. intros x Hx.
  destruct (law_set_metadata _ _ _ _ _ _ Hx) as [Hd Hmeta].
  unfold stands_for. by rewrite Hd, Hmeta, Hmt3.
Qed.

(** *** Reading the view *)

Lemma view_rows_of items l :
  items ≡ₚ map (λ d, Ok (IView d)) l → ∃ rows, view_rows items = map Data rows ∧
    rows ≡ₚ map d_result l.
Proof.
  intros Hi. exists (omap (λ i, match i with Ok (IView v) => Some (d_result v) | _ => None end)
    items).
  split.
  - unfold view_rows. clear Hi. induction items as [|i items IH]; [done|].
    destruct i as [[d|m]|e]; simpl; [by f_equal | exact IH..].
  - rewrite Hi. clear Hi. induction l as [|d l IH]; [done|]. simpl. by rewrite IH.
Qed.

Lemma get_view_stands mt t m s timestamp w :
  valid_time t → stands_for (Some mt) t m w → m_ts mt = t →
  (∀ now, (mongo_handler _ NowMillis (mongo_handler _ (FindMetadata q) w).2).1 = Some now →
     (t ≤ as_i64 (default (as_u64 now) timestamp))%Z) →
  wpm (get_view s q timestamp) w (λ els _, ∃ rs,
    els = Header (as_u64 (m_seq mt)) (as_u64 t) (m_state mt) :: map Data rs ∧
    rs ≡ₚ (map_to_list m).*2).
Proof.
  intros Ht (Hu & Hm & Hs & Hmt) Hts Hnow. unfold get_view.
  destruct (retention s !! q) as [policy|]; [|apply wp_ok_err]. apply wp_ok_call.
  destruct (mongo_handler _ (FindMetadata q) w).1 as [r|e] eqn:Hr; [|apply wp_ok_err].
  destruct (law_find_metadata _ _ _ Hr) as (-> & Hd1 & Hm1). rewrite Hmt. cbn [fmap option_fmap option_map].
  set (w1 := (mongo_handler _ (FindMetadata q) w).2) in *. apply (wp_ok_call _ NowMillis).
  destruct (mongo_handler _ NowMillis w1).1 as [now|] eqn:Hn; [|apply wp_ok_panic].
  specialize (Hnow now eq_refl). destruct (law_now q w1) as [Hd2 _].
  set (w2 := (mongo_handler _ NowMillis w1).2) in *. cbv zeta.
  match goal with |- wp_ok _ (if ?b then _ else _) _ _ => destruct b end; [apply wp_ok_err|].
  rewrite Hts, Z.min_l by done. apply (wp_ok_call _ (FindEffective q t)).
  destruct (mongo_handler _ (FindEffective q t) w2).1 as [items|e] eqn:Hf; [|apply wp_ok_err].
  apply wp_ok_ret. pose proof (law_find _ _ _ _ Hf) as Hi.
  rewrite Hd2, Hd1, (settled_effective t) in Hi by (done || apply Ht).
  destruct (view_rows_of _ _ Hi) as (rs & -> & Hrs). exists rs. split; [done|].
  rewrite Hrs, <-Hm. unfold rows, rows_of.
  rewrite map_to_list_to_map by (by rewrite <-list_fmap_compose).
  by rewrite <-list_fmap_compose.
Qed.

(** Recording a list of changes, each before the next. *)
Definition record_all (s : MongoViewStore) (cs : list ResultChangeEvent)
    : prog mongo_call (result unit ViewError) :=
  for_try cs (λ c, record_change finish128 q c s).

Fixpoint in_order (t : Z) (cs : list ResultChangeEvent) : Prop :=
  match cs with
  | [] => True
  | c :: cs =>
      (t ≤ c_source_time_ms c)%Z ∧ valid_time (c_source_time_ms c) ∧
      in_order (c_source_time_ms c) cs
  end.

Lemma in_order_app t cs c :
  in_order t (cs ++ [c]) → in_order t cs ∧
  (default t (c_source_time_ms <$> list.last cs) ≤ c_source_time_ms c)%Z ∧
  valid_time (c_source_time_ms c).
Proof.
  revert t. induction cs as [|d cs IH]; intros t; simpl; [naive_solver|].
  intros (Ht & Hv & (H1 & H2 & H3)%IH). split_and!; [done..| |done].
  rewrite list.last_cons. destruct (list.last cs); simpl in *; lia.
Qed.

(** The view after the changes [cs]. *)
Lemma record_all_stands s cs t m mt w :
  in_order t cs → stands_for mt t m w →
  wpm (record_all s cs) w (λ _,
    stands_for (foldl (λ mt c, Some (mkMeta (as_i64 (c_sequence c)) (c_source_time_ms c)
        (mt ≫= m_state))) mt cs)
      (default t (c_source_time_ms <$> list.last cs)) (foldl (spec_change finish128) m cs)).
Proof.
  intros Hcs Hw. apply (wp_ok_for_try _ _ _ (λ d, stands_for
    (foldl (λ mt c, Some (mkMeta (as_i64 (c_sequence c)) (c_source_time_ms c)
        (mt ≫= m_state))) mt d)
    (default t (c_source_time_ms <$> list.last d)) (foldl (spec_change finish128) m d)));
    [done| |done].
  intros d c r w' Heq Hw'. assert (in_order t (d ++ [c])) as Hd.
  { subst cs. clear -Hcs. revert t Hcs. induction d as [|a d IH]; intros t; simpl; naive_solver. }
  apply in_order_app in Hd as (_ & Hle & Hv).
  eapply wp_ok_mono; [|by eapply record_change_stands]. intros [] w'' Hw''.
  by rewrite !foldl_app, list.last_snoc.
Qed.

(** The read is at a time after [t]. *)
Definition reads_after (t : Z) (timestamp : option Z) : Prop :=
  match timestamp with
  | Some ts => (t ≤ as_i64 ts)%Z
  | None => ∀ w now, (mongo_handler _ NowMillis w).1 = Some now → (t ≤ as_i64 (as_u64 now))%Z
  end.

(** Whatever the retention policy, recording any list of result changes in
    time order into an empty view and then reading it, at a time that is not
    before the last change, answers with the sequence number and time of the
    last change and exactly the rows that deletions, updates and additions
    leave, each key once. *)
Theorem view_reflects_changes s cs c timestamp w :
  view_docs w q = [] → view_meta w q = None →
  in_order 0 (cs ++ [c]) → is_u64 (c_sequence c) → reads_after (c_source_time_ms c) timestamp →
  wpm (r ← record_all s (cs ++ [c]);
       match r with
       | Ok _ => get_view s q timestamp
       | Err e => mret (Err e)
       end) w
    (λ els _, ∃ rs,
      els = Header (c_sequence c) (c_source_time_ms c) None :: map Data rs ∧
      rs ≡ₚ (map_to_list (foldl (spec_change finish128) ∅ (cs ++ [c]))).*2).
Proof.
  intros Hd Hm Hin Hseq Hr.
  assert (stands_for None 0 ∅ w) as Hw.
  { unfold stands_for, unique. rewrite Hd, Hm. split_and!; [constructor|done| |done].
    by intros d ?%elem_of_nil. }
  pose proof (in_order_app _ _ _ Hin) as (_ & _ & Hv).
  apply (wp_ok_bind _ _ _ (λ e, e)). eapply wp_ok_mono; [|by eapply record_all_stands].
  intros [] w1 Hw1. rewrite foldl_app, list.last_snoc in Hw1. simpl in Hw1.
  eapply wp_ok_mono; [|eapply get_view_stands; [exact Hv|exact Hw1|done|]].
  - intros els w2 (rs & -> & Hrs). exists rs. split; [|done]. simpl.
    rewrite as_u64_as_i64 by done.
    assert (as_u64 (c_source_time_ms c) = c_source_time_ms c) as ->.
    { unfold valid_time, MAX_TIMESTAMP, as_u64, u64_modulus in *. apply Z.mod_small. lia. }
    assert (∀ mt, m_state mt = None ∨ m_state mt = None → m_state mt = None) by naive_solver.
    f_equal. f_equal. clear. induction cs as [|d cs IH] using rev_ind; [done|].
    by rewrite foldl_app.
  - intros now Hnow. unfold reads_after in Hr. destruct timestamp; simpl; [done|].
    by eapply Hr.
Qed.

(** ** The past *)

(** The rows of a view at time [t]. *)
Definition past (t : Z) (l : list ViewDocument) : list jmap :=
  map d_result (filter (effective t) l).

Lemma past_perm t l l' : l ≡ₚ l' → past t l ≡ₚ past t l'.
Proof. intros Hl. unfold past. by rewrite Hl. Qed.

Lemma past_app t l l' : past t (l ++ l') = past t l ++ past t l'.
Proof. unfold past. by rewrite list.filter_app, map_app. Qed.

Lemma past_later t d : (t < d_valid_from d)%Z → past t [d] = [].
Proof. intros Ht. unfold past. rewrite filter_cons_False; [done|]. unfold effective. lia. Qed.

(** Closing a live row at [ts - 1] does not change the rows before [ts]. *)
Lemma past_close t ts d :
  d_valid_to d = MAX_TIMESTAMP → (t < ts)%Z → (t ≤ MAX_TIMESTAMP)%Z →
  past t [close (ts - 1) d] = past t [d].
Proof.
  intros Hd Ht Hm. unfold past. destruct (decide (effective t d)) as [He|He].
  - rewrite (filter_cons_True _ d), filter_cons_True; [done| |done].
    unfold effective in *. simpl. lia.
  - rewrite (filter_cons_False _ d), filter_cons_False; [done| |done].
    unfold effective in *. simpl. lia.
Qed.

Lemma edited_past t k g none l l' :
  (∀ d, matches (alive k) d = true → d ∈ l → past t (g d) ≡ₚ past t [d]) →
  past t none = [] → edited (alive k) g none l l' → past t l' ≡ₚ past t l.
Proof.
  intros Hg Hn [(d & r & Hl & Hm & Hl')|[_ Hl']].
  - rewrite (past_perm _ _ _ Hl), (past_perm _ _ _ Hl'), past_app.
    change (d :: r) with ([d] ++ r). rewrite past_app. f_equiv. apply Hg; [done|].
    rewrite Hl. left.
  - by rewrite (past_perm _ _ _ Hl'), past_app, Hn.
Qed.

(** [stands_for], and the rows at [u] are [P]. *)
Definition with_past mt t u P m w : Prop :=
  stands_for mt t m w ∧ past u (view_docs w q) ≡ₚ P.

Lemma remove_row_past mt t u P m policy key w :
  policy ≠ Latest → valid_time t → (u < t)%Z → with_past mt t u P m w →
  wpm (remove_row q policy t key) w (λ _, with_past mt t u P (delete key m)).
Proof.
  intros Hp Ht Hu [Hw HP].
  assert (wpm (remove_row q policy t key) w (λ _ w', past u (view_docs w' q) ≡ₚ P)) as Hpast.
  { unfold remove_row. rewrite (pred_i64 t Ht).
    assert (∀ w', edited (alive key) (λ d, [close (t - 1) d]) [] (view_docs w q)
      (view_docs w' q) → past u (view_docs w' q) ≡ₚ P) as Hedit.
    { intros w' He. rewrite <-HP. eapply edited_past; [| |exact He]; [|done].
      intros d [_ Hd]%matches_alive _. rewrite past_close; [done|done|lia|].
      destruct Ht. lia. }
    destruct policy; [done|..]; apply wp_store_result; intros x Hx;
      by apply Hedit, (law_close _ _ _ _ _ Hx). }
  eapply wp_mono; [|apply wp_conj; [exact Hpast | by apply (remove_row_stands mt t m policy key)]].
  intros o w' [H1 H2] [] ->. split; [by apply (H2 ()) | by apply (H1 ())].
Qed.

Lemma upsert_row_past mt t u P m key row w :
  m !! key = None → valid_time t → (u < t)%Z → with_past mt t u P m w →
  wpm (upsert_row q t key row) w (λ _, with_past mt t u P (<[key := row]> m)).
Proof.
  intros Hk Ht Hu [Hw HP].
  assert (wpm (upsert_row q t key row) w (λ _ w', past u (view_docs w' q) ≡ₚ P)) as Hpast.
  { unfold upsert_row. apply wp_store_result. intros x Hx.
    destruct (law_replace _ _ _ _ _ Hx) as [He _]. rewrite <-HP.
    eapply edited_past; [| |exact He]; [|by apply past_later].
    intros d [Hd Hv]%matches_alive Hin. exfalso. destruct Hw as (_ & Hm & _). subst m.
    unfold rows, rows_of in Hk. apply not_elem_of_list_to_map in Hk. apply Hk.
    rewrite <-list_fmap_compose. apply list_elem_of_fmap. exists d. split; [done|].
    by apply list_elem_of_filter. }
  eapply wp_mono; [|apply wp_conj; [exact Hpast | by apply (upsert_row_stands mt t m key)]].
  intros o w' [H1 H2] [] ->. split; [by apply (H2 ()) | by apply (H1 ())].
Qed.

(** *** Changes that add no row that is already there *)

Definition fresh_update (m : gmap string jmap) (u : UpdatePayload) : Prop :=
  match u_after u with
  | Some after =>
      match u_before u with
      | Some before => delete (update_key finish128 u before) m
      | None => m
      end !! update_key finish128 u after = None
  | None => True
  end.

Fixpoint fresh_along {A} (f : gmap string jmap → A → gmap string jmap)
    (fresh : gmap string jmap → A → Prop) (m : gmap string jmap) (l : list A) : Prop :=
  match l with
  | [] => True
  | a :: l => fresh m a ∧ fresh_along f fresh (f m a) l
  end.

Definition fresh_change (m : gmap string jmap) (c : ResultChangeEvent) : Prop :=
  let m1 := foldl (λ m del, delete (hash_values finish128 del) m) m (c_deleted_results c) in
  let m2 := foldl (spec_update finish128) m1 (c_updated_results c) in
  fresh_along (spec_update finish128) fresh_update m1 (c_updated_results c) ∧
  fresh_along (λ m add, <[hash_values finish128 add := add]> m)
    (λ m add, m !! hash_values finish128 add = None) m2 (c_added_results c).

Lemma record_update_past mt t u P m policy up w :
  policy ≠ Latest → valid_time t → (u < t)%Z → fresh_update m up → with_past mt t u P m w →
  wpm (record_update finish128 q policy t up) w
    (λ _, with_past mt t u P (spec_update finish128 m up)).
Proof.
  intros Hp Ht Hu Hf Hw. unfold record_update, spec_update, fresh_update in *.
  apply (wp_ok_bind _ _ _ (λ e, e)).
  apply (wp_ok_mono _ _ _ (λ _ w', with_past mt t u P (match u_before up with
    | Some before => delete (update_key finish128 up before) m | None => m end) w')).
  { intros [] w' Hw'. destruct (u_after up); [by apply upsert_row_past | by apply wp_ok_ret]. }
  destruct (u_before up); [by apply remove_row_past | by apply wp_ok_ret].
Qed.

Lemma for_try_past {A} mt t u P (l : list A)
    (body : A → prog mongo_call (result unit ViewError)) f fresh m w :
  (∀ a m w, fresh m a → with_past mt t u P m w →
     wpm (body a) w (λ _, with_past mt t u P (f m a))) →
  fresh_along f fresh m l → with_past mt t u P m w →
  wpm (for_try l body) w (λ _, with_past mt t u P (foldl f m l)).
Proof.
  intros Hbody. revert m w. induction l as [|a l IH]; intros m w Hl Hw; cbn [for_try].
  { by apply wp_ok_ret. }
  destruct Hl as [Ha Hl]. apply (wp_ok_bind _ _ (λ _, for_try l body) (λ e, e)).
  eapply wp_ok_mono; [|by eapply Hbody]. intros [] w' Hw'. by apply IH.
Qed.

Lemma record_change_past mt t u P m c s w policy :
  retention s !! q = Some policy → policy ≠ Latest →
  (t ≤ c_source_time_ms c)%Z → valid_time (c_source_time_ms c) → (u < c_source_time_ms c)%Z →
  fresh_change m c → with_past mt t u P m w →
  wpm (record_change finish128 q c s) w (λ _ w', past u (view_docs w' q) ≡ₚ P).
Proof.
  intros Hpol Hlat Ht Hc Hu [Hf1 Hf2] [Hw HP]. unfold record_change. rewrite Hpol.
  rewrite (valid_time_i64 _ Hc). set (ts := c_source_time_ms c) in *.
  assert (with_past mt ts u P m w) as Hw0.
  { split; [|done]. destruct Hw as (?&?&Hs&?). split_and!; [done..| |done].
    by eapply settled_mono. }
  apply (wp_ok_bind _ _ _ (λ e, e)). eapply wp_ok_mono; [|
    eapply (for_try_past mt ts u P _ _ (λ m del, delete (hash_values finish128 del) m)
      (λ _ _, True) m w); [..|exact Hw0]].
  2:{ intros. by apply remove_row_past. }
  2:{ clear. generalize m. by induction (c_deleted_results c); simpl. }
  intros [] w1 Hw1. apply (wp_ok_bind _ _ _ (λ e, e)). eapply wp_ok_mono; [|
    eapply (for_try_past mt ts u P _ _ (spec_update finish128) fresh_update); [..|exact Hw1]].
  2:{ intros. by apply record_update_past. }
  2:{ exact Hf1. }
  intros [] w2 Hw2. apply (wp_ok_bind _ _ _ (λ e, e)). eapply wp_ok_mono; [|
    eapply (for_try_past mt ts u P _ _ (λ m add, <[hash_values finish128 add := add]> m)
      (λ m add, m !! hash_values finish128 add = None)); [..|exact Hw2]].
  2:{ intros. by apply upsert_row_past. }
  2:{ exact Hf2. }
  intros [] w3 [_ HP3]. apply wp_store_result. intros x Hx.
  destruct (law_set_metadata _ _ _ _ _ _ Hx) as [Hd _]. by rewrite Hd.
Qed.

(** What a read at time [u], not after the last change, answers. *)
Lemma get_view_past mt t m s u w :
  valid_time u → (u ≤ m_ts mt)%Z → stands_for (Some mt) t m w →
  wpm (get_view s q (Some u)) w (λ els w', (∃ rs,
    els = Header (as_u64 (m_seq mt)) (as_u64 (m_ts mt)) (m_state mt) :: map Data rs ∧
    rs ≡ₚ past u (view_docs w q))).
Proof.
  intros Hu Hle (Hun & Hm & Hs & Hmt). unfold get_view.
  destruct (retention s !! q) as [policy|]; [|apply wp_ok_err]. apply wp_ok_call.
  destruct (mongo_handler _ (FindMetadata q) w).1 as [r|e] eqn:Hr; [|apply wp_ok_err].
  destruct (law_find_metadata _ _ _ Hr) as (-> & Hd1 & Hm1). rewrite Hmt.
  cbn [fmap option_fmap option_map].
  set (w1 := (mongo_handler _ (FindMetadata q) w).2) in *. apply (wp_ok_call _ NowMillis).
  destruct (mongo_handler _ NowMillis w1).1 as [now|] eqn:Hn; [|apply wp_ok_panic].
  destruct (law_now q w1) as [Hd2 _].
  set (w2 := (mongo_handler _ NowMillis w1).2) in *. cbv zeta.
  change (default (as_u64 now) (Some u)) with u.
  rewrite (valid_time_i64 u Hu), Z.min_r by done.
  match goal with |- wp_ok _ (if ?b then _ else _) _ _ => destruct b end; [apply wp_ok_err|].
  apply (wp_ok_call _ (FindEffective q u)).
  destruct (mongo_handler _ (FindEffective q u) w2).1 as [items|e] eqn:Hf; [|apply wp_ok_err].
  apply wp_ok_ret. pose proof (law_find _ _ _ _ Hf) as Hi. rewrite Hd2, Hd1 in Hi.
  destruct (view_rows_of _ _ Hi) as (rs & -> & Hrs). by exists rs.
Qed.

(** C35: time travel.  Under a retention policy that keeps old rows, recording a
    change does not rewrite the past: reading the view at any time covered
    before the change and earlier than it answers the same rows before and
    after.  This is for a change whose rows, as they are added, are not in the view
    at that moment ([fresh_change]); a row that is added while it is already in the
    view replaces its document, and the past with it ([readded_row_loses_past]). *)
Theorem history_preserved s cs c0 c u w policy :
  retention s !! q = Some policy → policy ≠ Latest →
  view_docs w q = [] → view_meta w q = None →
  in_order 0 (cs ++ [c0] ++ [c]) →
  fresh_change (foldl (spec_change finish128) ∅ (cs ++ [c0])) c →
  (0 ≤ u ≤ c_source_time_ms c0)%Z → (u < c_source_time_ms c)%Z →
  wpm (record_all s (cs ++ [c0])) w (λ _ w1,
    wpm (get_view s q (Some u)) w1 (λ before _,
      wpm (record_change finish128 q c s) w1 (λ _ w2,
        wpm (get_view s q (Some u)) w2 (λ after _, tail after ≡ₚ tail before)))).
Proof.
  intros Hpol Hlat Hd Hm Hin Hf Hu Hlt. rewrite app_assoc in Hin.
  destruct (in_order_app _ _ _ Hin) as (Hin1 & Hle & Hv).
  destruct (in_order_app _ _ _ Hin1) as (_ & _ & Hv0).
  rewrite list.last_snoc in Hle. simpl in Hle.
  assert (valid_time u) as Hvu by (unfold valid_time in *; lia).
  assert (stands_for None 0 ∅ w) as Hw.
  { unfold stands_for, unique. rewrite Hd, Hm. split_and!; [constructor|done| |done].
    by intros d ?%elem_of_nil. }
  eapply wp_ok_mono; [|by eapply record_all_stands]. intros [] w1 Hw1.
  rewrite list.last_snoc in Hw1. simpl in Hw1.
  rewrite foldl_app in Hw1. simpl in Hw1.
  eapply wp_ok_mono; [|eapply (get_view_past _ _ _ s u); [done| |exact Hw1]]; [|simpl; lia].
  intros before _ (rs1 & -> & Hrs1).
  eapply wp_mono; [|apply wp_conj;
    [eapply (record_change_past _ _ u (past u (view_docs w1 q))); try done; by split
    |by eapply record_change_stands]].
  intros o w2 [Hpast Hst] [] ->. specialize (Hpast () eq_refl). specialize (Hst () eq_refl).
  eapply wp_ok_mono; [|eapply (get_view_past _ _ _ s u); [done| |exact Hst]]; [|simpl; lia].
  intros after _ (rs2 & -> & Hrs2). simpl. by rewrite Hrs1, Hrs2, Hpast.
Qed.

(** ** Garbage collection *)

Definition epoch_of (now after_seconds : Z) : Z :=
  as_i64 (now - as_i64 (as_i64 after_seconds * 1000)).

(** Collecting other views leaves this one alone; collecting this one removes
    only documents that ended before its epoch. *)
Lemma collect_policies_docs now policies w :
  NoDup policies.*1 →
  wp mongo_handler (collect_policies now policies) w (λ _ w',
    view_meta w' q = view_meta w q ∧
    match (list_to_map policies : gmap string RetentionPolicy) !! q with
    | Some (Expire a) => ∃ gone, view_docs w q ≡ₚ gone ++ view_docs w' q ∧
        Forall (λ d, d_valid_to d < epoch_of now a)%Z gone
    | _ => view_docs w' q = view_docs w q
    end).
Proof.
  revert w. induction policies as [|[c policy] policies IH]; intros w Hnd; cbn [collect_policies].
  { by apply wp_ret. }
  simpl in Hnd. apply list.NoDup_cons in Hnd as [Hc Hnd].
  change (list_to_map ((c, policy) :: policies))
    with (<[c := policy]> (list_to_map policies : gmap string RetentionPolicy)).
  destruct (decide (c = q)) as [->|Hne].
  - rewrite lookup_insert_eq.
    assert ((list_to_map policies : gmap string RetentionPolicy) !! q = None) as Hnone
      by by apply not_elem_of_list_to_map.
    destruct policy as [|a|]; [eapply wp_mono; [|by apply IH]; by rewrite Hnone| |
      eapply wp_mono; [|by apply IH]; by rewrite Hnone].
    apply wp_call. eapply wp_mono; [|by apply IH]. rewrite Hnone. intros o w' [-> ->].
    destruct (law_older q (epoch_of now a) w) as (Hg & _ & Hmeta & _). split; [|exact Hg].
    apply Hmeta.
  - rewrite lookup_insert_ne by done. destruct policy as [|a|]; [by apply IH| |by apply IH].
    apply wp_call. eapply wp_mono; [|by apply IH]. intros o w'.
    destruct (law_older c (epoch_of now a) w) as (_ & Hother & Hmeta & _).
    unfold epoch_of in Hother, Hmeta. by rewrite Hother, Hmeta.
Qed.

Lemma epoch_of_small now a :
  valid_time now → (0 ≤ a < 2 ^ 52)%Z → epoch_of now a = (now - a * 1000)%Z.
Proof.
  unfold valid_time, MAX_TIMESTAMP, epoch_of. intros Hn Ha.
  rewrite (as_i64_id a), (as_i64_id (a * 1000)), as_i64_id; unfold is_i64; lia.
Qed.

Lemma reader_epoch now a :
  valid_time now → (0 ≤ a < 2 ^ 52)%Z →
  as_i64 (u64_sub (as_u64 now) (u64_mul a 1000)) = (now - a * 1000)%Z.
Proof.
  unfold valid_time, MAX_TIMESTAMP, u64_sub, u64_mul, as_u64. intros Hn Ha.
  rewrite as_i64_mod, (Z.mod_small now), (Z.mod_small (a * 1000)) by (unfold u64_modulus; lia).
  apply as_i64_id. unfold is_i64. lia.
Qed.

(** Documents that ended before [e] are not seen at [u], when [u] is not
    before [e] or is the time [t] the view is settled at. *)
Lemma past_gone t u e gone l l' :
  settled t l → (t ≤ MAX_TIMESTAMP)%Z → (e ≤ MAX_TIMESTAMP)%Z → (e ≤ u ∨ u = t)%Z →
  l ≡ₚ gone ++ l' → Forall (λ d, d_valid_to d < e)%Z gone → past u l' ≡ₚ past u l.
Proof.
  intros Hs Ht He Hu Hl Hg. rewrite (past_perm _ _ _ Hl), past_app.
  assert (past u gone = []) as ->; [|done]. unfold past.
  assert (filter (effective u) gone = []) as ->; [|done].
  assert (∀ d, d ∈ gone → ¬ effective u d) as Hno.
  { intros d Hd. rewrite list.Forall_forall in Hg. specialize (Hg d Hd).
    assert (d ∈ l) as Hdl by (rewrite Hl; set_solver). destruct (Hs d Hdl) as [Hf Hv].
    unfold effective. lia. }
  clear -Hno. induction gone as [|d gone IH]; [done|].
  rewrite filter_cons_False by (apply Hno; left). apply IH. intros e He. apply Hno. by right.
Qed.

(** C36: garbage collection is invisible.  After a collection at time [now], any
    read that the view still answers, at that time or later, under the same
    retention policies, returns the rows the view would hold had nothing been
    collected: everything removed ended before the oldest time that may still
    be asked for. *)
Theorem gc_invisible_to_readers s mt t m w now timestamp :
  valid_time t → valid_time now → stands_for (Some mt) t m w → m_ts mt = t →
  (∀ a, retention s !! q = Some (Expire a) → 0 ≤ a < 2 ^ 52)%Z →
  (∀ w n, (mongo_handler _ NowMillis w).1 = Some n → now ≤ n ≤ MAX_TIMESTAMP)%Z →
  wp mongo_handler (collect_policies now (map_to_list (retention s))) w (λ _ w',
    wpm (get_view s q timestamp) w' (λ els _, ∃ u rs,
      els = Header (as_u64 (m_seq mt)) (as_u64 t) (m_state mt) :: map Data rs ∧
      (∀ ts, timestamp = Some ts → u = Z.min t (as_i64 ts)) ∧
      rs ≡ₚ past u (view_docs w q))).
Proof.
  intros Ht Hnow (Hun & Hm & Hs & Hmt) Hts Ha Hclock.
  eapply wp_mono; [|apply (collect_policies_docs now); apply NoDup_fst_map_to_list].
  intros o w' [Hmeta Hdocs]. rewrite list_to_map_to_list in Hdocs. unfold get_view.
  destruct (retention s !! q) as [policy|]; [|apply wp_ok_err]. apply wp_ok_call.
  destruct (mongo_handler _ (FindMetadata q) w').1 as [r|e] eqn:Hr; [|apply wp_ok_err].
  destruct (law_find_metadata _ _ _ Hr) as (-> & Hd1 & Hm1). rewrite Hmeta, Hmt.
  cbn [fmap option_fmap option_map].
  set (w1 := (mongo_handler _ (FindMetadata q) w').2) in *. apply (wp_ok_call _ NowMillis).
  destruct (mongo_handler _ NowMillis w1).1 as [n|] eqn:Hn; [|apply wp_ok_panic].
  destruct (law_now q w1) as [Hd2 _]. specialize (Hclock _ _ Hn).
  set (w2 := (mongo_handler _ NowMillis w1).2) in *. cbv zeta.
  set (ts := as_i64 (default (as_u64 n) timestamp)). rewrite Hts.
  assert (valid_time n) as Hvn by (unfold valid_time in *; lia).
  destruct (match policy with Expire a => (ts <? as_i64 (u64_sub (as_u64 n) (u64_mul a 1000)))%Z
    | _ => false end) eqn:Hrej; [apply wp_ok_err|].
  assert (past (Z.min t ts) (view_docs w' q) ≡ₚ past (Z.min t ts) (view_docs w q)) as Hpast.
  { destruct policy as [|a|]; [by rewrite Hdocs| |by rewrite Hdocs].
    specialize (Ha a eq_refl). destruct Hdocs as (gone & Hl & Hg).
    rewrite epoch_of_small in Hg by done. rewrite reader_epoch in Hrej by done.
    apply Z.ltb_ge in Hrej. eapply (past_gone t); [exact Hs| | | |exact Hl|exact Hg];
      unfold valid_time in *; lia. }
  apply (wp_ok_call _ (FindEffective q (Z.min t ts))).
  destruct (mongo_handler _ (FindEffective q (Z.min t ts)) w2).1 as [items|e] eqn:Hf;
    [|apply wp_ok_err].
  apply wp_ok_ret. pose proof (law_find _ _ _ _ Hf) as Hi. rewrite Hd2, Hd1 in Hi.
  destruct (view_rows_of _ _ Hi) as (rs & -> & Hrs). exists (Z.min t ts), rs.
  split; [done|]. split; [|by rewrite Hrs].
  intros ts' ->. done.
Qed.
End recording.

(** ** A store in memory, for the examples *)

Fixpoint edit_first (f : doc_filter) (g : ViewDocument → list ViewDocument)
    (none l : list ViewDocument) : list ViewDocument :=
  match l with
  | [] => none
  | d :: l => if matches f d then g d ++ l else d :: edit_first f g none l
  end.

Lemma edit_first_edited f g none l : edited f g none l (edit_first f g none l).
Proof.
  induction l as [|d l IH]; simpl.
  - right. split; [constructor|]. by rewrite app_nil_r.
  - destruct (matches f d) eqn:Hm.
    + left. by exists d, l.
    + destruct IH as [(e & r & Hl & He & Hl')|[Hall Hl']].
      * left. exists e, (d :: r). split_and!; [|done|].
        -- rewrite Hl. by rewrite Permutation_swap.
        -- rewrite Hl'. by rewrite Permutation_middle.
      * right. split; [by constructor|]. rewrite Hl'. by rewrite Permutation_middle.
Qed.

Definition mem_coll : Type := list ViewDocument * option MetadataDocument.
Definition mem_db : Type := string → mem_coll.
Definition mem_set (c : string) (x : mem_coll) (w : mem_db) : mem_db :=
  λ c', if decide (c' = c) then x else w c'.

#[local] Instance mem_mongo : MongoEnv mem_db := {
  mongo_handler X e w :=
    match e in mongo_call X return X * mem_db with
    | CreateIndexes _ => (Ok (), w)
    | DropCollection c => (Ok (), mem_set c ([], None) w)
    | FindOneAndDelete c f =>
        (Ok None, mem_set c (edit_first f (λ _, []) [] (w c).1, (w c).2) w)
    | FindOneAndSetValidTo c f vt =>
        (Ok None, mem_set c (edit_first f (λ d, [close vt d]) [] (w c).1, (w c).2) w)
    | FindOneAndReplace c f d =>
        (Ok None, mem_set c (edit_first f (λ _, [d]) [d] (w c).1, (w c).2) w)
    | SetMetadata c seq ts st =>
        (Ok None, mem_set c ((w c).1, Some (mkMeta seq ts
          match st with Some st => Some st | None => (w c).2 ≫= m_state end)) w)
    | FindMetadata c => (Ok (IMetadata <$> (w c).2), w)
    | FindEffective c t =>
        (Ok (map (λ d, Ok (IView d)) (filter (effective t) (w c).1)), w)
    | DeleteOlder c epoch =>
        (Ok (), mem_set c (filter (λ d, epoch ≤ d_valid_to d)%Z (w c).1, (w c).2) w)
    | NowMillis => (Some 1000000000000%Z, w)
    end;
  view_docs w c := (w c).1;
  view_meta w c := (w c).2;
}.

#[local] Instance mem_mongo_laws : MongoLaws mem_db.
Proof.
  split; simpl; unfold mem_set; try (intros; rewrite decide_True by done; simpl);
    try (split; [apply edit_first_edited | done]); try done.
  - by intros c w r [= <-].
  - by intros c t w r [= <-].
  - split_and!; [|by intros; case_decide; [subst|].. |].
    + exists (filter (λ d, ¬ epoch ≤ d_valid_to d)%Z (w c).1). split.
      * symmetry. rewrite Permutation_app_comm. apply filter_app_complement.
      * apply list.Forall_forall. intros d [Hd _]%list_elem_of_filter. lia.
    + intros [] _. apply list.Forall_forall. by intros d [Hd _]%list_elem_of_filter.
Qed.

Definition row (v : string) : jmap := [("v", VString v)]%string.
Definition hash_text (ws : list hash_write) : string :=
  join "," (map (λ w, match w with WBytes s => s | _ => "#"%string end) ws).
Definition change_at (seq ts : Z) (added deleted : list jmap) : ResultChangeEvent :=
  mkChange "q" seq ts added [] deleted None.
Definition store_all (p : RetentionPolicy) : MongoViewStore :=
  mkStore {["q"%string := p]}.
Definition empty_db : mem_db := λ _, ([], None).

Lemma view_reflects_changes_witness :
  wp_ok mongo_handler
    (r ← record_all hash_text "q" (store_all All)
           ([change_at 1 10 [row "a"; row "b"] []] ++ [change_at 2 20 [row "c"] [row "a"]]);
     match r with
     | Ok _ => get_view (store_all All) "q" None
     | Err e => mret (Err e)
     end) empty_db
    (λ els _, ∃ rs, els = Header 2 20 None :: map Data rs ∧
       rs ≡ₚ (map_to_list (foldl (spec_change hash_text) ∅
         ([change_at 1 10 [row "a"; row "b"] []] ++ [change_at 2 20 [row "c"] [row "a"]]))).*2).
Proof.
  apply (view_reflects_changes hash_text "q" (store_all All)
    [change_at 1 10 [row "a"; row "b"] []] (change_at 2 20 [row "c"] [row "a"]) None empty_db).
  - done.
  - done.
  - simpl. unfold valid_time, MAX_TIMESTAMP. lia.
  - unfold is_u64, u64_modulus. simpl. lia.
  - intros w now [= <-]. vm_compute. done.
Defined.

Lemma history_preserved_witness :
  wp_ok mongo_handler (record_all hash_text "q" (store_all All)
      ([] ++ [change_at 1 10 [row "a"; row "b"] []])) empty_db (λ _ w1,
    wp_ok mongo_handler (get_view (store_all All) "q" (Some 10%Z)) w1 (λ before _,
      wp_ok mongo_handler (record_change hash_text "q" (change_at 2 20 [row "c"] [row "a"])
          (store_all All)) w1 (λ _ w2,
        wp_ok mongo_handler (get_view (store_all All) "q" (Some 10%Z)) w2 (λ after _,
          tail after ≡ₚ tail before)))).
Proof.
  apply (history_preserved hash_text "q" (store_all All) [] (change_at 1 10 [row "a"; row "b"] [])
    (change_at 2 20 [row "c"] [row "a"]) 10 empty_db All); done.
Defined.

(** A row added at 10 and again at 20, read as it was at 10 before and after the
    second change: it is gone. *)
Example readded_row_loses_past :
  let read t := (run (@mongo_handler mem_db _) (r ← record_all hash_text "q" (store_all All) t;
    get_view (store_all All) "q" (Some 10%Z)) empty_db).1.1 in
  read [change_at 1 10 [row "a"] []] = Done (Ok [Header 1 10 None; Data (row "a")]) ∧
  read [change_at 1 10 [row "a"] []; change_at 2 20 [row "a"] []] = Done (Ok [Header 2 20 None]).
Proof. split; vm_compute; reflexivity. Qed.

Definition old_docs : list ViewDocument := [mkDoc "h" (row "a") 5 10].
Definition old_meta : MetadataDocument := mkMeta 1 20 None.
Definition old_db : mem_db := λ _, (old_docs, Some old_meta).

Lemma gc_invisible_to_readers_witness :
  wp (@mongo_handler mem_db _)
    (collect_policies 1000000000000 (map_to_list (retention (store_all (Expire 60))))) old_db
    (λ _ w', wp_ok (@mongo_handler mem_db _) (get_view (store_all (Expire 60)) "q" None) w'
      (λ els _, ∃ u rs, 
        els = Header (as_u64 (m_seq old_meta)) (as_u64 20) (m_state old_meta) :: map Data rs ∧
        (∀ ts, None = Some ts → u = Z.min 20 (as_i64 ts)) ∧
        rs ≡ₚ past u (@view_docs mem_db _ old_db "q"))).
Proof.
  apply (@gc_invisible_to_readers mem_db _ _ "q" (store_all (Expire 60)) old_meta 20 ∅ old_db
    1000000000000 None); unfold valid_time, MAX_TIMESTAMP; try lia.
  - unfold stands_for, unique. split_and!; [constructor|done| |done].
    intros d Hd. apply list_elem_of_singleton in Hd. subst d. simpl. lia.
  - done.
  - intros a. unfold store_all. cbn [retention]. rewrite lookup_singleton_eq. intros [= <-]. lia.
  - intros w n [= <-]. lia.
Defined.

(** ** Keys that collide *)

(** The key of a row does not determine the row, whatever the hash function
    is: nested arrays are hashed like flat ones.  Two different rows added to
    a view can therefore take each other's place, so that the view holds one
    row where the query's result has two. *)
Theorem distinct_rows_collide finish128 : ∃ r1 r2 : jmap,
  r1 ≠ r2 ∧ jsorted r1 = true ∧ jsorted r2 = true ∧
  hash_values finish128 r1 = hash_values finish128 r2 ∧
  ∀ seq ts, size (spec_change finish128 ∅ (change_at seq ts [r1; r2] [])) = 1%nat.
Proof.
  exists [("v", VArray [VString "x"; VString "y"])]%string,
    [("v", VArray [VString "x"; VArray [VString "y"]])]%string.
  split_and!; [done..|]. intros seq ts. unfold spec_change. simpl.
  match goal with |- size (<[?k := _]> (<[?k' := _]> _)) = _ => change k' with k end.
  rewrite insert_insert_eq, insert_empty. apply map_size_singleton.
Qed.
