(* ===== verification/ViewWorker.v ===== *)
(** * ViewWorker: the task that keeps a view up to date
    ([query-container/view-svc/src/view_worker.rs] and its
    [change_stream/redis_change_stream.rs])

    The worker calls the methods of the [ViewStore] trait; [mongo_method] says
    what each of them does when the store is the MongoDB one. *)
From S2P Require Import Prelude BTree Json Effects RustText ChangeStream ViewApi ViewStore.

(** ** The view service's change stream *)

Record ViewMessage := mkViewMessage {
  vm_id : string;
  vm_data : ResultEvent;
  vm_trace_state : option string;
  vm_trace_parent : option string;
}.

(** The [cloudevents] library: an event, its data and its extensions. *)
Inductive ce_data := CeJson (v : value) | CeOther.

Class CloudEvents := {
  Event : Type;
  event_from_slice : string → result Event string;
  event_data : Event → option ce_data;
  event_extension : Event → string → option string;
}.

Section stream.
Context `{CloudEvents}.
(** [serde_json::from_value::<ResultEvent>] with the text of its error. *)
Context (from_value : value → result ResultEvent string).

Definition view_deserialize (message : StreamId) : result ViewMessage ChangeStreamError :=
  let? evt :=
    match sid_map message !! "data"%string with
    | Some (RData data) =>
        match event_from_slice data with
        | Ok data => Ok data
        | Err err =>
            Err (MessageError (sid_id message) ("Failed to deserialize data: " +:+ err))
        end
    | Some ROther => Err (MessageError (sid_id message) "Invalid data type")
    | None => Err (MessageError (sid_id message) "Missing data")
    end in
  match event_data evt with
  | Some (CeJson data) =>
      match from_value data with
      | Ok data =>
          Ok (mkViewMessage (sid_id message) data
                (event_extension evt "traceparent") (event_extension evt "tracestate"))
      | Err err => Err (MessageError (sid_id message) ("Failed to deserialize data: " +:+ err))
      end
  | Some CeOther => Err (MessageError (sid_id message) "Invalid data type")
  | None => Err (MessageError (sid_id message) "Missing data")
  end.
End stream.

(** [RedisChangeStream::new]: a new group starts at the end of the stream. *)
Definition new_view_stream (url topic group_id consumer_id : string)
    (buffer_size fetch_batch_size : Z)
    : prog open_call (result RedisChangeStream ChangeStreamError) :=
  client ← trigger (OpenClient url);
  match client with
  | Err e => mret (Err (from_redis_error e))
  | Ok _ =>
      connection ← trigger GetConnection;
      match connection with
      | Err e => mret (Err (from_redis_error e))
      | Ok _ =>
          _ ← trigger (XGroupCreateMkstream topic group_id "$");
          bg_connection ← trigger GetConnection;
          match bg_connection with
          | Err e => mret (Err (from_redis_error e))
          | Ok _ =>
              _ ← trigger (SpawnFetch topic group_id consumer_id fetch_batch_size buffer_size);
              mret (Ok (mkStream topic group_id None))
          end
      end
  end.

(** ** The [ViewStore] trait *)

Inductive store_call : Type → Type :=
| VsInitView (query_id : string) (policy : RetentionPolicy) : store_call (result unit ViewError)
| VsSetRetentionPolicy (query_id : string) (policy : RetentionPolicy)
    : store_call (result unit ViewError)
| VsDeleteView (query_id : string) : store_call (result unit ViewError)
| VsRecordChange (query_id : string) (change : ResultChangeEvent)
    : store_call (result unit ViewError)
| VsGetView (query_id : string) (timestamp : option Z)
    : store_call (result (list ViewElement) ViewError)
| VsSetState (query_id : string) (sequence ts : Z) (state : string)
    : store_call (result unit ViewError).

(** [impl ViewStore for MongoViewStore] *)
Definition mongo_method (finish128 : list hash_write → string) {X} (c : store_call X)
    (s : MongoViewStore) : prog mongo_call (X * MongoViewStore) :=
  match c with
  | VsInitView q p => init_view q p s
  | VsSetRetentionPolicy q p => mret (Ok (), set_retention_policy q p s)
  | VsDeleteView q => delete_view q s
  | VsRecordChange q c => r ← record_change finish128 q c s; mret (r, s)
  | VsGetView q t => r ← get_view s q t; mret (r, s)
  | VsSetState q n t st => r ← set_state q n t st; mret (r, s)
  end.

(** ** The worker *)

Inductive Command := Shutdown | Reconfigure (spec : ViewSpec).

Inductive ShutdownReason := Deactivated | Error.

Inductive WorkerState := WsRunning | WsShutdown (reason : ShutdownReason).

Inductive selected := SelCommand (c : option Command) | SelMessage.

Inductive view_call : Type → Type :=
| VStore {X} (c : store_call X) : view_call X
| VStream {X} (c : stream_call X) : view_call X
| VOpen {X} (c : open_call X) : view_call X
| VSelect : view_call selected.

Section worker.
Context `{CloudEvents}.
Context (from_value : value → result ResultEvent string).
Context (redis_url : string) (buffer_size fetch_batch_size : Z).

Notation P := (prog view_call).

(** A round of the loop ends with going on, leaving it, or returning. *)
Inductive round_end := Continue | Break | Return (r : ShutdownReason).

Definition view_recv (st : RedisChangeStream)
    : P (result (option ViewMessage) ChangeStreamError * RedisChangeStream) :=
  translate (λ X c, VStream c) (recv (view_deserialize from_value) st).

Definition view_ack (id : string) (st : RedisChangeStream)
    : P (result unit ChangeStreamError * RedisChangeStream) :=
  translate (λ X c, VStream c) (ack id st).

(** The handling of an event, before its acknowledgement: whether to go on. *)
Definition handle_event (query_id : string) (evt : ResultEvent) : P (option ShutdownReason) :=
  match evt with
  | EvChange change_evt =>
      r ← trigger (VStore (VsRecordChange query_id change_evt));
      match r with
      | Err _ => mret (Some Error)
      | Ok _ => mret None
      end
  | EvControl control_evt =>
      match k_control_signal control_evt with
      | BootstrapStarted =>
          r ← trigger (VStore (VsDeleteView query_id));
          match r with Err _ => mret (Some Error) | Ok _ => mret None end
      | QueryDeleted =>
          r ← trigger (VStore (VsDeleteView query_id));
          match r with Ok _ => mret None | Err _ => mret (Some Error) end
      | _ =>
          _ ← trigger (VStore (VsSetState query_id (k_sequence control_evt)
                (k_source_time_ms control_evt)
                (signal_to_string (k_control_signal control_evt))));
          mret None
      end
  end.

Definition on_view_message (query_id : string) (st : RedisChangeStream)
    : P (round_end * RedisChangeStream) :=
  '(msg, st) ← view_recv st;
  match msg with
  | Err _ => mret (Break, st)
  | Ok None => mret (Continue, st)
  | Ok (Some evt) =>
      r ← handle_event query_id (vm_data evt);
      match r with
      | Some reason => mret (Return reason, st)
      | None =>
          '(_, st) ← view_ack (vm_id evt) st;
          mret (Continue, st)
      end
  end.

Definition on_view_command (query_id : string) (cmd : option Command)
    (st : RedisChangeStream) : P (round_end * RedisChangeStream) :=
  match cmd with
  | Some Shutdown => mret (Return Deactivated, st)
  | Some (Reconfigure new_config) =>
      _ ← trigger (VStore (VsSetRetentionPolicy query_id (retention_policy new_config)));
      mret (Continue, st)
  | None => mret (Return Error, st)
  end.

Definition view_round (query_id : string) (st : RedisChangeStream)
    : P (round_end * RedisChangeStream) :=
  s ← trigger VSelect;
  match s with
  | SelCommand cmd => on_view_command query_id cmd st
  | SelMessage => on_view_message query_id st
  end.

(** At most [rounds] rounds: the reason of the shutdown, [None] while it runs. *)
Fixpoint view_loop (rounds : nat) (query_id : string) (st : RedisChangeStream)
    : P (option ShutdownReason) :=
  match rounds with
  | O => mret None
  | S rounds =>
      '(r, st) ← view_round query_id st;
      match r with
      | Continue => view_loop rounds query_id st
      | Break => mret (Some Deactivated)
      | Return reason => mret (Some reason)
      end
  end.

Definition view_worker_run (rounds : nat) (query_id : string) (config : ViewSpec)
    : P (option ShutdownReason) :=
  init ← trigger (VStore (VsInitView query_id (retention_policy config)));
  match init with
  | Err _ => mret (Some Error)
  | Ok _ =>
      let topic := query_id +:+ "-results" in
      change_stream ← translate (λ X c, VOpen c)
        (new_view_stream redis_url topic "view-svc" "view-svc" buffer_size fetch_batch_size);
      match change_stream with
      | Err _ => mret (Some Error)
      | Ok change_stream => view_loop rounds query_id change_stream
      end
  end.
End worker.
