(* ===== verification/ViewWorkerSpec.v ===== *)
(** * ViewWorkerSpec: what a view worker guarantees *)
From S2P Require Import Prelude BTree Json Effects RustText ChangeStream ViewApi ViewStore ViewWorker.

(** ** Acknowledgements *)

Section acks.
Context `{CloudEvents}.
Context (from_value : value → result ResultEvent string).
Context (redis_url : string) (buffer_size fetch_batch_size : Z).
Context (q : string).

Notation trace := (list (call view_call)).
Notation deserialize := (view_deserialize from_value).

Definition stream_acked X (e : stream_call X) : option string :=
  match e with XAck _ _ id => Some id | _ => None end.

(** The entry a call acknowledges. *)
Definition acked (c : call view_call) : option string :=
  match c with
  | @Call _ X e x => match e with @VStream X c => stream_acked X c | _ => None end
  end.

(** What the store has done with the event: recorded the change; dropped the view
    when a bootstrap starts or the query is deleted.  For any other signal it was
    asked to set the state, and may have answered an error. *)
Definition handled (t : trace) (e : ResultEvent) : Prop :=
  match e with
  | EvChange c => Call (VStore (VsRecordChange q c)) (Ok ()) ∈ t
  | EvControl k =>
      match k_control_signal k with
      | BootstrapStarted | QueryDeleted => Call (VStore (VsDeleteView q)) (Ok ()) ∈ t
      | signal => ∃ r, Call (VStore (VsSetState q (k_sequence k) (k_source_time_ms k)
          (signal_to_string signal))) r ∈ t
      end
  end.

Definition may_ack (t : trace) (c : call view_call) : Prop :=
  ∀ id, acked c = Some id → ∃ item evt,
    Call (VStream RxRecv) (Some item) ∈ t ∧ deserialize item = Ok evt ∧ vm_id evt = id ∧
    handled t (vm_data evt).

(** The held entry was received. *)
Definition held (t : trace) (st : RedisChangeStream) : Prop :=
  ∀ item, rs_unack_item st = Some item → Call (VStream RxRecv) (Some item) ∈ t.

Notation guarded := (guards anything may_ack).

Lemma held_app t t' st : held t st → held (t ++ t') st.
Proof. unfold held. set_solver. Qed.

Lemma deserialize_id item evt : deserialize item = Ok evt → vm_id evt = sid_id item.
Proof.
  unfold view_deserialize. intros (ev & _ & Hd)%result_bind_Ok.
  repeat case_match; simplify_eq. done.
Qed.

Lemma view_no_ack_call {X A} t (e : view_call X) (k : X → prog view_call A) Q :
  (∀ x, acked (Call e x) = None) → (∀ x, guarded (t ++ [Call e x]) (k x) Q) →
  guarded t (trigger e ≫= k) Q.
Proof. intros He Hk. apply guards_call; [|auto]. intros x _ id. by rewrite He. Qed.

Lemma handle_event_handles t evt st :
  held t st → guarded t (handle_event q evt) (λ t' r, held t' st ∧
    (∀ c, c ∈ t → c ∈ t') ∧ (r = None → handled t' evt)).
Proof.
  intros Hh.
  assert (∀ c : call view_call, held (t ++ [c]) st ∧ (∀ c', c' ∈ t → c' ∈ t ++ [c])) as Hc.
  { intros c. split; [by apply held_app | set_solver]. }
  unfold handle_event. destruct evt as [c|k].
  - apply view_no_ack_call; [done|]. intros [[]|e]; apply guards_ret; split_and!; try apply Hc; [|done].
    intros _. simpl. set_solver.
  - unfold handled. destruct (k_control_signal k); (apply view_no_ack_call; [done|]).
    + intros [[]|e]; apply guards_ret; split_and!; try apply Hc; [|done]. intros _. set_solver.
    + intros r; apply guards_ret; split_and!; try apply Hc. intros _. exists r. set_solver.
    + intros r; apply guards_ret; split_and!; try apply Hc. intros _. exists r. set_solver.
    + intros r; apply guards_ret; split_and!; try apply Hc. intros _. exists r. set_solver.
    + intros [[]|e]; apply guards_ret; split_and!; try apply Hc; [|done]. intros _. set_solver.
Qed.

Lemma on_view_message_acks t st :
  held t st → guarded t (on_view_message from_value q st) (λ t' r, held t' r.2).
Proof.
  intros Hh. unfold on_view_message.
  (* Receiving: the served entry was received. *)
  apply (guards_bind _ _ _ _ _ (λ t' r, held t' r.2 ∧ ∀ evt, r.1 = Ok (Some evt) →
    ∃ item, rs_unack_item r.2 = Some item ∧ deserialize item = Ok evt)).
  { unfold view_recv, recv. destruct (rs_unack_item st) as [item|] eqn:Hi.
    - destruct (deserialize item) as [evt|e] eqn:Hd; apply guards_ret; (split; [done|]).
      + intros ? [= <-]. eauto.
      + done.
    - cbn [translate trigger mbind prog_bind]. apply (view_no_ack_call _ (VStream RxRecv)); [done|].
      intros [item|]; cbn [translate].
      + destruct (deserialize item) as [evt|e] eqn:Hd; apply guards_ret; split.
        * intros item' [= <-]. set_solver.
        * intros ? [= <-]. exists item. done.
        * by apply held_app.
        * done.
      + apply guards_ret. split; [by apply held_app | done]. }
  intros t1 [[[evt|]|e] st1] [Hh1 Hs]; try by apply guards_ret.
  destruct (Hs evt eq_refl) as (item & Hi & Hd). simpl in Hi, Hh1.
  eapply guards_bind; [by apply (handle_event_handles _ _ st1)|].
  intros t2 [reason|] (Hh2 & _ & Happ); [by apply guards_ret|]. specialize (Happ eq_refl).
  apply (guards_bind _ _ _ _ _ (λ t' (r : _ * RedisChangeStream), held t' r.2));
    [|intros t3 [r st3] Ht3; by apply guards_ret].
  unfold view_ack, ack. rewrite Hi.
  destruct (str_eqb (sid_id item) (vm_id evt)); [|by apply guards_ret].
  cbn [translate trigger mbind prog_bind].
  apply (guards_call _ _ _ (VStream (XAck (rs_topic st1) (rs_group_id st1) (vm_id evt)))).
  - intros x _ id [= <-]. exists item, evt. split_and!; [by apply Hh2|done..|done].
  - intros [n|e] _; cbn [translate]; apply guards_ret; [by intros item'|by apply held_app].
Qed.

Lemma view_loop_acks rounds t st :
  held t st → guarded t (view_loop from_value rounds q st) (λ _ _, True).
Proof.
  revert t st. induction rounds as [|rounds IH]; intros t st Hh; cbn [view_loop].
  { by apply guards_ret. }
  apply (guards_bind _ _ _ _ _ (λ t' (r : round_end * _), held t' r.2)).
  - unfold view_round. apply view_no_ack_call; [done|]. intros s.
    apply (held_app _ [Call VSelect s]) in Hh. destruct s as [cmd|].
    + unfold on_view_command. destruct cmd as [[|spec]|]; try by apply guards_ret.
      apply view_no_ack_call; [done|]. intros r. apply guards_ret. by apply held_app.
    + by apply on_view_message_acks.
  - intros t' [[| |reason] st'] Hh'; [by apply IH|by apply guards_ret..].
Qed.

(** C34: over the whole life of a view worker, an entry of the results stream is
    acknowledged only after it was received and handled: a change only after the
    store has recorded it, a bootstrap start or a deletion only after the store has
    dropped the view, any other signal only after the store was asked to set the
    state and has answered.  That answer may be an error
    ([state_signal_acked_anyway]); the worker looks at it for none of those signals. *)
Theorem view_acks_only_handled rounds config :
  always (view_worker_run from_value redis_url buffer_size fetch_batch_size rounds q config)
    (λ t _, ∀ i c id, t !! i = Some c → acked c = Some id → ∃ item evt,
       Call (VStream RxRecv) (Some item) ∈ take i t ∧ deserialize item = Ok evt ∧
       vm_id evt = id ∧ handled (take i t) (vm_data evt)).
Proof.
  eapply under_mono; [done| |eapply (guards_calls _ may_ack _ (λ _ _, True))].
  { intros t o Ht i c id Hi Hc. exact (Ht i c Hi id Hc). }
  unfold view_worker_run. apply view_no_ack_call; [done|]. intros [[]|e]; [|by apply guards_ret].
  apply (guards_bind _ _ _ _ _ (λ t' r, ∀ st, r = Ok st → rs_unack_item st = None)).
  - unfold new_view_stream. cbn [translate trigger mbind prog_bind].
    apply (view_no_ack_call _ (VOpen (OpenClient redis_url))); [done|].
    intros [[]|e]; [|by apply guards_ret]. cbn [translate].
    apply (view_no_ack_call _ (VOpen GetConnection)); [done|].
    intros [[]|e]; [|by apply guards_ret]. cbn [translate].
    apply (view_no_ack_call _ (VOpen (XGroupCreateMkstream _ _ _))); [done|].
    intros g. cbn [translate]. apply (view_no_ack_call _ (VOpen GetConnection)); [done|].
    intros [[]|e]; [|by apply guards_ret]. cbn [translate].
    apply (view_no_ack_call _ (VOpen (SpawnFetch _ _ _ _ _))); [done|]. intros u. cbn [translate].
    apply guards_ret. by intros st [= <-].
  - intros t [st|e] Hst; [|by apply guards_ret]. apply view_loop_acks.
    intros item. by rewrite (Hst st eq_refl).
Qed.

(** A state that the store could not set is acknowledged all the same. *)
Lemma state_signal_acked_anyway item evt k topic group :
  deserialize item = Ok evt → vm_data evt = EvControl k →
  k_control_signal k ≠ BootstrapStarted → k_control_signal k ≠ QueryDeleted →
  always (on_view_message from_value q (mkStream topic group (Some item))) (λ t _, ∃ r r',
    t = [Call (VStore (VsSetState q (k_sequence k) (k_source_time_ms k)
           (signal_to_string (k_control_signal k)))) r;
         Call (VStream (XAck topic group (vm_id evt))) r']).
Proof.
  intros Hd Hk H1 H2. unfold on_view_message, view_recv, recv. cbn [rs_unack_item]. rewrite Hd.
  cbn. rewrite Hk. unfold handle_event, view_ack, ack. cbn [rs_unack_item].
  rewrite (deserialize_id _ _ Hd), str_eqb_refl.
  destruct (k_control_signal k); try done; cbn; intros r _ [n|e] _; by eexists _, _.
Qed.
End acks.

(** ** A bootstrap stops the worker *)

(** What the worker does with a control event and then with a change. *)
Definition control_then_change (q : string) (control : ResultControlEvent)
    (change : ResultChangeEvent) : prog view_call (option ShutdownReason) :=
  r ← handle_event q (EvControl control);
  match r with
  | Some reason => mret (Some reason)
  | None => handle_event q (EvChange change)
  end.

(** The worker's calls of the store carried out by the MongoDB store; the other
    calls stay as they are. *)
Inductive view_env : Type → Type :=
| EMongo {X} (c : mongo_call X) : view_env X
| EOther {X} (c : view_call X) : view_env X.

Definition over_mongo (finish128 : list hash_write → string) X (c : view_call X)
    (s : MongoViewStore) : prog view_env (X * MongoViewStore) :=
  match c in view_call Y return prog view_env (Y * MongoViewStore) with
  | VStore c => translate (λ Y m, EMongo m) (mongo_method finish128 c s)
  | VStream c => Vis (EOther (VStream c)) (λ x, Ret (x, s))
  | VOpen c => Vis (EOther (VOpen c)) (λ x, Ret (x, s))
  | VSelect => Vis (EOther VSelect) (λ x, Ret (x, s))
  end.

(** A view worker does not survive a bootstrap of its query.  Dropping the
    view when a bootstrap starts also forgets the view's retention policy, so
    that the first change that follows is refused as not found and the worker
    ends in error without acknowledging it, whatever MongoDB answers. *)
Theorem bootstrap_stops_view_worker finish128 q control change s :
  k_control_signal control = BootstrapStarted →
  always (interp (over_mongo finish128) (control_then_change q control change) s)
    (λ t o, ∃ s', o = Done (Some Error, s') ∧ retention s' !! q = None).
Proof.
  intros Hk. unfold control_then_change, handle_event. rewrite Hk. simpl.
  intros [[]|e] _; simpl.
  - unfold record_change. simpl. rewrite lookup_delete_eq. simpl.
    eexists. split; [done|]. simpl. apply lookup_delete_eq.
  - eexists. split; [done|]. simpl. apply lookup_delete_eq.
Qed.

Lemma bootstrap_stops_view_worker_witness :
  always (interp (over_mongo (λ _, ""%string))
      (control_then_change "q" (mkControl "q" 1 2 None BootstrapStarted)
         (mkChange "q" 2 3 [] [] [] None))
      (mkStore {["q"%string := All]}))
    (λ t o, ∃ s', o = Done (Some Error, s') ∧ retention s' !! "q"%string = None).
Proof. by apply bootstrap_stops_view_worker. Defined.
