(* ===== verification/ViewPipeline.v ===== *)
(** * ViewPipeline: from the results a query host publishes to the rows a view shows

    The view worker ([view_worker.rs]) run with the MongoDB store
    ([mongo_view_store.rs]) against an environment of its own: the entries of the
    results stream, which poll finds one of them, and which acknowledgements
    Redis refuses.  An entry whose acknowledgement is refused is applied again. *)
From S2P Require Import Prelude BTree Json Effects RustText ChangeStream ViewApi ViewStore.
From S2P Require Import ViewWorker ViewStoreSpec ViewWorkerSpec Wire.

(** ** Events *)

Definition event_time (e : ResultEvent) : Z :=
  match e with EvChange c => c_source_time_ms c | EvControl k => k_source_time_ms k end.

(** A signal that only sets the state of the view. *)
Definition passive (e : ResultEvent) : Prop :=
  match e with
  | EvChange _ => True
  | EvControl k =>
      match k_control_signal k with BootstrapStarted | QueryDeleted => False | _ => True end
  end.

Fixpoint events_in_order (t : Z) (es : list ResultEvent) : Prop :=
  match es with
  | [] => True
  | e :: es => (t ≤ event_time e)%Z ∧ valid_time (event_time e) ∧ events_in_order (event_time e) es
  end.

Section spec.
Context (finish128 : list hash_write → string).

(** The rows after an event, and the header. *)
Definition spec_event (m : gmap string jmap) (e : ResultEvent) : gmap string jmap :=
  match e with EvChange c => spec_change finish128 m c | EvControl _ => m end.

Definition meta_event (mt : option MetadataDocument) (e : ResultEvent) : option MetadataDocument :=
  match e with
  | EvChange c => Some (mkMeta (as_i64 (c_sequence c)) (c_source_time_ms c) (mt ≫= m_state))
  | EvControl k => Some (mkMeta (as_i64 (k_sequence k)) (k_source_time_ms k)
      (Some (signal_to_string (k_control_signal k))))
  end.

(** *** Applying an event twice is applying it once *)

(** A change is a sequence of writes that do not depend on the view. *)
Inductive row_write := Put (key : string) (row : jmap) | Drop_ (key : string).

Definition write (m : gmap string jmap) (w : row_write) : gmap string jmap :=
  match w with Put key row => <[key := row]> m | Drop_ key => delete key m end.

Definition writes_of_update (u : UpdatePayload) : list row_write :=
  match u_before u with Some b => [Drop_ (update_key finish128 u b)] | None => [] end ++
  match u_after u with Some a => [Put (update_key finish128 u a) a] | None => [] end.

Definition writes_of (c : ResultChangeEvent) : list row_write :=
  map (λ del, Drop_ (hash_values finish128 del)) (c_deleted_results c) ++
  concat (map writes_of_update (c_updated_results c)) ++
  map (λ add, Put (hash_values finish128 add) add) (c_added_results c).

Lemma spec_change_writes m c : spec_change finish128 m c = foldl write m (writes_of c).
Proof.
  unfold spec_change, writes_of. rewrite !foldl_app.
  assert (∀ {A} (f : A → row_write) l m, foldl write m (map f l) =
    foldl (λ m a, write m (f a)) m l) as Hmap.
  { intros A f l. induction l as [|a l IH]; intros m'; [done|]. apply IH. }
  rewrite !Hmap. cbn [write]. f_equal. generalize (foldl (λ m a,
    delete (hash_values finish128 a) m) m (c_deleted_results c)) as m'.
  induction (c_updated_results c) as [|u us IH]; intros m'; [done|]. cbn.
  rewrite foldl_app, IH. f_equal. unfold spec_update, writes_of_update.
  by destruct (u_before u), (u_after u).
Qed.

Definition wkey (w : row_write) : string := match w with Put k _ | Drop_ k => k end.
Definition wval (w : row_write) : option jmap := match w with Put _ r => Some r | Drop_ _ => None end.

Lemma write_lookup m w k : write m w !! k = if decide (wkey w = k) then wval w else m !! k.
Proof.
  destruct w as [key row|key]; cbn.
  - destruct (decide (key = k)) as [->|]; [apply lookup_insert_eq|by apply lookup_insert_ne].
  - destruct (decide (key = k)) as [->|]; [apply lookup_delete_eq|by apply lookup_delete_ne].
Qed.

(** Only the last write of a key counts. *)
Lemma writes_lookup ws m m' k :
  (k ∈ map wkey ws ∨ m !! k = m' !! k) → foldl write m ws !! k = foldl write m' ws !! k.
Proof.
  revert m m'. induction ws as [|w ws IH]; intros m m' H; cbn.
  { destruct H as [H|H]; [by apply elem_of_nil in H|done]. }
  apply IH. cbn in H. rewrite list.elem_of_cons in H.
  destruct H as [[->|H]|H]; [right|by left|right]; rewrite !write_lookup.
  - by rewrite !decide_True by done.
  - by rewrite H.
Qed.

Lemma writes_twice ws m : foldl write (foldl write m ws) ws = foldl write m ws.
Proof.
  apply map_eq. intros k. destruct (decide (k ∈ map wkey ws)) as [Hk|Hk].
  - apply writes_lookup. by left.
  - apply writes_lookup. right. clear -Hk. revert m.
    induction ws as [|w ws IH]; intros m; [done|]. cbn in *.
    apply not_elem_of_cons in Hk as [Hk1 Hk2]. by rewrite IH, write_lookup, decide_False by done.
Qed.

Lemma spec_event_twice m e : spec_event (spec_event m e) e = spec_event m e.
Proof. destruct e as [c|k]; [|done]. cbn. rewrite !spec_change_writes. apply writes_twice. Qed.

Lemma meta_event_twice mt e : meta_event (meta_event mt e) e = meta_event mt e.
Proof. by destruct e. Qed.
End spec.

(** ** The environment *)

Record view_world (W : Type) := mkWorld {
  vw_queue : list (option StreamId);
  vw_acks : list bool;
  vw_acked : list string;
  vw_db : W;
}.
Arguments mkWorld {W}.
Arguments vw_queue {W}.
Arguments vw_acks {W}.
Arguments vw_acked {W}.
Arguments vw_db {W}.

Definition set_db {W} (db : W) (w : view_world W) : view_world W :=
  mkWorld (vw_queue w) (vw_acks w) (vw_acked w) db.

(** The stream: each poll takes the next element of the queue, an entry or
    nothing; acknowledgements are refused as [vw_acks] says, then accepted. *)
Definition stream_answer {W X} (c : stream_call X) (w : view_world W) : X * view_world W :=
  match c in stream_call X return X * view_world W with
  | RxRecv =>
      match vw_queue w with
      | [] => (None, w)
      | item :: queue => (item, mkWorld queue (vw_acks w) (vw_acked w) (vw_db w))
      end
  | XAck _ _ id =>
      match vw_acks w with
      | false :: acks =>
          (Err {| re_is_io := true; re_detail := None |},
           mkWorld (vw_queue w) acks (vw_acked w) (vw_db w))
      | acks => (Ok 1%Z, mkWorld (vw_queue w) (tail acks) (vw_acked w ++ [id]) (vw_db w))
      end
  | XGroupDelConsumer _ _ _ => (Ok 1%Z, w)
  | CancelNotifyOne => (tt, w)
  end.

Definition open_answer {X} (c : open_call X) : X :=
  match c with
  | OpenClient _ => Ok ()
  | GetConnection => Ok ()
  | XGroupCreateMkstream _ _ _ => Ok "OK"%string
  | SpawnFetch _ _ _ _ _ => tt
  end.

(** The calls of the store are those of MongoDB: these do not occur. *)
Definition no_store_answer {X} (c : store_call X) : X :=
  match c with
  | VsInitView _ _ | VsSetRetentionPolicy _ _ | VsDeleteView _ | VsRecordChange _ _ => Err NotFound
  | VsGetView _ _ => Err NotFound
  | VsSetState _ _ _ _ => Err NotFound
  end.

Definition other_answer {W X} (c : view_call X) (w : view_world W) : X * view_world W :=
  match c in view_call X return X * view_world W with
  | VStore c => (no_store_answer c, w)
  | VStream c => stream_answer c w
  | VOpen c => (open_answer c, w)
  | VSelect => (SelMessage, w)
  end.

Definition view_handler `{MongoEnv W} X (e : view_env X) (w : view_world W) : X * view_world W :=
  match e in view_env X return X * view_world W with
  | EMongo c => let '(x, db) := mongo_handler _ c (vw_db w) in (x, set_db db w)
  | EOther c => other_answer c w
  end.

(** The answer of a call that did not fail. *)
Definition answered {X} (e : mongo_call X) : X → Prop :=
  match e in mongo_call X return X → Prop with
  | CreateIndexes _ | DropCollection _ | DeleteOlder _ _ => λ r, ∃ a, r = Ok a
  | FindOneAndDelete _ _ | FindOneAndSetValidTo _ _ _ | FindOneAndReplace _ _ _
  | SetMetadata _ _ _ _ | FindMetadata _ => λ r, ∃ a, r = Ok a
  | FindEffective _ _ => λ r, ∃ a, r = Ok a
  | NowMillis => λ r, ∃ a, r = Some a
  end.

Definition call_answered (c : call mongo_call) : Prop :=
  match c with Call e x => answered e x end.

(** A database that fails no call. *)
Definition reliable (W : Type) `{MongoEnv W} : Prop :=
  ∀ X (e : mongo_call X) (w : W), answered e (mongo_handler X e w).1.

(** *** Programs of the store never fail then *)

Definition succeeds {A} (p : prog mongo_call (result A ViewError)) : Prop :=
  under call_answered p (λ _ o, ∃ a, o = Done (Ok a)).

Lemma for_try_succeeds {A} (l : list A) (body : A → prog mongo_call (result unit ViewError)) :
  (∀ a, succeeds (body a)) → succeeds (for_try l body).
Proof.
  intros H. unfold succeeds. eapply (under_for_try _ _ _ (λ _ _, True)); [done| |by eauto].
  intros _ a _ t _ _. eapply under_mono; [done| |exact (H a)]. by intros t' o [[] ->].
Qed.

Lemma succeeds_bind {A B} (p : prog mongo_call (result A ViewError))
    (k : A → prog mongo_call (result B ViewError)) :
  succeeds p → (∀ a, succeeds (k a)) →
  succeeds (r ← p; match r with Ok a => k a | Err e => mret (Err e) end).
Proof.
  intros Hp Hk. apply under_bind. eapply under_mono; [done| |exact Hp].
  intros t o [a ->]. eapply under_mono; [done| |exact (Hk a)]. by intros t' o' Ho.
Qed.

Section store.
Context (finish128 : list hash_write → string).

Lemma remove_row_succeeds q policy ts key : succeeds (remove_row q policy ts key).
Proof. destruct policy; intros r [a ->]; by eexists. Qed.

Lemma upsert_row_succeeds q ts key row : succeeds (upsert_row q ts key row).
Proof. intros r [a ->]; by eexists. Qed.

Lemma record_change_succeeds q c s :
  is_Some (retention s !! q) → succeeds (record_change finish128 q c s).
Proof.
  intros [policy Hp]. unfold record_change. rewrite Hp. cbv zeta.
  apply (succeeds_bind _ (λ _, _)); [apply for_try_succeeds; intros; apply remove_row_succeeds|].
  intros _. apply (succeeds_bind _ (λ _, _)).
  { apply for_try_succeeds. intros u. unfold record_update. apply (succeeds_bind _ (λ _, _)).
    - destruct (u_before u); [apply remove_row_succeeds|by eexists].
    - intros _. destruct (u_after u); [apply upsert_row_succeeds|by eexists]. }
  intros _. apply (succeeds_bind _ (λ _, _)).
  { apply for_try_succeeds. intros; apply upsert_row_succeeds. }
  intros _ r [a ->]. by eexists.
Qed.
End store.

(** ** The worker over the store *)

Section worker.
Context (finish128 : list hash_write → string).
Context `{MongoLaws W} `{CloudEvents}.
Context (from_value : value → result ResultEvent string).
Context (q : string).

Notation wpv := (wp (view_handler (W := W))).
Notation over := (interp (over_mongo finish128)).

Lemma wp_store {A} (p : prog mongo_call A) w (Q : outcome A → view_world W → Prop) :
  wp mongo_handler p (vw_db w) (λ o db, Q o (set_db db w)) →
  wpv (translate (E := mongo_call) (@EMongo) p) w Q.
Proof.
  unfold wp. rewrite run_translate. cbn beta.
  pose proof (run_part (λ db, set_db db w) (λ X e, mongo_handler X e)
    (λ X (e : mongo_call X), view_handler X (EMongo e)) p (vw_db w)) as Hr.
  cbn beta in Hr. replace (set_db (vw_db w) w) with w in Hr by by destruct w.
  rewrite Hr; [by destruct (run _ p (vw_db w)) as [[o db] t]|].
  intros X e db. cbn. by destruct (mongo_handler X e db).
Qed.

Lemma wp_interp_bind {A B} (p : prog view_call A) (f : A → prog view_call B) s w Q :
  wpv (over p s) w (λ o w', match o with
    | Done (a, s') => wpv (over (f a) s') w' Q
    | Panicked why => Q (Panicked why) w'
    end) → wpv (over (p ≫= f) s) w Q.
Proof.
  intros Hp. unfold wp at 1. rewrite (interp_bind _ p f s _ view_handler w).
  apply wp_bind. eapply wp_mono; [|exact Hp]. by intros [[a s']|why] w'.
Qed.

(** A call of the worker other than the store's. *)
Lemma wp_other {A X} (c : view_call X) (k : X → prog view_call A) s w Q :
  match c with VStore _ => False | _ => True end →
  wpv (over (k (other_answer c w).1) s) (other_answer c w).2 Q →
  wpv (over (Vis c k) s) w Q.
Proof.
  intros Hc Hk. cbn [interp]. apply wp_bind.
  destruct c as [X c|X c|X c|]; [done|..]; apply wp_call; exact Hk.
Qed.

(** *** One event *)

Definition delivers (item : StreamId) (e : ResultEvent) : Prop :=
  ∃ msg, view_deserialize from_value item = Ok msg ∧ vm_id msg = sid_id item ∧ vm_data msg = e.

Context (Hrel : reliable W).

Lemma handle_event_stands e mt t m s w :
  passive e → is_Some (retention s !! q) → (t ≤ event_time e)%Z → valid_time (event_time e) →
  stands_for q mt t m (vw_db w) →
  wpv (over (handle_event q e) s) w (λ o w', o = Done (None, s) ∧
    w' = set_db (vw_db w') w ∧
    stands_for q (meta_event mt e) (event_time e) (spec_event finish128 m e) (vw_db w')).
Proof.
  intros Hp Hs Ht Hv Hw.
  assert (∀ {A} (p : prog mongo_call A) db (Q : outcome A → Prop),
    under call_answered p (λ _ o, Q o) → wp mongo_handler p db (λ o _, Q o)) as Hlive.
  { intros A p db Q Hu. eapply wp_under; [|exact Hu]. intros X c db'. apply Hrel. }
  destruct e as [c|k]; unfold handle_event.
  - cbn [trigger mbind prog_bind interp over_mongo mongo_method]. apply wp_bind, wp_store.
    apply wp_bind. eapply wp_mono; [|apply wp_conj;
      [eapply Hlive, record_change_succeeds, Hs|eapply record_change_stands; eassumption]].
    intros o db [[[] ->] Hok]. apply wp_ret. cbn. split_and!; [done..|]. exact (Hok () eq_refl).
  - assert (as_i64 (k_source_time_ms k) = k_source_time_ms k) as Hi by by apply valid_time_i64.
    assert (∀ sig, sig = k_control_signal k → wpv (over (
        _ ← trigger (VStore (VsSetState q (k_sequence k) (k_source_time_ms k)
              (signal_to_string sig))); mret (None : option ShutdownReason)) s) w (λ o w', o = Done (None, s) ∧
        w' = set_db (vw_db w') w ∧
        stands_for q (meta_event mt (EvControl k)) (event_time (EvControl k)) m (vw_db w'))) as Hset.
    { intros sig ->. cbn [trigger mbind prog_bind interp over_mongo mongo_method].
      apply wp_bind, wp_store, wp_bind. unfold set_state. apply wp_call.
      pose proof (Hrel _ (SetMetadata q (as_i64 (k_sequence k)) (as_i64 (k_source_time_ms k))
        (Some (signal_to_string (k_control_signal k)))) (vw_db w)) as [r Hr].
      destruct (law_set_metadata _ _ _ _ _ _ Hr) as [Hd Hmeta]. rewrite Hr. cbn.
      split_and!; [done..|]. destruct Hw as (Hu & Hm & Hset & Hmt).
      unfold stands_for. rewrite Hd, Hmeta, Hi. split_and!; [done..| |done].
      eapply settled_mono; [|done]. exact Ht. }
    cbn [passive] in Hp. destruct (k_control_signal k) eqn:Hk; try done; by apply Hset.
Qed.

(** *** One round *)

(** The entry is acknowledged, or one more refusal is used up. *)
Definition settled_entry (item : StreamId) (st' : RedisChangeStream) (w w' : view_world W) : Prop :=
  vw_queue w' = vw_queue w ∧
  ((rs_unack_item st' = None ∧ vw_acked w' = vw_acked w ++ [sid_id item] ∧
      (length (vw_acks w') ≤ length (vw_acks w))%nat) ∨
   (rs_unack_item st' = Some item ∧ vw_acked w' = vw_acked w ∧
      S (length (vw_acks w')) = length (vw_acks w))).

Lemma view_ack_settles item st s w (Q : _ → _ → Prop) :
  rs_unack_item st = Some item →
  (∀ r st' w', vw_db w' = vw_db w → settled_entry item st' w w' → Q (Done (r, st', s)) w') →
  wpv (over (view_ack (sid_id item) st) s) w Q.
Proof.
  intros Hi HQ. unfold view_ack, ack. rewrite Hi, str_eqb_refl.
  cbn [translate trigger mbind prog_bind]. apply wp_other; [done|].
  cbn [other_answer stream_answer]. unfold settled_entry in HQ.
  destruct (vw_acks w) as [|[] acks] eqn:Ha; cbn [fst snd translate interp]; apply wp_ret, HQ;
    cbn [vw_queue vw_acks vw_acked vw_db set_unack rs_unack_item tail length]; [done| |done| |done|];
    (split; [done|]).
  - left. split_and!; [done..|lia].
  - left. split_and!; [done..|lia].
  - right. split_and!; done.
Qed.

Definition unacked (st : RedisChangeStream) : nat :=
  match rs_unack_item st with Some _ => 1 | None => 0 end.

(** The entry that was applied and is not acknowledged can be applied again. *)
Definition applied_last (mt : option MetadataDocument) (t : Z) (m : gmap string jmap)
    (st : RedisChangeStream) : Prop :=
  ∀ item, rs_unack_item st = Some item → ∃ e, delivers item e ∧ passive e ∧
    event_time e = t ∧ spec_event finish128 m e = m ∧ meta_event mt e = mt.

Definition unacked_id (st : RedisChangeStream) : list string :=
  match rs_unack_item st with Some item => [sid_id item] | None => [] end.

Definition handle_and_ack (evt : ViewMessage) (st : RedisChangeStream)
    : prog view_call (round_end * RedisChangeStream) :=
  r ← handle_event q (vm_data evt);
  match r with
  | Some reason => mret (Return reason, st)
  | None => '(_, st) ← view_ack (vm_id evt) st; mret (Continue, st)
  end.

Lemma handle_and_ack_stands item msg st mt t m s w :
  rs_unack_item st = Some item → view_deserialize from_value item = Ok msg →
  vm_id msg = sid_id item → passive (vm_data msg) → is_Some (retention s !! q) →
  (t ≤ event_time (vm_data msg))%Z → valid_time (event_time (vm_data msg)) →
  stands_for q mt t m (vw_db w) →
  wpv (over (handle_and_ack msg st) s) w (λ o w', ∃ st', o = Done (Continue, st', s) ∧
    settled_entry item st' w w' ∧
    stands_for q (meta_event mt (vm_data msg)) (event_time (vm_data msg))
      (spec_event finish128 m (vm_data msg)) (vw_db w') ∧
    applied_last (meta_event mt (vm_data msg)) (event_time (vm_data msg))
      (spec_event finish128 m (vm_data msg)) st').
Proof.
  intros Hi Hd Hid Hp Hs Ht Hv Hw. unfold handle_and_ack. apply wp_interp_bind.
  eapply wp_mono; [|by eapply handle_event_stands]. intros o w1 (-> & Hw1 & Hst).
  apply wp_interp_bind. rewrite Hid. apply (view_ack_settles item); [done|].
  intros r st' w2 Hdb Hset. cbn [interp mret prog_ret]. apply wp_ret. exists st'.
  split; [done|]. split; [|split; [by rewrite Hdb|]].
  - unfold settled_entry in *. rewrite Hw1 in Hset. exact Hset.
  - intros item' Hi'. destruct Hset as (_ & [(Hn & _)|(Hu & _)]); [by rewrite Hn in Hi'|].
    rewrite Hu in Hi'. injection Hi' as <-. exists (vm_data msg).
    split; [by exists msg|]. split_and!; [done|done|apply spec_event_twice|apply meta_event_twice].
Qed.

Lemma view_loop_stands n es mt t m st s w :
  Forall2 delivers (omap id (vw_queue w)) es → events_in_order t es → Forall passive es →
  is_Some (retention s !! q) → valid_time t → stands_for q mt t m (vw_db w) →
  applied_last mt t m st →
  (length (vw_queue w) + unacked st = 0 ∨
   length (vw_queue w) + length (vw_acks w) + unacked st ≤ n)%nat →
  wpv (over (view_loop from_value n q st) s) w (λ o w',
    o = Done (None, s) ∧ vw_queue w' = [] ∧
    vw_acked w' = vw_acked w ++ unacked_id st ++ map sid_id (omap id (vw_queue w)) ∧
    stands_for q (foldl meta_event mt es) (foldl (λ _, event_time) t es)
      (foldl (spec_event finish128) m es) (vw_db w')).
Proof.
  intros Hes Hord Hpas Hs. revert es mt t m st w Hes Hord Hpas.
  induction n as [|n IH]; intros es mt t m st w Hes Hord Hpas Hv Hw Hla Hn; cbn [view_loop].
  { apply wp_ret. unfold unacked, unacked_id in *. destruct (vw_queue w) as [|i l] eqn:Hq; cbn in *; [|lia].
    destruct (rs_unack_item st); [lia|]. inversion Hes. by rewrite app_nil_r. }
  apply wp_interp_bind. unfold view_round. apply wp_interp_bind. cbn [trigger].
  apply wp_other; [done|]. cbn [other_answer fst snd interp]. apply wp_ret.
  unfold on_view_message, view_recv, recv. apply wp_interp_bind.
  destruct (rs_unack_item st) as [item|] eqn:Hi.
  - (* The entry whose acknowledgement was refused. *)
    destruct (Hla item Hi) as (e & (msg & Hd & Hid & He) & Hpe & Hte & Hm & Hmt). subst e.
    rewrite Hd. cbn [translate mret prog_ret interp]. apply wp_ret.
    eapply wp_mono; [|eapply (handle_and_ack_stands item msg st mt t m s w); try done; rewrite Hte;
      [lia|done]].
    intros o w1 (st1 & -> & Hset & Hst1 & Hla1). cbn [interp].
    rewrite Hte, Hm, Hmt in *. destruct Hset as (Hq & Hset).
    eapply wp_mono; [|eapply (IH es); [by rewrite Hq|done|done|done|exact Hst1|exact Hla1|]].
    + intros o w' (-> & Hq' & Ha' & Hst'). split_and!; [done|done| |done].
      rewrite Ha', Hq. unfold unacked_id. rewrite Hi.
      destruct Hset as [(-> & -> & _)|(-> & -> & _)]; [by rewrite <-app_assoc|done].
    + unfold unacked in *. rewrite Hi in Hn. rewrite Hq.
      destruct Hset as [(-> & _ & ?)|(-> & _ & ?)]; lia.
  - cbn [translate trigger mbind prog_bind]. apply wp_other; [done|].
    cbn [other_answer stream_answer]. unfold unacked in Hn. rewrite Hi in Hn.
    destruct (vw_queue w) as [|[item|] queue] eqn:Hq; cbn [fst snd].
    + (* Nothing is left. *)
      cbn [translate mret prog_ret interp]. apply wp_ret. cbn [interp]. apply wp_ret.
      cbn [interp]. eapply wp_mono; [|eapply (IH es mt t m st w); rewrite ?Hq; try done].
      * rewrite Hq. done.
      * left. unfold unacked. by rewrite Hi.
    + cbn in Hes. inversion Hes as [|i e l es' (msg & Hd & Hid & He) Hes' E1 E2]; subst.
      rewrite Hd. cbn [translate mret prog_ret interp]. apply wp_ret.
      destruct Hord as (Hle & Hve & Hord). inversion Hpas as [|? ? Hpe Hpas']; subst.
      set (w0 := mkWorld queue (vw_acks w) (vw_acked w) (vw_db w)).
      eapply wp_mono; [|eapply (handle_and_ack_stands item msg (set_unack (Some item) st) mt t m s w0);
        done].
      intros o w1 (st1 & -> & Hset & Hst1 & Hla1). cbn [interp]. destruct Hset as (Hq1 & Hset).
      eapply wp_mono; [|eapply (IH es'); [by rewrite Hq1|done|done|done|exact Hst1|exact Hla1|]].
      * intros o w' (-> & Hq' & Ha' & Hst'). split_and!; [done|done| |done].
        rewrite Ha', Hq1. unfold unacked_id. rewrite Hi. cbn.
        destruct Hset as [(-> & -> & _)|(-> & -> & _)]; cbn; [by rewrite <-app_assoc|done].
      * unfold unacked. rewrite Hq1. cbn in *.
        destruct Hset as [(-> & _ & ?)|(-> & _ & ?)]; lia.
    + cbn [translate mret prog_ret interp]. apply wp_ret. cbn [interp]. apply wp_ret. cbn [interp].
      set (w0 := mkWorld queue (vw_acks w) (vw_acked w) (vw_db w)).
      eapply wp_mono; [|eapply (IH es mt t m st w0); [exact Hes|done..|]]; [done|].
      unfold unacked. rewrite Hi. cbn in *. lia.
Qed.
End worker.

(** ** From the stream's entries to the reader *)

Section reach.
Context (finish128 : list hash_write → string).
Context `{MongoLaws W} `{CloudEvents}.
(** The text of [serde_json]'s error. *)
Context (error_text : value → string).
Context (redis_url : string) (buffer_size fetch_batch_size : Z).
Context (q : string).
Context (Hrel : reliable W).

Definition read_event (v : value) : result ResultEvent string :=
  match event_from_value v with Some e => Ok e | None => Err (error_text v) end.

(** The entry holds [v] in the envelope of the message broker. *)
Definition carries (item : StreamId) (v : value) : Prop :=
  ∃ bytes evt, sid_map item !! "data"%string = Some (RData bytes) ∧
    event_from_slice bytes = Ok evt ∧ event_data evt = Some (CeJson v).

Lemma carries_delivers item h :
  carries item (host_event_to_value h) → delivers read_event item (event_view h).
Proof.
  intros (bytes & evt & Hb & Hs & Hd). unfold delivers, view_deserialize.
  rewrite Hb, Hs. cbn. rewrite Hd. unfold read_event. rewrite result_event_roundtrip. by eexists.
Qed.

Lemma get_view_answers mt t m s timestamp db :
  (∃ policy, retention s !! q = Some policy ∧ ∀ a, policy ≠ Expire a) →
  stands_for q (Some mt) t m db →
  wp mongo_handler (get_view s q timestamp) db (λ o _, ∃ els, o = Done (Ok els)).
Proof.
  intros (policy & Hp & Hne) (_ & _ & _ & Hmt). unfold get_view. rewrite Hp.
  apply wp_call. destruct (Hrel _ (FindMetadata q) db) as [r Hr].
  destruct (law_find_metadata _ _ _ Hr) as (Hi & _). rewrite Hr, Hi, Hmt. cbn [fmap option_fmap option_map].
  apply wp_call. set (db1 := (mongo_handler _ (FindMetadata q) db).2).
  destruct (Hrel _ NowMillis db1) as [now ->]. cbv zeta.
  replace (match policy with
    | Expire a => (as_i64 (default (as_u64 now) timestamp) <? as_i64 (u64_sub (as_u64 now) (u64_mul a 1000)))%Z
    | _ => false end) with false by (destruct policy; [done|by destruct (Hne after_seconds)|done]).
  apply wp_call. destruct (Hrel _ (FindEffective q (Z.min (m_ts mt)
    (as_i64 (default (as_u64 now) timestamp)))) (mongo_handler _ NowMillis db1).2) as [items ->].
  apply wp_ret. by eexists.
Qed.

(** The worker starts with the retention of its view set, and goes on. *)
Lemma worker_starts n config w Q :
  wp (view_handler (W := W)) (interp (over_mongo finish128) (view_loop read_event n q
      (mkStream (q +:+ "-results") "view-svc" None))
      (mkStore {[q := retention_policy config]}))
    (set_db (mongo_handler _ (CreateIndexes q) (vw_db w)).2 w) Q →
  wp view_handler (interp (over_mongo finish128)
    (view_worker_run read_event redis_url buffer_size fetch_batch_size n q config) (mkStore ∅)) w Q.
Proof.
  intros HQ. unfold view_worker_run. apply wp_interp_bind.
  cbn [trigger interp over_mongo mongo_method]. apply wp_bind, wp_store. unfold init_view.
  apply wp_call. destruct (Hrel _ (CreateIndexes q) (vw_db w)) as [[] ->]. cbn [store_result].
  apply wp_ret. cbn [interp]. apply wp_ret. apply wp_interp_bind.
  unfold new_view_stream. cbn [trigger mbind prog_bind translate].
  do 5 (apply wp_other; [done|]; cbn [other_answer open_answer fst snd translate]).
  cbn [translate mret prog_ret interp]. apply wp_ret. exact HQ.
Qed.

Definition start_world (queue : list (option StreamId)) (acks : list bool) (db : W) : view_world W :=
  mkWorld queue acks [] db.

End reach.

(** *** Two changes and an idle poll, with one acknowledgement refused *)

#[local] Existing Instance mem_mongo.
#[local] Existing Instance mem_mongo_laws.

Lemma mem_reliable : reliable mem_db.
Proof. intros X [] w; by eexists. Qed.

(** Events whose envelope is the bare JSON, looked up in a table. *)
Definition table_events (table : list (string * value)) : CloudEvents := {|
  Event := value;
  event_from_slice bytes := match list_to_map (M := gmap string value) table !! bytes with
    | Some v => Ok v | None => Err "unknown"%string end;
  event_data v := Some (CeJson v);
  event_extension _ _ := None;
|}.

Definition host_change (seq ts : Z) (added deleted : list jmap) : HostApi.ResultEvent :=
  HostApi.RChange (HostApi.Build_ResultChangeEvent "q" seq ts added [] deleted None).

Definition entry (id bytes : string) : StreamId := mkStreamId id {["data"%string := RData bytes]}.

Lemma entry_carries table id bytes v :
  list_to_map (M := gmap string value) table !! bytes = Some v →
  @carries (table_events table) (entry id bytes) v.
Proof.
  intros Hl. exists bytes, v. split_and!; [apply lookup_singleton_eq| |done]. cbn.
  by rewrite Hl.
Qed.

Definition sample_events : list HostApi.ResultEvent :=
  [host_change 1 10 [row "a"; row "b"] []; host_change 2 20 [row "c"] [row "a"]].

Definition sample_table : list (string * value) :=
  zip ["first"; "second"]%string (map host_event_to_value sample_events).

