(* ===== verification/ViewActor.v ===== *)
(** * ViewActor: the actor that owns a view
    ([query-container/view-svc/src/view_actor.rs]) *)
From S2P Require Import Prelude BTree Json Effects Dapr ViewApi ViewStore ViewWorker.

Definition view_handle := nat.

Record ViewActor := mkViewActor {
  va_config : option ViewSpec;
  va_worker : option view_handle;
}.

Definition view_actor_new : ViewActor := mkViewActor None None.

Inductive vactor_call : Type → Type :=
| GetActorState (key : string) : vactor_call (result string string)
| ExecuteTransaction (ops : list state_op) : vactor_call (result unit string)
| RegisterReminder (name : string) (due period : Z) : vactor_call (result unit string)
| UnregisterReminder (name : string) : vactor_call (result unit string)
| StartViewWorker (query_id : string) (config : ViewSpec) : vactor_call view_handle
| HandleFinished (w : view_handle) : vactor_call bool
| SendCommand (w : view_handle) (c : Command) : vactor_call (result unit string)
| TakeCompleteRx (w : view_handle) : vactor_call bool
| AwaitComplete (w : view_handle) : vactor_call unit
| BorrowState (w : view_handle) : vactor_call WorkerState
| StoreCall {X} (c : store_call X) : vactor_call X.

Section actor.
Context (config_to_vec : ViewSpec → result string string).
Context (config_from_slice : string → result ViewSpec string).
Context (query_id : string).

Notation P := (prog vactor_call).

(** ** The worker's handle ([ViewWorker]'s methods) *)

Definition worker_reconfigure (w : view_handle) (config : ViewSpec) : P unit :=
  _ ← trigger (SendCommand w (Reconfigure config)); mret ().

Definition view_worker_shutdown (w : view_handle) : P unit :=
  finished ← trigger (HandleFinished w);
  if (finished : bool) then mret ()
  else
    _ ← trigger (SendCommand w Shutdown);
    rx ← trigger (TakeCompleteRx w);
    if (rx : bool) then trigger (AwaitComplete w) else mret ().

Definition view_worker_finished (w : view_handle) : P bool := trigger (HandleFinished w).

Definition view_worker_state (w : view_handle) : P WorkerState := trigger (BorrowState w).

(** ** Helpers *)

Definition view_init_worker (a : ViewActor) : P (result unit ActorError * ViewActor) :=
  match va_config a with
  | None => mret (Err (MethodError "Missing config"), a)
  | Some config =>
      running ← match va_worker a with
                | Some w =>
                    finished ← view_worker_finished w;
                    if (finished : bool) then mret false
                    else _ ← worker_reconfigure w config; mret true
                | None => mret false
                end;
      if (running : bool) then mret (Ok (), a)
      else
        worker ← trigger (StartViewWorker query_id config);
        mret (Ok (), mkViewActor (va_config a) (Some worker))
  end.

Definition view_read_config (a : ViewActor) : P (result bool ActorError * ViewActor) :=
  state ← trigger (GetActorState "config");
  match state with
  | Err _ => mret (Err CorruptedState, a)
  | Ok data =>
      if str_eqb data "" then mret (Ok false, a)
      else
        match config_from_slice data with
        | Ok config => mret (Ok true, mkViewActor (Some config) (va_worker a))
        | Err _ => mret (Err SerializationError, a)
        end
  end.

Definition view_write_config (config : ViewSpec) (a : ViewActor)
    : P (result unit ActorError * ViewActor) :=
  let a := mkViewActor (Some config) (va_worker a) in
  match config_to_vec config with
  | Err _ => mret (Err SerializationError, a)
  | Ok s =>
      result ← trigger (ExecuteTransaction [Upsert "config" s]);
      match result with
      | Ok _ => mret (Ok (), a)
      | Err _ => mret (Err CorruptedState, a)
      end
  end.

Definition view_register_reminder : P (result unit ActorError) :=
  r ← trigger (RegisterReminder "ping" 10 30);
  match r with
  | Ok _ => mret (Ok ())
  | Err e => mret (Err (MethodError e))
  end.

Definition view_unregister_reminder : P (result unit ActorError) :=
  r ← trigger (UnregisterReminder "ping");
  match r with
  | Ok _ => mret (Ok ())
  | Err e => mret (Err (MethodError e))
  end.

(** ** The actor's methods *)

Definition view_configure (spec : ViewSpec) (a : ViewActor) : P (response * ViewActor) :=
  '(r, a) ← view_write_config spec a;
  match r with
  | Err _ => mret (RespInternal "Error writing config", a)
  | Ok _ =>
      r ← view_register_reminder;
      match r with
      | Err _ => mret (RespInternal "Error registering reminder", a)
      | Ok _ =>
          '(r, a) ← view_init_worker a;
          match r with
          | Err _ => mret (RespInternal "Error initializing worker", a)
          | Ok _ => mret (RespOk, a)
          end
      end
  end.

Definition view_deprovision (a : ViewActor) : P (response * ViewActor) :=
  r ← view_unregister_reminder;
  match r with
  | Err _ => mret (RespInternal "Error unregistering reminder", a)
  | Ok _ =>
      let taken := mkViewActor (va_config a) None in
      _ ← match va_worker a with
          | Some w => view_worker_shutdown w
          | None => mret ()
          end;
      r ← trigger (StoreCall (VsDeleteView query_id));
      match r with
      | Err _ => mret (RespInternal "Error deleting view", taken)
      | Ok _ => mret (RespOk, taken)
      end
  end.

Definition view_on_activate (a : ViewActor) : P (result unit ActorError * ViewActor) :=
  '(r, a) ← view_read_config a;
  match r with
  | Err e => mret (Err e, a)
  | Ok true => view_init_worker a
  | Ok false => mret (Ok (), a)
  end.

Definition view_on_deactivate (a : ViewActor) : P (result unit ActorError * ViewActor) :=
  _ ← match va_worker a with
      | Some w => view_worker_shutdown w
      | None => mret ()
      end;
  mret (Ok (), mkViewActor (va_config a) None).

Definition view_on_reminder (a : ViewActor) : P (result unit ActorError * ViewActor) :=
  match va_worker a with
  | Some worker =>
      state ← view_worker_state worker;
      match state with
      | WsRunning => mret (Ok (), a)
      | WsShutdown Error =>
          '(r, a) ← view_init_worker a;
          match r with
          | Err e => mret (Err e, a)
          | Ok _ => mret (Ok (), a)
          end
      | WsShutdown Deactivated => mret (Ok (), a)
      end
  | None => mret (Ok (), a)
  end.

Inductive view_op :=
| VConfigure (spec : ViewSpec) | VDeprovision | VActivate | VDeactivate | VReminder.

Definition view_step (o : view_op) (a : ViewActor) : P ViewActor :=
  match o with
  | VConfigure spec => '(_, a) ← view_configure spec a; mret a
  | VDeprovision => '(_, a) ← view_deprovision a; mret a
  | VActivate => '(_, a) ← view_on_activate a; mret a
  | VDeactivate => '(_, a) ← view_on_deactivate a; mret a
  | VReminder => '(_, a) ← view_on_reminder a; mret a
  end.

Fixpoint view_steps (os : list view_op) (a : ViewActor) : P ViewActor :=
  match os with
  | [] => mret a
  | o :: os => a ← view_step o a; view_steps os a
  end.
End actor.

(** ** Properties *)

Section workers.
Context (config_to_vec : ViewSpec → result string string).
Context (config_from_slice : string → result ViewSpec string).
Context (q : string).

Notation trace := (list (call vactor_call)).

(** The worker was seen finished, or was told to shut down. *)
Definition over (t : trace) (h : view_handle) : Prop :=
  Call (HandleFinished h) true ∈ t ∨ ∃ r, Call (SendCommand h Shutdown) r ∈ t.

Definition starts_view (c : call vactor_call) : option view_handle :=
  match c with
  | @Call _ X e x =>
      match e in vactor_call X return X → _ with
      | StartViewWorker _ _ => λ h, Some h
      | _ => λ _, None
      end x
  end.

Definition only_running (t : trace) (w : option view_handle) : Prop :=
  ∀ c h, c ∈ t → starts_view c = Some h → over t h ∨ w = Some h.

Definition may_start (t : trace) (c : call vactor_call) : Prop :=
  is_Some (starts_view c) → only_running t None.

Notation guarded := (guards anything may_start).
Notation inv t a := (only_running t (va_worker a)).

Lemma over_app t t' h : over t h → over (t ++ t') h.
Proof. unfold over. set_solver. Qed.

Lemma only_running_snoc t c w :
  starts_view c = None → only_running t w → only_running (t ++ [c]) w.
Proof.
  intros Hc Ht c' h [Hin|Hin]%elem_of_app Hs.
  - destruct (Ht c' h Hin Hs); [left; by apply over_app | by right].
  - apply list_elem_of_singleton in Hin. subst c'. congruence.
Qed.

Lemma only_running_forget t w :
  only_running t w → (∀ h, w = Some h → over t h) → only_running t None.
Proof. intros Ht Hw c h Hin Hs. destruct (Ht c h Hin Hs); auto. Qed.

Lemma view_quiet_call {X A} t (e : vactor_call X) (k : X → prog vactor_call A) w Q :
  (∀ x, starts_view (Call e x) = None) → only_running t w →
  (∀ x, only_running (t ++ [Call e x]) w → guarded (t ++ [Call e x]) (k x) Q) →
  guarded t (trigger e ≫= k) Q.
Proof.
  intros He Ht Hk. apply guards_call.
  - intros x _ [y Hy]. by rewrite He in Hy.
  - intros x _. by apply Hk, only_running_snoc.
Qed.

Ltac quiet H := eapply view_quiet_call; [by intros | exact H | clear H; intros ? H].

Lemma view_init_worker_running t a :
  inv t a → guarded t (view_init_worker q a) (λ t' r, inv t' r.2).
Proof.
  intros Ht. unfold view_init_worker.
  destruct (va_config a) as [config|]; [|by apply guards_ret].
  apply (guards_bind _ _ _ _ _ (λ t' running, inv t' a ∧
    (running = false → only_running t' None))).
  - destruct (va_worker a) as [w|] eqn:Hw; [|apply guards_ret; simpl; auto].
    unfold view_worker_finished. eapply view_quiet_call; [by intros | exact Ht | intros [] Ht'].
    + apply guards_ret. split; [done|]. intros _.
      apply (only_running_forget _ _ Ht'). intros h [= ->]. left. set_solver.
    + unfold worker_reconfigure. eapply view_quiet_call; [by intros | exact Ht' | intros r Ht''].
      by apply guards_ret.
  - intros t' [] [Ha Hn]; [by apply guards_ret|].
    apply guards_call; [by intros h _ _; apply Hn|]. intros h _. apply guards_ret. simpl.
    intros c h' [Hin|Hin]%elem_of_app Hs.
    + destruct (Hn eq_refl c h' Hin Hs); [left; by apply over_app | done].
    + apply list_elem_of_singleton in Hin. subst c. right. exact Hs.
Qed.

Lemma view_shutdown_running t a w :
  inv t a → va_worker a = Some w →
  guarded t (view_worker_shutdown w) (λ t' _, only_running t' None).
Proof.
  intros Ht Hw. unfold view_worker_shutdown. rewrite Hw in Ht.
  eapply view_quiet_call; [by intros | exact Ht | intros [] Ht1].
  { apply guards_ret. apply (only_running_forget _ _ Ht1). intros h [= ->]. left. set_solver. }
  eapply view_quiet_call; [by intros | exact Ht1 | intros r Ht2].
  assert (only_running (((t ++ [Call (HandleFinished w) false]) ++
    [Call (SendCommand w Shutdown) r])) None) as Ht3.
  { apply (only_running_forget _ _ Ht2). intros h [= ->]. right. exists r. set_solver. }
  clear Ht2. eapply view_quiet_call; [by intros | exact Ht3 | intros [] Ht4]; [|by apply guards_ret].
  apply guards_trigger; [by intros x _ [y Hy]|]. intros x _. by apply only_running_snoc.
Qed.

(** Over any sequence of turns of a view's actor, whatever the services
    answer, a worker is started only when every worker started before it was
    seen finished or was told to shut down; configuring a running view
    reconfigures its worker instead. *)
Theorem one_view_worker_at_a_time os :
  always (view_steps config_to_vec config_from_slice q os view_actor_new)
    (λ t _, ∀ i c, t !! i = Some c → is_Some (starts_view c) →
       ∀ c' h, c' ∈ take i t → starts_view c' = Some h → over (take i t) h).
Proof.
  eapply under_mono; [done| |eapply (guards_calls _ may_start _ (λ t a, inv t a))].
  { intros t o Ht i c Hi Hc c' h Hin Hs. by destruct (Ht i c Hi Hc c' h Hin Hs). }
  assert (∀ t a, inv t a → guarded t (view_steps config_to_vec config_from_slice q os a) (λ t a, inv t a))
    as Hsteps; [|apply Hsteps; intros c h Hin; by apply elem_of_nil in Hin].
  induction os as [|o os IH]; intros t a Ht; cbn [view_steps]; [by apply guards_ret|].
  apply (guards_bind _ _ _ _ _ (λ t a, inv t a)); [|intros t1 a1 Ht1; by apply IH].
  destruct o as [spec| | | |]; cbn [view_step];
    (apply (guards_bind _ _ _ _ _ (λ t' (r : _ * ViewActor), inv t' r.2));
      [|intros t1 [r a1] Ht1; by apply guards_ret]).
  - unfold view_configure. apply (guards_bind _ _ _ _ _ (λ t' (r : _ * ViewActor), inv t' r.2)).
    { unfold view_write_config. destruct (config_to_vec spec); [|by apply guards_ret].
      quiet Ht. destruct x; by apply guards_ret. }
    intros t1 [[[]|e] a1] Ht1; [|by apply guards_ret]. simpl in Ht1.
    apply (guards_bind _ _ _ _ _ (λ t' _, inv t' a1)).
    { unfold view_register_reminder. quiet Ht1. destruct x; by apply guards_ret. }
    intros t2 [[]|e] Ht2; [|by apply guards_ret].
    eapply guards_bind; [by apply view_init_worker_running|].
    intros t3 [[] a3] Ht3; by apply guards_ret.
  - unfold view_deprovision. apply (guards_bind _ _ _ _ _ (λ t' _, inv t' a)).
    { unfold view_unregister_reminder. quiet Ht. destruct x; by apply guards_ret. }
    intros t1 [[]|e] Ht1; [|by apply guards_ret].
    apply (guards_bind _ _ _ _ _ (λ t' _, only_running t' None)).
    { destruct (va_worker a) as [w|] eqn:Hw; [|by apply guards_ret].
      apply (view_shutdown_running _ a); [by rewrite Hw|done]. }
    intros t2 u Ht2. quiet Ht2. destruct x; by apply guards_ret.
  - unfold view_on_activate.
    apply (guards_bind _ _ _ _ _ (λ t' (r : _ * ViewActor), inv t' r.2)).
    { unfold view_read_config. quiet Ht. destruct x as [d|e]; [|by apply guards_ret].
      destruct (str_eqb d ""); [by apply guards_ret|].
      destruct (config_from_slice d); by apply guards_ret. }
    intros t1 [[[]|e] a1] Ht1; [by apply view_init_worker_running|by apply guards_ret..].
  - unfold view_on_deactivate. apply (guards_bind _ _ _ _ _ (λ t' _, only_running t' None)).
    { destruct (va_worker a) as [w|] eqn:Hw; [|by apply guards_ret].
      apply (view_shutdown_running _ a); [by rewrite Hw|done]. }
    intros t1 u Ht1. by apply guards_ret.
  - unfold view_on_reminder. destruct (va_worker a) as [w|] eqn:Hw; [|apply guards_ret; simpl; by rewrite ?Hw].
    unfold view_worker_state. rewrite <-Hw in Ht. quiet Ht.
    destruct x as [|[]]; [by apply guards_ret..|].
    eapply guards_bind; [by apply view_init_worker_running|].
    intros t3 [[] a3] Ht3; by apply guards_ret.
Qed.
End workers.

(** ** Deprovisioning *)

Section deprovisioning.
Context (config_from_slice : string → result ViewSpec string).
Context (q : string).

Definition transaction_of (c : call vactor_call) : option (list state_op) :=
  match c with
  | @Call _ X e x => match e with ExecuteTransaction ops => Some ops | _ => None end
  end.

(** The sidecar answers reads of the configuration with the stored [s]. *)
Definition stores_config (s : string) (c : call vactor_call) : Prop :=
  match c with
  | @Call _ X e x =>
      match e in vactor_call X return X → Prop with
      | GetActorState "config" => λ r, r = Ok s
      | _ => λ _, True
      end x
  end.

(** Deprovisioning a view leaves its stored configuration in place: it
    writes nothing to the actor's state, whatever the services answer.  The
    next activation of the actor therefore starts a worker for the deleted view
    again. *)
Theorem deprovisioned_view_comes_back a s config :
  s ≠ ""%string → config_from_slice s = Ok config →
  always (view_deprovision q a) (λ t o,
    (∀ c, c ∈ t → transaction_of c = None) ∧
    ∀ r a', o = Done (r, a') → va_config a' = va_config a) ∧
  under (stores_config s) (view_on_activate config_from_slice q view_actor_new) (λ t o,
    ∃ h, o = Done (Ok (), mkViewActor (Some config) (Some h)) ∧
      Call (StartViewWorker q config) h ∈ t).
Proof.
  intros Hs Hc. split.
  - assert (∀ c : call vactor_call, ∀ t, transaction_of c = None →
      (∀ c, c ∈ t → transaction_of c = None) → ∀ c', c' ∈ c :: t → transaction_of c' = None)
      as Hcons by (intros c t ?? c' [->|?]%elem_of_cons; auto).
    assert (∀ c : call vactor_call, c ∈ [] → transaction_of c = None) as Hnil
      by by intros c ?%elem_of_nil.
    unfold view_deprovision, view_unregister_reminder. intros [[]|e] _; simpl.
    2:{ split; [by apply Hcons | by intros ?? [= <- <-]]. }
    destruct (va_worker a) as [w|]; simpl.
    + intros [] _; simpl.
      * intros [[]|e] _; (split; [by repeat apply Hcons | by intros ?? [= <- <-]]).
      * intros x _ [] _; simpl.
        -- intros [] _ [[]|e] _; (split; [by repeat apply Hcons | by intros ?? [= <- <-]]).
        -- intros [[]|e] _; (split; [by repeat apply Hcons | by intros ?? [= <- <-]]).
    + intros [[]|e] _; (split; [by repeat apply Hcons | by intros ?? [= <- <-]]).
  - unfold view_on_activate, view_read_config. simpl. intros r ->.
    unfold str_eqb. rewrite bool_decide_eq_false_2 by done. rewrite Hc. simpl.
    intros h _. exists h. split; [done|]. set_solver.
Qed.
End deprovisioning.

Lemma deprovisioned_view_comes_back_witness :
  always (view_deprovision "q" (mkViewActor None (Some 0%nat))) (λ t o,
    (∀ c, c ∈ t → transaction_of c = None) ∧
    ∀ r a', o = Done (r, a') → va_config a' = None) ∧
  under (stores_config "{..}")
    (view_on_activate (λ _, Ok {| retention_policy := All |}) "q" view_actor_new) (λ t o,
    ∃ h, o = Done (Ok (), mkViewActor (Some {| retention_policy := All |}) (Some h)) ∧
      Call (StartViewWorker "q" {| retention_policy := All |}) h ∈ t).
Proof.
  by apply (deprovisioned_view_comes_back _ "q" (mkViewActor None (Some 0%nat)) "{..}").
Defined.
