(* ===== verification/Comms.v ===== *)
(** * Comms: invoking and publishing through the Dapr sidecar
    ([infrastructure/comms-abstractions] and [infrastructure/comms-dapr]) *)
From S2P Require Import Prelude BTree Json Effects RustText.

(** [Headers], in the order the map is iterated in. *)
Notation headers := (list (string * string)).

Inductive payload :=
| PNone
| PJson (v : value)
| PBytes (b : string).

(** What the HTTP client returns: a status, and the reading of the body, as
    bytes or as text. *)
Record http_response := mkResponse {
  hr_status : Z;
  hr_bytes : result string string;
  hr_text : result string string;
}.

Definition is_success (status : Z) : bool := (200 <=? status)%Z && (status <? 300)%Z.

Inductive http_call : Type → Type :=
| HttpGet (url : string) : http_call (result http_response string)
| HttpPost (url : string) (hs : headers) (body : payload) : http_call (result http_response string)
| SleepSecs (n : Z) : http_call unit.

Section dapr.
(** [StatusCode]'s text, and the parsing of header names (to lower case) and
    values. *)
Context (show_status : Z → string).
Context (header_name header_value : string → result string string).

Definition text_of (r : http_response) : string :=
  match hr_text r with Ok t => t | Err _ => EmptyString end.

(** A failed request's message. *)
Definition request_failed (what : string) (r : http_response) : string :=
  what +:+ " request failed with status: " +:+ show_status (hr_status r) +:+
  " and body: " +:+ text_of r.

Record DaprHttpPublisher := mkDaprPublisher {
  dp_host : string;
  dp_port : Z;
  dp_pubsub : string;
  dp_topic : string;
}.

Definition publish_url (p : DaprHttpPublisher) : string :=
  "http://" +:+ dp_host p +:+ ":" +:+ show_unsigned (dp_port p) +:+ "/v1.0/publish/" +:+
  dp_pubsub p +:+ "/" +:+ dp_topic p.

(** [DaprHttpPublisher::publish]: the request builder sets the content type
    and adds the headers; it keeps a malformed one as an error of [send]. *)
Definition dapr_publish (p : DaprHttpPublisher) (data : value) (hs : headers)
    : prog http_call (result unit string) :=
  response ← trigger (HttpPost (publish_url p)
    (("content-type", "application/json")%string :: hs) (PJson data));
  match response with
  | Ok resp =>
      if is_success (hr_status resp) then mret (Ok ())
      else mret (Err (request_failed "Dapr publish" resp))
  | Err e => mret (Err e)
  end.

Record DaprHttpInvoker := mkDaprInvoker { di_host : string; di_port : Z }.

Definition invoke_url (i : DaprHttpInvoker) (app_id method : string) : string :=
  "http://" +:+ di_host i +:+ ":" +:+ show_unsigned (di_port i) +:+ "/v1.0/invoke/" +:+
  app_id +:+ "/method/" +:+ method.

(** [HeaderMap::insert]: a header of the same name is replaced. *)
Definition header_insert (k v : string) (hs : headers) : headers :=
  filter (λ kv, kv.1 ≠ k) hs ++ [(k, v)].

(** The headers a request is built with: a malformed one is an error. *)
Fixpoint parse_headers (hs acc : headers) : result headers string :=
  match hs with
  | [] => Ok acc
  | (k, v) :: hs =>
      let? k := header_name k in
      let? v := header_value v in
      parse_headers hs (header_insert k v acc)
  end.

Definition content_type (data : payload) : headers :=
  match data with
  | PJson _ => [("content-type", "application/json")]%string
  | PBytes _ => [("content-type", "application/octet-stream")]%string
  | PNone => []
  end.

Definition has_content_type (hs : headers) : bool :=
  existsb (λ kv, str_eqb kv.1 "content-type") hs.

(** [DaprHttpInvoker::invoke] *)
Definition dapr_invoke (i : DaprHttpInvoker) (data : payload) (app_id method : string)
    (hs : option headers) : prog http_call (result string string) :=
  match parse_headers (default [] hs) [] with
  | Err e => mret (Err e)
  | Ok request_headers =>
      let request_headers :=
        if has_content_type request_headers then request_headers
        else request_headers ++ content_type data in
      response ← trigger (HttpPost (invoke_url i app_id method) request_headers data);
      match response with
      | Ok resp =>
          if is_success (hr_status resp) then mret (hr_bytes resp)
          else mret (Err (request_failed "Service invocation" resp))
      | Err e => mret (Err e)
      end
  end.

(** ** Properties *)

(** The POST requests of a trace: where to, what, and whether the answer was a
    success. *)
Definition posted_of (c : call http_call) : option (string * payload * bool) :=
  match c with
  | @Call _ X e x =>
      match e in http_call X return X → _ with
      | HttpPost url _ body => λ r, Some (url, body,
          match r with Ok resp => is_success (hr_status resp) | Err _ => false end)
      | _ => λ _, None
      end x
  end.

(** Publishing makes one request, and succeeds exactly when it is answered
    with a success. *)
Lemma dapr_publish_posts p data hs :
  always (dapr_publish p data hs) (λ t o, ∃ ok r,
    o = Done r ∧ is_ok r = ok ∧ observe posted_of t = [(publish_url p, PJson data, ok)]).
Proof.
  intros [resp|e] _; cbn; [|by eexists false, _].
  destruct (is_success (hr_status resp)) eqn:E; cbn; eexists _, _; do 2 (split; [done|]); by rewrite E.
Qed.

Lemma dapr_invoke_posts i data app_id method hs :
  always (dapr_invoke i data app_id method hs) (λ t o, ∃ r, o = Done r ∧
    ((t = [] ∧ is_ok r = false ∧ is_ok (parse_headers (default [] hs) []) = false) ∨
     ∃ ok, observe posted_of t = [(invoke_url i app_id method, data, ok)] ∧
       (is_ok r = true → ok = true) ∧
       (ok = true → ∀ c, c ∈ t → match c with
          | @Call _ X e x =>
              match e in http_call X return X → Prop with
              | HttpPost _ _ _ => λ x, ∃ resp, x = Ok resp ∧ hr_bytes resp = r
              | _ => λ _, True
              end x
          end))).
Proof.
  unfold dapr_invoke. destruct (parse_headers _ _) as [rh|e] eqn:Hp; cbn [is_ok].
  2:{ eexists. split; [done|]. by left. }
  intros [resp|e] _; cbn.
  - destruct (is_success (hr_status resp)) eqn:E; cbn; rewrite ?E.
    + eexists. split; [done|]. right. exists true. split; [done|]. split; [done|].
      intros _ c ->%list_elem_of_singleton. by eexists.
    + eexists. split; [done|]. right. exists false. split; [done|]. by split.
  - eexists. split; [done|]. right. exists false. split; [done|]. by split.
Qed.

(** Invoking a method of another service either makes no request, because
    a header is malformed, and fails, or makes exactly one request, to that
    method and with the given data; it succeeds only if the answer's status is
    a success, and a success whose body can be read is never reported as a
    failure. *)
Theorem invoke_delivers i data app_id method hs :
  always (dapr_invoke i data app_id method hs) (λ t o, ∃ r, o = Done r ∧
    ((t = [] ∧ is_ok r = false ∧ is_ok (parse_headers (default [] hs) []) = false) ∨
     ∃ ok, observe posted_of t = [(invoke_url i app_id method, data, ok)] ∧
       (is_ok r = true → ok = true) ∧
       (ok = true → ∀ c, c ∈ t → match c with
          | @Call _ X e x =>
              match e in http_call X return X → Prop with
              | HttpPost _ _ _ => λ x, ∃ resp, x = Ok resp ∧ hr_bytes resp = r
              | _ => λ _, True
              end x
          end))).
Proof. apply dapr_invoke_posts. Qed.
End dapr.

(** ** Streaming replies ([infrastructure/comms-http]) *)

Inductive StreamType := JsonNewLine | JsonArray.
Inductive Verb := Get | Post.

(** A reply whose body is read as a stream of documents. *)
Record stream_response := mkStreamResponse {
  sr_status : Z;
  sr_text : result string string;
  sr_items : StreamType → list (result value string);
}.

Inductive http_stream_call : Type → Type :=
| HttpStream (verb : Verb) (url : string) (hs : headers) (body : payload)
    : http_stream_call (result stream_response string).

Section streaming.
Context (show_status : Z → string).
Context (header_name header_value : string → result string string).

Definition named_error (what : string) (f : string → result string string) (s : string)
    : result string string :=
  match f s with Ok x => Ok x | Err e => Err (what +:+ e) end.

(** [HttpStreamingInvoker::invoke] *)
Definition stream_invoke (data : payload) (app_id : string) (verb : Verb) (path : string)
    (stream_type : StreamType) (hs : option headers)
    : prog http_stream_call (result (list (result value string)) string) :=
  let uri := "http://" +:+ app_id +:+ "/" +:+ path in
  match parse_headers (named_error "Error parsing header name: " header_name)
          (named_error "Error parsing header value: " header_value) (default [] hs) [] with
  | Err e => mret (Err e)
  | Ok request_headers =>
      let request_headers :=
        if has_content_type request_headers then request_headers
        else request_headers ++ content_type data in
      resp ← trigger (HttpStream verb uri request_headers data);
      match resp with
      | Err e => mret (Err ("Error invoking HTTP request: " +:+ e))
      | Ok resp =>
          if is_success (sr_status resp) then mret (Ok (sr_items resp stream_type))
          else mret (Err ("Error invoking: " +:+ show_status (sr_status resp) +:+ " - " +:+
            match sr_text resp with Ok t => t | Err _ => EmptyString end))
      end
  end.
End streaming.
