(* ===== verification/ChangeRouter.v ===== *)
(** * ChangeRouter: which queries a source's changes are sent to
    ([sources/shared/change-router]) *)
From S2P Require Import Prelude BTree Json Effects RustText Comms.

(** ** The subscribers of each label ([subscriber_map.rs], [subscribers.rs]) *)

Record SubscriberMap := mkSubs { label_map : gmap string (gset string) }.

(** What the router calls outside of its own code.  A [HashSet] is iterated in
    an order of its own. *)
Inductive ext_call : Type → Type :=
| XHttp {X} (c : http_call X) : ext_call X
| IterSet (s : gset string) : ext_call (list string)
| NowNanos : ext_call (option Z)
| NewV4 : ext_call string
| DaprConnect (addr : string) : ext_call (result unit string)
| DaprQueryState (store : string) (condition : value) (metadata : list (string * string))
    : ext_call (result (list string) string)
| DaprDeleteState (store key : string) : ext_call (result unit string).

(** Which of the two maps of the router's state. *)
Inductive kind := Nodes | Rels.

Inductive sub_call : Type → Type :=
| AddLabels (labels : list string) (query_node_id query_id : string) : sub_call unit
| GetSubscribersForLabels (labels : list string) : sub_call (option (list string)).

(** The two maps are shared by concurrent requests; each method runs under the
    map's lock. *)
Inductive router_call : Type → Type :=
| RSub (k : kind) {X} (c : sub_call X) : router_call X
| RExt {X} (c : ext_call X) : router_call X.

Record Subscribers := mkSubscribers { node_subs : SubscriberMap; rel_subs : SubscriberMap }.

Definition no_subscribers : Subscribers := mkSubscribers (mkSubs ∅) (mkSubs ∅).

Definition subs_of (k : kind) (s : Subscribers) : SubscriberMap :=
  match k with Nodes => node_subs s | Rels => rel_subs s end.

Definition set_subs (k : kind) (m : SubscriberMap) (s : Subscribers) : Subscribers :=
  match k with
  | Nodes => mkSubscribers m (rel_subs s)
  | Rels => mkSubscribers (node_subs s) m
  end.

Section router.
(** [Value]'s text and its parsing. *)
Context (json_text : value → string) (json_parse : string → result value string).
Context (show_status : Z → string).

Definition subscriber_json (query_node_id query_id : string) : value :=
  VObject (jobject [("queryNodeId", VString query_node_id); ("queryId", VString query_id)]%string).

Definition add (label query_node_id query_id : string) (m : SubscriberMap) : SubscriberMap :=
  let set := default ∅ (label_map m !! label) in
  mkSubs (<[label := {[json_text (subscriber_json query_node_id query_id)]} ∪ set]> (label_map m)).

Definition add_labels (labels : list string) (query_node_id query_id : string)
    (m : SubscriberMap) : SubscriberMap :=
  foldl (λ m label, add label query_node_id query_id m) m labels.

(** The subscribers of every label, one after the other; none at all when one
    of the labels was never subscribed to. *)
Fixpoint get_subscribers_for_labels (m : SubscriberMap) (labels acc : list string)
    : prog ext_call (option (list string)) :=
  match labels with
  | [] => mret (Some acc)
  | label :: labels =>
      match label_map m !! label with
      | Some set =>
          subscribers ← trigger (IterSet set);
          get_subscribers_for_labels m labels (acc ++ subscribers)
      | None => mret None
      end
  end.

Definition subscriber_method {X} (k : kind) (c : sub_call X) (s : Subscribers)
    : prog ext_call (X * Subscribers) :=
  match c with
  | AddLabels labels n q => mret ((), set_subs k (add_labels labels n q (subs_of k s)) s)
  | GetSubscribersForLabels labels =>
      r ← get_subscribers_for_labels (subs_of k s) labels [];
      mret (r, s)
  end.

(** ** The state manager ([state_manager.rs]) *)

Record StateEntry := mkEntry { se_key : string; se_value : value }.

Definition entry_json (e : StateEntry) : value :=
  VObject (jobject [("key", VString (se_key e)); ("value", se_value e)]%string).

Record DaprStateManager := mkStateManager {
  sm_host : string;
  sm_port : Z;
  sm_store : string;
}.

(** The documents that parse. *)
Definition parse_results (items : list string) : list value :=
  omap (λ item, match json_parse item with Ok data => Some data | Err _ => None end) items.

Definition query_state (sm : DaprStateManager) (condition : value)
    (metadata : list (string * string)) : prog ext_call (result (list value) string) :=
  client ← trigger (DaprConnect "https://127.0.0.1");
  match client with
  | Err e => Panic ("Unable to connect to Dapr: " +:+ e)
  | Ok _ =>
      response ← trigger (DaprQueryState (sm_store sm) condition metadata);
      let items := match response with Ok items => items | Err _ => [] end in
      mret (Ok (parse_results items))
  end.

Definition save_url (sm : DaprStateManager) : string :=
  "http://" +:+ sm_host sm +:+ ":" +:+ show_unsigned (sm_port sm) +:+ "/v1.0/state/" +:+
  sm_store sm +:+ "?metadata.contentType=application/json".

Definition save_state (sm : DaprStateManager) (entries : list StateEntry)
    : prog ext_call (result unit string) :=
  response ← trigger (XHttp (HttpPost (save_url sm)
    [("content-type", "application/json")]%string (PJson (VArray (map entry_json entries)))));
  match response with
  | Ok resp =>
      if is_success (hr_status resp) then mret (Ok ())
      else mret (Err (request_failed show_status "State save" resp))
  | Err e => mret (Err e)
  end.

Definition delete_state (sm : DaprStateManager) (key : string)
    : prog ext_call (result unit string) :=
  client ← trigger (DaprConnect "https://127.0.0.1");
  match client with
  | Err e => Panic ("Unable to connect to Dapr: " +:+ e)
  | Ok _ => trigger (DaprDeleteState (sm_store sm) key)
  end.

(** [wait_for_dapr_start], from an attempt on: a health check and a second of
    sleep, at most ten times. *)
Fixpoint wait_attempts (fuel : nat) (port attempt : Z) : prog http_call (result unit string) :=
  match fuel with
  | O => Panic "out of fuel"
  | S fuel =>
      response ← trigger (HttpGet ("http://localhost:" +:+ show_unsigned port +:+
        "/v1.0/healthz/outbound"));
      let up := match response with Ok resp => is_success (hr_status resp) | Err _ => false end in
      if up then mret (Ok ())
      else
        let attempt := (attempt + 1)%Z in
        if (10 <=? attempt)%Z then
          mret (Err "Dapr did not start within the expected time frame."%string)
        else
          _ ← trigger (SleepSecs 1);
          wait_attempts fuel port attempt
  end.

Definition wait_for_dapr_start (port : Z) : prog http_call (result unit string) :=
  wait_attempts 10 port 0.

(** ** The start of the service *)

(** [data["labels"].as_array()], each label as text. *)
Definition labels_at (v : value) (path : list string) : option (list string) :=
  label_strs <$> as_array (jpath v path).

(** One stored subscription: both maps, or none when an identifier is missing. *)
Definition load_subscription (s : Subscribers) (data : value) : Subscribers :=
  match as_str (jindex data "queryNodeId"), as_str (jindex data "queryId") with
  | Some n, Some q =>
      let node_labels := default [] (labels_at data ["nodeLabels"%string]) in
      let rel_labels := default [] (labels_at data ["relLabels"%string]) in
      mkSubscribers (add_labels node_labels n q (node_subs s)) (add_labels rel_labels n q (rel_subs s))
  | _, _ => s
  end.

Record ChangeRouterConfig := mkConfig {
  cr_source_id : string;
  cr_subscriber_store : string;
  cr_pubsub_name : string;
  cr_otel_endpoint : string;
  cr_dapr_port : string;
  cr_app_port : string;
}.

Definition query_condition : value :=
  VObject (jobject [("filter", VObject (jobject [("EQ",
    VObject (jobject [("type", VString "SourceSubscription")]))]))]%string).

Definition parse_u16 (s : string) : option Z :=
  n ← parse_u64 s; if (n <? 2 ^ 16)%Z then Some n else None.

(** Up to serving requests: the subscribers, the publisher and the state
    manager the requests share. *)
Definition start (config : ChangeRouterConfig)
    : prog ext_call (result (Subscribers * DaprHttpPublisher * DaprStateManager) string) :=
  match parse_u16 (cr_dapr_port config) with
  | None => mret (Err "Error parsing Dapr port"%string)
  | Some dapr_port =>
      ready ← translate (λ X c, XHttp c) (wait_for_dapr_start dapr_port);
      match ready with
      | Err e => mret (Err e)
      | Ok _ =>
          let publisher := mkDaprPublisher "127.0.0.1" dapr_port (cr_pubsub_name config)
            (cr_source_id config +:+ "-dispatch") in
          let state_manager := mkStateManager "127.0.0.1" dapr_port (cr_subscriber_store config) in
          response ← query_state state_manager query_condition
            [("contentType", "application/json")]%string;
          let response := match response with Ok r => r | Err _ => [] end in
          mret (Ok (foldl load_subscription no_subscribers response, publisher, state_manager))
      end
  end.

(** ** A batch of changes *)

Notation P := (prog router_call).

(** What follows a change: the next one, or the end of the call. *)
Inductive flow := Next | Finish (r : result unit string).

Definition ext {X} (c : ext_call X) : P X := trigger (RExt c).
Definition ext_prog {A} (p : prog ext_call A) : P A := translate (λ X c, RExt c) p.

Definition state_key (query_node_id query_id : string) : string :=
  "SourceSubscription-" +:+ query_node_id +:+ "-" +:+ query_id.

Definition source_subscription_value (after : value) : value :=
  VObject (jobject [
    ("type", VString "SourceSubscription");
    ("queryId", jindex after "queryId");
    ("queryNodeId", jindex after "queryNodeId");
    ("nodeLabels", jindex after "nodeLabels");
    ("relLabels", jindex after "relLabels")]%string).

(** A new subscription.  (The identifiers are read again before each use, from
    the same change.) *)
Definition on_subscribe (sm : DaprStateManager) (change : value) : P flow :=
  let after := jpath change ["payload"; "after"]%string in
  match labels_at after ["nodeLabels"%string] with
  | None => mret Next
  | Some node_labels =>
      match as_str (jindex after "queryNodeId") with
      | None => mret Next
      | Some query_node_id =>
          match as_str (jindex after "queryId") with
          | None => mret Next
          | Some query_id =>
              _ ← trigger (RSub Nodes (AddLabels node_labels query_node_id query_id));
              match labels_at after ["relLabels"%string] with
              | None => mret Next
              | Some rel_labels =>
                  _ ← trigger (RSub Rels (AddLabels rel_labels query_node_id query_id));
                  r ← ext_prog (save_state sm [mkEntry (state_key query_node_id query_id)
                        (source_subscription_value after)]);
                  mret (Finish r)
              end
          end
      end
  end.

(** A removed subscription: only the state store is told. *)
Definition on_unsubscribe (sm : DaprStateManager) (change : value) : P flow :=
  let before := jpath change ["payload"; "before"]%string in
  match as_str (jindex before "queryNodeId") with
  | None => mret (Finish (Err "Error loading queryNodeId from the ChangeEvent"%string))
  | Some query_node_id =>
      match as_str (jindex before "queryId") with
      | None => mret (Finish (Err "Error loading queryId from the ChangeEvent"%string))
      | Some query_id =>
          r ← ext_prog (delete_state sm (state_key query_node_id query_id));
          mret (Finish r)
      end
  end.

Definition source_field (change : value) (key : string) : value :=
  jpath change ["payload"; "source"; key]%string.

Definition op_is (change : value) (op : string) : bool := is_str (jindex change "op") op.

(** [change["op"] == "i" || change["op"] == "u"]: the labels are those after. *)
Definition labels_path (change : value) : option (list string) :=
  if op_is change "i" || op_is change "u" then Some ["payload"; "after"; "labels"]%string
  else if op_is change "d" then Some ["payload"; "before"; "labels"]%string
  else None.

(** The subscribers of a change: [None] skips the change, [Some None] has none. *)
Definition find_subscribers (k : kind) (change : value)
    : P (option (option (list string))) :=
  match labels_path change with
  | None => mret (Some None)
  | Some path =>
      match labels_at change path with
      | None => mret None
      | Some labels =>
          subscriptions ← trigger (RSub k (GetSubscribersForLabels labels));
          mret (Some subscriptions)
      end
  end.

Definition subscriptions_of (change : value) : P (option (option (list string))) :=
  let table := source_field change "table" in
  if is_str table "node" then find_subscribers Nodes change
  else if is_str table "rel" then find_subscribers Rels change
  else mret (Some None).

Definition parse_subscription (subscription : string) : value :=
  match json_parse subscription with Ok v => v | Err _ => VObject [] end.

Definition change_dispatch_event (source_id : string) (change : value) (change_id : string)
    (subscriptions : list string) (ts_ns start_time end_time : Z) : value :=
  VArray [VObject (jobject [
    ("id", VString change_id);
    ("sourceId", VString source_id);
    ("type", jindex change "op");
    ("elementType", source_field change "table");
    ("subscriptions", VArray (map parse_subscription subscriptions));
    ("time", VObject (jobject [
      ("seq", source_field change "lsn");
      ("ms", VNumber (NPos (ts_ns / 1000000)))]));
    ("before", jpath change ["payload"; "before"]);
    ("after", jpath change ["payload"; "after"]);
    ("metadata", VObject (jobject [
      ("tracking", VObject (jobject [
        ("source", VObject (jobject [
          ("seq", source_field change "lsn");
          ("changeRouterStart_ns", v_i64 start_time);
          ("changeRouterEnd_ns", v_i64 end_time);
          ("source_ns", source_field change "ts_ns");
          ("reactivatorStart_ns", jindex change "reactivatorStart_ns");
          ("reactivatorEnd_ns", jindex change "reactivatorEnd_ns")]))]))]))])]%string.

Section process.
Context (config : ChangeRouterConfig) (publisher : DaprHttpPublisher) (sm : DaprStateManager).
Context (traceparent : string).

Definition publish_change (change : value) (change_id : string) (start_time : Z)
    (subscriptions : list string) : P flow :=
  match as_u64_num (source_field change "ts_ns") with
  | None => mret (Finish (Err "Error converting ts_ns to u64"%string))
  | Some ts_ns =>
      end_time ← ext NowNanos;
      let event := change_dispatch_event (cr_source_id config) change change_id subscriptions
        ts_ns start_time (default 0%Z end_time) in
      r ← ext_prog (translate (λ X c, XHttp c)
            (dapr_publish show_status publisher event [("traceparent"%string, traceparent)]));
      match r with
      | Ok _ => mret Next
      | Err e => mret (Finish (Err e))
      end
  end.

Definition is_subscription_event (change : value) : bool :=
  is_str (source_field change "db") "Drasi" &&
  is_str (source_field change "table") "SourceSubscription".

Definition process_change (start_time : Z) (change : value) : P flow :=
  change_id ← ext NewV4;
  if is_subscription_event change then
    if op_is change "i" then on_subscribe sm change
    else if op_is change "d" then on_unsubscribe sm change
    else mret (Finish (Ok ()))
  else
    subscriptions ← subscriptions_of change;
    match subscriptions with
    | None => mret Next
    | Some None => mret Next
    | Some (Some subscriptions) => publish_change change change_id start_time subscriptions
    end.

(** The changes after the first are timed when their turn comes. *)
Fixpoint process_rest (changes : list value) : P (result unit string) :=
  match changes with
  | [] => mret (Ok ())
  | change :: changes =>
      now ← ext NowNanos;
      f ← process_change (default 0%Z now) change;
      match f with
      | Next => process_rest changes
      | Finish r => mret r
      end
  end.

Definition process_changes (changes : value) (receive_time : Z) : P (result unit string) :=
  match as_array changes with
  | None => mret (Err "Changes must be an array"%string)
  | Some [] => mret (Ok ())
  | Some (change :: changes) =>
      f ← process_change receive_time change;
      match f with
      | Next => process_rest changes
      | Finish r => mret r
      end
  end.
End process.

(** ** The HTTP handlers *)

Inductive router_response := Success | InternalError (error : string).

(** [header] is [headers.get("traceparent")] read as text, if it is text. *)
Definition receive (config : ChangeRouterConfig) (publisher : DaprHttpPublisher)
    (sm : DaprStateManager) (header : option string) (body : value) : P router_response :=
  receive_time ← ext NowNanos;
  let trace_parent := default EmptyString header in
  r ← process_changes config publisher sm trace_parent (jindex body "data")
        (default 0%Z receive_time);
  match r with
  | Ok _ => mret Success
  | Err e => mret (InternalError e)
  end.

Definition subscribe (config : ChangeRouterConfig) : value :=
  VArray [VObject (jobject [
    ("pubsubname", VString (cr_pubsub_name config));
    ("topic", VString (cr_source_id config +:+ "-change"));
    ("route", VString "receive")]%string)].

(** One request's calls on the shared subscribers, carried out. *)
Definition on_state {X} (c : router_call X) (s : Subscribers)
    : prog ext_call (X * Subscribers) :=
  match c with
  | RSub k c => subscriber_method k c s
  | RExt c => x ← trigger c; mret (x, s)
  end.

Definition receive_on (config : ChangeRouterConfig) (publisher : DaprHttpPublisher)
    (sm : DaprStateManager) (header : option string) (body : value) (s : Subscribers)
    : prog ext_call (router_response * Subscribers) :=
  interp (λ X c, on_state c) (receive config publisher sm header body) s.
End router.
