(* ===== verification/ChangeRouterSpec.v ===== *)
(** * ChangeRouterSpec: every change reaches the queries that subscribed to it *)
From S2P Require Import Prelude BTree Json Effects RustText Comms ChangeRouter.

(** A set's elements come in some order. *)
Definition order_ok (c : call ext_call) : Prop :=
  match c with
  | @Call _ X e x =>
      match e in ext_call X return X → Prop with
      | IterSet s => λ l, l ≡ₚ elements s
      | _ => λ _, True
      end x
  end.

(** The POST requests of a trace. *)
Definition ext_posted (c : call ext_call) : option (string * payload * bool) :=
  match c with
  | @Call _ X e x =>
      match e in ext_call X return X → _ with
      | XHttp c => λ x, posted_of (Call c x)
      | _ => λ _, None
      end x
  end.
Definition posted (t : list (call ext_call)) := observe ext_posted t.

Lemma router_posted_app t t' : posted (t ++ t') = posted t ++ posted t'.
Proof. apply observe_app. Qed.

(** ** The label maps *)

Definition has (m : SubscriberMap) (label text : string) : Prop :=
  ∃ set, label_map m !! label = Some set ∧ text ∈ set.

Definition grows (s s' : Subscribers) : Prop :=
  ∀ k label text, has (subs_of k s) label text → has (subs_of k s') label text.

#[export] Instance grows_preorder : PreOrder grows.
Proof. split; [by intros s k l t | intros s1 s2 s3 H12 H23 k l t H; auto]. Qed.

(** The subscribers of all labels; none when a label is unknown. *)
Fixpoint subscribers_of (m : SubscriberMap) (labels : list string) : option (list string) :=
  match labels with
  | [] => Some []
  | label :: labels =>
      set ← label_map m !! label;
      rest ← subscribers_of m labels;
      Some (elements (set : gset string) ++ rest)
  end.

Definition change_kind (change : value) : option kind :=
  let table := source_field change "table" in
  if is_str table "node" then Some Nodes else if is_str table "rel" then Some Rels else None.

(** Whom a change is routed to. *)
Definition routes (s : Subscribers) (change : value) : option (list string) :=
  k ← change_kind change;
  path ← labels_path change;
  labels ← labels_at change path;
  subscribers_of (subs_of k s) labels.

Section spec.
Context (json_text : value → string) (json_parse : string → result value string).
Context (show_status : Z → string).

Notation text n q := (json_text (subscriber_json n q)).
Notation on := (interp (λ X c, on_state json_text c)).

Lemma has_add label n q m l t :
  has (add json_text label n q m) l t ↔ (l = label ∧ t = text n q) ∨ has m l t.
Proof.
  unfold has, add. simpl. destruct (decide (label = l)) as [->|Hne].
  - setoid_rewrite lookup_insert_eq. split.
    + intros (set & [= <-] & Ht). apply elem_of_union in Ht as [->%elem_of_singleton|Ht]; [by left|].
      right. destruct (label_map m !! l) as [x|]; simpl in Ht; [by exists x | set_solver].
    + intros [[_ ->]|(x & -> & Ht)]; eexists; (split; [done|]); set_solver.
  - setoid_rewrite lookup_insert_ne; [|done]. naive_solver.
Qed.

Lemma has_add_labels ls n q m l t :
  has (add_labels json_text ls n q m) l t ↔ (l ∈ ls ∧ t = text n q) ∨ has m l t.
Proof.
  revert m. induction ls as [|x ls IH]; intros m; [set_solver|]. cbn.
  fold (add_labels json_text ls n q (add json_text x n q m)). rewrite IH, has_add.
  rewrite elem_of_cons. tauto.
Qed.

Lemma get_subscribers_spec m labels acc :
  under order_ok (get_subscribers_for_labels m labels acc) (λ t o, posted t = [] ∧
    match subscribers_of m labels with
    | None => o = Done None
    | Some l => ∃ r, o = Done (Some r) ∧ r ≡ₚ acc ++ l
    end).
Proof.
  revert acc. induction labels as [|label labels IH]; intros acc; cbn.
  { split; [done|]. exists acc. by rewrite app_nil_r. }
  destruct (label_map m !! label) as [set|]; [|done]. cbn [from_option mbind option_bind].
  apply under_call. intros order Horder. eapply under_mono; [done| |apply IH].
  intros t o [Ht Ho]. split; [done|]. destruct (subscribers_of m labels); [|done]. cbn.
  destruct Ho as (r & -> & Hr). exists r. split; [done|].
  by rewrite Hr, <-(assoc_L (++)), (Horder : _ ≡ₚ _).
Qed.

Lemma subscribers_of_has m labels l t texts :
  subscribers_of m labels = Some texts → l ∈ labels → has m l t → t ∈ texts.
Proof.
  revert texts. induction labels as [|l' labels IH]; intros texts H Hl Ht; [set_solver|].
  cbn in H. destruct (label_map m !! l') as [set|] eqn:E; [|done]. cbn in H.
  destruct (subscribers_of m labels) as [rest|]; [|done]. injection H as <-.
  apply elem_of_app. apply elem_of_cons in Hl as [->|Hl]; [|right; by apply IH].
  left. destruct Ht as (set' & E' & Ht). rewrite E in E'. injection E' as <-.
  by apply elem_of_elements.
Qed.

Lemma subscribers_of_known m labels :
  (∀ l, l ∈ labels → is_Some (label_map m !! l)) → is_Some (subscribers_of m labels).
Proof.
  induction labels as [|l labels IH]; intros H; [by eexists|]. cbn.
  destruct (H l) as [set ->]; [left|]. cbn.
  destruct IH as [rest ->]; [|by eexists]. intros l' Hl'. apply H. by right.
Qed.

(** ** One request at a time *)

Lemma on_ext {X A} G (c : ext_call X) (k : X → prog router_call A) s Q :
  (∀ x, G (Call c x) → under G (on (k x) s) (λ t o, Q (Call c x :: t) o)) →
  under G (on (ext c ≫= k) s) Q.
Proof. intros H. apply under_interp_call. intros x Hx. by apply H. Qed.

Lemma on_ext_prog {A} G (p : prog ext_call A) s Q :
  under G p (λ t o, Q t match o with Done a => Done (a, s) | Panicked w => Panicked w end) →
  under G (on (ext_prog p) s) Q.
Proof.
  revert Q. induction p as [a|w|X c k IH]; intros Q; [done|done|].
  intros H x Hx. apply (IH x (λ t o, Q (Call c x :: t) o)), H, Hx.
Qed.

Lemma on_state_grows G X (c : router_call X) s :
  under G (on_state json_text c s) (λ _ o, ∀ x s', o = Done (x, s') → grows s s').
Proof.
  destruct c as [k X [labels n q|labels]|X c].
  - intros x s' [= _ <-] k' l t Ht. destruct k, k'; cbn; try exact Ht;
      (apply has_add_labels; by right).
  - cbn. apply under_bind. eapply under_mono; [done| |apply under_true].
    intros t [r|w] _; [by intros ?? [= _ <-]|done].
  - intros x _ y s' [= _ <-]. done.
Qed.

Lemma receive_grows G config publisher sm header body s :
  under G (receive_on json_text json_parse show_status config publisher sm header body s)
    (λ _ o, ∀ r s', o = Done (r, s') → grows s s').
Proof. apply (under_interp_inv _ _ grows). intros X c s'. apply on_state_grows. Qed.

Section requests.
Context (config : ChangeRouterConfig) (publisher : DaprHttpPublisher) (sm : DaprStateManager).

Notation process := (process_change json_parse show_status config publisher sm).
Notation receive := (receive_on json_text json_parse show_status config publisher sm).

(** The request that dispatches a change, and whether it was accepted. *)
Definition dispatches (s : Subscribers) (change : value) (p : string * payload * bool)
    (accepted : bool) : Prop :=
  ∃ texts subs id ts start end_,
    routes s change = Some texts ∧ subs ≡ₚ texts ∧
    as_u64_num (source_field change "ts_ns") = Some ts ∧
    p = (publish_url publisher, PJson (change_dispatch_event json_parse (cr_source_id config)
           change id subs ts start end_), accepted).

(** How a data change ends. *)
Definition change_done (s : Subscribers) (change : value) (f : flow)
    (posts : list (string * payload * bool)) : Prop :=
  match f with
  | Next => (routes s change = None ∧ posts = []) ∨ ∃ p, posts = [p] ∧ dispatches s change p true
  | Finish r => is_ok r = false ∧ is_Some (routes s change) ∧
      (posts = [] ∨ ∃ p, posts = [p] ∧ dispatches s change p false)
  end.

Lemma find_subscribers_spec k change s Q :
  (∀ t r, posted t = [] →
     match path ← labels_path change; labels ← labels_at change path;
           subscribers_of (subs_of k s) labels with
     | Some texts => ∃ subs, r = Some (Some subs) ∧ subs ≡ₚ texts
     | None => r = None ∨ r = Some None
     end → Q t (Done (r, s))) →
  under order_ok (on (find_subscribers k change) s) Q.
Proof.
  intros HQ. unfold find_subscribers.
  destruct (labels_path change) as [path|]; [|apply HQ; [done|by right]].
  cbn [mbind option_bind] in HQ.
  destruct (labels_at change path) as [labels|]; [|apply HQ; [done|by left]].
  cbn [mbind option_bind] in HQ.
  apply under_interp_call. apply under_bind.
  eapply under_mono; [done| |apply (get_subscribers_spec _ _ [])].
  intros t o [Ht Ho]. destruct (subscribers_of (subs_of k s) labels) as [texts|].
  - destruct Ho as (r & -> & Hr). cbn. rewrite !app_nil_r. apply HQ; [done|]. by exists r.
  - subst o. cbn. rewrite !app_nil_r. apply HQ; [done|]. by right.
Qed.

Lemma subscriptions_of_spec change s Q :
  (∀ t r, posted t = [] →
     match routes s change with
     | Some texts => ∃ subs, r = Some (Some subs) ∧ subs ≡ₚ texts
     | None => r = None ∨ r = Some None
     end → Q t (Done (r, s))) →
  under order_ok (on (subscriptions_of change) s) Q.
Proof.
  unfold routes, change_kind, subscriptions_of. intros HQ.
  destruct (is_str _ "node"); [by apply find_subscribers_spec|].
  destruct (is_str _ "rel"); [by apply find_subscribers_spec|].
  apply HQ; [done | by right].
Qed.

Lemma publish_change_spec traceparent change id start subs texts s :
  routes s change = Some texts → subs ≡ₚ texts →
  under order_ok
    (on (publish_change json_parse show_status config publisher traceparent change id start subs) s)
    (λ t o, ∃ f, o = Done (f, s) ∧ change_done s change f (posted t)).
Proof.
  intros Hr Hs. unfold publish_change.
  destruct (as_u64_num (source_field change "ts_ns")) as [ts|] eqn:Hts.
  2:{ eexists. split; [done|]. split; [done|]. split; [by eexists | by left]. }
  apply on_ext. intros end_ _.
  apply under_interp_bind, on_ext_prog, under_translate.
  eapply under_mono; [| |apply (dapr_publish_posts show_status publisher)]; [done|].
  intros t o (ok & r & -> & Hok & Ht).
  assert (posted (map (translate_call (λ X c, XHttp c)) t) = observe posted_of t) as Hp.
  { clear. induction t as [|[X e x] t IH]; [done|].
    etrans; [apply (router_posted_app [Call (XHttp e) x]
      (map (translate_call (λ X c, XHttp c)) t))|]. rewrite IH. cbn.
    by destruct (match e in http_call X0 return X0 → _ with HttpPost _ _ _ => _ | _ => _ end x). }
  destruct r as [[]|e]; cbn in Hok; subst ok.
  - eexists. split; [done|]. right. eexists. split.
    + cbn. rewrite app_nil_r, Ht in *. exact Hp.
    + repeat eexists; [exact Hr | exact Hs | exact Hts].
  - eexists. split; [done|]. split; [done|]. split; [by eexists|]. right. eexists. split.
    + cbn. rewrite app_nil_r, Ht in *. exact Hp.
    + repeat eexists; [exact Hr | exact Hs | exact Hts].
Qed.

Lemma process_change_spec traceparent start change s :
  is_subscription_event change = false →
  under order_ok (on (process traceparent start change) s)
    (λ t o, ∃ f, o = Done (f, s) ∧ change_done s change f (posted t)).
Proof.
  intros Hsub. unfold process_change. apply on_ext. intros id _. rewrite Hsub.
  apply under_interp_bind, subscriptions_of_spec. intros t r Ht Hr.
  destruct (routes s change) as [texts|] eqn:Hroutes.
  - destruct Hr as (subs & -> & Hs).
    eapply under_mono; [done| |by eapply publish_change_spec].
    intros t' o (f & -> & Hf). exists f. split; [done|].
    change (posted (Call (NewV4) id :: t ++ t')) with (posted (t ++ t')).
    by rewrite router_posted_app, Ht.
  - assert (change_done s change Next (posted (Call NewV4 id :: t ++ []))) as Hd.
    { left. split; [done|]. change (posted (t ++ []) = []). by rewrite app_nil_r. }
    destruct Hr as [-> | ->]; eexists; (split; [done|exact Hd]).
Qed.

(** The part of a batch that was dealt with. *)
Definition batch_done (s : Subscribers) (changes : list value) (r : result unit string)
    (posts : list (string * payload * bool)) : Prop :=
  ∃ done rest accepted refused, changes = done ++ rest ∧ posts = accepted ++ refused ∧
    Forall2 (λ c p, dispatches s c p true) (filter (λ c, is_Some (routes s c)) done) accepted ∧
    match r with
    | Ok _ => rest = [] ∧ refused = []
    | Err _ => ∃ change rest', rest = change :: rest' ∧ is_Some (routes s change) ∧
        (refused = [] ∨ ∃ p, refused = [p] ∧ dispatches s change p false)
    end.

Lemma batch_step s c cs f posts r posts' :
  change_done s c f posts →
  match f with
  | Next => batch_done s cs r posts'
  | Finish r' => r = r' ∧ posts' = []
  end → batch_done s (c :: cs) r (posts ++ posts').
Proof.
  intros Hc Hcs. destruct f as [|r'].
  - destruct Hcs as (d & rest & acc & ref & -> & -> & Hacc & Hr).
    exists (c :: d), rest, (posts ++ acc), ref. split; [done|]. rewrite (assoc_L (++)).
    split; [done|]. split; [|done]. rewrite filter_cons.
    destruct Hc as [[Hn ->]|(p & -> & Hp)].
    + rewrite Hn, decide_False by (by intros []). done.
    + rewrite decide_True; [by constructor|].
      destruct Hp as (texts & ? & ? & ? & ? & ? & -> & _). by eexists.
  - destruct Hcs as [-> ->]. destruct Hc as (Hr & Hs & Hp). exists [], (c :: cs), [], posts.
    rewrite app_nil_r. do 2 (split; [done|]). split; [constructor|].
    destruct r' as [|e]; [done|]. eexists _, _. do 2 (split; [done|]).
    destruct Hp as [->|(p & -> & Hp)]; [by left|right; eauto].
Qed.

Lemma process_rest_spec traceparent changes s :
  Forall (λ c, is_subscription_event c = false) changes →
  under order_ok
    (on (process_rest json_parse show_status config publisher sm traceparent changes) s)
    (λ t o, ∃ r, o = Done (r, s) ∧ batch_done s changes r (posted t)).
Proof.
  induction changes as [|c changes IH]; intros Hns; cbn [process_rest].
  { eexists. split; [done|]. exists [], [], [], []. split; [done|]. by repeat constructor. }
  inversion Hns as [|? ? Hc Hcs]; subst. apply on_ext. intros now _.
  apply under_interp_bind. eapply under_mono; [done| |by apply process_change_spec].
  intros t o (f & -> & Hf). destruct f as [|r].
  - eapply under_mono; [done| |by apply IH]. intros t' o (r & -> & Hr).
    exists r. split; [done|].
    change (posted (Call NowNanos now :: t ++ t')) with (posted (t ++ t')).
    rewrite router_posted_app. by eapply batch_step.
  - exists r. split; [done|].
    change (posted (Call NowNanos now :: t ++ [])) with (posted (t ++ [])).
    rewrite router_posted_app. by eapply batch_step.
Qed.

Lemma posted_skip {X} (c : ext_call X) x t :
  ext_posted (Call c x) = None → posted (Call c x :: t) = posted t.
Proof. intros H. unfold posted, observe. cbn [omap list_omap]. by rewrite H. Qed.

(** A batch of changes, none of them a subscription: what the handler answers
    and what it posts. *)
Lemma receive_batch header body changes s :
  jindex body "data" = VArray changes →
  Forall (λ c, is_subscription_event c = false) changes →
  under order_ok (receive header body s) (λ t o, ∃ r,
    o = Done (match r with Ok _ => Success | Err e => InternalError e end, s) ∧
    batch_done s changes r (posted t)).
Proof.
  intros Hb Hns. unfold receive_on, ChangeRouter.receive. apply on_ext. intros rt _.
  unfold process_changes. rewrite Hb. cbn [as_array].
  destruct changes as [|c changes].
  - cbn. exists (Ok ()). split; [done|]. exists [], [], [], []. split; [done|].
    by repeat constructor.
  - inversion Hns as [|? ? Hc Hcs]; subst.
    apply under_interp_bind, under_interp_bind.
    eapply under_mono; [done| |by apply process_change_spec].
    intros t o (f & -> & Hf). destruct f as [|r].
    + eapply under_mono; [done| |by apply process_rest_spec].
      intros t' o (r & -> & Hr). destruct r as [[]|e]; [exists (Ok ())|exists (Err e)];
        (split; [done|]); (rewrite posted_skip by done); rewrite app_nil_r, router_posted_app;
        (eapply batch_step; [exact Hf | exact Hr]).
    + destruct r as [[]|e]; [exists (Ok ())|exists (Err e)];
        (split; [done|]); (rewrite posted_skip by done);
        rewrite !app_nil_r, <-(app_nil_r (posted t)); (eapply batch_step; [exact Hf | exact (conj eq_refl eq_refl)]).
Qed.


(** A subscription event that names everything it needs. *)
Definition subscribes (change : value) (n q : string) (node_labels rel_labels : list string) : Prop :=
  let after := jpath change ["payload"; "after"]%string in
  is_subscription_event change = true ∧ op_is change "i" = true ∧
  as_str (jindex after "queryNodeId") = Some n ∧ as_str (jindex after "queryId") = Some q ∧
  labels_at after ["nodeLabels"%string] = Some node_labels ∧
  labels_at after ["relLabels"%string] = Some rel_labels.

Definition registered (s : Subscribers) (n q : string) (node_labels rel_labels : list string) : Prop :=
  (∀ l, l ∈ node_labels → has (node_subs s) l (text n q)) ∧
  (∀ l, l ∈ rel_labels → has (rel_subs s) l (text n q)).

Lemma registered_grows s s' n q nls rls :
  grows s s' → registered s n q nls rls → registered s' n q nls rls.
Proof. intros Hg [Hn Hr]. split; intros l Hl; [apply (Hg Nodes), Hn, Hl | apply (Hg Rels), Hr, Hl]. Qed.

Lemma subscribe_registers G header body change n q nls rls s :
  jindex body "data" = VArray [change] → subscribes change n q nls rls →
  under G (receive header body s) (λ _ o, ∀ r s', o = Done (r, s') → registered s' n q nls rls).
Proof.
  intros Hb (Hsub & Hi & Hn & Hq & Hnl & Hrl).
  unfold receive_on, ChangeRouter.receive. apply on_ext. intros rt _.
  unfold process_changes. rewrite Hb. cbn [as_array].
  apply under_interp_bind, under_interp_bind. apply on_ext. intros id _. rewrite Hsub, Hi.
  unfold on_subscribe. rewrite Hnl, Hn, Hq.
  apply under_interp_call. cbn [on_state subscriber_method under mret prog_ret].
  rewrite Hrl. apply under_interp_call. cbn [on_state subscriber_method under mret prog_ret].
  apply under_interp_bind, on_ext_prog.
  eapply under_mono; [done| |apply under_true]. intros t [r|w] _; [|done]. cbn.
  destruct r as [[]|e]; intros ? ? [= _ <-]; split; intros l Hl; cbn;
    apply has_add_labels; by left.
Qed.

(** Requests served one after the other. *)
Fixpoint serve (requests : list (option string * value)) (s : Subscribers)
    : prog ext_call (list router_response * Subscribers) :=
  match requests with
  | [] => mret ([], s)
  | (header, body) :: requests =>
      '(r, s) ← receive header body s;
      '(rs, s) ← serve requests s;
      mret (r :: rs, s)
  end.

Lemma serve_grows G requests s :
  under G (serve requests s) (λ _ o, ∀ rs s', o = Done (rs, s') → grows s s').
Proof.
  revert s. induction requests as [|[header body] requests IH]; intros s; cbn [serve].
  { by intros ?? [= _ <-]. }
  apply under_bind. eapply under_mono; [done| |apply receive_grows].
  intros t [[r s1]|w] H; [|done]. apply under_bind. eapply under_mono; [done| |apply IH].
  intros t' [[rs s2]|w] H'; [|done]. intros ?? [= _ <-]. etrans; [by eapply H | by eapply H'].
Qed.

Lemma parse_subscription_text n q :
  json_parse (text n q) = Ok (subscriber_json n q) →
  parse_subscription json_parse (text n q) = subscriber_json n q.
Proof. unfold parse_subscription. by intros ->. Qed.

(** The labels a query is registered for, of one kind of element. *)
Definition labels_of (k : kind) (nls rls : list string) : list string :=
  match k with Nodes => nls | Rels => rls end.

(** Every label is in the router's map: some query subscribed to it. *)
Definition known (s : Subscribers) (k : kind) (labels : list string) : Prop :=
  ∀ l, l ∈ labels → is_Some (label_map (subs_of k s) !! l).

Lemma registered_has s n q nls rls k l :
  registered s n q nls rls → l ∈ labels_of k nls rls → has (subs_of k s) l (text n q).
Proof. intros [Hn Hr] Hl. destruct k; auto. Qed.

Lemma registered_known s n q nls rls k labels :
  registered s n q nls rls → labels ⊆ labels_of k nls rls → known s k labels.
Proof.
  intros Hreg Hsub l Hl. destruct (registered_has s n q nls rls k l Hreg (Hsub l Hl)) as (set & -> & _).
  by eexists.
Qed.

(** A query registered for one of the labels is among those a change is routed to
    when all its labels are known. *)
Lemma known_routes s n q nls rls change k labels path l :
  registered s n q nls rls → change_kind change = Some k → labels_path change = Some path →
  labels_at change path = Some labels → known s k labels →
  l ∈ labels → l ∈ labels_of k nls rls →
  ∃ texts, routes s change = Some texts ∧ text n q ∈ texts.
Proof.
  intros Hreg Hk Hp Hl Hknown Hin Hmine. unfold routes.
  rewrite Hk. cbn. rewrite Hp. cbn. rewrite Hl. cbn.
  destruct (subscribers_of_known (subs_of k s) labels Hknown) as [texts Ht].
  exists texts. split; [done|]. eapply subscribers_of_has; [exact Ht | exact Hin |].
  by eapply registered_has.
Qed.

Lemma registered_routes s n q nls rls change labels path :
  registered s n q nls rls → labels ≠ [] → labels_path change = Some path →
  labels_at change path = Some labels →
  (change_kind change = Some Nodes ∧ labels ⊆ nls ∨ change_kind change = Some Rels ∧ labels ⊆ rls) →
  ∃ texts, routes s change = Some texts ∧ text n q ∈ texts.
Proof.
  intros Hreg Hne Hp Hl Hk.
  assert (∃ k, change_kind change = Some k ∧ labels ⊆ labels_of k nls rls) as (k & Hk' & Hsub)
    by (destruct Hk as [[Hk H]|[Hk H]]; [by exists Nodes | by exists Rels]).
  destruct labels as [|l labels]; [done|].
  eapply known_routes; [done..| by eapply registered_known | left | apply Hsub; left].
Qed.

(** Once a query has subscribed to labels, whatever else the router is
    asked in the meantime, a later change of an element all of whose labels the
    query subscribed to is dispatched to it: if the request that carries the
    change succeeds, exactly one event was published for it, its payload is the
    change's, and the query with its container is among its subscriptions. *)
Theorem subscribed_changes_dispatched h1 b1 sub n q nls rls between h2 b2 change path labels s :
  json_parse (text n q) = Ok (subscriber_json n q) →
  jindex b1 "data" = VArray [sub] → subscribes sub n q nls rls →
  jindex b2 "data" = VArray [change] → is_subscription_event change = false →
  labels_path change = Some path → labels_at change path = Some labels → labels ≠ [] →
  (change_kind change = Some Nodes ∧ labels ⊆ nls ∨ change_kind change = Some Rels ∧ labels ⊆ rls) →
  under order_ok (receive h1 b1 s) (λ _ o, ∀ r1 s1, o = Done (r1, s1) →
    under order_ok (serve between s1) (λ _ o, ∀ rs s2, o = Done (rs, s2) →
      under order_ok (receive h2 b2 s2) (λ t o, ∀ s3, o = Done (Success, s3) →
        ∃ id subs ts start end_,
          posted t = [(publish_url publisher, PJson (change_dispatch_event json_parse
            (cr_source_id config) change id subs ts start end_), true)] ∧
          subscriber_json n q ∈ map (parse_subscription json_parse) subs))).
Proof.
  intros Hj Hb1 Hsub Hb2 Hns Hp Hl Hne Hk.
  eapply under_mono; [done| |by eapply subscribe_registers].
  intros _ o Ho r1 s1 ->. specialize (Ho _ _ eq_refl).
  eapply under_mono; [done| |apply serve_grows].
  intros _ o Hg rs s2 ->. specialize (Hg _ _ eq_refl).
  eapply under_mono; [done| |apply (receive_batch _ _ [change]); [done|by constructor]].
  intros t o (r & -> & Hbatch) s3 Heq.
  destruct r as [[]|e]; [|done].
  destruct Hbatch as (d & rest & acc & ref & Hd & Hpost & Hacc & -> & ->).
  rewrite app_nil_r in *. subst d. rewrite Hpost.
  destruct (registered_routes s2 n q nls rls change labels path) as (texts & Hr & Htexts);
    [by eapply registered_grows|done..|].
  rewrite filter_cons, decide_True in Hacc by (by eexists).
  inversion Hacc as [|? p ? acc' Hdis Hnil]; subst. inversion Hnil; subst.
  destruct Hdis as (texts' & subs & id & ts & start & end_ & Hr' & Hs & Hts & ->).
  rewrite Hr in Hr'. injection Hr' as <-.
  eexists id, subs, ts, start, end_. split; [done|].
  rewrite <-(parse_subscription_text n q Hj). apply list_elem_of_fmap_2. by rewrite Hs.
Qed.
Lemma subscribers_of_unknown m labels l :
  l ∈ labels → label_map m !! l = None → subscribers_of m labels = None.
Proof.
  intros Hl Hn. induction labels as [|l' labels IH]; [by apply elem_of_nil in Hl|]. cbn.
  apply elem_of_cons in Hl as [->|Hl]; [by rewrite Hn|].
  destruct (label_map m !! l') as [set|]; [|done]. cbn. by rewrite IH.
Qed.

(** A change of an element that has, besides labels queries subscribed to,
    one label nobody ever subscribed to is answered with success and reaches no
    query at all. *)
Theorem unknown_label_hides_change header body change k path labels l s :
  jindex body "data" = VArray [change] → is_subscription_event change = false →
  change_kind change = Some k → labels_path change = Some path →
  labels_at change path = Some labels → l ∈ labels →
  label_map (subs_of k s) !! l = None →
  under order_ok (receive header body s) (λ t o, o = Done (Success, s) ∧ posted t = []).
Proof.
  intros Hb Hns Hk Hp Hl Hin Hnone.
  assert (routes s change = None) as Hr.
  { unfold routes. rewrite Hk. cbn. rewrite Hp. cbn. rewrite Hl. cbn.
    by eapply subscribers_of_unknown. }
  eapply under_mono; [done| |apply (receive_batch _ _ [change]); [done|by constructor]].
  intros t o (r & -> & d & rest & acc & ref & Hd & Hpost & Hacc & Hend).
  rewrite Hd in *. destruct r as [[]|e].
  - destruct Hend as [-> ->]. rewrite app_nil_r in Hd. subst d. rewrite Hpost.
    rewrite filter_cons, Hr, decide_False in Hacc by (by intros []).
    inversion Hacc; subst. done.
  - destruct Hend as (c & rest' & -> & [texts Hc] & _).
    destruct d as [|c' [|]]; cbn in Hd; [|done..]. injection Hd as <- <-. by rewrite Hr in Hc.
Qed.
(** The keys a trace asks the state store to delete. *)
Definition deleted_of (c : call ext_call) : option string :=
  match c with
  | @Call _ X e _ => match e with DaprDeleteState store key => Some key | _ => None end
  end.

(** An unsubscription deletes the subscription's document from the state
    store, and nothing else happens: the query stays registered in memory, and
    its changes are still dispatched to it until the router restarts. *)
Theorem unsubscribed_query_stays_registered header body change n q nls rls s :
  jindex body "data" = VArray [change] → is_subscription_event change = true →
  op_is change "i" = false → op_is change "d" = true →
  as_str (jindex (jpath change ["payload"; "before"]%string) "queryNodeId") = Some n →
  as_str (jindex (jpath change ["payload"; "before"]%string) "queryId") = Some q →
  registered s n q nls rls →
  always (receive header body s) (λ t o, ∀ r s', o = Done (r, s') →
    registered s' n q nls rls ∧ observe deleted_of t = [state_key n q] ∧ posted t = []).
Proof.
  intros Hb Hsub Hi Hd Hn Hq Hreg. unfold receive_on, ChangeRouter.receive.
  apply on_ext. intros rt _. unfold process_changes. rewrite Hb. cbn [as_array].
  apply under_interp_bind, under_interp_bind. apply on_ext. intros id _. rewrite Hsub, Hi, Hd.
  unfold on_unsubscribe. rewrite Hn, Hq. apply under_interp_bind, on_ext_prog.
  intros [[]|e] _; [|done]. intros [[]|e] _; cbn; by intros ?? [= _ <-].
Qed.
End requests.

(** ** Restarts *)

(** The subscription a stored document stands for. *)
Definition labels_key (k : kind) : string :=
  match k with Nodes => "nodeLabels" | Rels => "relLabels" end.

Definition names (k : kind) (v : value) (label t : string) : Prop :=
  ∃ n q, as_str (jindex v "queryNodeId") = Some n ∧ as_str (jindex v "queryId") = Some q ∧
    label ∈ default [] (labels_at v [labels_key k]) ∧ t = text n q.

Lemma load_subscription_has k s v l t :
  has (subs_of k (load_subscription json_text s v)) l t ↔ has (subs_of k s) l t ∨ names k v l t.
Proof.
  unfold load_subscription, names.
  destruct (as_str (jindex v "queryNodeId")) as [n|], (as_str (jindex v "queryId")) as [q|];
    [|naive_solver..].
  destruct k; cbn -[labels_at]; rewrite has_add_labels; naive_solver.
Qed.

Lemma load_has k s vs l t :
  has (subs_of k (foldl (load_subscription json_text) s vs)) l t ↔
  has (subs_of k s) l t ∨ ∃ v, v ∈ vs ∧ names k v l t.
Proof.
  revert s. induction vs as [|v vs IH]; intros s; cbn.
  { split; [by left|]. intros [?|(v & []%elem_of_nil & _)]. done. }
  rewrite IH, load_subscription_has. setoid_rewrite elem_of_cons. naive_solver.
Qed.

(** The document a call saves, and the calls that may change the store. *)
Definition saves (sm : DaprStateManager) {X} (e : ext_call X) (key : string) (v : value) : Prop :=
  match e with
  | XHttp (HttpPost url _ body) => url = save_url sm ∧ ∃ entries,
      body = PJson (VArray (map entry_json entries)) ∧ mkEntry key v ∈ entries
  | _ => False
  end.

Definition writes (sm : DaprStateManager) {X} (e : ext_call X) : Prop :=
  match e with
  | XHttp (HttpPost url _ _) => url = save_url sm
  | DaprDeleteState _ _ => True
  | _ => False
  end.

(** The state store behind the sidecar, by key. *)
Class StateStore (W : Type) (sm : DaprStateManager) := {
  ext_handler : ∀ X, ext_call X → W → X * W;
  stored : W → gmap string value;
  law_quiet X (e : ext_call X) w : ¬ writes sm e → stored (ext_handler X e w).2 = stored w;
  law_keep X (e : ext_call X) w key v :
    stored (ext_handler X e w).2 !! key = Some v → stored w !! key = Some v ∨ saves sm e key v;
  law_save hs key v w resp :
    let e := XHttp (HttpPost (save_url sm) hs (PJson (VArray [entry_json (mkEntry key v)]))) in
    (ext_handler _ e w).1 = Ok resp → is_success (hr_status resp) = true →
    stored (ext_handler _ e w).2 !! key = Some v;
  law_query condition metadata w items :
    (ext_handler _ (DaprQueryState (sm_store sm) condition metadata) w).1 = Ok items →
    parse_results json_parse items ≡ₚ (map_to_list (stored w)).*2;
  law_order s w : (ext_handler _ (IterSet s) w).1 ≡ₚ elements s;
}.

(** What was saved is what a client subscribed to: the labels are in memory. *)
Definition backed (s : Subscribers) (v : value) : Prop :=
  ∀ k l t, names k v l t → has (subs_of k s) l t.

Definition saves_call (sm : DaprStateManager) (c : call ext_call) (key : string) (v : value) : Prop :=
  match c with @Call _ X e _ => saves sm e key v end.
Definition writes_call (sm : DaprStateManager) (c : call ext_call) : Prop :=
  match c with @Call _ X e _ => writes sm e end.

Lemma backed_grows s s' v : grows s s' → backed s v → backed s' v.
Proof. intros Hg Hb k l t Ht. by apply Hg, Hb. Qed.

Section store.
Context {W : Type} (sm : DaprStateManager) `{!StateStore W sm}.

Lemma run_stored {A} (p : prog ext_call A) w key v :
  let '(_, w', t) := run ext_handler p w in
  stored w' !! key = Some v → stored w !! key = Some v ∨ Exists (λ c, saves_call sm c key v) t.
Proof.
  revert w. induction p as [a|why|X e k IH]; intros w; cbn; [by left..|].
  specialize (IH (ext_handler X e w).1 (ext_handler X e w).2).
  pose proof (law_keep X e w key v) as Hk.
  destruct (ext_handler X e w) as [x w1]. cbn in *.
  destruct (run ext_handler (k x) w1) as [[o w2] t]. intros Hw.
  destruct (IH Hw) as [Hw1|He]; [|right; by right].
  destruct (Hk Hw1) as [?|?]; [by left | right; by left].
Qed.

Lemma run_quiet {A} (p : prog ext_call A) w :
  let '(_, w', t) := run ext_handler p w in
  Forall (λ c, ¬ writes_call sm c) t → stored w' = stored w.
Proof.
  revert w. induction p as [a|why|X e k IH]; intros w; cbn; [done..|].
  specialize (IH (ext_handler X e w).1 (ext_handler X e w).2).
  pose proof (law_quiet X e w) as Hq.
  destruct (ext_handler X e w) as [x w1]. cbn in *.
  destruct (run ext_handler (k x) w1) as [[o w2] t]. intros Ht.
  inversion Ht; subst. rewrite IH by done. by apply Hq.
Qed.
End store.

(** What a request saves is backed by what it leaves in memory. *)
Section backed.
Context (config : ChangeRouterConfig) (publisher : DaprHttpPublisher) (sm : DaprStateManager).
Hypothesis same_sidecar : dp_host publisher = sm_host sm ∧ dp_port publisher = sm_port sm.

Definition backed_call (s : Subscribers) (c : call ext_call) : Prop :=
  ∀ key v, saves_call sm c key v → backed s v.

Definition safe {A} (s : Subscribers) (t : list (call ext_call)) (o : outcome (A * Subscribers)) : Prop :=
  ∀ a s', o = Done (a, s') → grows s s' ∧ Forall (backed_call s') t.

Lemma backed_call_grows s s' c : grows s s' → backed_call s c → backed_call s' c.
Proof. intros Hg Hc key v Hs. eapply backed_grows; [done | by eapply Hc]. Qed.

Lemma safe_bind {A B} G (p : prog router_call A) (f : A → prog router_call B) s :
  under G (on p s) (safe s) → (∀ a s', grows s s' → under G (on (f a) s') (safe s')) →
  under G (on (p ≫= f) s) (safe s).
Proof.
  intros Hp Hf. apply under_interp_bind. eapply under_mono; [done| |exact Hp].
  intros t [[a s1]|w] Ht; [|done]. destruct (Ht a s1 eq_refl) as [Hg Hts].
  eapply under_mono; [done| |by apply Hf]. intros t' o Ho b s2 ->.
  destruct (Ho b s2 eq_refl) as [Hg' Hts']. split; [by etrans|].
  apply Forall_app. split; [|done]. eapply Forall_impl; [|exact Hts].
  intros c. by apply backed_call_grows.
Qed.

Lemma safe_ret {A} G (a : A) s : under G (on (mret a) s) (safe s).
Proof. intros ?? [= _ <-]. done. Qed.

Lemma safe_sub {X} G k (c : sub_call X) s : under G (on (trigger (RSub k c)) s) (safe s).
Proof.
  apply under_bind. eapply under_mono; [done| |apply under_conj;
    [apply (on_state_grows G X (RSub k c) s) | ]].
  2:{ instantiate (1 := λ t _, Forall (λ d, ∀ key v, ¬ saves_call sm d key v) t).
    destruct c as [labels n q|labels]; cbn; [constructor|].
    apply under_bind. generalize (@nil string). revert s.
    induction labels as [|l labels IH]; intros s acc; [cbn; constructor|].
    cbn. destruct (label_map (subs_of k s) !! l); [|cbn; constructor].
    apply under_call. intros x _. eapply under_mono; [done| |apply IH].
    intros t [a|w] Ht; cbn in *; constructor; auto. }
  intros t [[x s']|w] [Hg Ht]; [|done]. intros ?? [= <- <-].
  split; [by eapply Hg|]. rewrite app_nil_r. eapply Forall_impl; [|exact Ht].
  intros d Hd key v Hs. by destruct (Hd key v).
Qed.

Lemma safe_ext {X} G (c : ext_call X) s :
  (∀ key v, ¬ saves sm c key v) → under G (on (ext c) s) (safe s).
Proof.
  intros Hc x _ ?? [= _ <-]. split; [done|]. constructor; [|constructor].
  intros key v Hs. by destruct (Hc key v).
Qed.

Lemma urls_differ : publish_url publisher ≠ save_url sm.
Proof.
  destruct same_sidecar as [Hh Hp]. unfold publish_url, save_url. rewrite Hh, Hp.
  intros H. by do 4 apply str_app_inj in H.
Qed.

Lemma safe_publish G start subs change id traceparent s :
  under G (on (publish_change json_parse show_status config publisher traceparent change id start subs) s)
    (safe s).
Proof.
  unfold publish_change. destruct (as_u64_num _); [|apply safe_ret].
  apply safe_bind; [apply safe_ext; intros ?? []|]. intros end_ s1 _.
  apply safe_bind.
  - apply on_ext_prog, under_translate. intros x _. cbn.
    destruct x as [resp|e]; [destruct (is_success _)|]; cbn; intros ?? [= _ <-];
      (split; [done|]); (constructor; [|constructor]); intros ?? [Hu _]; by destruct urls_differ.
  - intros [[]|e] s2 _; apply safe_ret.
Qed.

Lemma entry_json_inj e e' : entry_json e = entry_json e' → e = e'.
Proof. destruct e, e'. by intros [= -> ->]. Qed.

Lemma safe_subscribe change s G : under G (on (on_subscribe show_status sm change) s) (safe s).
Proof.
  unfold on_subscribe. set (after := jpath change _).
  destruct (labels_at after ["nodeLabels"%string]) as [nls|] eqn:Hn; [|apply safe_ret].
  destruct (as_str (jindex after "queryNodeId")) as [n|] eqn:Hi; [|apply safe_ret].
  destruct (as_str (jindex after "queryId")) as [q|] eqn:Hq; [|apply safe_ret].
  apply under_interp_call. cbn [on_state subscriber_method under mret prog_ret].
  destruct (labels_at after ["relLabels"%string]) as [rls|] eqn:Hr.
  2:{ intros ?? [= _ <-]. split; [|constructor]. intros k l t.
      destruct k; cbn; rewrite ?has_add_labels; auto. }
  apply under_interp_call. cbn [on_state subscriber_method under mret prog_ret].
  set (s2 := set_subs Rels _ _).
  assert (grows s s2) as Hg.
  { intros k l t. destruct k; cbn; rewrite ?has_add_labels; auto. }
  assert (backed s2 (source_subscription_value after)) as Hb.
  { intros k l t (n' & q' & Hn' & Hq' & Hl & ->).
    change (as_str (jindex after "queryNodeId") = Some n') in Hn'.
    change (as_str (jindex after "queryId") = Some q') in Hq'.
    destruct k; cbn [subs_of s2 set_subs node_subs rel_subs] in *; apply has_add_labels; left.
    - change (l ∈ default [] (labels_at after ["nodeLabels"%string])) in Hl.
      rewrite Hn in Hl. by simplify_eq.
    - change (l ∈ default [] (labels_at after ["relLabels"%string])) in Hl.
      rewrite Hr in Hl. by simplify_eq. }
  apply under_interp_bind, on_ext_prog. intros x _. cbn [app].
  assert (∀ (r : flow), safe s [Call (XHttp (HttpPost (save_url sm)
    [("content-type", "application/json")]%string (PJson (VArray (map entry_json
      [mkEntry (state_key n q) (source_subscription_value after)]))))) x] (Done (r, s2))) as Hs.
  { intros r ? ? [= <- <-]. split; [done|]. constructor; [|constructor].
    intros key v (_ & entries & He & Hin). injection He as He.
    destruct entries as [|e [|]]; [done| |done]. injection He as He1 He2.
    apply list_elem_of_singleton in Hin. subst e. cbn in He2. by subst v. }
  destruct x as [resp|e]; cbn; [destruct (is_success (hr_status resp))|]; cbn; apply Hs.
Qed.

Lemma safe_unsubscribe change s G : under G (on (on_unsubscribe sm change) s) (safe s).
Proof.
  unfold on_unsubscribe.
  destruct (as_str _) as [n|]; [|apply safe_ret].
  destruct (as_str _) as [q|]; [|apply safe_ret].
  apply safe_bind; [|intros; apply safe_ret].
  apply on_ext_prog. intros [[]|e] _; cbn; [|done].
  intros x _ ?? [= _ <-]. split; [done|]. cbn.
  do 2 (constructor; [by intros ?? []|]). constructor.
Qed.

Lemma safe_subscriptions_of change s G : under G (on (subscriptions_of change) s) (safe s).
Proof.
  unfold subscriptions_of, find_subscribers.
  destruct (is_str _ "node"); [|destruct (is_str _ "rel"); [|apply safe_ret]].
  all: destruct (labels_path change); [|apply safe_ret].
  all: destruct (labels_at change _); [|apply safe_ret].
  all: apply safe_bind; [apply safe_sub | intros; apply safe_ret].
Qed.

Lemma safe_process start traceparent change s G :
  under G (on (process_change json_parse show_status config publisher sm traceparent start change) s)
    (safe s).
Proof.
  unfold process_change. apply safe_bind; [apply safe_ext; intros ?? []|]. intros id s1 _.
  destruct (is_subscription_event change).
  - destruct (op_is change "i"); [apply safe_subscribe|].
    destruct (op_is change "d"); [apply safe_unsubscribe | apply safe_ret].
  - apply safe_bind; [apply safe_subscriptions_of|].
    intros [[subs|]|] s2 _; [apply safe_publish|apply safe_ret..].
Qed.

Lemma safe_rest traceparent changes s G :
  under G (on (process_rest json_parse show_status config publisher sm traceparent changes) s)
    (safe s).
Proof.
  revert s. induction changes as [|c changes IH]; intros s; [apply safe_ret|]. cbn [process_rest].
  apply safe_bind; [apply safe_ext; intros ?? []|]. intros now s1 _.
  apply safe_bind; [apply safe_process|]. intros [|r] s2 _; [apply IH | apply safe_ret].
Qed.

Lemma safe_receive header body s G :
  under G (receive_on json_text json_parse show_status config publisher sm header body s) (safe s).
Proof.
  unfold receive_on, receive. apply safe_bind; [apply safe_ext; intros ?? []|]. intros rt s1 _.
  apply safe_bind; [|intros [[]|e] s2 _; apply safe_ret]. unfold process_changes.
  destruct (as_array _) as [[|c changes]|]; [apply safe_ret| |apply safe_ret].
  apply safe_bind; [apply safe_process|]. intros [|r] s2 _; [apply safe_rest | apply safe_ret].
Qed.

Lemma safe_serve requests s G :
  under G (serve config publisher sm requests s) (safe s).
Proof.
  revert s. induction requests as [|[header body] requests IH]; intros s; [apply safe_ret|].
  cbn [serve]. apply under_bind. eapply under_mono; [done| |apply safe_receive].
  intros t [[r s1]|w] Ht; [|done]. destruct (Ht r s1 eq_refl) as [Hg Hts].
  apply under_bind. eapply under_mono; [done| |apply IH].
  intros t' [[rs s2]|w] Ht'; [|done]. destruct (Ht' rs s2 eq_refl) as [Hg' Hts'].
  intros ?? [= _ <-]. split; [by etrans|]. rewrite app_nil_r.
  apply Forall_app. split; [|done]. eapply Forall_impl; [|exact Hts].
  intros c. by apply backed_call_grows.
Qed.
End backed.

(** ** The start of the service *)

(** A health check at a time, and never more than ten. *)
Definition health_checks (t : list (call http_call)) : list bool :=
  observe (λ c, match c with
    | @Call _ X e x =>
        match e in http_call X return X → option bool with
        | HttpGet _ => λ r, Some match r with
            | Ok resp => is_success (hr_status resp) | Err _ => false end
        | _ => λ _, None
        end x
    end) t.

Lemma wait_attempts_checks fuel port attempt :
  (0 ≤ attempt)%Z → Z.of_nat fuel = (10 - attempt)%Z → (0 < fuel)%nat →
  always (wait_attempts fuel port attempt) (λ t o, ∃ failed,
    (health_checks t = replicate failed false ++ [true] ∧ (failed < fuel)%nat ∧ o = Done (Ok ())) ∨
    (health_checks t = replicate fuel false ∧ ∃ e, o = Done (Err e))).
Proof.
  revert attempt. induction fuel as [|fuel IH]; intros attempt H0 Hf Hpos; [lia|].
  cbn [wait_attempts]. apply under_call. intros r _.
  assert (∀ t, health_checks (Call (HttpGet ("http://localhost:" +:+ show_unsigned port +:+
    "/v1.0/healthz/outbound")) r :: t) =
    match r with Ok resp => is_success (hr_status resp) | Err _ => false end :: health_checks t) as Hc
    by done.
  destruct (match r with Ok resp => is_success (hr_status resp) | Err _ => false end) eqn:E.
  { exists O. left. rewrite Hc. split; [done|]. split; [lia|done]. }
  destruct (10 <=? attempt + 1)%Z eqn:Ht.
  - exists O. right. rewrite Hc. assert (fuel = O) as -> by lia. split; [done|]. by eexists.
  - apply under_call. intros u _. eapply under_mono; [done| |apply (IH (attempt + 1)%Z); lia].
    intros t o [failed [(Hh & Hl & ->)|(Hh & He)]].
    + exists (S failed). left. rewrite Hc. cbn. rewrite <-Hh. split; [done|]. split; [lia|done].
    + exists O. right. rewrite Hc. cbn. by rewrite <-Hh.
Qed.

(** Waiting for the sidecar always ends: after a successful health check,
    which is then the last one and comes after at most nine failed ones, with
    success, and otherwise, after exactly ten failed checks, with an error. *)
Theorem wait_for_dapr_bounded port :
  always (wait_for_dapr_start port) (λ t o,
    (∃ failed, health_checks t = replicate failed false ++ [true] ∧ (failed < 10)%nat ∧
       o = Done (Ok ())) ∨
    (health_checks t = replicate 10 false ∧ ∃ e, o = Done (Err e))).
Proof.
  eapply under_mono; [done| |apply wait_attempts_checks; [done|done|lia]].
  intros t o [failed [H|H]]; [left; by exists failed | by right].
Qed.

Definition is_query (X : Type) (e : ext_call X) : bool :=
  match e with DaprQueryState _ _ _ => true | _ => false end.

(** The start reads the stored documents once, and changes nothing. *)
Lemma start_loads G config :
  under G (start json_text json_parse config) (λ t o, ∀ s p sm, o = Done (Ok (s, p, sm)) →
    dp_host p = sm_host sm ∧ dp_port p = sm_port sm ∧ sm_store sm = cr_subscriber_store config ∧
    ∃ t0 x, t = t0 ++ [Call (DaprQueryState (sm_store sm) query_condition
        [("contentType", "application/json")]%string) x] ∧
      Forall (λ c, ∀ m, ¬ writes_call m c) t0 ∧
      s = foldl (load_subscription json_text) no_subscribers
        (match x with Ok items => parse_results json_parse items | Err _ => [] end)).
Proof.
  unfold start. destruct (parse_u16 _) as [port|]; [|done].
  apply under_bind, under_translate.
  assert (∀ fuel attempt, under (λ c, G (translate_call (λ X c, XHttp c) c))
    (wait_attempts fuel port attempt)
    (λ t _, Forall (λ c, ∀ m, ¬ writes_call m c) (map (translate_call (λ X c, XHttp c)) t))) as Hw.
  { induction fuel as [|fuel IH]; intros attempt; [constructor|]. cbn [wait_attempts].
    apply under_call. intros r _.
    destruct (match r with Ok resp => is_success (hr_status resp) | Err _ => false end);
      [constructor; [by intros ? []|constructor]|].
    destruct (10 <=? attempt + 1)%Z; [constructor; [by intros ? []|constructor]|].
    apply under_call. intros u _. eapply under_mono; [| |apply IH]; [done|].
    intros t o Ht. do 2 (constructor; [by intros ? []|]). done. }
  eapply under_mono; [| |apply Hw]; [done|]. intros t [[[]|e]|w] Ht; [|done..].
  apply under_bind. intros [[]|e] _; [|done]. intros x _ s p sm. cbn.
  intros [= <- <- <-]. do 3 (split; [done|]). eexists _, x.
  split.
  { cbn. by rewrite (cons_middle _ _ [_]), (assoc_L (++)). }
  split; [|by destruct x].
  apply Forall_app. split; [done|]. constructor; [by intros ? []|constructor].
Qed.

(** The invariant of the running router: what is stored is also in memory. *)
Definition consistent {W} (sm : DaprStateManager) `{!StateStore W sm} (s : Subscribers) (w : W) : Prop :=
  ∀ key v, stored w !! key = Some v → backed s v.

Lemma serve_consistent {W} config publisher sm `{!StateStore W sm} requests s w :
  dp_host publisher = sm_host sm ∧ dp_port publisher = sm_port sm → consistent sm s w →
  let '(o, w', _) := run ext_handler (serve config publisher sm requests s) w in
  ∀ rs s', o = Done (rs, s') → grows s s' ∧ consistent sm s' w'.
Proof.
  intros Hd Hc.
  pose proof (always_run ext_handler _ _ w (safe_serve config publisher sm Hd requests s anything)) as Hs.
  pose proof (λ key v, run_stored sm (serve config publisher sm requests s) w key v) as Hk.
  destruct (run ext_handler (serve config publisher sm requests s) w) as [[o w'] t].
  intros rs s' ->. destruct (Hs rs s' eq_refl) as [Hg Ht]. split; [done|].
  intros key v Hv. destruct (Hk key v Hv) as [Hw|He]; [eapply backed_grows; [exact Hg | by eapply Hc]|].
  apply list.Exists_exists in He as (c & Hin & Hcs).
  rewrite list.Forall_forall in Ht. exact (Ht c Hin key v Hcs).
Qed.

(** A call made after others that do not write finds what was stored. *)
Lemma run_answered {W} sm `{!StateStore W sm} {A} (p : prog ext_call A) w :
  let '(_, _, t) := run ext_handler p w in
  ∀ i c, t !! i = Some c → Forall (λ c, ¬ writes_call sm c) (take i t) →
    ∃ w0, stored w0 = stored w ∧ match c with @Call _ X e x => x = (ext_handler X e w0).1 end.
Proof.
  revert w. induction p as [a|why|X e k IH]; intros w; cbn; [done..|].
  specialize (IH (ext_handler X e w).1 (ext_handler X e w).2).
  pose proof (law_quiet X e w) as Hq. destruct (ext_handler X e w) as [x w1] eqn:E. cbn in *.
  destruct (run ext_handler (k x) w1) as [[o w2] t].
  intros [|i] c Hc Ht; cbn in *; [injection Hc as <-; exists w; by rewrite E|].
  inversion Ht; subst. destruct (IH i c Hc) as (w0 & Hw0 & Ha); [done|].
  exists w0. split; [|done]. rewrite Hw0. by apply Hq.
Qed.

Definition query_failed (sm : DaprStateManager) (t : list (call ext_call)) : Prop :=
  ∃ e, Call (DaprQueryState (sm_store sm) query_condition
    [("contentType", "application/json")]%string) (Err e) ∈ t.

Lemma start_restores {W} sm `{!StateStore W sm} config w :
  let '(o, _, t) := run ext_handler (start json_text json_parse config) w in
  ∀ s p sm', o = Done (Ok (s, p, sm')) → sm_store sm' = sm_store sm →
    query_failed sm t ∧ s = no_subscribers ∨
    ∀ k l txt, has (subs_of k s) l txt ↔ ∃ key v, stored w !! key = Some v ∧ names k v l txt.
Proof.
  pose proof (always_run ext_handler _ _ w (start_loads anything config)) as Hl.
  pose proof (run_answered sm (start json_text json_parse config) w) as Ha.
  destruct (run ext_handler (start json_text json_parse config) w) as [[o w'] t].
  intros s p sm' -> Hstore. destruct (Hl _ _ _ eq_refl) as (_ & _ & _ & t0 & x & -> & Ht0 & ->).
  rewrite Hstore in *. destruct (Ha (length t0) _ (list_lookup_middle t0 [] _ _ eq_refl))
    as (w0 & Hw0 & Hx).
  { rewrite take_app_length. eapply Forall_impl; [|exact Ht0]. auto. }
  destruct x as [items|e].
  - right. intros k l txt. rewrite load_has.
    pose proof (law_query _ _ _ _ (eq_sym Hx)) as Hperm. rewrite Hw0 in Hperm.
    setoid_rewrite (elem_of_Permutation_proper _ _ _ Hperm).
    split.
    + intros [(set & Hset & _)|(v & Hv & Hn)]; [by destruct k; cbn in Hset; rewrite lookup_empty in Hset|].
      apply list_elem_of_fmap_1 in Hv as ([key v'] & -> & Hv).
      apply elem_of_map_to_list in Hv. by exists key, v'.
    + intros (key & v & Hv & Hn). right. exists v. split; [|done].
      apply elem_of_map_to_list in Hv. by apply (list_elem_of_fmap_2 snd _ (key, v)).
  - left. split; [|done]. exists e. apply elem_of_app. right. left.
Qed.

(** C39: the subscriptions survive a restart of the router.  Whatever requests it
    served (successful or not) since it was started with nothing stored, a
    restart that completes ends with exactly the subscriptions of the documents
    in the state store, and the router knew all of them before, so it dispatches
    no change it did not dispatch already; only when the store cannot be read
    does it start with none. *)
Theorem restart_restores_subscriptions {W} config publisher sm `{!StateStore W sm} requests w :
  dp_host publisher = sm_host sm → dp_port publisher = sm_port sm → stored w = ∅ →
  let '(o, w1, _) := run ext_handler (serve config publisher sm requests no_subscribers) w in
  ∀ rs s, o = Done (rs, s) →
  let '(o, _, t) := run ext_handler (start json_text json_parse config) w1 in
  ∀ s' p sm', o = Done (Ok (s', p, sm')) → sm_store sm' = sm_store sm →
    grows s' s ∧
    (query_failed sm t ∧ s' = no_subscribers ∨
     ∀ k l txt, has (subs_of k s') l txt ↔
       ∃ key v, stored w1 !! key = Some v ∧ names k v l txt).
Proof.
  intros Hh Hp Hw.
  pose proof (serve_consistent config publisher sm requests no_subscribers w (conj Hh Hp)) as Hs.
  destruct (run ext_handler (serve config publisher sm requests no_subscribers) w) as [[o w1] t1].
  intros rs s ->. destruct (Hs ltac:(by intros key v; rewrite Hw) rs s eq_refl) as [_ Hc].
  pose proof (start_restores sm config w1) as Hr.
  destruct (run ext_handler (start json_text json_parse config) w1) as [[o' w2] t2].
  intros s' p sm' -> Hstore. specialize (Hr _ _ _ eq_refl Hstore). split; [|done].
  intros k l txt Ht. destruct Hr as [[_ ->]|Hr].
  - destruct Ht as (set & Hset & _). destruct k; cbn in Hset; by rewrite lookup_empty in Hset.
  - apply Hr in Ht as (key & v & Hv & Hn). by eapply Hc.
Qed.
End spec.

(** ** Examples *)

Definition obj (l : list (string * value)) : value := VObject (jobject l).

Definition example_after : value := obj [
  ("queryId", VString "q1"); ("queryNodeId", VString "default");
  ("nodeLabels", VArray [VString "Person"]); ("relLabels", VArray [])]%string.

Definition example_sub : value := obj [
  ("op", VString "i");
  ("payload", obj [
    ("source", obj [("db", VString "Drasi"); ("table", VString "SourceSubscription")]);
    ("after", example_after)])]%string.

Definition example_change : value := obj [
  ("op", VString "i");
  ("payload", obj [
    ("source", obj [("db", VString "s"); ("table", VString "node");
      ("lsn", VNumber (NPos 1)); ("ts_ns", VNumber (NPos 5000000))]);
    ("after", obj [("id", VString "1"); ("labels", VArray [VString "Person"])])])]%string.

Definition request (changes : list value) : value := obj [("data", VArray changes)]%string.

Definition example_config : ChangeRouterConfig := 
  mkConfig "s" "drasi-state" "drasi-pubsub" "http://otel-collector:4318" "3000" "3000".
Definition example_publisher : DaprHttpPublisher :=
  mkDaprPublisher "127.0.0.1" 3000 "drasi-pubsub" "s-dispatch".
Definition example_manager : DaprStateManager := mkStateManager "127.0.0.1" 3000 "drasi-state".

(** A text for the two documents that occur. *)
Definition example_text (v : value) : string :=
  if decide (v = subscriber_json "default" "q1") then "subscriber"
  else if decide (v = source_subscription_value example_after) then "subscription" else "?".
Definition example_parse (s : string) : result value string :=
  if decide (s = "subscriber"%string) then Ok (subscriber_json "default" "q1")
  else if decide (s = "subscription"%string) then Ok (source_subscription_value example_after)
  else Err "expected value"%string.

Definition example_subscribers : Subscribers :=
  load_subscription example_text no_subscribers (source_subscription_value example_after).


Lemma subscribed_changes_dispatched_witness :
  under order_ok (receive_on example_text example_parse show_unsigned example_config
      example_publisher example_manager None (request [example_sub]) no_subscribers)
    (λ _ o, ∀ r1 s1, o = Done (r1, s1) →
    under order_ok (serve example_text example_parse show_unsigned example_config
        example_publisher example_manager [] s1) (λ _ o, ∀ rs s2, o = Done (rs, s2) →
      under order_ok (receive_on example_text example_parse show_unsigned example_config
          example_publisher example_manager None (request [example_change]) s2)
        (λ t o, ∀ s3, o = Done (Success, s3) →
        ∃ id subs ts start end_,
          posted t = [(publish_url example_publisher, PJson (change_dispatch_event example_parse
            "s" example_change id subs ts start end_), true)] ∧
          subscriber_json "default" "q1" ∈ map (parse_subscription example_parse) subs))).
Proof.
  apply (subscribed_changes_dispatched example_text example_parse show_unsigned example_config
    example_publisher example_manager None _ example_sub "default" "q1" ["Person"%string] []
    [] None _ example_change ["payload"; "after"; "labels"]%string ["Person"%string]);
    try reflexivity; [repeat split | done | left; split; [reflexivity | done]].
Defined.

Definition example_two_labels : value := obj [
  ("op", VString "i");
  ("payload", obj [
    ("source", obj [("db", VString "s"); ("table", VString "node")]);
    ("after", obj [("labels", VArray [VString "Person"; VString "Employee"])])])]%string.

Lemma unknown_label_hides_change_witness :
  has (node_subs example_subscribers) "Person" "subscriber" ∧
  under order_ok (receive_on example_text example_parse show_unsigned example_config
      example_publisher example_manager None (request [example_two_labels]) example_subscribers)
    (λ t o, o = Done (Success, example_subscribers) ∧ posted t = []).
Proof.
  split; [exists {["subscriber"%string]}; split; [reflexivity | by apply elem_of_singleton]|].
  apply (unknown_label_hides_change example_text example_parse show_unsigned example_config
    example_publisher example_manager None _ example_two_labels Nodes
    ["payload"; "after"; "labels"]%string ["Person"; "Employee"]%string "Employee");
    try reflexivity. right. left.
Defined.

Definition example_unsub : value := obj [
  ("op", VString "d");
  ("payload", obj [
    ("source", obj [("db", VString "Drasi"); ("table", VString "SourceSubscription")]);
    ("before", example_after)])]%string.

Lemma unsubscribed_query_stays_registered_witness :
  always (receive_on example_text example_parse show_unsigned example_config
      example_publisher example_manager None (request [example_unsub]) example_subscribers)
    (λ t o, ∀ r s', o = Done (r, s') →
      registered example_text s' "default" "q1" ["Person"%string] [] ∧
      observe deleted_of t = [state_key "default" "q1"] ∧ posted t = []).
Proof.
  apply (unsubscribed_query_stays_registered example_text example_parse show_unsigned
    example_config example_publisher example_manager None _ example_unsub);
    try reflexivity.
  split; [|by intros l ?%elem_of_nil]. intros l ->%list_elem_of_singleton.
  exists {["subscriber"%string]}. split; [reflexivity | by apply elem_of_singleton].
Defined.

(** A state store in memory: it refuses requests that are not lists of entries,
    and it cannot be read when a document has no text. *)
Definition entry_of (v : value) : option StateEntry :=
  match as_str (jindex v "key") with
  | Some key =>
      let e := mkEntry key (jindex v "value") in if decide (entry_json e = v) then Some e else None
  | None => None
  end.

Definition mem_save (entries : list StateEntry) (w : gmap string value) : gmap string value :=
  foldl (λ w e, <[se_key e := se_value e]> w) w entries.

Definition mem_handler (sm : DaprStateManager) X (e : ext_call X) (w : gmap string value)
    : X * gmap string value :=
  match e in ext_call X return X * _ with
  | XHttp c =>
      match c in http_call X return X * _ with
      | HttpGet _ => (Ok (mkResponse 204 (Ok "") (Ok ""))%string, w)
      | HttpPost url _ body =>
          if decide (url = save_url sm) then
            match body with
            | PJson (VArray l) =>
                match mapM entry_of l with
                | Some entries => (Ok (mkResponse 204 (Ok "") (Ok ""))%string, mem_save entries w)
                | None => (Ok (mkResponse 400 (Ok "") (Ok ""))%string, w)
                end
            | _ => (Ok (mkResponse 400 (Ok "") (Ok ""))%string, w)
            end
          else (Ok (mkResponse 204 (Ok "") (Ok ""))%string, w)
      | SleepSecs _ => ((), w)
      end
  | IterSet s => (elements s, w)
  | NowNanos => (Some 1%Z, w)
  | NewV4 => ("id"%string, w)
  | DaprConnect _ => (Ok (), w)
  | DaprQueryState _ _ _ =>
      let vs := (map_to_list w).*2 in
      (if decide (parse_results example_parse (map example_text vs) = vs)
       then Ok (map example_text vs) else Err "corrupt"%string, w)
  | DaprDeleteState _ key => (Ok (), delete key w)
  end.

Lemma entry_of_json e : entry_of (entry_json e) = Some e.
Proof.
  destruct e as [k v]. unfold entry_of.
  change (as_str (jindex (entry_json (mkEntry k v)) "key")) with (Some k).
  change (jindex (entry_json (mkEntry k v)) "value") with v. cbv beta iota zeta. by rewrite decide_True.
Qed.

Lemma mapM_entry_of l entries : mapM entry_of l = Some entries → l = map entry_json entries.
Proof.
  intros H%mapM_Some. induction H as [|v e l entries He _ IH]; [done|]. cbn. rewrite <-IH.
  f_equal. unfold entry_of in He. destruct (as_str _); [|done].
  by case_decide as E; simplify_eq.
Qed.

Lemma mem_save_lookup entries w key v :
  mem_save entries w !! key = Some v → w !! key = Some v ∨ mkEntry key v ∈ entries.
Proof.
  revert w. induction entries as [|[k x] entries IH]; intros w; cbn; [by left|].
  intros [H|H]%IH; [|right; by right]. destruct (decide (k = key)) as [->|].
  - rewrite lookup_insert_eq in H. injection H as ->. right. left.
  - rewrite lookup_insert_ne in H by done. by left.
Qed.

#[local] Program Instance mem_store sm : StateStore example_parse (gmap string value) sm :=
  {| ext_handler := mem_handler sm; stored := λ w, w |}.
Next Obligation.
  intros sm X [Y [url|url hs body|n]|s| | |a|store cond md|store key] w Hw; try done.
  - cbn in *. by rewrite decide_False.
Qed.
Next Obligation.
  intros sm X [Y [url|url hs body|n]|s| | |a|store cond md|store k] w key v; cbn; try by left.
  - destruct (decide (url = save_url sm)) as [->|]; [|by left].
    destruct body as [|[| | | |l|]|]; try by left. destruct (mapM entry_of l) as [es|] eqn:E; [|by left].
    cbn. intros [?|?]%mem_save_lookup; [by left|]. right. split; [done|].
    exists es. by rewrite (mapM_entry_of l es E).
  - cbn. intros [_ ?]%lookup_delete_Some. by left.
Qed.
Next Obligation.
  intros sm hs key v w resp. cbn -[entry_of entry_json]. rewrite decide_True by done.
  rewrite entry_of_json. cbn. intros _ _. apply lookup_insert_eq.
Qed.
Next Obligation.
  intros sm cond md w items. cbn. case_decide as E; [|done]. intros [= <-]. by rewrite E.
Qed.
Next Obligation. done. Qed.

Notation mem_run p w := (run (ext_handler example_parse (sm := example_manager)) p w).

Lemma restart_restores_subscriptions_witness :
  let '(o, w1, _) := mem_run (serve example_text example_parse show_unsigned
    example_config example_publisher example_manager [(None, request [example_sub])] no_subscribers) ∅ in
  ∀ rs s, o = Done (rs, s) →
  let '(o, _, t) := mem_run (start example_text example_parse example_config) w1 in
  ∀ s' p sm', o = Done (Ok (s', p, sm')) → sm_store sm' = sm_store example_manager →
    grows s' s ∧
    (query_failed example_manager t ∧ s' = no_subscribers ∨
     ∀ k l txt, has (subs_of k s') l txt ↔
       ∃ key v, stored example_parse (sm := example_manager) w1 !! key = Some v ∧
         names example_text k v l txt).
Proof.
  apply (restart_restores_subscriptions example_text example_parse show_unsigned example_config
    example_publisher example_manager [(None, request [example_sub])] (∅ : gmap string value)
    eq_refl eq_refl); vm_compute; reflexivity.
Defined.

(** The restarted router knows the example's subscription. *)
Example example_restart :
  (let '(_, w1, _) := mem_run (serve example_text example_parse show_unsigned
    example_config example_publisher example_manager [(None, request [example_sub])] no_subscribers) ∅ in
   let '(o, _, _) := mem_run (start example_text example_parse example_config) w1 in
   match o with
   | Done (Ok (s', _, _)) => bool_decide (label_map (node_subs s') =
       {["Person" := {["subscriber"]}]}%string)
   | _ => false
   end) = true.
Proof. vm_compute. reflexivity. Qed.
