(* ===== verification/ChangeDispatcher.v ===== *)
(** * ChangeDispatcher: sending a routed change to the query containers
    ([sources/shared/change-dispatcher/src/main.rs]) *)
From S2P Require Import Prelude BTree Json Effects RustText Comms.

Inductive disp_call : Type → Type :=
| DHttp {X} (c : http_call X) : disp_call X
| DIterSet (s : gset string) : disp_call (list string)
| DNowNanos : disp_call (option Z).

Section dispatcher.
Context (show_status : Z → string) (debug_str : string → string).
Context (header_name header_value : string → result string string).
Context (invoker : DaprHttpInvoker) (traceparent : string).

Notation P := (prog disp_call).

Definition node_of (subscription : value) : string :=
  default EmptyString (as_str (jindex subscription "queryNodeId")).

(** The queries of one container. *)
Definition queries_of (query_node_id : string) (subscriptions : list value) : list value :=
  map (λ x, jindex x "queryId")
    (List.filter (λ x, is_str (jindex x "queryNodeId") query_node_id) subscriptions).

Definition tracking_path (key : string) : list string :=
  ["metadata"; "tracking"; "source"; key]%string.

Definition index_panic : string := "cannot access key in JSON value".

Definition trace_headers : headers :=
  if str_eqb traceparent "" then [] else [("traceparent"%string, traceparent)].

(** The event is one mutable value: each container's queries and time replace
    the last one's. *)
Definition dispatch_to (query_node_id : string) (subscriptions : list value) (dispatch_event : value)
    : P (result value string) :=
  let app_id := query_node_id +:+ "-publish-api" in
  let queries := queries_of query_node_id subscriptions in
  match jset_path dispatch_event ["queries"%string] (VArray queries) with
  | None => Panic index_panic
  | Some dispatch_event =>
      end_time ← trigger DNowNanos;
      match jset_path dispatch_event (tracking_path "changeDispatcherEnd_ns")
              (v_i64 (default 0%Z end_time)) with
      | None => Panic index_panic
      | Some dispatch_event =>
          r ← translate (λ X c, DHttp c) (dapr_invoke show_status header_name header_value
                invoker (PJson dispatch_event) app_id "change" (Some trace_headers));
          match r with
          | Ok _ => mret (Ok dispatch_event)
          | Err e => mret (Err ("Error invoking app: " +:+ e))
          end
      end
  end.

Fixpoint dispatch_all (query_nodes : list string) (subscriptions : list value)
    (dispatch_event : value) : P (result unit string) :=
  match query_nodes with
  | [] => mret (Ok ())
  | query_node_id :: query_nodes =>
      r ← dispatch_to query_node_id subscriptions dispatch_event;
      match r with
      | Ok dispatch_event => dispatch_all query_nodes subscriptions dispatch_event
      | Err e => mret (Err e)
      end
  end.

Definition dispatch_change (start_time : Z) (change_event : value) : P (result unit string) :=
  match jset_path change_event (tracking_path "changeDispatcherStart_ns") (v_i64 start_time) with
  | None => Panic index_panic
  | Some dispatch_event =>
      match as_array (jindex change_event "subscriptions") with
      | None => mret (Err "Error getting subscriptions from change event"%string)
      | Some subscriptions =>
          query_nodes ← trigger (DIterSet (list_to_set (map node_of subscriptions)));
          dispatch_all query_nodes subscriptions dispatch_event
      end
  end.

(** The changes after the first are timed when their turn comes. *)
Definition dispatch_next (change_event : value) : P (result unit string) :=
  now ← trigger DNowNanos;
  dispatch_change (default 0%Z now) change_event.

Definition process_changes (changes : value) (receive_time : Z) : P (result unit string) :=
  match as_array changes with
  | None => mret (Err "Changes must be an array"%string)
  | Some [] => mret (Ok ())
  | Some (change_event :: changes) =>
      r ← dispatch_change receive_time change_event;
      match r with
      | Ok _ => for_try changes dispatch_next
      | Err e => mret (Err e)
      end
  end.

Inductive dispatcher_response := DispatchOk | DispatchError (error : string).

Definition receive (body : value) : P dispatcher_response :=
  receive_time ← trigger DNowNanos;
  r ← process_changes (jindex body "data") (default 0%Z receive_time);
  match r with
  | Ok _ => mret DispatchOk
  | Err e => mret (DispatchError ("Error processing changes: " +:+ debug_str e))
  end.
End dispatcher.

(** The subscription the sidecar reads at start-up. *)
Definition subscribe (pubsub_name source_id : string) : value :=
  VArray [VObject (jobject [
    ("pubsubname", VString pubsub_name);
    ("topic", VString (source_id +:+ "-dispatch"));
    ("route", VString "receive")]%string)].
