(* ===== verification/ChangeDispatcherSpec.v ===== *)
(** * ChangeDispatcherSpec: each container gets its queries' share of a change *)
From S2P Require Import Prelude BTree Json Effects RustText Comms ChangeDispatcher.

Definition order_ok (c : call disp_call) : Prop :=
  match c with
  | @Call _ X e x =>
      match e in disp_call X return X → Prop with
      | DIterSet s => λ l, l ≡ₚ elements s
      | _ => λ _, True
      end x
  end.

Definition disp_posted (c : call disp_call) : option (string * payload * bool) :=
  match c with
  | @Call _ X e x =>
      match e in disp_call X return X → _ with
      | DHttp c => λ x, posted_of (Call c x)
      | _ => λ _, None
      end x
  end.
Notation posted := (observe disp_posted).

Lemma disp_posted_http t :
  posted (map (translate_call (λ X c, DHttp c)) t) = observe posted_of t.
Proof.
  induction t as [|[X e x] t IH]; [done|]. unfold observe in *. cbn [map omap list_omap].
  rewrite IH. reflexivity.
Qed.

Lemma disp_posted_skip {X} (c : disp_call X) x t :
  disp_posted (Call c x) = None → posted (Call c x :: t) = posted t.
Proof. intros H. unfold observe. cbn [omap list_omap]. by rewrite H. Qed.

Section spec.
Context (show_status : Z → string) (debug_str : string → string).
Context (header_name header_value : string → result string string).
Context (invoker : DaprHttpInvoker) (traceparent : string).

Notation dispatch_to := (dispatch_to show_status header_name header_value invoker traceparent).
Notation dispatch_all := (dispatch_all show_status header_name header_value invoker traceparent).
Notation dispatch_change := (dispatch_change show_status header_name header_value invoker traceparent).
Notation process_changes := (process_changes show_status header_name header_value invoker traceparent).

(** The event can be written to: the places of the tracking data are free or
    objects. *)
Definition writable (change : value) : Prop :=
  is_Some (jset_path change (tracking_path "changeDispatcherStart_ns") VNull).

(** Everything but the queries and the tracking data is the change's. *)
Definition carried (change body : value) : Prop :=
  ∀ k, k ≠ "queries"%string → k ≠ "metadata"%string → jindex body k = jindex change k.

(** The request to a container: its queries and the change. *)
Definition body_for (change : value) (subs : list value) (n : string) (body : value) : Prop :=
  carried change body ∧ jindex body "queries" = VArray (queries_of n subs) ∧
  (∃ m, body = VObject m) ∧ ∃ m, jindex body "metadata" = VObject m.

Definition sent_to (change : value) (subs : list value) (accepted : bool) (n : string)
    (p : string * payload * bool) : Prop :=
  ∃ body, p = (invoke_url invoker (n +:+ "-publish-api") "change", PJson body, accepted) ∧
    body_for change subs n body.

(** One accepted request to each container with a subscription. *)
Definition delivered (change : value) (posts : list (string * payload * bool)) : Prop :=
  ∃ subs nodes, as_array (jindex change "subscriptions") = Some subs ∧ NoDup nodes ∧
    (∀ n, n ∈ nodes ↔ n ∈ map node_of subs) ∧ Forall2 (sent_to change subs true) nodes posts.

Lemma jset_path_object v k ks w v' : jset_path v (k :: ks) w = Some v' → ∃ m, v' = VObject m.
Proof.
  cbn. destruct v; try done.
  - destruct (jset_path VNull ks w); [|done]. intros [= <-]. by eexists.
  - destruct (jset_path _ ks w); [|done]. intros [= <-]. by eexists.
Qed.

(** Writing one place leaves the other places writable. *)
Lemma jset_path_writable v k k' ks ks' w w' v' :
  k ≠ k' → is_Some (jset_path v (k' :: ks') w') → jset_path v (k :: ks) w = Some v' →
  is_Some (jset_path v' (k' :: ks') w').
Proof.
  intros Hne Hw Hs. destruct (jset_path_object _ _ _ _ _ Hs) as [m' ->].
  pose proof (jindex_jset_path_ne _ _ _ _ _ k' Hs Hne) as Hi. cbn in Hi. cbn [jset_path].
  rewrite Hi. destruct v as [| | | | |m]; cbn in Hw; try by destruct Hw.
  - cbn. destruct (jset_path VNull ks' w'); [by eexists | by destruct Hw].
  - cbn. destruct (jset_path (default VNull (jget k' m)) ks' w'); [by eexists | by destruct Hw].
Qed.
Lemma jset_path_nested v k k' ks w v' :
  jset_path v (k :: k' :: ks) w = Some v' → ∃ m, jindex v' k = VObject m.
Proof.
  remember (k' :: ks) as ks' eqn:Hks. intros H. cbn [jset_path] in H.
  destruct v as [| | | | |m]; try done.
  - destruct (jset_path VNull ks' w) as [x|] eqn:E; [|done]. injection H as <-. subst ks'.
    apply jset_path_object in E as [m ->]. exists m. apply (jindex_jset_eq k (VObject m) []).
  - destruct (jset_path _ ks' w) as [x|] eqn:E; [|done]. injection H as <-. subst ks'.
    apply jset_path_object in E as [m' ->]. exists m'. apply jindex_jset_eq.
Qed.

(** ... and so is a sibling of the place. *)
Lemma jset_path_sibling v ks k k' w w' v' :
  jset_path v (ks ++ [k]) w = Some v' → is_Some (jset_path v' (ks ++ [k']) w').
Proof.
  revert v v'. induction ks as [|a ks IH]; intros v v' H.
  - apply jset_path_object in H as [m ->]. by eexists.
  - pose proof H as Ho. apply jset_path_object in Ho as [m' ->].
    change (is_Some (x ← jset_path (jindex (VObject m') a) (ks ++ [k']) w'; Some (VObject (jset a x m')))).
    destruct v as [| | | | |m]; try done; cbn [jset_path app] in H.
    + destruct (jset_path VNull (ks ++ [k]) w) as [x|] eqn:E; [|done]. injection H as <-.
      assert (jindex (VObject [(a, x)]) a = x) as -> by apply (jindex_jset_eq a x []).
      destruct (IH _ _ E) as [y ->]. by eexists.
    + destruct (jset_path _ (ks ++ [k]) w) as [x|] eqn:E; [|done]. injection H as <-.
      rewrite jindex_jset_eq. destruct (IH _ _ E) as [y ->]. by eexists.
Qed.

(** The event between two requests. *)
Definition in_progress (change ev : value) : Prop :=
  carried change ev ∧ is_Some (jset_path ev (tracking_path "changeDispatcherEnd_ns") VNull).

Lemma dispatch_to_spec G change ev n subs :
  in_progress change ev →
  under G (dispatch_to n subs ev) (λ t o,
    (∃ ev' p, o = Done (Ok ev') ∧ in_progress change ev' ∧ posted t = [p] ∧
       sent_to change subs true n p) ∨
    (∃ e, o = Done (Err e) ∧ (posted t = [] ∨ ∃ p ok, posted t = [p] ∧ sent_to change subs ok n p))).
Proof.
  intros [Hc Hw]. unfold ChangeDispatcher.dispatch_to.
  destruct (jset_path ev ["queries"%string] (VArray (queries_of n subs))) as [ev1|] eqn:E1.
  2:{ destruct ev; cbn in *; try by destruct Hw. }
  assert (is_Some (jset_path ev1 (tracking_path "changeDispatcherEnd_ns") VNull)) as [x Hw1].
  { exact (jset_path_writable ev "queries" "metadata" []
      ["tracking"; "source"; "changeDispatcherEnd_ns"]%string _ VNull ev1 ltac:(done) Hw E1). }
  apply under_call. intros end_ _.
  destruct (jset_path_any _ _ _ (v_i64 (default 0%Z end_)) (mk_is_Some _ _ Hw1)) as [ev2 E2].
  fold (tracking_path "changeDispatcherEnd_ns") in E2. rewrite E2.
  assert (in_progress change ev2) as Hp.
  { split.
    - intros k Hq Hm. rewrite (jindex_jset_path_ne _ _ _ _ _ k E2) by congruence.
      rewrite (jindex_jset_path_ne _ _ _ _ _ k E1) by congruence. by apply Hc.
    - exact (jset_path_sibling _ ["metadata"; "tracking"; "source"]%string
        "changeDispatcherEnd_ns" "changeDispatcherEnd_ns" _ VNull _ E2). }
  assert (∀ ok, sent_to change subs ok n
    (invoke_url invoker (n +:+ "-publish-api") "change", PJson ev2, ok)) as Hs.
  { intros ok. exists ev2. split; [done|]. split; [apply Hp|]. split.
    - rewrite (jindex_jset_path_ne _ _ _ _ _ "queries"%string E2) by done.
      by apply (jpath_jset_path ev ["queries"%string]).
    - split; [by eapply jset_path_object | by eapply jset_path_nested]. }
  apply under_bind, under_translate.
  eapply under_mono; [| |apply (dapr_invoke_posts show_status)]; [done|].
  intros t o (r & -> & [(-> & Hr & _)|(ok & Ht & Hok & _)]).
  - destruct r as [b|e]; [done|]. right. eexists. split; [done|]. left.
    rewrite disp_posted_skip by done. done.
  - destruct r as [b|e].
    + left. exists ev2. eexists. split; [done|]. split; [done|].
      rewrite disp_posted_skip, app_nil_r, disp_posted_http by done. split; [exact Ht|].
      rewrite Hok by done. apply Hs.
    + right. eexists. split; [done|]. right. eexists _, ok.
      rewrite disp_posted_skip, app_nil_r, disp_posted_http by done. split; [exact Ht | apply Hs].
Qed.

Lemma dispatch_all_spec G change ev nodes subs :
  in_progress change ev →
  under G (dispatch_all nodes subs ev) (λ t o, ∃ r, o = Done r ∧
    match r with
    | Ok _ => Forall2 (sent_to change subs true) nodes (posted t)
    | Err _ => True
    end).
Proof.
  revert ev. induction nodes as [|n nodes IH]; intros ev Hev; cbn [ChangeDispatcher.dispatch_all].
  { eexists. split; [done|]. constructor. }
  apply under_bind. eapply under_mono; [done| |by apply (dispatch_to_spec G change ev n subs)].
  intros t o [(ev' & p & -> & Hev' & Hp & Hs)|(e & -> & _)].
  - eapply under_mono; [done| |by apply (IH ev')]. intros t' o (r & -> & Hr).
    exists r. split; [done|]. destruct r as [[]|e]; [|done].
    rewrite observe_app, Hp. by constructor.
  - by eexists.
Qed.

Lemma dispatch_change_spec start change :
  under order_ok (dispatch_change start change) (λ t o,
    match o with
    | Done (Ok _) => delivered change (posted t)
    | Done (Err _) => True
    | Panicked _ => ¬ writable change
    end).
Proof.
  unfold ChangeDispatcher.dispatch_change.
  destruct (jset_path change _ (v_i64 start)) as [ev|] eqn:E.
  2:{ intros Hw. apply (jset_path_any _ _ _ (v_i64 start)) in Hw as [x Hx].
      by rewrite Hx in E. }
  assert (in_progress change ev) as Hev.
  { split.
    - intros k Hq Hm. apply (jindex_jset_path_ne _ _ _ _ _ k E). congruence.
    - exact (jset_path_sibling _ ["metadata"; "tracking"; "source"]%string
        "changeDispatcherStart_ns" "changeDispatcherEnd_ns" _ VNull _ E). }
  destruct (as_array (jindex change "subscriptions")) as [subs|] eqn:Hsubs; [|done].
  apply under_call. intros nodes Hnodes. cbn in Hnodes.
  eapply under_mono; [done| |by apply dispatch_all_spec].
  intros t o (r & -> & Hr). destruct r as [[]|e]; [|done].
  rewrite disp_posted_skip by done. exists subs, nodes. split; [done|].
  split; [rewrite Hnodes; apply NoDup_elements|]. split; [|done].
  intros n. by rewrite Hnodes, elem_of_elements, elem_of_list_to_set.
Qed.

(** What a request's batch leads to. *)
Definition batch_delivered (changes : list value) (posts : list (string * payload * bool))
    (o : outcome (result unit string)) : Prop :=
  match o with
  | Done (Ok _) => ∃ parts, posts = concat parts ∧ Forall2 delivered changes parts
  | Done (Err _) => ∃ done change rest parts part, changes = done ++ change :: rest ∧
      posts = concat parts ++ part ∧ Forall2 delivered done parts
  | Panicked _ => ¬ Forall writable changes
  end.

Lemma batch_cons change changes t t' (o : outcome (result unit string)) :
  delivered change (posted t) → batch_delivered changes (posted t') o →
  batch_delivered (change :: changes) (posted (t ++ t')) o.
Proof.
  rewrite observe_app. intros Hd. destruct o as [[[]|e]|w].
  - intros (parts & -> & Hp). exists (posted t :: parts). split; [done | by constructor].
  - intros (d & c & rest & parts & part & -> & -> & Hp).
    exists (change :: d), c, rest, (posted t :: parts), part.
    split; [done|]. split; [by rewrite (assoc_L (++)) | by constructor].
  - intros Hw Hall. by inversion Hall.
Qed.

Lemma dispatch_next_spec changes :
  under order_ok (for_try changes
      (dispatch_next show_status header_name header_value invoker traceparent))
    (λ t o, batch_delivered changes (posted t) o).
Proof.
  induction changes as [|c changes IH]; cbn [for_try]; [by exists []|].
  unfold dispatch_next at 1. apply under_bind, under_call. intros now _.
  eapply under_mono; [done| |apply dispatch_change_spec].
  intros t [[[]|e]|w] Ht.
  - eapply under_mono; [done| |exact IH]. intros t' o Ho.
    apply (batch_cons c changes (Call DNowNanos now :: t)); [|done].
    by rewrite disp_posted_skip.
  - exists [], c, changes, [], (posted (Call DNowNanos now :: t ++ [])). by repeat constructor.
  - intros Hall. by inversion Hall.
Qed.

Lemma receive_delivers body changes :
  jindex body "data" = VArray changes →
  under order_ok (receive show_status debug_str header_name header_value invoker traceparent body)
    (λ t o, ∃ o', batch_delivered changes (posted t) o' ∧
       o = match o' with
           | Done (Ok _) => Done DispatchOk
           | Done (Err e) => Done (DispatchError ("Error processing changes: " +:+ debug_str e))
           | Panicked w => Panicked w
           end).
Proof.
  intros Hb. unfold receive. apply under_call. intros rt _.
  unfold ChangeDispatcher.process_changes. rewrite Hb. cbn [as_array].
  destruct changes as [|c changes].
  { exists (Done (Ok ())). split; [|done]. by exists []. }
  apply under_bind, under_bind. eapply under_mono; [done| |apply dispatch_change_spec].
  intros t [[[]|e]|w] Ht.
  - eapply under_mono; [done| |apply dispatch_next_spec]. intros t' o Ho.
    assert (batch_delivered (c :: changes) (posted (Call DNowNanos rt :: t ++ t')) o) as Hbd.
    { apply (batch_cons c changes (Call DNowNanos rt :: t)); [|done]. by rewrite disp_posted_skip. }
    destruct o as [[[]|e]|w]; cbn; rewrite ?app_nil_r; by eexists.
  - exists (Done (Err e)). split; [|done].
    exists [], c, changes, [], (posted (Call DNowNanos rt :: (t ++ []) ++ [])). by repeat constructor.
  - exists (Panicked w). split; [|done]. intros Hall. by inversion Hall.
Qed.

(** A batch of dispatch events is answered with success only if, for each of
    its events in turn, every container that has a subscription in it, and no
    other, was sent exactly one request, which it accepted, that carries the
    change unaltered and the queries of that container's subscriptions, all of
    them in their order and no other container's.  When a request fails the
    batch stops there and fails, the events before it having been delivered;
    the dispatcher panics only on an event that is not an object or whose
    tracking data is not. *)
Theorem dispatch_reaches_all_containers body changes :
  jindex body "data" = VArray changes →
  under order_ok (receive show_status debug_str header_name header_value invoker traceparent body)
    (λ t o, ∃ o', batch_delivered changes (posted t) o' ∧
       o = match o' with
           | Done (Ok _) => Done DispatchOk
           | Done (Err e) => Done (DispatchError ("Error processing changes: " +:+ debug_str e))
           | Panicked w => Panicked w
           end).
Proof. apply receive_delivers. Qed.
End spec.

(** ** Example: two queries in one container *)

Definition example_subscription (n q : string) : value :=
  VObject (jobject [("queryId", VString q); ("queryNodeId", VString n)]%string).

Definition example_event : value := VObject (jobject [
  ("id", VString "1");
  ("subscriptions", VArray [example_subscription "default" "q1"; example_subscription "default" "q2"]);
  ("metadata", VObject (jobject [("tracking", VObject (jobject [("source", VObject [])]))]))]%string).

Definition example_body : value := VObject (jobject [("data", VArray [example_event])]%string).

Lemma dispatch_reaches_all_containers_witness :
  queries_of "default" (default [] (as_array (jindex example_event "subscriptions"))) =
    [VString "q1"; VString "q2"]%string ∧
  under order_ok (receive show_unsigned (λ s, s) Ok Ok (mkDaprInvoker "127.0.0.1" 3500) ""
      example_body)
    (λ t o, ∃ o', batch_delivered (mkDaprInvoker "127.0.0.1" 3500) [example_event] (posted t) o' ∧
       o = match o' with
           | Done (Ok _) => Done DispatchOk
           | Done (Err e) => Done (DispatchError ("Error processing changes: " +:+ e))
           | Panicked w => Panicked w
           end).
Proof.
  split; [vm_compute; reflexivity|].
  apply (dispatch_reaches_all_containers show_unsigned (λ s, s) Ok Ok
    (mkDaprInvoker "127.0.0.1" 3500) "" example_body [example_event]). reflexivity.
Defined.
