(* ===== verification/SourceSdk.v ===== *)
(** * SourceSdk: what a source's reactivator and proxy are built with
    ([sources/sdk/rust/src]) *)
From S2P Require Import Prelude BTree Json Effects RustText Comms.

(** ** Changes and their JSON form ([models.rs]) *)

Record BootstrapRequest := mkRequest { br_node_labels : list string; br_rel_labels : list string }.

Inductive SourceElement :=
| SNode (id : string) (labels : list string) (properties : jmap)
| SRelation (id : string) (labels : list string) (properties : jmap) (start_id end_id : string).

Inductive ChangeOp := OpCreate | OpUpdate | OpDelete.

Record SourceChange := mkSourceChange {
  sc_op : ChangeOp;
  sc_element : SourceElement;
  sc_metadata : option jmap;
  sc_reactivator_start_ns : Z;
  sc_reactivator_end_ns : Z;
  sc_source_ns : Z;
  sc_seq : Z;
}.

Definition change_new (op : ChangeOp) (element : SourceElement)
    (reactivator_start_ns source_ns seq : Z) (metadata : option jmap) : SourceChange :=
  mkSourceChange op element metadata reactivator_start_ns 0 source_ns seq.

Definition set_reactivator_end_ns (reactivator_end_ns : Z) (c : SourceChange) : SourceChange :=
  mkSourceChange (sc_op c) (sc_element c) (sc_metadata c) (sc_reactivator_start_ns c)
    reactivator_end_ns (sc_source_ns c) (sc_seq c).

Definition op_str (op : ChangeOp) : string :=
  match op with OpCreate => "i" | OpUpdate => "u" | OpDelete => "d" end.

Definition element_json (e : SourceElement) : value :=
  match e with
  | SNode id labels properties => VObject (jobject [
      ("id", VString id); ("labels", VArray (map VString labels));
      ("properties", VObject properties)]%string)
  | SRelation id labels properties start_id end_id => VObject (jobject [
      ("id", VString id); ("labels", VArray (map VString labels));
      ("properties", VObject properties);
      ("startId", VString start_id); ("endId", VString end_id)]%string)
  end.

Section sdk.
(** The JSON number of a [u128] above [u64::MAX], once it is read back, and the
    [SOURCE_ID] variable. *)
Context (big_number : Z → value) (source_id_var : option string).

Definition json_u128 (n : Z) : value :=
  if (n <? u64_modulus)%Z then VNumber (NPos n) else big_number n.

Definition source_data_json (c : SourceChange) : value :=
  VObject (jobject [
    ("db", VString (default "drasi" source_id_var));
    ("lsn", VNumber (NPos (sc_seq c)));
    ("table", VString (match sc_element c with SNode _ _ _ => "node" | SRelation _ _ _ _ _ => "rel" end));
    ("ts_ns", json_u128 (sc_source_ns c))]%string).

Definition payload_json (c : SourceChange) : value :=
  VObject (jobject [
    (match sc_op c with OpCreate => "after" | OpUpdate => "after" | OpDelete => "before" end,
     element_json (sc_element c));
    ("source", source_data_json c)]%string).

Definition change_json (c : SourceChange) : value :=
  VObject (jobject ([
    ("op", VString (op_str (sc_op c)));
    ("payload", payload_json c);
    ("reactivatorStart_ns", json_u128 (sc_reactivator_start_ns c));
    ("reactivatorEnd_ns", json_u128 (sc_reactivator_end_ns c))]%string ++
    match sc_metadata c with Some m => [("metadata", VObject m)]%string | None => [] end)).

(** ** Publishing through the sidecar ([dapr_publisher.rs]) *)

Record DaprPublisher := mkSdkPublisher {
  sp_host : string;
  sp_port : Z;
  sp_pubsub : string;
  sp_source_id : string;
}.

(** [DaprPublisher::new] *)
Definition sdk_publisher_new (env : Env) : outcome DaprPublisher :=
  match parse_u16 (env_var_or env "DAPR_HTTP_PORT" "3500") with
  | None => Panicked "called `Result::unwrap()` on an `Err` value"
  | Some dapr_port =>
      match env !! "SOURCE_ID"%string with
      | None => Panicked "Source ID not specified"
      | Some source_id =>
          Done (mkSdkPublisher "127.0.0.1" dapr_port (env_var_or env "PUBSUB" "drasi-pubsub") source_id)
      end
  end.

Definition sdk_publish_url (p : DaprPublisher) : string :=
  "http://" +:+ sp_host p +:+ ":" +:+ show_unsigned (sp_port p) +:+ "/v1.0/publish/" +:+
  sp_pubsub p +:+ "/" +:+ sp_source_id p +:+ "-change".

(** [error_for_status]: a client or a server error. *)
Definition is_error_status (status : Z) : bool := (400 <=? status)%Z && (status <? 600)%Z.

(** The trace headers come from the current span. *)
Definition sdk_publish (p : DaprPublisher) (traceparent tracestate : string) (c : SourceChange)
    : prog http_call (result unit string) :=
  response ← trigger (HttpPost (sdk_publish_url p)
    [("content-type", "application/json"); ("traceparent", traceparent);
     ("tracestate", tracestate)]%string (PJson (VArray [change_json c])));
  match response with
  | Ok r =>
      if is_error_status (hr_status r) then mret (Err "HTTP status error"%string) else mret (Ok ())
  | Err e => mret (Err e)
  end.

(** ** The reactivator ([reactivator.rs]) *)

(** What its loop waits for: the next change, the stream's end, or a signal. *)
Inductive event := EvData (c : SourceChange) | EvEnd | EvShutdown.

Inductive reactivator_call : Type → Type :=
| InitTracer (service_name : string) : reactivator_call (result unit string)
| Produce : reactivator_call (result unit string)
| Serve (ip : string) (port : Z) : reactivator_call unit
| Select : reactivator_call event
| UnixNow : reactivator_call (result Z string)
| Publish (c : SourceChange) : reactivator_call (result unit string).

Fixpoint reactivator_loop (rounds : nat) : prog reactivator_call unit :=
  match rounds with
  | O => mret ()
  | S rounds =>
      e ← trigger Select;
      match e with
      | EvData data =>
          now ← trigger UnixNow;
          match now with
          | Err _ => Panic "Time went backwards"
          | Ok reactivator_end_ns =>
              let data := set_reactivator_end_ns reactivator_end_ns data in
              r ← trigger (Publish data);
              match r with
              | Err err => Panic ("Error publishing: " +:+ err)
              | Ok _ => reactivator_loop rounds
              end
          end
      | EvEnd => mret ()
      | EvShutdown => mret ()
      end
  end.

(** [Reactivator::start], its first [rounds] changes; the task that serves the
    deprovision route is started on the way. *)
Definition reactivator_start (port : option Z) (rounds : nat) : prog reactivator_call unit :=
  match source_id_var with
  | None => Panic "SOURCE_ID required"
  | Some source_id =>
      tracer ← trigger (InitTracer (source_id +:+ "-reactivator"));
      match tracer with
      | Err e => Panic ("called `Result::unwrap()` on an `Err` value: " +:+ e)
      | Ok _ =>
          stream ← trigger Produce;
          match stream with
          | Err e => Panic ("called `Result::unwrap()` on an `Err` value: " +:+ e)
          | Ok _ =>
              _ ← trigger (Serve "127.0.0.1" (default 80%Z port));
              reactivator_loop rounds
          end
      end
  end.

(** ** Properties of the reactivator *)

Definition received_of (c : call reactivator_call) : option SourceChange :=
  match c with
  | @Call _ X e x =>
      match e in reactivator_call X return X → _ with
      | Select => λ e, match e with EvData c => Some c | _ => None end
      | _ => λ _, None
      end x
  end.

Definition sent_of (c : call reactivator_call) : option (SourceChange * bool) :=
  match c with
  | @Call _ X e x =>
      match e in reactivator_call X return X → _ with
      | Publish c => λ r, Some (c, is_ok r)
      | _ => λ _, None
      end x
  end.

(** What is sent for a change: the change, stamped with the time. *)
Definition stamped (c : SourceChange) (p : SourceChange * bool) : Prop :=
  ∃ end_ns, p = (set_reactivator_end_ns end_ns c, true).

(** How a run ends: all changes sent, or at most the last one not. *)
Definition all_sent (received : list SourceChange) (sent : list (SourceChange * bool))
    (o : outcome unit) : Prop :=
  ∃ done rest accepted refused, received = done ++ rest ∧ sent = accepted ++ refused ∧
    Forall2 stamped done accepted ∧
    match o with
    | Done _ => rest = [] ∧ refused = []
    | Panicked _ => (rest = [] ∧ refused = []) ∨ ∃ c, rest = [c] ∧
        (refused = [] ∨ ∃ end_ns, refused = [(set_reactivator_end_ns end_ns c, false)])
    end.

Lemma all_sent_nil o : all_sent [] [] o.
Proof.
  exists [], [], [], []. do 2 (split; [done|]). split; [constructor|]. destruct o; [done | by left].
Qed.

Lemma reactivator_loop_sends rounds :
  always (reactivator_loop rounds) (λ t o,
    all_sent (observe received_of t) (observe sent_of t) o).
Proof.
  assert (∀ o, all_sent [] [] o) as Hnil by apply all_sent_nil.
  induction rounds as [|rounds IH]; [apply Hnil|]. cbn [reactivator_loop].
  apply under_call. intros [c| |] _; [|apply Hnil..].
  apply under_call. intros [end_ns|e] _.
  2:{ exists [], [c], [], []. do 2 (split; [done|]). split; [constructor|]. right. eauto. }
  apply under_call. intros [[]|e] _.
  - eapply under_mono; [done| |exact IH].
    intros t o (d & rest & acc & ref & Hr & Hs & Hst & Ho).
    exists (c :: d), rest, ((set_reactivator_end_ns end_ns c, true) :: acc), ref.
    split; [by rewrite <-app_comm_cons, <-Hr|]. split; [by rewrite <-app_comm_cons, <-Hs|].
    split; [|done]. constructor; [by exists end_ns | done].
  - exists [], [c], [], [(set_reactivator_end_ns end_ns c, false)]. do 2 (split; [done|]).
    split; [constructor|]. right. eauto.
Qed.

(** The reactivator publishes every change of its stream, once, in the
    stream's order and unchanged but for the time stamp: when it ends, for the
    end of the stream or a signal, all the changes it received were accepted by
    the publisher; when it fails, all but at most the last one were. *)
Theorem reactivator_forwards_all port rounds :
  always (reactivator_start port rounds) (λ t o,
    all_sent (observe received_of t) (observe sent_of t) o).
Proof.
  unfold reactivator_start. destruct source_id_var; [|apply all_sent_nil].
  apply under_call. intros [[]|e] _; [|apply all_sent_nil].
  apply under_call. intros [[]|e] _; [|apply all_sent_nil].
  apply under_call. intros [] _. apply reactivator_loop_sends.
Qed.
End sdk.
