(* ===== verification/SdkStores.v ===== *)
(** * SdkStores: the state stores of the source SDK, and its proxy
    ([sources/sdk/rust/src]: [lib.rs], [memory_statestore.rs],
    [dapr_statestore.rs], [proxy.rs])

    [StateStore] is the trait with what a source relies on; the two stores are
    its instances. *)
From S2P Require Import Prelude BTree Json ViewApi Wire Effects RustText Comms SourceSdk.

(** ** The interface *)

(** [trait StateStore]: each method answers and leaves the store in a new state. *)
Class StateStore (S : Type) := {
  ss_get : string → S → result (option string) string * S;
  ss_put : string → string → S → result unit string * S;
  ss_delete : string → S → result unit string * S;
}.

(** What a source relies on, for the values it stores: while the store works it
    is a map.  [view] is the map a state stands for. *)
Class StateStoreLaws (S : Type) `{StateStore S} := {
  ss_view : S → gmap string string;
  ss_get_spec id s : ∃ s', ss_get id s = (Ok (ss_view s !! id), s') ∧ ss_view s' = ss_view s;
  ss_put_spec id data s : data ≠ EmptyString →
    ∃ s', ss_put id data s = (Ok (), s') ∧ ss_view s' = <[id := data]> (ss_view s);
  ss_delete_spec id s :
    ∃ s', ss_delete id s = (Ok (), s') ∧ ss_view s' = delete id (ss_view s);
}.

(** ** In memory *)

Definition MemoryStateStore : Type := gmap string string.

Definition memory_new : MemoryStateStore := ∅.
Definition memory_get (id : string) (data : MemoryStateStore) : option string := data !! id.
Definition memory_put (id value : string) (data : MemoryStateStore) : MemoryStateStore :=
  <[id := value]> data.
Definition memory_delete (id : string) (data : MemoryStateStore) : MemoryStateStore := delete id data.

#[export] Instance memory_store : StateStore MemoryStateStore := {
  ss_get id s := (Ok (memory_get id s), s);
  ss_put id value s := (Ok (), memory_put id value s);
  ss_delete id s := (Ok (), memory_delete id s);
}.

#[export, refine] Instance memory_store_laws : StateStoreLaws MemoryStateStore := {
  ss_view := id;
}.
Proof. all: intros; by eexists. Defined.

(** ** In Dapr's state store *)

(** The sidecar's answers: the data of an unknown key is empty. *)
Inductive sidecar_call : Type → Type :=
| GetState (store key : string) : sidecar_call (result string string)
| SaveState (store key value : string) : sidecar_call (result unit string)
| DeleteState (store key : string) : sidecar_call (result unit string).

Definition dapr_get (store id : string) : prog sidecar_call (result (option string) string) :=
  response ← trigger (GetState store id);
  match response with
  | Err e => mret (Err e)
  | Ok data => if str_eqb data EmptyString then mret (Ok None) else mret (Ok (Some data))
  end.

Definition dapr_put (store id value : string) : prog sidecar_call (result unit string) :=
  r ← trigger (SaveState store id value);
  match r with Ok _ => mret (Ok ()) | Err e => mret (Err e) end.

Definition dapr_delete (store id : string) : prog sidecar_call (result unit string) :=
  r ← trigger (DeleteState store id);
  match r with Ok _ => mret (Ok ()) | Err e => mret (Err e) end.

(** A working sidecar, whose component keeps a map of one store. *)
Definition on_sidecar (X : Type) (c : sidecar_call X) (m : gmap string string)
    : X * gmap string string :=
  match c in sidecar_call X return X * gmap string string with
  | GetState _ key => (Ok (default EmptyString (m !! key)), m)
  | SaveState _ key value => (Ok (), <[key := value]> m)
  | DeleteState _ key => (Ok (), delete key m)
  end.

(** Over a working sidecar the store answers as its methods do. *)
Record DaprStateStore := mkDaprStore { ds_store_name : string; ds_state : gmap string string }.

Definition on_dapr {A} (p : prog sidecar_call (result A string)) (s : DaprStateStore)
    : result A string * DaprStateStore :=
  match run on_sidecar p (ds_state s) with
  | (Done r, m, _) => (r, mkDaprStore (ds_store_name s) m)
  | (Panicked w, m, _) => (Err w, mkDaprStore (ds_store_name s) m)
  end.

#[export] Instance dapr_store : StateStore DaprStateStore := {
  ss_get id s := on_dapr (dapr_get (ds_store_name s) id) s;
  ss_put id value s := on_dapr (dapr_put (ds_store_name s) id value) s;
  ss_delete id s := on_dapr (dapr_delete (ds_store_name s) id) s;
}.

Definition not_empty (v : string) : option string :=
  if str_eqb v EmptyString then None else Some v.

(** An empty value reads as no value. *)
#[export, refine] Instance dapr_store_laws : StateStoreLaws DaprStateStore := {
  ss_view s := omap not_empty (ds_state s);
}.
Proof.
  - intros id s. eexists. split; [|by destruct s].
    unfold ss_get, dapr_store, on_dapr, dapr_get. cbn. rewrite lookup_omap.
    destruct (ds_state s !! id) as [v|]; cbn; [|by destruct s].
    unfold not_empty. by destruct (str_eqb v EmptyString), s.
  - intros id data s Hd. eexists. split; [done|]. cbn. apply map_eq. intros k.
    rewrite lookup_omap. destruct (decide (id = k)) as [->|Hne].
    + rewrite !lookup_insert_eq. cbn. unfold not_empty, str_eqb. by rewrite bool_decide_eq_false_2.
    + by rewrite !lookup_insert_ne, lookup_omap by done.
  - intros id s. eexists. split; [done|]. cbn. apply map_eq. intros k.
    rewrite lookup_omap. destruct (decide (id = k)) as [->|Hne].
    + by rewrite !lookup_delete_eq.
    + by rewrite !lookup_delete_ne, lookup_omap by done.
Defined.

(** *** Connecting *)

Inductive connect_call : Type → Type :=
| DaprHttpPort : connect_call (option string)
| StateStoreName : connect_call (option string)
| Healthz (url : string) : connect_call (result bool string)
| ConnectSidecar (address : string) : connect_call (result unit string)
| SleepSecond : connect_call unit.

(** The loop of [wait_for_dapr_start]; [attempts] of them remain. *)
Fixpoint health_attempts (attempts : nat) (http_port : Z) : prog connect_call (result unit string) :=
  match attempts with
  | O => mret (Err "Dapr did not start within the expected time frame."%string)
  | S attempts =>
      response ← trigger (Healthz ("http://localhost:" +:+ show_unsigned http_port +:+
        "/v1.0/healthz/outbound"));
      match response with
      | Ok true => mret (Ok ())
      | _ =>
          match attempts with
          | O => mret (Err "Dapr did not start within the expected time frame."%string)
          | S _ => _ ← trigger SleepSecond; health_attempts attempts http_port
          end
      end
  end.

Definition wait_for_dapr_start : prog connect_call (result unit string) :=
  port ← trigger DaprHttpPort;
  match port with
  | None => mret (Err "environment variable not found"%string)
  | Some port =>
      match parse_u16 port with
      | None => mret (Err "invalid digit found in string"%string)
      | Some http_port => health_attempts 10 http_port
      end
  end.

(** The loop of [connect]. *)
Fixpoint connect_attempts (attempts : nat) : prog connect_call (result unit string) :=
  match attempts with
  | O => mret (Err EmptyString)
  | S attempts =>
      client ← trigger (ConnectSidecar "https://127.0.0.1");
      match client with
      | Ok _ => mret (Ok ())
      | Err e =>
          match attempts with
          | O => mret (Err e)
          | S _ => _ ← trigger SleepSecond; connect_attempts attempts
          end
      end
  end.

(** [DaprStateStore::connect]: the name of the store. *)
Definition dapr_connect : prog connect_call (result string string) :=
  r ← wait_for_dapr_start;
  match r with
  | Err _ => mret (Err "TransportError"%string)
  | Ok _ =>
      client ← connect_attempts 5;
      match client with
      | Err e => mret (Err e)
      | Ok _ =>
          name ← trigger StateStoreName;
          mret (Ok (default "drasi-state"%string name))
      end
  end.

(** ** The proxy *)

Inductive BootstrapError :=
| InvalidRequest (m : string)
| InternalFailure (m : string).

Inductive ProxyResponse :=
| JsonLines (stream : list value)
| Refused (status : Z) (body : string).

(** The body of [/acquire-stream]. *)
Definition bootstrap_request_from_value (v : value) : option BootstrapRequest :=
  m ← as_object v;
  node_labels ← field m "nodeLabels" ≫= of_list as_str;
  rel_labels ← field m "relLabels" ≫= of_list as_str;
  Some (mkRequest node_labels rel_labels).

Section proxy.
Context {E : Type → Type} {C : Type}.
Context (stream_producer : C → BootstrapRequest → prog E (result (list SourceElement) BootstrapError)).

(** The [proxy_stream] handler, for a stream that produces these elements. *)
Definition proxy_stream (context : C) (request : BootstrapRequest) : prog E ProxyResponse :=
  r ← stream_producer context request;
  match r with
  | Ok stream => mret (JsonLines (map element_json stream))
  | Err (InvalidRequest e) => mret (Refused 400 e)
  | Err (InternalFailure e) => mret (Refused 500 e)
  end.
End proxy.

(** The builder's port. *)
Definition proxy_port (port : option Z) : Z := default 80%Z port.

(** ** The deprovision route of a reactivator *)

(** A handler, if there is one, is called; the answer is 204 either way. *)
Definition reactivator_deprovision {E} (handler : option (prog E unit)) : prog E Z :=
  match handler with
  | Some handler => _ ← handler; mret 204%Z
  | None => mret 204%Z
  end.
