(* ===== verification/SdkHost.v ===== *)
(** * SdkHost: building and starting what the source SDK runs
    ([sources/sdk/rust/src]: [reactivator.rs], [proxy.rs], [debug_publisher.rs])

    A publisher is the program its [publish] method is; a state store and a
    stream producer are a source's own, or the SDK's.  The panic hooks, which
    write the message to the termination log, and the tracing library are not
    modelled. *)
From S2P Require Import Prelude BTree Json Effects RustText Comms SourceSdk SdkStores.

(** ** Publishers *)

(** [Box<dyn Publisher>] *)
Definition Publisher : Type := SourceChange → prog http_call (result unit string).

(** [DebugPublisher::publish] only logs. *)
Definition debug_publish : Publisher := λ _, mret (Ok ()).

Section reactivator.
(** The calls of the source's own code, its state store and its context. *)
Context {E : Type → Type} {Store Context_ : Type}.
(** The state store that a connection to the sidecar gives. *)
Context (dapr_state_store : string → Store).
(** The JSON number of a large [u128], and the trace headers of a span. *)
Context (big_number : Z → value) (traceparent tracestate : string).
Context (env : Env).

(** ** The reactivator's builder *)

(** A stream producer ends with a stream or an error; what the stream yields is
    what the reactivator's [Select] answers. *)
Record ReactivatorBuilder := mkReactivatorBuilder {
  rb_stream_producer : option (Context_ → Store → prog E (result unit string));
  rb_publisher : option Publisher;
  rb_state_store : option Store;
  rb_context : option Context_;
  rb_deprovision_handler : option (Store → prog E unit);
  rb_port : option Z;
}.

Definition reactivator_builder_new : ReactivatorBuilder :=
  mkReactivatorBuilder None None None None None None.

Definition with_stream_producer (f : Context_ → Store → prog E (result unit string))
    (b : ReactivatorBuilder) : ReactivatorBuilder :=
  mkReactivatorBuilder (Some f) (rb_publisher b) (rb_state_store b) (rb_context b)
    (rb_deprovision_handler b) (rb_port b).

Definition with_publisher (p : Publisher) (b : ReactivatorBuilder) : ReactivatorBuilder :=
  mkReactivatorBuilder (rb_stream_producer b) (Some p) (rb_state_store b) (rb_context b)
    (rb_deprovision_handler b) (rb_port b).

Definition with_state_store (s : Store) (b : ReactivatorBuilder) : ReactivatorBuilder :=
  mkReactivatorBuilder (rb_stream_producer b) (rb_publisher b) (Some s) (rb_context b)
    (rb_deprovision_handler b) (rb_port b).

Definition with_context (c : Context_) (b : ReactivatorBuilder) : ReactivatorBuilder :=
  mkReactivatorBuilder (rb_stream_producer b) (rb_publisher b) (rb_state_store b) (Some c)
    (rb_deprovision_handler b) (rb_port b).

Definition with_deprovision_handler (handler : Store → prog E unit) (b : ReactivatorBuilder)
    : ReactivatorBuilder :=
  mkReactivatorBuilder (rb_stream_producer b) (rb_publisher b) (rb_state_store b) (rb_context b)
    (Some handler) (rb_port b).

Definition with_port (port : Z) (b : ReactivatorBuilder) : ReactivatorBuilder :=
  mkReactivatorBuilder (rb_stream_producer b) (rb_publisher b) (rb_state_store b) (rb_context b)
    (rb_deprovision_handler b) (Some port).

Record Reactivator := mkReactivator {
  re_stream_fn : Context_ → Store → prog E (result unit string);
  re_publisher : Publisher;
  re_state_store : Store;
  re_context : Context_;
  re_deprovision_handler : option (Store → prog E unit);
  re_port : option Z;
}.

(** The SDK's own publisher and store, when the builder names none. *)
Definition publisher_or_dapr (p : option Publisher) : outcome Publisher :=
  match p with
  | Some p => Done p
  | None =>
      match sdk_publisher_new env with
      | Done d => Done (sdk_publish big_number (env !! "SOURCE_ID"%string) d traceparent tracestate)
      | Panicked w => Panicked w
      end
  end.

Definition store_or_dapr (s : option Store) : prog connect_call Store :=
  match s with
  | Some ss => mret ss
  | None =>
      name ← dapr_connect;
      match name with
      | Ok name => mret (dapr_state_store name)
      | Err e => Panic ("called `Result::unwrap()` on an `Err` value: " +:+ e)
      end
  end.

(** [ReactivatorBuilder::build] *)
Definition reactivator_build (b : ReactivatorBuilder) : prog connect_call Reactivator :=
  match rb_stream_producer b with
  | None => Panic "Stream producer is required"
  | Some stream_fn =>
      match publisher_or_dapr (rb_publisher b) with
      | Panicked w => Panic w
      | Done publisher =>
          state_store ← store_or_dapr (rb_state_store b);
          match rb_context b with
          | None => Panic "context not defined"
          | Some context =>
              mret (mkReactivator stream_fn publisher state_store context
                      (rb_deprovision_handler b) (rb_port b))
          end
      end
  end.

(** ** Starting it *)

(** What a reactivator calls: the tracer, the source's code, its server, the
    select of its loop, the clock, and HTTP. *)
Inductive host_call : Type → Type :=
| HTracer (service_name : string) : host_call (result unit string)
| HSource X (c : E X) : host_call X
| HServe (ip : string) (port : Z) : host_call unit
| HSelect : host_call event
| HNow : host_call (result Z string)
| HHttp X (c : http_call X) : host_call X.

(** The calls of the reactivator's code, carried out by what it was built with. *)
Definition host_step (r : Reactivator) (X : Type) (c : reactivator_call X) (s : ())
    : prog host_call (X * ()) :=
  match c in reactivator_call X return prog host_call (X * ()) with
  | InitTracer n => x ← trigger (HTracer n); mret (x, s)
  | Produce =>
      x ← translate (λ X c, HSource X c) (re_stream_fn r (re_context r) (re_state_store r));
      mret (x, s)
  | Serve ip port => x ← trigger (HServe ip port); mret (x, s)
  | Select => x ← trigger HSelect; mret (x, s)
  | UnixNow => x ← trigger HNow; mret (x, s)
  | Publish c => x ← translate (λ X c, HHttp X c) (re_publisher r c); mret (x, s)
  end.

(** [Reactivator::start], its first [rounds] changes. *)
Definition reactivator_run (rounds : nat) (r : Reactivator) : prog host_call (() * ()) :=
  interp (host_step r) (reactivator_start (env !! "SOURCE_ID"%string) (re_port r) rounds) ().

(** The route the server offers: [AppState]'s handler on its store. *)
Definition deprovision_route (r : Reactivator) : prog E Z :=
  reactivator_deprovision (match re_deprovision_handler r with
    | Some handler => Some (handler (re_state_store r))
    | None => None
    end).
End reactivator.
Arguments ReactivatorBuilder : clear implicits.
Arguments Reactivator : clear implicits.
Arguments host_call : clear implicits.
Arguments HTracer {E} service_name.
Arguments HSource {E X} c.
Arguments HServe {E} ip port.
Arguments HSelect {E}.
Arguments HNow {E}.
Arguments HHttp {E X} c.

(** ** The proxy *)

Section proxy.
Context {E : Type → Type} {Context_ : Type}.
Context (env : Env).

Definition StreamProducer : Type :=
  Context_ → BootstrapRequest → prog E (result (list SourceElement) BootstrapError).

Record SourceProxyBuilder := mkProxyBuilder {
  pb_stream_producer : option StreamProducer;
  pb_port : option Z;
  pb_context : option Context_;
}.

Definition proxy_builder_new : SourceProxyBuilder := mkProxyBuilder None None None.
Definition proxy_with_stream_producer (f : StreamProducer) (b : SourceProxyBuilder)
    : SourceProxyBuilder := mkProxyBuilder (Some f) (pb_port b) (pb_context b).
Definition proxy_with_port (port : Z) (b : SourceProxyBuilder) : SourceProxyBuilder :=
  mkProxyBuilder (pb_stream_producer b) (Some port) (pb_context b).
Definition proxy_with_context (c : Context_) (b : SourceProxyBuilder) : SourceProxyBuilder :=
  mkProxyBuilder (pb_stream_producer b) (pb_port b) (Some c).

Record SourceProxy := mkSourceProxy {
  sx_stream_producer : StreamProducer;
  sx_port : Z;
  sx_context : Context_;
}.

(** [SourceProxyBuilder::build] *)
Definition proxy_build (b : SourceProxyBuilder) : outcome SourceProxy :=
  match pb_stream_producer b with
  | None => Panicked "called `Option::unwrap()` on a `None` value"
  | Some f =>
      match pb_context b with
      | Some c => Done (mkSourceProxy f (proxy_port (pb_port b)) c)
      | None => Panicked "context not defined"
      end
  end.

Inductive proxy_start_call : Type → Type :=
| PTracer (service_name : string) : proxy_start_call (result unit string)
| PBind (ip : string) (port : Z) : proxy_start_call (result unit string)
| PServe : proxy_start_call (result unit string).

(** [SourceProxy::start]: a server that fails is only logged. *)
Definition proxy_start (p : SourceProxy) : prog proxy_start_call unit :=
  match env !! "SOURCE_ID"%string with
  | None => Panic "SOURCE_ID required"
  | Some source_id =>
      tracer ← trigger (PTracer (source_id +:+ "-proxy"));
      match tracer with
      | Err e => Panic ("called `Result::unwrap()` on an `Err` value: " +:+ e)
      | Ok _ =>
          listener ← trigger (PBind "0.0.0.0" (sx_port p));
          match listener with
          | Err e => Panic ("Error binding to address: " +:+ e)
          | Ok _ => _ ← trigger PServe; mret ()
          end
      end
  end.

(** The routes of its server; [None] is the router's own answer. *)
Inductive ProxyAnswer := Streamed (r : ProxyResponse) | NoContent.

Definition proxy_route (p : SourceProxy) (method path : string) (body : value)
    : prog E (option ProxyAnswer) :=
  if str_eqb path "/acquire-stream" && str_eqb method "POST" then
    match bootstrap_request_from_value body with
    | Some request =>
        r ← proxy_stream (sx_stream_producer p) (sx_context p) request;
        mret (Some (Streamed r))
    | None => mret None
    end
  else if str_eqb path "/supports-stream" && (str_eqb method "GET" || str_eqb method "POST") then
    mret (Some NoContent)
  else mret None.
End proxy.
Arguments SourceProxyBuilder : clear implicits.
Arguments SourceProxy : clear implicits.
Arguments StreamProducer : clear implicits.

Definition without_context {E Store} (b : ReactivatorBuilder E Store ()) : ReactivatorBuilder E Store () :=
  with_context () b.
Definition proxy_without_context {E} (b : SourceProxyBuilder E ()) : SourceProxyBuilder E () :=
  proxy_with_context () b.

(** ** A source's [main]: building a reactivator and starting it *)

Inductive main_call (E : Type → Type) : Type → Type :=
| MConnect X (c : connect_call X) : main_call E X
| MHost X (c : host_call E X) : main_call E X.
Arguments MConnect {E X} c.
Arguments MHost {E X} c.

Section main.
Context {E : Type → Type} {Store Context_ : Type}.
Context (dapr_state_store : string → Store).
Context (big_number : Z → value) (traceparent tracestate : string) (env : Env).

Definition reactivator_main (rounds : nat) (b : ReactivatorBuilder E Store Context_)
    : prog (main_call E) (() * ()) :=
  r ← translate (λ X c, MConnect c)
        (reactivator_build dapr_state_store big_number traceparent tracestate env b);
  translate (λ X c, MHost c) (reactivator_run env rounds r).

(** ** What a reactivator sends *)

(** A change it was given, and a request it made: where to, what, and whether the
    answer was not an error. *)
Inductive host_event :=
| Given (c : SourceChange)
| Requested (url : string) (body : payload) (accepted : bool).

Definition http_requested {X} (c : http_call X) : X → option host_event :=
  match c in http_call X return X → _ with
  | HttpPost url _ body => λ r, Some (Requested url body
      match r with Ok resp => negb (is_error_status (hr_status resp)) | Err _ => false end)
  | _ => λ _, None
  end.

Definition http_seen (c : call http_call) : option host_event :=
  match c with Call e x => http_requested e x end.

Definition host_observed (c : call (host_call E)) : option host_event :=
  match c with
  | @Call _ X e x =>
      match e in host_call _ X return X → _ with
      | HSelect => λ e, match e with EvData c => Some (Given c) | _ => None end
      | HHttp c => http_requested c
      | _ => λ _, None
      end x
  end.

Definition main_observed (c : call (main_call E)) : option host_event :=
  match c with
  | @Call _ X e x =>
      match e in main_call _ X return X → _ with
      | MHost c => λ x, host_observed (Call c x)
      | MConnect _ => λ _, None
      end x
  end.

(** The same, of the reactivator's own calls. *)
Definition event_through (d : DaprPublisher) (c : call reactivator_call) : list host_event :=
  match c with
  | @Call _ X e x =>
      match e in reactivator_call X return X → _ with
      | Select => λ e, match e with EvData c => [Given c] | _ => [] end
      | Publish c => λ r, [Requested (sdk_publish_url d)
          (PJson (VArray [change_json big_number (env !! "SOURCE_ID"%string) c])) (is_ok r)]
      | _ => λ _, []
      end x
  end.

Lemma sdk_publish_requests G d c :
  under G (sdk_publish big_number (env !! "SOURCE_ID"%string) d traceparent tracestate c) (λ t o,
    ∃ r, o = Done r ∧ observe http_seen t =
      [Requested (sdk_publish_url d)
        (PJson (VArray [change_json big_number (env !! "SOURCE_ID"%string) c])) (is_ok r)]).
Proof.
  apply under_call. intros [resp|e] _; [|by eexists]. unfold observe. cbn.
  destruct (is_error_status (hr_status resp)); by eexists.
Qed.

(** A call of the reactivator, carried out with the SDK's publisher. *)
Lemma host_step_observed (r : Reactivator E Store Context_) d X (e : reactivator_call X) s :
  re_publisher r = sdk_publish big_number (env !! "SOURCE_ID"%string) d traceparent tracestate →
  always (host_step r X e s) (λ t o, ∀ x s', o = Done (x, s') →
    anything (Call e x) ∧ observe host_observed t = event_through d (Call e x)).
Proof.
  intros Hp. destruct e; cbn [host_step].
  - by intros x _ x' s' [= <- <-].
  - apply under_bind, under_translate. eapply under_mono; [| |apply (under_true anything)]; [done|].
    intros t [x|w] _; [|done]. intros x' s' [= <- <-]. split; [done|]. rewrite app_nil_r.
    induction t as [|[Y c y] t IH]; [done|exact IH].
  - by intros x _ x' s' [= <- <-].
  - intros x _ x' s' [= <- <-]. by destruct x.
  - by intros x _ x' s' [= <- <-].
  - rewrite Hp. apply under_bind, under_translate.
    eapply under_mono; [| |apply (sdk_publish_requests anything)]; [done|].
    intros t o (x & -> & Ht) x' s' [= <- <-]. split; [done|]. rewrite app_nil_r.
    cbn [event_through]. rewrite <-Ht. clear.
    induction t as [|[Y c y] t IH]; [done|]. unfold observe in *. cbn. by rewrite IH.
Qed.

Lemma given_received d te c :
  Given c ∈ flat_map (event_through d) te → c ∈ observe received_of te.
Proof.
  intros (x & Hx & Hin)%list_elem_of_In%in_flat_map. apply list_elem_of_omap.
  exists x. split; [by apply list_elem_of_In|]. destruct x as [X e x]. destruct e; cbn in Hin |- *; try done.
  - destruct x; cbn in Hin; naive_solver.
  - naive_solver.
Qed.

Lemma sent_requested d te c :
  (c, true) ∈ observe sent_of te →
  Requested (sdk_publish_url d)
    (PJson (VArray [change_json big_number (env !! "SOURCE_ID"%string) c])) true
    ∈ flat_map (event_through d) te.
Proof.
  intros (x & Hin & Hx)%list_elem_of_omap. apply list_elem_of_In, in_flat_map.
  exists x. split; [by apply list_elem_of_In|]. destruct x as [X e x]. destruct e; cbn in Hx |- *; try done.
  injection Hx as -> ->. by left.
Qed.

(** A reactivator whose run is over has had every change it was given accepted by
    the sidecar, stamped with the time. *)
Lemma reactivator_run_requests rounds (r : Reactivator E Store Context_) d :
  re_publisher r = sdk_publish big_number (env !! "SOURCE_ID"%string) d traceparent tracestate →
  always (reactivator_run env rounds r) (λ t o, ∀ x, o = Done x →
    ∀ c, Given c ∈ observe host_observed t → ∃ end_ns,
      Requested (sdk_publish_url d) (PJson (VArray [change_json big_number
        (env !! "SOURCE_ID"%string) (set_reactivator_end_ns end_ns c)])) true
        ∈ observe host_observed t).
Proof.
  intros Hp. eapply under_mono; [done| |
    apply (under_interp_observe _ host_observed (event_through d) anything anything _ _ _
      (reactivator_forwards_all (env !! "SOURCE_ID"%string) (re_port r) rounds));
    intros X e s; by apply host_step_observed].
  intros t o Ho [u s'] -> c Hc. destruct (Ho u s' eq_refl) as (te & Hall & Hobs).
  rewrite Hobs in Hc |- *. apply given_received in Hc.
  destruct Hall as (done_ & rest & acc & refused & Hr & Hs & Hst & -> & ->).
  rewrite app_nil_r in Hr, Hs. rewrite Hr in Hc.
  apply list_elem_of_lookup_1 in Hc as [i Hi].
  destruct (Forall2_lookup_l _ _ _ _ _ Hst Hi) as (p & Hacc & end_ns & ->).
  exists end_ns. apply sent_requested. rewrite Hs. by eapply list_elem_of_lookup_2.
Qed.

(** The reactivator that a builder without a publisher of its own builds. *)
Lemma reactivator_build_publisher (b : ReactivatorBuilder E Store Context_) :
  rb_publisher b = None →
  always (reactivator_build dapr_state_store big_number traceparent tracestate env b) (λ _ o,
    ∀ r, o = Done r → ∃ d, sdk_publisher_new env = Done d ∧
      re_publisher r = sdk_publish big_number (env !! "SOURCE_ID"%string) d traceparent tracestate).
Proof.
  intros Hb. unfold reactivator_build. destruct (rb_stream_producer b); [|done].
  rewrite Hb. unfold publisher_or_dapr. destruct (sdk_publisher_new env) as [d|w]; [|done].
  apply under_bind. eapply under_mono; [done| |apply under_true].
  intros t [s|w] _; [|done]. destruct (rb_context b); [|done]. intros r [= <-]. by exists d.
Qed.

Lemma reactivator_main_requests rounds (b : ReactivatorBuilder E Store Context_) :
  rb_publisher b = None →
  always (reactivator_main rounds b) (λ t o, ∀ x, o = Done x →
    ∃ d, sdk_publisher_new env = Done d ∧
    ∀ c, Given c ∈ observe main_observed t → ∃ end_ns,
      Requested (sdk_publish_url d) (PJson (VArray [change_json big_number
        (env !! "SOURCE_ID"%string) (set_reactivator_end_ns end_ns c)])) true
        ∈ observe main_observed t).
Proof.
  intros Hb. unfold reactivator_main. apply under_bind, under_translate.
  eapply under_mono; [| |by apply reactivator_build_publisher]; [done|].
  intros t [r|w] Hr; [|done]. destruct (Hr r eq_refl) as (d & Hd & Hp). apply under_translate.
  eapply under_mono; [| |exact (reactivator_run_requests rounds r d Hp)]; [done|].
  intros t' o Ho x Hx. exists d. split; [done|].
  assert (Hobs : observe main_observed (map (translate_call (λ X c, MConnect (E:=E) c)) t ++
    map (translate_call (λ X c, MHost c)) t') = observe host_observed t').
  { rewrite observe_app. assert (observe main_observed (map (translate_call (λ X c, MConnect (E:=E) c)) t) = []) as ->.
    { clear. induction t as [|[Y c y] t IH]; [done|exact IH]. }
    cbn [app]. clear. induction t' as [|[Y c y] t' IH]; [done|]. unfold observe in *. cbn. by rewrite IH. }
  exact (eq_ind_r (λ l, ∀ c, Given c ∈ l → ∃ end_ns, _ ∈ l) (Ho x Hx) Hobs).
Qed.
End main.
