(* ===== verification/KubeSource.v ===== *)
(** * KubeSource: Kubernetes objects as a source
    ([sources/kubernetes/kubernetes-proxy] and [kubernetes-reactivator])

    The Kubernetes API is reached by calls; [kube]'s objects are what the code
    reads of them.  The twelve kinds of objects are twelve instances of the same
    code.  A monitoring task never ends: it takes the number of its first
    rounds. *)
From S2P Require Import Prelude BTree Json Effects RustText SourceSdk SdkStores.

(** ** Objects and events *)

(** What [uid], [resource_version], [owner_references] and [serde_json::to_value]
    give for an object. *)
Record KObject := mkObject {
  ko_uid : option string;
  ko_resource_version : option string;
  ko_owners : list string;
  ko_json : result value string;
}.

Definition resource_kinds : list string :=
  ["Pod"; "Deployment"; "Ingress"; "ServiceAccount"; "Node"; "Service"; "ReplicaSet";
   "StatefulSet"; "DaemonSet"; "Job"; "PersistentVolume"; "PersistentVolumeClaim"]%string.

(** The relation from an owner to an object. *)
Definition owns (id owner : string) : SourceElement :=
  SRelation (owner +:+ "-" +:+ id) ["OWNS"%string] [] owner id.

Definition object_properties (o : KObject) : option jmap :=
  match ko_json o with Ok (VObject m) => Some m | _ => None end.

Definition object_label (properties : jmap) : option string :=
  match jget "kind" properties with Some (VString kind) => Some kind | _ => None end.

(** ** The proxy *)

Inductive proxy_call : Type → Type :=
| List_ (kind : string) (continue_token : option string)
    : proxy_call (result (list KObject * option string) string)
| TxElement (e : SourceElement) : proxy_call unit.

Notation P := (prog proxy_call).

Fixpoint send_owners (id : string) (owners : list string) : P unit :=
  match owners with
  | [] => mret ()
  | r :: owners => _ ← trigger (TxElement (owns id r)); send_owners id owners
  end.

(** The objects of one page. *)
Fixpoint stream_page (items : list KObject) : P (result unit BootstrapError) :=
  match items with
  | [] => mret (Ok ())
  | p :: items =>
      match ko_uid p with
      | None => stream_page items
      | Some id =>
          _ ← send_owners id (ko_owners p);
          match object_properties p with
          | None => stream_page items
          | Some properties =>
              match object_label properties with
              | None =>
                  mret (Err (InternalFailure "Invalid 'kind' from Kubernetes response"))
              | Some label =>
                  _ ← trigger (TxElement (SNode id [label] properties));
                  stream_page items
              end
          end
      end
  end.

(** The loop over the pages; [None] when more than [pages] come. *)
Fixpoint stream_pages (pages : nat) (kind : string) (items : list KObject) (next : option string)
    : P (option (result unit BootstrapError)) :=
  r ← stream_page items;
  match r with
  | Err e => mret (Some (Err e))
  | Ok _ =>
      match next with
      | None => mret (Some (Ok ()))
      | Some ct =>
          match pages with
          | O => mret None
          | S pages =>
              r ← trigger (List_ kind (Some ct));
              match r with
              | Err e => mret (Some (Err (InternalFailure e)))
              | Ok (items, next) => stream_pages pages kind items next
              end
          end
      end
  end.

Definition stream_resources (pages : nat) (kind : string) : P (option (result unit BootstrapError)) :=
  r ← trigger (List_ kind None);
  match r with
  | Err e => mret (Some (Err (InternalFailure e)))
  | Ok (items, next) => stream_pages pages kind items next
  end.

(** The spawned task's own result is not looked at: only a panic of the task
    would be an error, and it has none. *)
Definition check_resources (pages : nat) (req : BootstrapRequest) (kind : string)
    : P (option (result unit BootstrapError)) :=
  if decide (kind ∈ br_node_labels req) then
    r ← stream_resources pages kind;
    match r with
    | None => mret None
    | Some _ => mret (Some (Ok ()))
    end
  else mret (Some (Ok ())).

(** The kinds in the order the proxy asks for them. *)
Definition proxy_kinds : list string :=
  ["Pod"; "Deployment"; "ReplicaSet"; "StatefulSet"; "DaemonSet"; "Job"; "Service";
   "ServiceAccount"; "Node"; "Ingress"; "PersistentVolume"; "PersistentVolumeClaim"]%string.

Fixpoint check_all (pages : nat) (req : BootstrapRequest) (kinds : list string)
    : P (option (result unit BootstrapError)) :=
  match kinds with
  | [] => mret (Some (Ok ()))
  | kind :: kinds =>
      r ← check_resources pages req kind;
      match r with
      | Some (Ok _) => check_all pages req kinds
      | _ => mret r
      end
  end.

(** [my_stream] of the proxy: the stream yields what was sent. *)
Definition proxy_my_stream (pages : nat) (req : BootstrapRequest)
    : P (option (result unit BootstrapError)) :=
  check_all pages req proxy_kinds.

(** ** The reactivator *)

Inductive WatchEvent :=
| Added (o : KObject)
| Modified (o : KObject)
| Deleted (o : KObject)
| Bookmark (resource_version : string)
| WatchError (code : Z).

Inductive monitor_call : Type → Type :=
| StoreGet (key : string) : monitor_call (result (option string) string)
| StorePut (key data : string) : monitor_call (result unit string)
| StoreDelete (key : string) : monitor_call (result unit string)
| Watch (kind cursor : string) : monitor_call (result unit string)
| TryNext : monitor_call (result (option WatchEvent) string)
| Backoff (seconds : Z) : monitor_call unit
| NowNs : monitor_call (result Z string)
| TxChange (c : SourceChange) : monitor_call (result unit string).

Notation M := (prog monitor_call).

Definition load_cursor (kind : string) : M string :=
  r ← trigger (StoreGet kind);
  match r with
  | Ok (Some data) =>
      match from_utf8 data with
      | Some s => mret s
      | None => mret "0"%string
      end
  | Ok None => mret "0"%string
  | Err _ => mret "0"%string
  end.

Definition err_backoff_secs : Z := 30.

(** What an object's event is sent as: the node, then its owners' relations. *)
Definition object_changes (op : ChangeOp) (start_ns : Z) (o : KObject) : list SourceChange :=
  match ko_uid o with
  | None => []
  | Some id =>
      match object_properties o with
      | None => []
      | Some properties =>
          match object_label properties with
          | None => []
          | Some label =>
              map (λ e, change_new op e start_ns start_ns 0 None)
                (SNode id [label] properties :: map (owns id) (ko_owners o))
          end
      end
  end.

(** A send that fails is only logged. *)
Fixpoint send_changes (changes : list SourceChange) : M unit :=
  match changes with
  | [] => mret ()
  | c :: changes => _ ← trigger (TxChange c); send_changes changes
  end.

(** An added, modified or deleted object; the cursor afterwards. *)
Definition handle_object (op : ChangeOp) (o : KObject) (cursor : string) : M string :=
  now ← trigger NowNs;
  match now with
  | Err _ => Panic "Time went backwards"
  | Ok start_ns =>
      let cursor := default cursor (ko_resource_version o) in
      _ ← send_changes (object_changes op start_ns o);
      mret cursor
  end.

(** One round of the inner loop: whether it goes on, and the cursor. *)
Definition monitor_round (kind cursor : string) : M (bool * string) :=
  r ← trigger TryNext;
  match r with
  | Ok (Some (Added o)) => c ← handle_object OpCreate o cursor; mret (true, c)
  | Ok (Some (Modified o)) => c ← handle_object OpUpdate o cursor; mret (true, c)
  | Ok (Some (Deleted o)) => c ← handle_object OpDelete o cursor; mret (true, c)
  | Ok (Some (Bookmark rv)) =>
      _ ← trigger (StorePut kind rv);
      mret (true, rv)
  | Ok (Some (WatchError code)) =>
      if (code =? 410)%Z then mret (false, "0"%string)
      else _ ← trigger (Backoff err_backoff_secs); mret (false, cursor)
  | Ok None => mret (false, cursor)
  | Err _ => _ ← trigger (Backoff err_backoff_secs); mret (false, cursor)
  end.

(** The two loops: [watching] says whether a watch is open. *)
Fixpoint monitor_loop (rounds : nat) (kind cursor : string) (watching : bool) : M unit :=
  match rounds with
  | O => mret ()
  | S rounds =>
      if watching then
        '(go, cursor) ← monitor_round kind cursor;
        monitor_loop rounds kind cursor go
      else
        r ← trigger (Watch kind cursor);
        match r with
        | Err _ => _ ← trigger (Backoff err_backoff_secs); monitor_loop rounds kind cursor false
        | Ok _ => monitor_loop rounds kind cursor true
        end
  end.

Definition spawn_monitor_task (rounds : nat) (kind : string) : M unit :=
  cursor ← load_cursor kind;
  monitor_loop rounds kind cursor false.

(** The kinds whose cursors are deleted, in the order of the handler. *)
Fixpoint delete_cursors (kinds : list string) : M unit :=
  match kinds with
  | [] => mret ()
  | k :: kinds => _ ← trigger (StoreDelete k); delete_cursors kinds
  end.

Definition deprovision : M unit := delete_cursors proxy_kinds.

(** ** What the proxy serves *)

(** The elements an object is served as. *)
Definition served (o : KObject) : list SourceElement :=
  match ko_uid o with
  | None => []
  | Some id =>
      map (owns id) (ko_owners o) ++
      match object_properties o with
      | None => []
      | Some m => match object_label m with Some l => [SNode id [l] m] | None => [] end
      end
  end.

Definition element_of (c : call proxy_call) : option SourceElement :=
  match c with
  | @Call _ X e x =>
      match e in proxy_call X return X → _ with TxElement e => λ _, Some e | _ => λ _, None end x
  end.

Notation page := (string * option string * result (list KObject * option string) string)%type.

Definition page_of (c : call proxy_call) : option page :=
  match c with
  | @Call _ X e x =>
      match e in proxy_call X return X → _ with
      | List_ kind ct => λ r, Some (kind, ct, r)
      | _ => λ _, None
      end x
  end.

Definition page_items (p : page) : list KObject :=
  match p with (_, _, Ok (items, _)) => items | _ => [] end.

(** [k8s_openapi] writes an object's kind. *)
Definition labelled (o : KObject) : Prop :=
  ∀ m, object_properties o = Some m → is_Some (object_label m).

Definition pages_labelled (c : call proxy_call) : Prop :=
  ∀ p, page_of c = Some p → Forall labelled (page_items p).

(** The listing of one kind: page after page, until there is no more or one
    cannot be had. *)
Inductive paged (kind : string) : option string → list page → Prop :=
| paged_end ct items : paged kind ct [(kind, ct, Ok (items, None))]
| paged_failed ct e : paged kind ct [(kind, ct, Err e)]
| paged_next ct items ct' l :
    paged kind (Some ct') l → paged kind ct ((kind, ct, Ok (items, Some ct')) :: l).

Lemma send_owners_calls G id owners :
  under G (send_owners id owners) (λ t o, o = Done () ∧
    observe element_of t = map (owns id) owners ∧ observe page_of t = []).
Proof.
  induction owners as [|r owners IH]; [done|]. cbn [send_owners]. apply under_call. intros [] _.
  eapply under_mono; [done| |exact IH]. intros t o (-> & He & Hp). split; [done|].
  unfold observe in *. cbn. by rewrite He.
Qed.

Lemma stream_page_calls G items : Forall labelled items →
  under G (stream_page items) (λ t o, o = Done (Ok ()) ∧
    observe element_of t = flat_map served items ∧ observe page_of t = []).
Proof.
  induction 1 as [|p items Hp _ IH]; [done|]. cbn [stream_page flat_map]. unfold served at 1.
  unfold labelled in Hp. destruct (ko_uid p) as [id|]; [|exact IH].
  apply under_bind. eapply under_mono; [done| |apply send_owners_calls].
  intros t o (-> & He & Hn). destruct (object_properties p) as [m|].
  2:{ eapply under_mono; [done| |exact IH]. intros t' o (-> & He' & Hn').
      by rewrite !observe_app, He, He', Hn, Hn', app_nil_r. }
  destruct (Hp m eq_refl) as [l ->]. apply under_call. intros [] _.
  eapply under_mono; [done| |exact IH]. intros t' o (-> & He' & Hn').
  split; [done|]. unfold observe in *. rewrite !omap_app. cbn.
  by rewrite He, He', Hn, Hn', <-app_assoc.
Qed.

(** What the calls say: every listed object was served, in order. *)
Definition all_served (t : list (call proxy_call)) : Prop :=
  observe element_of t = flat_map served (flat_map page_items (observe page_of t)).

Lemma all_served_app t t' : all_served t → all_served t' → all_served (t ++ t').
Proof.
  unfold all_served. intros H H'. by rewrite !observe_app, H, H', flat_map_app, flat_map_app.
Qed.

Lemma stream_pages_calls pages kind ct items next : Forall labelled items →
  under pages_labelled (stream_pages pages kind items next) (λ t o,
    observe element_of t =
      flat_map served items ++ flat_map served (flat_map page_items (observe page_of t)) ∧
    ∃ r, o = Done r ∧
    (is_Some r → paged kind ct ((kind, ct, Ok (items, next)) :: observe page_of t))).
Proof.
  revert ct items next. induction pages as [|pages IH]; intros ct items next Hl; cbn [stream_pages];
    apply under_bind; (eapply under_mono; [done| |by apply stream_page_calls]);
    intros t o (-> & He & Hp); (destruct next as [ct'|];
      [|cbn; rewrite app_nil_r, He, Hp, app_nil_r; split; [done|]; eexists; split; [done|];
        intros _; constructor]).
  { cbn. rewrite app_nil_r, He, Hp, app_nil_r. split; [done|]. eexists. split; [done|]. by intros []. }
  apply under_call. intros [[items' next']|err] Hg.
  - assert (Hl' : Forall labelled items') by exact (Hg _ eq_refl).
    eapply under_mono; [done| |exact (IH (Some ct') items' next' Hl')].
    intros t' o (He' & r & -> & Hr). unfold observe in *. rewrite !omap_app. cbn.
    rewrite He, Hp, He'. cbn. rewrite flat_map_app. split; [done|]. eexists. split; [done|].
    intros H. constructor. by apply Hr.
  - cbn. unfold observe in *. rewrite !omap_app, He, Hp. cbn. rewrite !app_nil_r.
    split; [done|]. eexists. split; [done|]. intros _. constructor. constructor.
Qed.

Lemma check_resources_calls pages req kind :
  under pages_labelled (check_resources pages req kind) (λ t o, all_served t ∧
    ∃ r, o = Done r ∧ (r = None ∨ r = Some (Ok ()) ∧
      if decide (kind ∈ br_node_labels req) then paged kind None (observe page_of t)
      else observe page_of t = [])).
Proof.
  unfold check_resources. destruct (decide _).
  2:{ split; [done|]. eexists. split; [done|]. by right. }
  apply under_bind. unfold stream_resources. apply under_call. intros [[items next]|err] Hg.
  - assert (Hl : Forall labelled items) by exact (Hg _ eq_refl).
    eapply under_mono; [done| |exact (stream_pages_calls pages kind None items next Hl)].
    intros t o (He & r & -> & Hr). unfold all_served, observe in *.
    destruct r as [r|]; cbn; rewrite !app_nil_r, He; cbn; rewrite flat_map_app;
      (split; [done|]); eexists; (split; [done|]); [|by left].
    right. split; [done|]. by apply Hr.
  - cbn. split; [done|]. eexists. split; [done|]. right. split; [done|]. constructor.
Qed.

(** The listings of several kinds, one after another. *)
Fixpoint listings (kinds : list string) (l : list page) : Prop :=
  match kinds with
  | [] => l = []
  | kind :: kinds => ∃ l1 l2, l = l1 ++ l2 ∧ paged kind None l1 ∧ listings kinds l2
  end.

Lemma check_all_calls pages req kinds :
  under pages_labelled (check_all pages req kinds) (λ t o, all_served t ∧
    ∃ r, o = Done r ∧ (r = None ∨ r = Some (Ok ()) ∧
      listings (filter (.∈ br_node_labels req) kinds) (observe page_of t))).
Proof.
  induction kinds as [|kind kinds IH]; cbn [check_all].
  { split; [done|]. eexists. split; [done|]. by right. }
  apply under_bind. eapply under_mono; [done| |apply check_resources_calls].
  intros t o (Hs & r & -> & [->|[-> Hp]]).
  { cbn. rewrite app_nil_r. split; [done|]. eexists. split; [done|]. by left. }
  eapply under_mono; [done| |exact IH]. intros t' o (Hs' & r & -> & Hr).
  split; [by apply all_served_app|]. exists r. split; [done|].
  destruct Hr as [->|[-> Hr]]; [by left|]. right. split; [done|].
  rewrite observe_app, filter_cons. destruct (decide _); [|by rewrite Hp].
  by exists (observe page_of t), (observe page_of t').
Qed.

(** C18: the initial data of a Kubernetes source.  For every kind the request asks
    for, in a fixed order, the objects are listed page after page until the last
    one, and every listed object with an identifier is served, in order: a
    relation from each of its owners, then its node.  No other kind is listed.
    (A page that cannot be had ends its kind and is not reported: the request
    succeeds with what there is.) *)
Theorem kube_bootstrap_serves_objects pages req :
  under pages_labelled (proxy_my_stream pages req) (λ t o, all_served t ∧
    ∃ r, o = Done r ∧ (r = None ∨ r = Some (Ok ()) ∧
      listings (filter (.∈ br_node_labels req) proxy_kinds) (observe page_of t))).
Proof. apply check_all_calls. Qed.

(** A Kubernetes API that refuses to list: the request still succeeds, empty. *)
Lemma list_failure_not_reported req :
  under (λ c, match page_of c with Some (_, _, Ok _) => False | _ => True end)
    (proxy_my_stream 0 req) (λ t o, o = Done (Some (Ok ())) ∧ observe element_of t = []).
Proof.
  unfold proxy_my_stream. induction proxy_kinds as [|kind kinds IH]; [done|]. cbn [check_all].
  unfold check_resources. destruct (decide _); [|exact IH].
  apply under_bind, under_bind. unfold stream_resources. apply under_call.
  intros [[items next]|err] Hg; [done|]. cbn. exact IH.
Qed.

(** ** What the monitoring task does *)

Inductive mstep :=
| Watched (cursor : string)
| Saw (e : WatchEvent)
| Sent (c : SourceChange) (taken : bool)  (** whether the channel took it *)
| Stored (resource_version : string).

Definition mstep_of (c : call monitor_call) : option mstep :=
  match c with
  | @Call _ X e x =>
      match e in monitor_call X return X → _ with
      | Watch _ cursor => λ _, Some (Watched cursor)
      | TryNext => λ r, match r with Ok (Some e) => Some (Saw e) | _ => None end
      | TxChange c => λ r, Some (Sent c (is_ok r))
      | StorePut _ rv => λ _, Some (Stored rv)
      | _ => λ _, None
      end x
  end.

(** The changes an event is turned into. *)
Definition event_changes (start_ns : Z) (e : WatchEvent) : list SourceChange :=
  match e with
  | Added o => object_changes OpCreate start_ns o
  | Modified o => object_changes OpUpdate start_ns o
  | Deleted o => object_changes OpDelete start_ns o
  | Bookmark _ | WatchError _ => []
  end.

(** The changes were given to the channel, in order, whatever it answered. *)
Definition sends (changes : list SourceChange) (l : list mstep) : Prop :=
  Forall2 (λ c s, ∃ taken, s = Sent c taken) changes l.

(** What follows an event. *)
Definition reaction (start_ns : Z) (e : WatchEvent) (l : list mstep) : Prop :=
  match e with Bookmark rv => l = [Stored rv] | e => sends (event_changes start_ns e) l end.

(** The version to go on from after an event. *)
Definition next_cursor (cursor : string) (e : WatchEvent) : string :=
  match e with
  | Added o | Modified o | Deleted o => default cursor (ko_resource_version o)
  | Bookmark rv => rv
  | WatchError code => if (code =? 410)%Z then "0"%string else cursor
  end.

(** A run from a cursor: each watch starts at the cursor, each event is dealt with
    completely before the next one. *)
Inductive run_from : string → list mstep → Prop :=
| rf_nil c : run_from c []
| rf_watch c l : run_from c l → run_from c (Watched c :: l)
| rf_event c e start_ns l l' :
    reaction start_ns e l → run_from (next_cursor c e) l' → run_from c (Saw e :: l ++ l').

(** Every change of the event was given to the channel in these steps. *)
Definition handed (start_ns : Z) (e : WatchEvent) (steps : list mstep) : Prop :=
  ∀ c, c ∈ event_changes start_ns e → ∃ taken, Sent c taken ∈ steps.

Lemma sends_handed changes l c : sends changes l → c ∈ changes → ∃ taken, Sent c taken ∈ l.
Proof.
  intros Hs [i Hi]%list_elem_of_lookup_1. destruct (Forall2_lookup_l _ _ _ _ _ Hs Hi) as (s & Hl & taken & ->).
  exists taken. by eapply list_elem_of_lookup_2.
Qed.

Lemma sends_only_sent changes l s : sends changes l → s ∈ l → ∃ c taken, s = Sent c taken.
Proof.
  intros Hs [i Hi]%list_elem_of_lookup_1. destruct (Forall2_lookup_r _ _ _ _ _ Hs Hi) as (c & _ & taken & ->).
  by exists c, taken.
Qed.

Lemma reaction_handed start_ns e l : reaction start_ns e l → handed start_ns e l.
Proof. intros H c Hc. destruct e; try by eapply sends_handed. by apply elem_of_nil in Hc. Qed.

Lemma reaction_not_saw start_ns e l e' : reaction start_ns e l → Saw e' ∉ l.
Proof.
  intros H Hin. destruct e; try by destruct (sends_only_sent _ _ _ H Hin) as (? & ? & ?).
  cbn in H. subst l. by apply list_elem_of_singleton in Hin.
Qed.

Lemma reaction_stored start_ns e l rv : reaction start_ns e l → Stored rv ∈ l → event_changes start_ns e = [].
Proof. intros H Hin. destruct e; [by destruct (sends_only_sent _ _ _ H Hin) as (? & ? & ?)..|done|done]. Qed.

(** Before a version is stored, the changes of every event seen so far were given
    to the channel. *)
Lemma run_from_before c steps l1 rv l2 e :
  run_from c steps → steps = l1 ++ Stored rv :: l2 → Saw e ∈ l1 → ∃ start_ns, handed start_ns e l1.
Proof.
  intros Hr. revert l1. induction Hr as [c|c l Hr IH|c e0 ns l l' Hl Hr IH]; intros l1 Heq Hin.
  - by destruct l1.
  - destruct l1 as [|x l1]; [done|]. injection Heq as <- Heq.
    apply list.elem_of_cons in Hin as [|Hin]; [done|]. destruct (IH l1 Heq Hin) as [ns Hh].
    exists ns. intros ch Hch. destruct (Hh ch Hch) as [taken ?]. exists taken. by right.
  - destruct l1 as [|x l1]; [done|]. injection Heq as <- Heq.
    assert (handed ns e0 l1 ∧ (Saw e ∈ l1 → ∃ m, l1 = l ++ m ∧ l' = m ++ Stored rv :: l2)) as [H0 Hrest].
    { apply app_eq_app in Heq as (m & [[-> Hm]|[-> Hm]]).
      - destruct m as [|y m]; cbn in Hm; [|injection Hm as <- Hm].
        + rewrite app_nil_r in *. split; [by apply reaction_handed|]. intros _. exists [].
          by rewrite app_nil_r.
        + split; [|intros Hsaw; exfalso; eapply reaction_not_saw; [exact Hl|apply elem_of_app; by left]].
          intros ch Hch. rewrite (reaction_stored ns e0 _ rv Hl) in Hch; [by apply elem_of_nil in Hch|].
          apply elem_of_app. right. by left.
      - split; [|by exists m]. intros ch Hch. destruct (reaction_handed _ _ _ Hl ch Hch) as [taken ?].
        exists taken. apply elem_of_app. by left. }
    apply list.elem_of_cons in Hin as [[= ->]|Hin].
    + exists ns. intros ch Hch. destruct (H0 ch Hch) as [taken ?]. exists taken. by right.
    + destruct (Hrest Hin) as (m & -> & Hm). apply elem_of_app in Hin as [Hin|Hin];
        [by destruct (reaction_not_saw _ _ _ _ Hl Hin)|].
      destruct (IH m Hm Hin) as [ns' Hh]. exists ns'. intros ch Hch.
      destruct (Hh ch Hch) as [taken ?]. exists taken. right. apply elem_of_app. by right.
Qed.

(** The clock does not go backwards. *)
Definition clock_ok (c : call monitor_call) : Prop :=
  match c with
  | @Call _ X e x =>
      match e in monitor_call X return X → Prop with
      | NowNs => λ r, is_ok r = true
      | _ => λ _, True
      end x
  end.

Lemma send_changes_steps G changes :
  under G (send_changes changes) (λ t o, o = Done () ∧ sends changes (observe mstep_of t)).
Proof.
  induction changes as [|c changes IH]; [split; [done|constructor]|]. cbn [send_changes].
  apply under_call. intros r _. eapply under_mono; [done| |exact IH]. intros t o (-> & Hs).
  split; [done|]. constructor; [by eexists | exact Hs].
Qed.

Lemma handle_object_steps op o cursor :
  under clock_ok (handle_object op o cursor) (λ t out, ∃ start_ns,
    out = Done (default cursor (ko_resource_version o)) ∧
    sends (object_changes op start_ns o) (observe mstep_of t)).
Proof.
  unfold handle_object. apply under_call. intros [start_ns|err] Hc; [|done].
  apply under_bind. eapply under_mono; [done| |apply send_changes_steps].
  intros t out (-> & Hs). exists start_ns. split; [done|]. cbn. by rewrite app_nil_r.
Qed.

Definition round_follows (cursor : string) (t : list (call monitor_call))
    (o : outcome (bool * string)) : Prop :=
  (∃ go, o = Done (go, cursor) ∧ observe mstep_of t = []) ∨
  (∃ go e start_ns l, o = Done (go, next_cursor cursor e) ∧ reaction start_ns e l ∧
     observe mstep_of t = Saw e :: l).

Lemma monitor_round_follows kind cursor :
  under clock_ok (monitor_round kind cursor) (round_follows cursor).
Proof.
  assert (Hobj : ∀ op o e, next_cursor cursor e = default cursor (ko_resource_version o) →
    (∀ ns l, sends (object_changes op ns o) l → reaction ns e l) →
    under clock_ok (c ← handle_object op o cursor; mret (true, c))
      (λ t, round_follows cursor (Call TryNext (Ok (Some e)) :: t))).
  { intros op o e Hn Hr. apply under_bind. eapply under_mono; [done| |apply handle_object_steps].
    intros t out (ns & -> & Hs). right. exists true, e, ns, (observe mstep_of t). rewrite Hn.
    split; [done|]. split; [by apply Hr|]. unfold observe in *. cbn. by rewrite app_nil_r. }
  unfold monitor_round. apply under_call. intros [[[o|o|o|rv|code]|]|err] _.
  - by apply Hobj.
  - by apply Hobj.
  - by apply Hobj.
  - apply under_call. intros r _. right. by exists true, (Bookmark rv), 0%Z, [Stored rv].
  - destruct (code =? 410)%Z eqn:Hcode; [|apply under_call; intros [] _];
      right; exists false, (WatchError code), 0%Z, []; cbn; rewrite Hcode;
      (split; [done|]); (split; [constructor|done]).
  - left. by exists false.
  - apply under_call. intros [] _. left. by exists false.
Qed.

Lemma monitor_loop_follows rounds kind cursor watching :
  under clock_ok (monitor_loop rounds kind cursor watching) (λ t o,
    o = Done () ∧ run_from cursor (observe mstep_of t)).
Proof.
  revert cursor watching. induction rounds as [|rounds IH]; intros cursor watching;
    [split; [done|constructor]|]. cbn [monitor_loop]. destruct watching.
  - apply under_bind. eapply under_mono; [done| |apply monitor_round_follows].
    intros t o [(go & -> & Hs)|(go & e & ns & l & -> & Hl & Hs)];
      (eapply under_mono; [done| |apply IH]); intros t' o (-> & Hr);
      (split; [done|]); rewrite observe_app, Hs; [done|]. by apply (rf_event cursor e ns).
  - apply under_call. intros [u|err] _; [|apply under_call; intros [] _];
      (eapply under_mono; [done| |apply IH]); intros t' o (-> & Hr);
      (split; [done|]); unfold observe in *; cbn; by constructor.
Qed.

(** The cursor that was loaded, and what was stored. *)
Definition loaded (r : result (option string) string) : string :=
  match r with Ok (Some data) => default "0"%string (from_utf8 data) | _ => "0" end.

Lemma monitor_task_follows rounds kind :
  under clock_ok (spawn_monitor_task rounds kind) (λ t o, o = Done () ∧
    ∃ r t', t = Call (StoreGet kind) r :: t' ∧ run_from (loaded r) (observe mstep_of t')).
Proof.
  assert (Hloop : ∀ r, under clock_ok (monitor_loop rounds kind (loaded r) false) (λ t o,
    o = Done () ∧ ∃ r' t', Call (StoreGet kind) r :: t = Call (StoreGet kind) r' :: t' ∧
      run_from (loaded r') (observe mstep_of t'))).
  { intros r. eapply under_mono; [done| |apply monitor_loop_follows].
    intros t o (-> & Hr). split; [done|]. by exists r, t. }
  intros r _. specialize (Hloop r). unfold loaded in Hloop.
  destruct r as [[data|]|err]; cbn; [|exact Hloop..].
  destruct (from_utf8 data) as [s|]; exact Hloop.
Qed.

(** What a run does to the store. *)
Definition store_step (key_data : string * option string) (m : gmap string string) : gmap string string :=
  match key_data with (k, Some d) => <[k := d]> m | (k, None) => delete k m end.

Definition store_of (c : call monitor_call) : option (string * option string) :=
  match c with
  | @Call _ X e _ =>
      match e with
      | StorePut k d => Some (k, Some d)
      | StoreDelete k => Some (k, None)
      | _ => None
      end
  end.

(** The versions stored by a run. *)
Definition stored (steps : list mstep) : list string :=
  omap (λ s, match s with Stored rv => Some rv | _ => None end) steps.

(** A monitoring task stores nothing but its own cursor. *)
Definition own_store (kind : string) (c : call monitor_call) : Prop :=
  match store_of c with
  | Some (k, Some rv) => k = kind ∧ mstep_of c = Some (Stored rv)
  | Some (_, None) => False
  | None => ∀ rv, mstep_of c ≠ Some (Stored rv)
  end.

Lemma own_stores kind t :
  Forall (own_store kind) t →
  observe store_of t = map (λ rv, (kind, Some rv)) (stored (observe mstep_of t)).
Proof.
  induction 1 as [|c t Hc _ IH]; [done|]. change (c :: t) with ([c] ++ t).
  rewrite !observe_app. unfold stored. rewrite omap_app, map_app. f_equal; [|exact IH].
  unfold own_store in Hc. unfold observe. cbn [omap list_omap].
  destruct (store_of c) as [[k [rv|]]|]; [|done|].
  - destruct Hc as [-> ->]. done.
  - destruct (mstep_of c) as [[cursor|e|sc taken|rv]|]; [done..| |done]. by destruct (Hc rv).
Qed.

Lemma send_changes_own kind changes :
  always (send_changes changes) (λ t _, Forall (own_store kind) t).
Proof.
  induction changes as [|c changes IH]; [constructor|]. cbn [send_changes]. apply under_call.
  intros r _. eapply under_mono; [done| |exact IH]. by constructor.
Qed.

Lemma handle_object_own kind op o cursor :
  always (handle_object op o cursor) (λ t _, Forall (own_store kind) t).
Proof.
  unfold handle_object. apply under_call. intros [ns|err] _; [|by repeat constructor].
  apply under_bind. eapply under_mono; [done| |apply send_changes_own].
  intros t [[]|w] Ht; [cbn; rewrite app_nil_r|]; by constructor.
Qed.

Lemma monitor_round_own kind cursor :
  always (monitor_round kind cursor) (λ t _, Forall (own_store kind) t).
Proof.
  assert (Hobj : ∀ op o e, always (c ← handle_object op o cursor; mret (true, c))
    (λ t _, Forall (own_store kind) (Call TryNext (Ok (Some e)) :: t))).
  { intros op o e. apply under_bind. eapply under_mono; [done| |apply (handle_object_own kind)].
    intros t [c|w] Ht; [cbn; rewrite app_nil_r|]; by constructor. }
  unfold monitor_round. apply under_call. intros [[[o|o|o|rv|code]|]|err] _;
    [apply Hobj|apply Hobj|apply Hobj|..].
  - apply under_call. intros r _. by repeat constructor.
  - destruct (code =? 410)%Z; [|apply under_call; intros [] _]; by repeat constructor.
  - by repeat constructor.
  - apply under_call. intros [] _. by repeat constructor.
Qed.

Lemma monitor_loop_own rounds kind cursor watching :
  always (monitor_loop rounds kind cursor watching) (λ t _, Forall (own_store kind) t).
Proof.
  revert cursor watching. induction rounds as [|rounds IH]; intros cursor watching; [constructor|].
  cbn [monitor_loop]. destruct watching.
  - apply under_bind. eapply under_mono; [done| |apply (monitor_round_own kind)].
    intros t [[go c]|w] Ht; [|done]. eapply under_mono; [done| |apply IH].
    intros t' o Ht'. by apply Forall_app.
  - apply under_call. intros [u|err] _; [|apply under_call; intros [] _];
      (eapply under_mono; [done| |apply IH]); intros t o Ht; by repeat constructor.
Qed.

(** Reading the cursor, then the loop. *)
Lemma run_spawn_monitor_task {W} (h : ∀ X, monitor_call X → W → X * W) rounds kind w :
  run h (spawn_monitor_task rounds kind) w =
    let '(x, w1) := h _ (StoreGet kind) w in
    let '(o, w2, t) := run h (monitor_loop rounds kind (loaded x) false) w1 in
    (o, w2, Call (StoreGet kind) x :: t).
Proof.
  unfold spawn_monitor_task, load_cursor, loaded. cbn [mbind prog_bind trigger run].
  destruct (h _ (StoreGet kind) w) as [[[data|]|err] w1]; [|done..]. by destruct (from_utf8 data).
Qed.

(** ** Over a state store that works *)

Section restart.
Context {S R : Type} `{StateStoreLaws S}.
(** Kubernetes, the clock and the channel. *)
Context (rest : ∀ X, monitor_call X → R → X * R).
Context (clock : ∀ r, is_ok (rest _ NowNs r).1 = true).

Definition on_store (X : Type) (c : monitor_call X) (w : S * R) : X * (S * R) :=
  match c in monitor_call X return (R → X * R) → X * (S * R) with
  | StoreGet key => λ _, let '(x, s) := ss_get key w.1 in (x, (s, w.2))
  | StorePut key data => λ _, let '(x, s) := ss_put key data w.1 in (x, (s, w.2))
  | StoreDelete key => λ _, let '(x, s) := ss_delete key w.1 in (x, (s, w.2))
  | c => λ f, let '(x, r) := f w.2 in (x, (w.1, r))
  end (rest X c).

Definition no_empty (t : list (call monitor_call)) : Prop :=
  ∀ k, (k, Some EmptyString) ∉ observe store_of t.

Lemma run_store {A} (p : M A) w :
  let '(o, w', t) := run on_store p w in
  no_empty t → ss_view w'.1 = foldl (λ m kd, store_step kd m) (ss_view w.1) (observe store_of t).
Proof.
  revert w. induction p as [a|why|X e k IH]; intros [s r]; [done..|]. cbn [run].
  destruct (on_store X e (s, r)) as [x w1] eqn:Hstep. specialize (IH x w1).
  destruct (run on_store (k x) w1) as [[o w2] t]. intros Hne.
  assert (Hne' : no_empty t).
  { intros key Hin. apply (Hne key). change (Call e x :: t) with ([Call e x] ++ t).
    rewrite observe_app. apply elem_of_app. by right. }
  rewrite (IH Hne'). clear IH.
  assert (Hobs : observe store_of (Call e x :: t) =
    match store_of (Call e x) with Some kd => kd :: observe store_of t | None => observe store_of t end)
    by reflexivity.
  assert (Hview : ss_view w1.1 =
    match store_of (Call e x) with Some kd => store_step kd (ss_view s) | None => ss_view s end).
  { destruct e; cbn in Hstep |- *;
      try (destruct (rest _ _ r) as [y r']; by injection Hstep as _ <-).
    - destruct (ss_get_spec key s) as (s' & E & Hv). rewrite E in Hstep. by injection Hstep as _ <-.
    - destruct (ss_put_spec key data s) as (s' & E & Hv).
      { intros ->. apply (Hne key). unfold observe. cbn. by left. }
      rewrite E in Hstep. by injection Hstep as _ <-.
    - destruct (ss_delete_spec key s) as (s' & E & Hv). rewrite E in Hstep. by injection Hstep as _ <-. }
  rewrite Hview, Hobs. by destruct (store_of (Call e x)).
Qed.

Lemma on_store_clock X (e : monitor_call X) w : clock_ok (Call e (on_store X e w).1).
Proof.
  destruct e; try done. pose proof (clock w.2) as Hc. cbn. by destruct (rest _ NowNs w.2).
Qed.

(** What a run does, and the store it leaves. *)
Lemma task_run rounds kind s r :
  let '(o, w, t) := run on_store (spawn_monitor_task rounds kind) (s, r) in
  let c := default "0"%string (ss_view s !! kind ≫= from_utf8) in
  o = Done () ∧ run_from c (observe mstep_of t) ∧
  (EmptyString ∉ stored (observe mstep_of t) →
   ss_view w.1 !! kind =
     match list.last (stored (observe mstep_of t)) with
     | Some rv => Some rv
     | None => ss_view s !! kind
     end).
Proof.
  rewrite run_spawn_monitor_task. cbn [on_store fst snd].
  destruct (ss_get_spec kind s) as (s1 & -> & Hv).
  set (c := loaded (Ok (ss_view s !! kind))).
  assert (Hc : c = default "0"%string (ss_view s !! kind ≫= from_utf8)).
  { unfold c, loaded. by destruct (ss_view s !! kind). }
  rewrite <-Hc.
  pose proof (under_run clock_ok on_store _ _ (s1, r) on_store_clock
    (monitor_loop_follows rounds kind c false)) as Hf.
  pose proof (always_run on_store _ _ (s1, r) (monitor_loop_own rounds kind c false)) as Ho.
  pose proof (run_store (monitor_loop rounds kind c false) (s1, r)) as Hs.
  destruct (run on_store _ _) as [[o w] t]. destruct Hf as [-> Hr]. cbn [fst] in Hs.
  split; [done|]. split; [done|]. intros Hne.
  pose proof (own_stores kind t Ho) as Hstores.
  assert (Hne' : no_empty t).
  { intros k. rewrite Hstores. intros Hin%list_elem_of_fmap. destruct Hin as (rv & [= -> <-] & Hin).
    by apply Hne. }
  change (stored (observe mstep_of (Call (StoreGet kind) (Ok (ss_view s !! kind)) :: t)))
    with (stored (observe mstep_of t)).
  rewrite (Hs Hne'), Hstores, Hv. clear.
  generalize (ss_view s) as m. induction (stored (observe mstep_of t)) as [|rv l IH] using rev_ind;
    intros m; [done|].
  rewrite map_app, foldl_app, last_snoc. cbn. by rewrite lookup_insert_eq.
Qed.

(** C37: a Kubernetes source that restarts goes on where its bookmark says.  Over a
    state store that works, a monitoring task goes from version to version: each
    watch starts at the version reached, every event is turned into its changes -
    the object's node, then its owners' relations - and these are given to the
    source's channel in order before the next event is taken.  A bookmark is stored
    only after the changes of all events before it were given to the channel.
    After a restart the next
    task goes on from the last bookmark stored, or from where the first one began
    when there was none: the events after that are asked for again.  (What the
    channel answers is not looked at: a change it refuses, because the source's
    stream is gone, is not sent again, and the bookmark is stored all the same.) *)
Theorem kube_restart_resumes rounds rounds' kind s r :
  let '(o, w, t) := run on_store (spawn_monitor_task rounds kind) (s, r) in
  let '(o', _, t') := run on_store (spawn_monitor_task rounds' kind) w in
  (∀ rv, rv ∈ stored (observe mstep_of t) → from_utf8 rv = Some rv ∧ rv ≠ EmptyString) →
  let c := default "0"%string (ss_view s !! kind ≫= from_utf8) in
  o = Done () ∧ run_from c (observe mstep_of t) ∧
  (∀ before rv after e, observe mstep_of t = before ++ Stored rv :: after → Saw e ∈ before →
     ∃ start_ns, handed start_ns e before) ∧
  o' = Done () ∧
  run_from (default c (list.last (stored (observe mstep_of t)))) (observe mstep_of t').
Proof.
  pose proof (task_run rounds kind s r) as H1.
  destruct (run on_store (spawn_monitor_task rounds kind) (s, r)) as [[o [s1 r1]] t].
  pose proof (task_run rounds' kind s1 r1) as H2.
  destruct (run on_store (spawn_monitor_task rounds' kind) (s1, r1)) as [[o' w'] t'].
  destruct H1 as (-> & Hr1 & Hv), H2 as (-> & Hr2 & _). intros Hgood.
  do 2 (split; [done|]). split; [intros before rv after e; by apply run_from_before with (1 := Hr1)|].
  split; [done|]. cbn [fst] in Hv. rewrite Hv in Hr2.
  2:{ intros Hin. by destruct (Hgood _ Hin). }
  destruct (list.last (stored (observe mstep_of t))) as [rv|] eqn:E; [|exact Hr2].
  apply last_Some_elem_of, Hgood in E as [E _]. cbn in Hr2 |- *. by rewrite E in Hr2.
Qed.

End restart.

(** ** An example *)

Definition example_pod (version : string) : KObject :=
  mkObject (Some "u1"%string) (Some version) ["rs1"%string]
    (Ok (VObject [("kind", VString "Pod")]%string)).

(** Kubernetes hands out these events, the clock stands still. *)
Definition example_rest (X : Type) (c : monitor_call X) (events : list WatchEvent)
    : X * list WatchEvent :=
  match c in monitor_call X return X * list WatchEvent with
  | StoreGet _ => (Ok None, events)
  | StorePut _ _ => (Ok (), events)
  | StoreDelete _ => (Ok (), events)
  | Watch _ _ => (Ok (), events)
  | TryNext =>
      match events with e :: events => (Ok (Some e), events) | [] => (Ok None, []) end
  | Backoff _ => ((), events)
  | NowNs => (Ok 1000%Z, events)
  | TxChange _ => (Ok (), events)
  end.

Definition example_events : list WatchEvent :=
  [Added (example_pod "5"); Bookmark "7"; Modified (example_pod "9"); Deleted (example_pod "11")].

Lemma kube_restart_resumes_witness :
  let '(_, w, t) := run (on_store example_rest) (spawn_monitor_task 4 "Pod")
    (memory_new, example_events) in
  let '(_, _, t') := run (on_store example_rest) (spawn_monitor_task 2 "Pod") w in
  stored (observe mstep_of t) = ["7"%string] ∧ run_from "7" (observe mstep_of t').
Proof.
  pose proof (kube_restart_resumes example_rest (λ _, eq_refl) 4 2 "Pod" memory_new example_events)
    as H.
  assert (Ht : stored (observe mstep_of (run (on_store example_rest) (spawn_monitor_task 4 "Pod")
    (memory_new, example_events)).2) = ["7"%string]) by by vm_compute.
  destruct (run (on_store example_rest) (spawn_monitor_task 4 "Pod") (memory_new, example_events))
    as [[o w] t].
  destruct (run (on_store example_rest) (spawn_monitor_task 2 "Pod") w) as [[o' w'] t'].
  cbn [snd] in Ht. split; [exact Ht|]. rewrite Ht in H.
  destruct H as (_ & _ & _ & _ & H); [|exact H].
  intros rv Hin. apply list_elem_of_singleton in Hin as ->. split; [by vm_compute|done].
Defined.

(** A change the channel refuses is lost: the bookmark after it is stored. *)
Example refused_change_bookmarked :
  let refusing X (c : monitor_call X) (events : list WatchEvent) : X * list WatchEvent :=
    match c in monitor_call X return X * list WatchEvent → X * list WatchEvent with
    | TxChange _ => λ _, (Err "channel closed"%string, events)
    | _ => λ r, r
    end (example_rest X c events) in
  let '(_, w, t) := run (on_store refusing) (spawn_monitor_task 3 "Pod")
    (memory_new, [Added (mkObject (Some "u1"%string) (Some "5"%string) []
       (Ok (VObject [("kind", VString "Pod")]%string))); Bookmark "7"]) in
  ss_view w.1 !! "Pod"%string = Some "7"%string ∧
  omap (λ s, match s with Sent _ taken => Some taken | _ => None end) (observe mstep_of t) = [false].
Proof. vm_compute. done. Qed.

(** A deprovisioned source forgets every cursor. *)
Lemma deprovision_deletes_cursors :
  always deprovision (λ t o, o = Done () ∧
    observe store_of t = map (λ k, (k, None)) proxy_kinds).
Proof.
  unfold deprovision. induction proxy_kinds as [|k kinds IH]; [done|]. cbn [delete_cursors].
  apply under_call. intros r _. eapply under_mono; [done| |exact IH].
  intros t o (-> & Hs). split; [done|]. unfold observe in *. cbn. by rewrite Hs.
Qed.

Lemma deprovisioned_kinds k : k ∈ resource_kinds ↔ k ∈ proxy_kinds.
Proof.
  assert (H : resource_kinds ≡ₚ proxy_kinds) by (apply (bool_decide_unpack _); by vm_compute).
  by rewrite H.
Qed.
