(* ===== verification/SourcePipeline.v ===== *)
(** * SourcePipeline: a source's change, from the reactivator to the engine

    The services between a source and a query host each handle the change as a
    JSON document of their own form.  The theorem here follows it through the
    router and the dispatcher to what the query host makes of it. *)
From S2P Require Import Prelude BTree Json Effects RustText Comms Core HostApi ViewApi Wire.
From S2P Require SourceSdk ChangeRouter ChangeRouterSpec ChangeDispatcher ChangeDispatcherSpec.
Import SourceSdk(SourceElement, SNode, SRelation, ChangeOp, OpCreate, OpUpdate, OpDelete).
Import ChangeRouter(Nodes, Rels, Subscribers, subs_of, subscriber_json).

(** What the change means to the engine. *)
Section core.
Context `{DrasiCore}.

Definition core_element (source_id : string) (timestamp : Z) (e : SourceElement) : Element :=
  match e with
  | SNode id labels properties =>
      ENode (mkMetadata (mkReference source_id id) labels timestamp) (properties_of_map properties)
  | SRelation id labels properties start_id end_id =>
      ERelation (mkMetadata (mkReference source_id id) labels timestamp)
        (properties_of_map properties) (mkReference source_id start_id)
        (mkReference source_id end_id)
  end.

Definition core_change (source_id : string) (c : SourceSdk.SourceChange) : SourceChange :=
  let timestamp := (SourceSdk.sc_source_ns c / 1000000)%Z in
  let e := core_element source_id timestamp (SourceSdk.sc_element c) in
  match SourceSdk.sc_op c with
  | OpCreate => SInsert e
  | OpUpdate => SUpdate e
  | OpDelete => SDelete (element_metadata e)
  end.
End core.

Definition element_labels (e : SourceElement) : list string :=
  match e with SNode _ labels _ => labels | SRelation _ labels _ _ _ => labels end.
Definition element_kind (e : SourceElement) : ChangeRouter.kind :=
  match e with SNode _ _ _ => Nodes | SRelation _ _ _ _ _ => Rels end.

(** The query with these labels asked for elements like this one: it subscribed to
    one of its labels. *)
Definition concerns (c : SourceSdk.SourceChange) (nls rls : list string) : Prop :=
  let e := SourceSdk.sc_element c in
  ∃ l, l ∈ element_labels e ∧ l ∈ ChangeRouterSpec.labels_of (element_kind e) nls rls.

(** Every label of the element is one that some query subscribed to. *)
Definition known (c : SourceSdk.SourceChange) (s : Subscribers) : Prop :=
  let e := SourceSdk.sc_element c in
  ChangeRouterSpec.known s (element_kind e) (element_labels e).

Lemma unknown_label c s :
  ¬ known c s → ∃ l, l ∈ element_labels (SourceSdk.sc_element c) ∧
    ChangeRouter.label_map (subs_of (element_kind (SourceSdk.sc_element c)) s) !! l = None.
Proof.
  intros Hun. set (m := ChangeRouter.label_map _).
  destruct (decide (Forall (λ l, is_Some (m !! l)) (element_labels (SourceSdk.sc_element c)))) as [Hf|Hf].
  - destruct Hun. intros l Hl. rewrite list.Forall_forall in Hf. by apply Hf.
  - apply not_Forall_Exists in Hf; [|apply _]. apply list.Exists_exists in Hf as (l & Hl & Hn).
    exists l. split; [done|]. by apply eq_None_not_Some.
Qed.

Section pipeline.
Context `{DrasiCore}.
Context (json_text : value → string) (json_parse : string → result value string).
Context (big_number : Z → value) (source_id_var : option string).

Notation change_json := (SourceSdk.change_json big_number source_id_var).
Notation text n q := (json_text (subscriber_json n q)).

Implicit Type c : SourceSdk.SourceChange.

(** ** What the router reads of a change *)

Lemma source_table c :
  ChangeRouter.source_field (change_json c) "table" =
    VString (match SourceSdk.sc_element c with SNode _ _ _ => "node" | SRelation _ _ _ _ _ => "rel" end).
Proof. by destruct c as [[] [] [] ? ? ? ?]. Qed.

Lemma source_ts c :
  (SourceSdk.sc_source_ns c < u64_modulus)%Z →
  as_u64_num (ChangeRouter.source_field (change_json c) "ts_ns") = Some (SourceSdk.sc_source_ns c).
Proof.
  intros Hts. assert (SourceSdk.json_u128 big_number (SourceSdk.sc_source_ns c) =
    VNumber (NPos (SourceSdk.sc_source_ns c))) as Hj.
  { unfold SourceSdk.json_u128. by rewrite (proj2 (Z.ltb_lt _ _) Hts). }
  assert (ChangeRouter.source_field (change_json c) "ts_ns" =
    SourceSdk.json_u128 big_number (SourceSdk.sc_source_ns c)) as -> by by destruct c as [[] [] [] ? ? ns ?].
  by rewrite Hj.
Qed.

Lemma not_subscription c : ChangeRouter.is_subscription_event (change_json c) = false.
Proof.
  unfold ChangeRouter.is_subscription_event. rewrite source_table.
  destruct (SourceSdk.sc_element c); apply andb_false_r.
Qed.

Definition where_labels (op : ChangeOp) : list string :=
  match op with OpDelete => ["payload"; "before"; "labels"] | _ => ["payload"; "after"; "labels"] end%string.

Lemma source_labels_path c :
  ChangeRouter.labels_path (change_json c) = Some (where_labels (SourceSdk.sc_op c)).
Proof. by destruct c as [[] [] [] ? ? ? ?]. Qed.

Lemma label_strs_strings l : label_strs (map VString l) = l.
Proof. unfold label_strs. rewrite map_map. apply map_id. Qed.

Lemma source_labels c :
  ChangeRouter.labels_at (change_json c) (where_labels (SourceSdk.sc_op c)) =
    Some (element_labels (SourceSdk.sc_element c)).
Proof.
  rewrite <-(label_strs_strings (element_labels (SourceSdk.sc_element c))).
  by destruct c as [[] [] [] ? ? ? ?].
Qed.

Lemma source_kind c :
  ChangeRouterSpec.change_kind (change_json c) = Some (element_kind (SourceSdk.sc_element c)).
Proof. unfold ChangeRouterSpec.change_kind. rewrite source_table. by destruct (SourceSdk.sc_element c). Qed.

(** ** What the query host makes of it *)

Definition payload_of (e : SourceElement) : ChangePayload :=
  match e with
  | SNode id labels properties => mkPayload (Some id) (Some labels) (Some properties) None None
  | SRelation id labels properties start_id end_id =>
      mkPayload (Some id) (Some labels) (Some properties) (Some start_id) (Some end_id)
  end.

Lemma payload_from_element e :
  payload_from_value (SourceSdk.element_json e) = Some (payload_of e).
Proof.
  destruct e as [id labels props|id labels props start_id end_id]; unfold payload_from_value;
    cbn [as_object mbind option_bind SourceSdk.element_json];
    rewrite (opt_field_of _ VString _ "id" (Some id)) by done; cbn [mbind option_bind];
    rewrite (opt_field_of _ (λ l, VArray (map VString l)) _ "labels" (Some labels))
      by (reflexivity || apply of_list_strings || done); cbn [mbind option_bind];
    rewrite (opt_field_of _ VObject _ "properties" (Some props)) by done; cbn [mbind option_bind].
  - by rewrite !opt_field_missing.
  - rewrite (opt_field_of _ VString _ "startId" (Some start_id)) by done. cbn [mbind option_bind].
    by rewrite (opt_field_of _ VString _ "endId" (Some end_id)).
Qed.

Lemma payload_option e :
  match SourceSdk.element_json e with
  | VNull => Some None
  | v => a ← payload_from_value v; Some (Some a)
  end = Some (Some (payload_of e)).
Proof. pose proof (payload_from_element e) as Hp. destruct e; cbn [SourceSdk.element_json] in *; by rewrite Hp. Qed.

Definition event_of (source_id id : string) (qs : list string) (md : jmap)
    (c : SourceSdk.SourceChange) : ChangeEvent :=
  let p := Some (payload_of (SourceSdk.sc_element c)) in
  mkChangeEvent id source_id
    {| t_seq := SourceSdk.sc_seq c; t_ms := (SourceSdk.sc_source_ns c / 1000000)%Z |} qs
    (match SourceSdk.sc_op c with OpCreate => CtInsert | OpUpdate => CtUpdate | OpDelete => CtDelete end)
    (Some (match SourceSdk.sc_element c with SNode _ _ _ => TNode | _ => TRelation end))
    (match SourceSdk.sc_op c with OpDelete => p | _ => None end)
    (match SourceSdk.sc_op c with OpDelete => None | _ => p end)
    None None (Some md).

Lemma event_try_into source_id id qs md c :
  try_into (event_of source_id id qs md c) = Ok (core_change source_id c).
Proof. by destruct c as [[] [] ? ? ? ? ?]. Qed.

Lemma decode_dispatched c source_id id texts start end_ n ev body qs :
  ChangeRouter.change_dispatch_event json_parse source_id (change_json c) id texts
    (SourceSdk.sc_source_ns c) start end_ = VArray [ev] →
  ChangeDispatcherSpec.body_for ev
    (map (ChangeRouter.parse_subscription json_parse) texts) n body →
  ChangeDispatcher.queries_of n (map (ChangeRouter.parse_subscription json_parse) texts) =
    map VString qs →
  ∃ md, change_event_from_value body = Some (event_of source_id id qs md c).
Proof.
  intros Hev (Hc & Hq & [m ->] & [md Hmd]) Hqs. injection Hev as <-. exists md.
  rewrite Hqs in Hq. unfold change_event_from_value. cbn [as_object mbind option_bind].
  assert (∀ k v, k ≠ "queries"%string → k ≠ "metadata"%string → jindex _ k = v →
    jindex (VObject m) k = v) as Hi by (intros k v Hkq Hkm <-; by apply Hc). clear Hc.
  rewrite (field_index m "id" (VString id)), (field_index m "sourceId" (VString source_id)),
    (field_index m "queries" _ Hq) by (done || by apply Hi).
  cbn [mbind option_bind as_str]. rewrite of_list_strings.
  rewrite (field_index m "time" (VObject (jobject [("seq", VNumber (NPos (SourceSdk.sc_seq c)));
    ("ms", VNumber (NPos (SourceSdk.sc_source_ns c / 1000000)))]%string)))
    by (done || (apply Hi; [done..|]; by destruct c as [[] [] [] ? ? ? ?])).
  rewrite (field_index m "type" (VString (SourceSdk.op_str (SourceSdk.sc_op c))))
    by (done || (apply Hi; [done..|]; by destruct c as [[] [] [] ? ? ? ?])).
  rewrite !opt_field_index, Hmd.
  rewrite (Hi "elementType"%string (VString (match SourceSdk.sc_element c with
      SNode _ _ _ => "node" | SRelation _ _ _ _ _ => "rel" end)%string))
    by (done || by destruct c as [[] [] [] ? ? ? ?]).
  rewrite (Hi "before"%string (match SourceSdk.sc_op c with
      OpDelete => SourceSdk.element_json (SourceSdk.sc_element c) | _ => VNull end))
    by (done || by destruct c as [[] [] [] ? ? ? ?]).
  rewrite (Hi "after"%string (match SourceSdk.sc_op c with
      OpDelete => VNull | _ => SourceSdk.element_json (SourceSdk.sc_element c) end))
    by (done || by destruct c as [[] [] [] ? ? ? ?]).
  rewrite (Hi "futureDueTime"%string VNull), (Hi "futureSignature"%string VNull) by done.
  unfold event_of. destruct (SourceSdk.sc_op c); rewrite payload_option;
    by destruct (SourceSdk.sc_element c).
Qed.
(** ** The subscriptions on their way *)

(** The maps hold subscriber documents only. *)
Definition proper (s : Subscribers) : Prop :=
  ∀ k l t, ChangeRouterSpec.has (subs_of k s) l t → ∃ n q, t = text n q.

Definition keeps_proper (s s' : Subscribers) : Prop := proper s → proper s'.

#[local] Instance keeps_proper_preorder : PreOrder keeps_proper.
Proof. split; [by intros s Hs | intros s1 s2 s3 H12 H23 H1; auto]. Qed.

Lemma serve_proper show_status config publisher sm requests s G :
  under G (ChangeRouterSpec.serve json_text json_parse show_status config publisher sm requests s)
    (λ _ o, ∀ rs s', o = Done (rs, s') → keeps_proper s s').
Proof.
  revert s. induction requests as [|[header body] requests IH]; intros s;
    cbn [ChangeRouterSpec.serve]; [by intros ?? [= _ <-]|].
  apply under_bind. eapply under_mono; [done| |apply (under_interp_inv _ _ keeps_proper)].
  - intros t [[r s1]|w] Hk; [|done]. apply under_bind. eapply under_mono; [done| |apply IH].
    intros t' [[rs s2]|w] Hk'; [|done]. intros ?? [= _ <-].
    etrans; [by eapply Hk | by eapply Hk'].
  - intros X [k Y [labels n q|labels]|Y e] s1.
    + intros x s' [= _ <-] Hp k' l t Ht.
      assert (t = text n q ∨ ChangeRouterSpec.has (subs_of k' s1) l t) as [->|Hs]; [|by eexists _, _|by eapply Hp].
      destruct k, k'; cbn in Ht |- *; rewrite ?ChangeRouterSpec.has_add_labels in Ht; naive_solver.
    + cbn. apply under_bind. eapply under_mono; [done| |apply under_true].
      intros t [r|w] _; [by intros ?? [= _ <-]|done].
    + intros x _ y s' [= _ <-]. done.
Qed.

Lemma subscribers_of_in m labels texts t :
  ChangeRouterSpec.subscribers_of m labels = Some texts → t ∈ texts →
  ∃ l, ChangeRouterSpec.has m l t.
Proof.
  revert texts. induction labels as [|l labels IH]; intros texts; cbn.
  { intros [= <-] []%elem_of_nil. }
  destruct (ChangeRouter.label_map m !! l) as [set|] eqn:E; [|done]. cbn.
  destruct (ChangeRouterSpec.subscribers_of m labels) as [rest|]; [|done]. cbn.
  intros [= <-] [Ht|Ht]%elem_of_app; [|by eapply IH].
  exists l, set. split; [done|]. by apply elem_of_elements.
Qed.

Lemma routes_proper s change texts :
  proper s → ChangeRouterSpec.routes s change = Some texts →
  ∀ t, t ∈ texts → ∃ n q, t = text n q.
Proof.
  unfold ChangeRouterSpec.routes. intros Hp Hr t Ht.
  destruct (ChangeRouterSpec.change_kind change) as [k|]; [|done]. cbn in Hr.
  destruct (ChangeRouter.labels_path change) as [path|]; [|done]. cbn in Hr.
  destruct (ChangeRouter.labels_at change path) as [labels|]; [|done]. cbn in Hr.
  destruct (subscribers_of_in _ _ _ _ Hr Ht) as [l Hl]. by eapply Hp.
Qed.

Hypothesis json_roundtrip : ∀ n q, json_parse (text n q) = Ok (subscriber_json n q).

Lemma parsed_pairs texts :
  (∀ t, t ∈ texts → ∃ n q, t = text n q) →
  ∃ pairs : list (string * string), texts = map (λ p, text p.1 p.2) pairs ∧
    map (ChangeRouter.parse_subscription json_parse) texts =
      map (λ p, subscriber_json p.1 p.2) pairs.
Proof.
  induction texts as [|t texts IH]; intros Ht; [by exists []|].
  destruct (Ht t) as (n & q & ->); [left|].
  destruct IH as (pairs & -> & Hm); [intros; apply Ht; by right|].
  exists ((n, q) :: pairs). split; [done|]. cbn. rewrite Hm. f_equal.
  unfold ChangeRouter.parse_subscription. by rewrite json_roundtrip.
Qed.

Lemma queries_of_pairs n pairs :
  ChangeDispatcher.queries_of n (map (λ p, subscriber_json p.1 p.2) pairs) =
  map VString (map snd (filter (λ p, p.1 = n) pairs)).
Proof.
  induction pairs as [|[n' q'] pairs IH]; [done|]. rewrite filter_cons.
  unfold ChangeDispatcher.queries_of in *. cbn [map List.filter fst snd].
  change (is_str (jindex (subscriber_json n' q') "queryNodeId") n) with (str_eqb n' n).
  unfold str_eqb. destruct (decide (n' = n)) as [->|Hne].
  - rewrite bool_decide_eq_true_2 by done. cbn [map]. by rewrite IH.
  - by rewrite bool_decide_eq_false_2.
Qed.

Lemma node_of_pair p : ChangeDispatcher.node_of (subscriber_json p.1 p.2) = p.1.
Proof. reflexivity. Qed.

(** The routed event can be written to by the dispatcher. *)
Lemma routed_writable source_id c id texts ts start end_ ev :
  ChangeRouter.change_dispatch_event json_parse source_id (change_json c) id texts ts start end_ =
    VArray [ev] → ChangeDispatcherSpec.writable ev.
Proof. intros [= <-]. unfold ChangeDispatcherSpec.writable. by eexists. Qed.

Lemma routed_subscriptions source_id c id texts ts start end_ ev :
  ChangeRouter.change_dispatch_event json_parse source_id (change_json c) id texts ts start end_ =
    VArray [ev] →
  as_array (jindex ev "subscriptions") =
    Some (map (ChangeRouter.parse_subscription json_parse) texts).
Proof. by intros [= <-]. Qed.
(** ** From the router to the host *)

Section services.
Context (show_status : Z → string) (debug_str : string → string).
Context (header_name header_value : string → result string string).
Context (config : ChangeRouter.ChangeRouterConfig) (publisher : DaprHttpPublisher).
Context (sm : ChangeRouter.DaprStateManager) (invoker : DaprHttpInvoker).

Notation route := (ChangeRouter.receive_on json_text json_parse show_status config publisher sm).
Notation dispatch := (ChangeDispatcher.receive show_status debug_str header_name header_value invoker).

(** The request that tells a container's publish API of a change. *)
Definition told (n q : string) (source_id : string) c (p : string * payload * bool) : Prop :=
  ∃ body e, p = (invoke_url invoker (n +:+ "-publish-api") "change", PJson body, true) ∧
    change_event_from_value body = Some e ∧ has_query e q = true ∧
    try_into e = Ok (core_change source_id c).

Lemma dispatched_change_told traceparent n q source_id c id texts pairs start end_ ev body :
  ChangeRouter.change_dispatch_event json_parse source_id (change_json c) id texts
    (SourceSdk.sc_source_ns c) start end_ = VArray [ev] →
  texts = map (λ p, text p.1 p.2) pairs →
  map (ChangeRouter.parse_subscription json_parse) texts =
    map (λ p, subscriber_json p.1 p.2) pairs →
  (n, q) ∈ pairs → jindex body "data" = VArray [ev] →
  under ChangeDispatcherSpec.order_ok (dispatch traceparent body) (λ t o,
    (∀ w, o ≠ Panicked w) ∧ (o = Done ChangeDispatcher.DispatchOk →
      Exists (told n q source_id c) (observe ChangeDispatcherSpec.disp_posted t))).
Proof.
  intros Hev Htexts Hparse Hin Hbody.
  eapply under_mono; [done| |by apply (ChangeDispatcherSpec.receive_delivers _ _ _ _ _ _ _ [ev])].
  intros t o (o' & Hbd & ->). destruct o' as [[[]|e]|w].
  2:{ by split. }
  2:{ destruct Hbd. constructor; [by eapply routed_writable | constructor]. }
  split; [done|]. intros _. destruct Hbd as (parts & -> & Hparts).
  inversion Hparts as [|? part ? parts' Hd Hnil]; subst. inversion Hnil; subst. cbn.
  rewrite app_nil_r. destruct Hd as (subs & nodes & Hsubs & _ & Hnodes & Hsent).
  rewrite (routed_subscriptions _ _ _ _ _ _ _ _ Hev) in Hsubs. injection Hsubs as <-.
  assert (n ∈ nodes) as Hn.
  { apply Hnodes. rewrite Hparse, map_map. apply list_elem_of_fmap. by exists (n, q). }
  apply list_elem_of_lookup_1 in Hn as [i Hi].
  destruct (Forall2_lookup_l _ _ _ _ _ Hsent Hi) as (p & Hp & body' & -> & Hbody').
  apply list.Exists_exists. eexists. split; [by eapply list_elem_of_lookup_2|].
  destruct (decode_dispatched c source_id id _ start end_ n ev body'
    (map snd (filter (λ p, p.1 = n) pairs)) Hev Hbody') as [md Hmd].
  { rewrite Hparse. apply queries_of_pairs. }
  eexists _, _. split; [done|]. split; [exact Hmd|]. split; [|apply event_try_into].
  apply bool_decide_eq_true. apply (list_elem_of_fmap_2 snd _ (n, q)).
  by apply list_elem_of_filter.
Qed.

(** What becomes of a request to the router that carries one change, when it
    answers with success: it published exactly one event, and the dispatcher, when
    it receives that event, does not panic and, if it answers with success, has
    told the container of the change. *)
Definition reaches_query (header : option string) (traceparent : string) (body : value)
    (n q source_id : string) (c : SourceSdk.SourceChange) (s : Subscribers) : Prop :=
  under ChangeRouterSpec.order_ok (route header body s) (λ t o, ∀ s',
    o = Done (ChangeRouter.Success, s') →
    ∃ event, ChangeRouterSpec.posted t = [(publish_url publisher, PJson event, true)] ∧
      ∀ body', jindex body' "data" = event →
      under ChangeDispatcherSpec.order_ok (dispatch traceparent body') (λ t o,
        (∀ w, o ≠ Panicked w) ∧ (o = Done ChangeDispatcher.DispatchOk →
          Exists (told n q source_id c) (observe ChangeDispatcherSpec.disp_posted t)))).

(** A change reaches every query that subscribed to it, as what it was.
    Take any history of requests to the router, and any query registered there
    for one of the labels of the changed element (for some container [n]), all of
    whose labels some query subscribed to.  When a
    source's change comes from the reactivator and the router answers with
    success, it published exactly one event; when the dispatcher receives that
    event it does not panic, and if it answers with success, the container's
    publish API accepted a document that the query host reads as a change event
    for this query and converts, for the engine, to the same insertion, update
    or deletion of the same element, with its labels, properties and ends, in
    the time unit of the engine. *)
Theorem change_reaches_subscribed_query requests header traceparent body c n q nls rls :
  jindex body "data" = VArray [change_json c] →
  (SourceSdk.sc_source_ns c < u64_modulus)%Z → concerns c nls rls →
  under ChangeRouterSpec.order_ok
    (ChangeRouterSpec.serve json_text json_parse show_status config publisher sm requests
       ChangeRouter.no_subscribers) (λ _ o, ∀ rs s, o = Done (rs, s) →
    ChangeRouterSpec.registered json_text s n q nls rls → known c s →
    reaches_query header traceparent body n q (ChangeRouter.cr_source_id config) c s).
Proof.
  intros Hb Hns (l & Hl & Hmine). eapply under_mono; [done| |apply serve_proper].
  intros _ o Hp rs s -> Hreg Hknown. specialize (Hp _ _ eq_refl).
  assert (proper s) as Hproper.
  { apply Hp. intros k l' t (set & Hset & _). destruct k; cbn in Hset; by rewrite lookup_empty in Hset. }
  destruct (ChangeRouterSpec.known_routes json_text s n q nls rls (change_json c)
    (element_kind (SourceSdk.sc_element c)) (element_labels (SourceSdk.sc_element c))
    (where_labels (SourceSdk.sc_op c)) l) as (texts & Hr & Hin);
    [done|apply source_kind|apply source_labels_path|apply source_labels|done..|].
  eapply under_mono; [done| |apply (ChangeRouterSpec.receive_batch json_text json_parse show_status
    config publisher sm header body [change_json c] s Hb)];
    [|constructor; [apply not_subscription | constructor]].
  intros t o (r & -> & Hbatch) s' Heq. destruct r as [[]|e]; [|done].
  destruct Hbatch as (d & rest & acc & ref & Hd & Hpost & Hacc & -> & ->).
  rewrite app_nil_r in *. subst d. rewrite Hpost.
  rewrite filter_cons, decide_True in Hacc by (by eexists).
  inversion Hacc as [|? p ? acc' Hdis Hnil]; subst. inversion Hnil; subst.
  destruct Hdis as (texts' & subs & id & ts & start & end_ & Hr' & Hs & Hts & ->).
  rewrite Hr in Hr'. injection Hr' as <-. rewrite (source_ts c Hns) in Hts. injection Hts as <-.
  eexists. split; [done|]. intros body' Hb'.
  destruct (parsed_pairs subs) as (pairs & Hpairs & Hparse).
  { intros t' Ht'. eapply routes_proper; [exact Hproper | exact Hr | by rewrite <-Hs]. }
  eapply dispatched_change_told; [reflexivity|exact Hpairs|exact Hparse| |exact Hb'].
  rewrite <-Hs, Hpairs in Hin. apply list_elem_of_fmap_1 in Hin as ([n' q'] & Ht & Hin).
  apply (f_equal json_parse) in Ht. cbn in Ht. rewrite !json_roundtrip in Ht.
  injection Ht as -> ->. exact Hin.
Qed.
(** A change of an element with a label that no query subscribed to is answered
    with success and published to nobody. *)
Lemma unknown_change_dropped header body c l s :
  jindex body "data" = VArray [change_json c] → l ∈ element_labels (SourceSdk.sc_element c) →
  ChangeRouter.label_map (subs_of (element_kind (SourceSdk.sc_element c)) s) !! l = None →
  under ChangeRouterSpec.order_ok (route header body s) (λ t o,
    o = Done (ChangeRouter.Success, s) ∧ ChangeRouterSpec.posted t = []).
Proof.
  intros Hb Hl Hnone. eapply ChangeRouterSpec.unknown_label_hides_change;
    [exact Hb|apply not_subscription|apply source_kind|apply source_labels_path|apply source_labels|
     exact Hl|exact Hnone].
Qed.
End services.
End pipeline.

(** ** Example *)

Definition mark_end : Ascii.ascii := Ascii.ascii_of_nat 124.
Definition mark_char : Ascii.ascii := Ascii.ascii_of_nat 120.

(** A text for subscriber documents: each character marked, each part ended. *)
Fixpoint marked (s rest : string) : string :=
  match s with
  | EmptyString => String mark_end rest
  | String c s => String mark_char (String c (marked s rest))
  end.

Fixpoint unmarked (s : string) : option (string * string) :=
  match s with
  | String m s =>
      if Ascii.eqb m mark_end then Some (EmptyString, s)
      else match s with
           | String c s => '(a, rest) ← unmarked s; Some (String c a, rest)
           | EmptyString => None
           end
  | EmptyString => None
  end.

Definition example_text (v : value) : string :=
  marked (default EmptyString (as_str (jindex v "queryNodeId")))
    (marked (default EmptyString (as_str (jindex v "queryId"))) EmptyString).

Definition example_parse (s : string) : result value string :=
  match unmarked s with
  | Some (n, s) =>
      match unmarked s with
      | Some (q, _) => Ok (subscriber_json n q)
      | None => Err "EOF"%string
      end
  | None => Err "EOF"%string
  end.

Lemma unmarked_marked s rest : unmarked (marked s rest) = Some (s, rest).
Proof. induction s as [|c s IH]; [done|]. cbn. by rewrite IH. Qed.

Lemma example_roundtrip n q : example_parse (example_text (subscriber_json n q)) = Ok (subscriber_json n q).
Proof. unfold example_parse, example_text. cbn. by rewrite !unmarked_marked. Qed.

#[local] Instance pipeline_core : DrasiCore :=
  {| ElementPropertyMap := jmap; properties_of_map := λ m, m; VariableValue := value;
     json_of_variable := λ v, v |}.

Definition example_change : SourceSdk.SourceChange :=
  SourceSdk.change_new OpUpdate (SNode "n1" ["Person"%string] [("name"%string, VString "Ada")])
    100 5000000 7 None.

Definition example_source_json : value :=
  SourceSdk.change_json (λ _, VNull) (Some "hr"%string) example_change.

Definition example_config : ChangeRouter.ChangeRouterConfig :=
  ChangeRouter.mkConfig "hr" "drasi-state" "drasi-pubsub" "http://otel-collector:4318" "3500" "3000".
Definition example_publisher : DaprHttpPublisher :=
  mkDaprPublisher "127.0.0.1" 3500 "drasi-pubsub" "hr-dispatch".
Definition example_manager : ChangeRouter.DaprStateManager :=
  ChangeRouter.mkStateManager "127.0.0.1" 3500 "drasi-state".
Definition example_invoker : DaprHttpInvoker := mkDaprInvoker "127.0.0.1" 3500.

Definition example_requests : list (option string * value) :=
  [(None, ChangeRouterSpec.request [ChangeRouterSpec.example_sub])].

Lemma change_reaches_subscribed_query_witness :
  under ChangeRouterSpec.order_ok
    (ChangeRouterSpec.serve example_text example_parse show_unsigned example_config example_publisher
       example_manager example_requests ChangeRouter.no_subscribers) (λ _ o, ∀ rs s, o = Done (rs, s) →
    ChangeRouterSpec.registered example_text s "default" "q1" ["Person"%string] [] →
    known example_change s →
    under ChangeRouterSpec.order_ok (ChangeRouter.receive_on example_text example_parse show_unsigned
        example_config example_publisher example_manager None
        (ChangeRouterSpec.request [example_source_json]) s) (λ t o, ∀ s',
      o = Done (ChangeRouter.Success, s') →
      ∃ event, ChangeRouterSpec.posted t = [(publish_url example_publisher, PJson event, true)] ∧
        ∀ body', jindex body' "data" = event →
        under ChangeDispatcherSpec.order_ok (ChangeDispatcher.receive show_unsigned (λ s, s) Ok Ok
            example_invoker "" body') (λ t o,
          (∀ w, o ≠ Panicked w) ∧ (o = Done ChangeDispatcher.DispatchOk →
            Exists (told example_invoker "default" "q1" "hr" example_change)
              (observe ChangeDispatcherSpec.disp_posted t))))).
Proof.
  apply (change_reaches_subscribed_query example_text example_parse (λ _, VNull) (Some "hr"%string)
    example_roundtrip show_unsigned (λ s, s) Ok Ok example_config example_publisher example_manager
    example_invoker example_requests None "" (ChangeRouterSpec.request [example_source_json])
    example_change "default" "q1" ["Person"%string] []); [reflexivity|reflexivity|].
  exists "Person"%string. by split; left.
Defined.
