(* ===== verification/EnginePipeline.v ===== *)
(** * EnginePipeline: a change in its container, from the publish API to the engine

    [SourcePipeline] ends where a dispatcher has told a container of a change; from
    there the container's publish API puts it on the stream, and the worker of
    each query that it is for hands it to the engine. *)
From S2P Require Import Prelude BTree Json Core HostApi Effects RustText ChangeStream Publisher.
From S2P Require Import Lifecycle ViewApi Wire QueryWorker QueryWorkerSpec SourcePipeline.
From S2P Require Comms SourceSdk.

Section engine.
Context `{DrasiCore}.
Context (to_str : string → option string).
Context (to_str_utf8 : ∀ h s, to_str h = Some s → valid_utf8 s = true).
(** What [serde_json] reads of a text. *)
Context (from_slice : string → result ChangeEvent string).

(** The stream hands the worker this entry. *)
Definition hands (m : StreamId) (c : call worker_call) : Prop :=
  match c with
  | @Call _ X e x =>
      match e in worker_call X return X → Prop with
      | WStream c =>
          match c in stream_call X return X → Prop with
          | RxRecv => λ r, r = Some m
          | _ => λ _, True
          end
      | _ => λ _, True
      end x
  end.

Lemma processed_stream t :
  processed (map (translate_call (λ X (c : stream_call X), WStream c)) t) = [].
Proof. induction t as [|[X e x] t IH]; [done|]. exact IH. Qed.

Lemma do_ack_processes G id s : under G (do_ack id s) (λ t o, (∃ r, o = Done r) ∧ processed t = []).
Proof.
  unfold do_ack. apply under_translate. unfold ack.
  destruct (rs_unack_item s) as [item|]; [|by split; [eexists|]].
  destruct (str_eqb _ _); [|by split; [eexists|]].
  intros [n|e] _; (split; [by eexists|]); exact (processed_stream [_]).
Qed.

Lemma process_change_processes G query_id evt enq deq sm c :
  try_into (msg_data evt) = Ok c →
  under G (process_change query_id evt enq deq sm) (λ t o, (∃ r, o = Done r) ∧ processed t = [c]).
Proof.
  intros Hc. unfold process_change. rewrite Hc. intros t1 _ [changes|e] _; [|by split; [eexists|]].
  intros t2 _. destruct changes; [by split; [eexists|]|]. intros [] _ [n|e] _; by split; [eexists|].
Qed.

(** A message that the stream hands the worker: the engine is given its change if
    it is for this worker's query, and nothing if it is not. *)
Lemma on_message_processes query_id w m msg c :
  rs_unack_item (ws_stream w) = None → deserialize_message from_slice m = Ok msg →
  try_into (msg_data msg) = Ok c →
  under (hands m) (on_message from_slice query_id w) (λ t o, (∃ r, o = Done r) ∧
    processed t = if has_query (msg_data msg) query_id then [c] else []).
Proof.
  intros Hw Hm Hc. unfold on_message, recv. rewrite Hw. intros x Hx. cbn in Hx. subst x.
  cbn [translate mbind prog_bind trigger]. rewrite Hm. cbn [translate mbind prog_bind mret prog_ret]. intros now _.
  destruct (has_query (msg_data msg) query_id); cbn [negb].
  - apply under_bind. eapply under_mono; [done| |by apply process_change_processes].
    intros t o [([r sm] & ->) Hp]. destruct r as [[]|err].
    + apply under_bind. eapply under_mono; [done| |apply do_ack_processes].
      intros t' o' [([r' st] & ->) Hp']. split; [by eexists|].
      change (processed (Call _ _ :: Call _ _ :: t ++ t' ++ [])) with (processed (t ++ t' ++ [])).
      by rewrite app_nil_r, processed_app, Hp, Hp'.
    + intros [] _. split; [by eexists|].
      change (processed (Call _ _ :: Call _ _ :: t ++ [Call (ChangeState (TransientError err)) ()]))
        with (processed (t ++ [Call (ChangeState (TransientError err)) ()])).
      by rewrite processed_app, Hp.
  - apply under_bind. eapply under_mono; [done| |apply do_ack_processes].
    intros t' o' [([r' st] & ->) Hp']. split; [by eexists|].
    change (processed (Call _ _ :: Call _ _ :: t' ++ [])) with (processed (t' ++ [])).
    by rewrite app_nil_r.
Qed.
(** The clock is right, and [u64] nanoseconds are enough for it. *)
Definition clock_u64 (c : call publisher_call) : Prop :=
  match c with
  | @Call _ X e x =>
      match e in publisher_call X return X → Prop with
      | UnixNanos => λ r, ∀ n, r = Ok n → is_u64 n
      | _ => λ _, True
      end x
  end.

(** C4: A change that a container was told of reaches the engine of the query it
    is for.  When the container's publish API answers the dispatcher's request with
    success it has added exactly one entry to the container's stream, and none when
    it answers otherwise; and a worker of the container that the stream hands this
    entry, once the one before is acknowledged, gives its engine exactly one change
    if the change names its query - the insertion, update or deletion of the
    element the source yielded - and nothing if it does not.  The query the change
    was routed for is one of those it names. *)
Theorem told_change_reaches_engine invoker n q source_id c url body told_ok d publisher headers :
  told invoker n q source_id c (url, Comms.PJson body, told_ok) →
  (∀ e, change_event_from_value body = Some e → from_slice d = Ok e) →
  url = Comms.invoke_url invoker (n +:+ "-publish-api") "change" ∧
  ∃ e, has_query e q = true ∧
    under clock_u64 (change to_str publisher headers d) (λ t o,
      (o = Done SC_OK ∧ ∃ items, added t = [(pub_topic publisher, items, true)] ∧
         ∀ m, stores items m → ∀ query_id w, rs_unack_item (ws_stream w) = None →
         under (hands m) (on_message from_slice query_id w) (λ t' o', (∃ r, o' = Done r) ∧
           processed t' = if has_query e query_id then [core_change source_id c] else [])) ∨
      (o = Done SC_BAD_GATEWAY ∧ ∀ topic items, (topic, items, true) ∉ added t)).
Proof using to_str_utf8.
  intros (body' & e & Hp & He & Hq & Hc) Htext. injection Hp as -> -> ->. split; [done|].
  exists e. split; [done|].
  eapply under_mono; [done| |exact (change_roundtrip from_slice to_str publisher headers d e
    (Htext e He) to_str_utf8)].
  intros t o [(-> & now & items & Ha & Hd)|Hbad]; [left|by right]. split; [done|].
  exists items. split; [done|]. intros m Hm query_id w Hw.
  exact (on_message_processes query_id w m _ _ Hw (Hd m Hm) Hc).
Qed.
End engine.

(** ** An example *)

#[local] Existing Instance pipeline_core.

Definition example_body : value := VObject (jobject [
  ("id", VString "e1"); ("sourceId", VString "hr"); ("type", VString "u");
  ("elementType", VString "node");
  ("time", VObject (jobject [("seq", VNumber (NPos 7)); ("ms", VNumber (NPos 5))]));
  ("queries", VArray [VString "q1"]);
  ("after", SourceSdk.element_json (SourceSdk.sc_element example_change))]%string).

(** The reading of the one text there is. *)
Definition example_from_slice (d : string) : result ChangeEvent string :=
  match change_event_from_value example_body with Some e => Ok e | None => Err "EOF"%string end.

Lemma told_change_reaches_engine_witness :
  ∃ e, has_query e "q1" = true ∧
    under clock_u64 (change from_utf8 (mkPublisher "default-publish") ∅ "{}") (λ t o,
      (o = Done SC_OK ∧ ∃ items, added t = [("default-publish"%string, items, true)] ∧
         ∀ m, stores items m → ∀ query_id w, rs_unack_item (ws_stream w) = None →
         under (hands m) (on_message example_from_slice query_id w) (λ t' o', (∃ r, o' = Done r) ∧
           processed t' = if has_query e query_id then [core_change "hr" example_change] else [])) ∨
      (o = Done SC_BAD_GATEWAY ∧ ∀ topic items, (topic, items, true) ∉ added t)).
Proof.
  refine (proj2 (told_change_reaches_engine from_utf8 _ example_from_slice example_invoker "default"
    "q1" "hr" example_change (Comms.invoke_url example_invoker "default-publish-api" "change")
    example_body true "{}" (mkPublisher "default-publish") ∅ _ _)).
  - intros h s. unfold from_utf8. destruct (valid_utf8 h) eqn:E; [|done]. by intros [= <-].
  - exists example_body. destruct (change_event_from_value example_body) as [e|] eqn:He;
      [|by vm_compute in He].
    exists e. vm_compute in He. injection He as <-. split; [done|]. by split_and!.
  - intros e He. unfold example_from_slice. by rewrite He.
Defined.
