(* ===== verification/SdkPipeline.v ===== *)
(** * SdkPipeline: a source built with the SDK, from its stream to the queries

    [SourcePipeline] follows a change from the router on; here it starts where a
    source's own stream yields it, in the reactivator that the source's [main]
    builds and starts. *)
From S2P Require Import Prelude BTree Json Effects RustText Comms Core HostApi SdkStores SdkHost.
From S2P Require Import SourcePipeline.
From S2P Require SourceSdk ChangeRouter ChangeRouterSpec.

(** The pubsub and the topic a service subscribes to. *)
Definition subscribed (v : value) : value * value :=
  match v with
  | VArray [s] => (jindex s "pubsubname", jindex s "topic")
  | _ => (VNull, VNull)
  end.

Section pipeline.
Context `{DrasiCore}.
(** The router's side. *)
Context (json_text : value → string) (json_parse : string → result value string).
Context (show_status : Z → string) (debug_str : string → string).
Context (header_name header_value : string → result string string).
Context (config : ChangeRouter.ChangeRouterConfig) (publisher : DaprHttpPublisher).
Context (sm : ChangeRouter.DaprStateManager) (invoker : DaprHttpInvoker).
Context (json_roundtrip : ∀ n q, json_parse (json_text (ChangeRouter.subscriber_json n q)) =
  Ok (ChangeRouter.subscriber_json n q)).
(** The source's side. *)
Context {E : Type → Type} {Store Context_ : Type}.
Context (dapr_state_store : string → Store).
Context (big_number : Z → value) (span_parent span_state : string) (env : Env).

Notation main := (reactivator_main dapr_state_store big_number span_parent span_state env).
Notation serve := (ChangeRouterSpec.serve json_text json_parse show_status config publisher sm).
Notation reaches := (reaches_query json_text json_parse show_status debug_str header_name
  header_value config publisher sm invoker).

(** The sidecar accepted a document for the router's own topic; what becomes of a
    request that delivers it to the router. *)
Definition delivered (t : list (call (main_call E)))
    (becomes : option string → string → value → Prop) : Prop :=
  ∃ host port pubsub topic change,
    Requested (publish_url (mkDaprPublisher host port pubsub topic)) (PJson (VArray [change])) true
      ∈ observe main_observed t ∧
    subscribed (ChangeRouter.subscribe config) = (VString pubsub, VString topic) ∧
    ∀ header traceparent body, jindex body "data" = VArray [change] →
      becomes header traceparent body.

(** It carries the change to the query. *)
Definition carried (t : list (call (main_call E))) (n q : string) (c : SourceSdk.SourceChange)
    (s : ChangeRouter.Subscribers) : Prop :=
  delivered t (λ header traceparent body,
    reaches header traceparent body n q (ChangeRouter.cr_source_id config) c s).

(** It is answered with success, and nothing is published. *)
Definition dropped (t : list (call (main_call E))) (s : ChangeRouter.Subscribers) : Prop :=
  delivered t (λ header traceparent body,
    under ChangeRouterSpec.order_ok
      (ChangeRouter.receive_on json_text json_parse show_status config publisher sm header body s)
      (λ t o, o = Done (ChangeRouter.Success, s) ∧ ChangeRouterSpec.posted t = [])).

Lemma delivery_reaches requests n q nls rls :
  under ChangeRouterSpec.order_ok (serve requests ChangeRouter.no_subscribers) (λ _ o,
    ∀ c, (SourceSdk.sc_source_ns c < u64_modulus)%Z → concerns c nls rls →
    ∀ end_ns header traceparent body,
    jindex body "data" = VArray [SourceSdk.change_json big_number (env !! "SOURCE_ID"%string)
      (SourceSdk.set_reactivator_end_ns end_ns c)] →
    ∀ rs s, o = Done (rs, s) → ChangeRouterSpec.registered json_text s n q nls rls → known c s →
    reaches header traceparent body n q (ChangeRouter.cr_source_id config) c s).
Proof using json_roundtrip.
  apply under_forall. intros c. apply under_forall. intros Hns. apply under_forall. intros Hl.
  apply under_forall. intros end_ns. apply under_forall. intros header.
  apply under_forall. intros traceparent. apply under_forall. intros body.
  apply under_forall. intros Hbody.
  exact (change_reaches_subscribed_query json_text json_parse big_number _ json_roundtrip
    show_status debug_str header_name header_value config publisher sm invoker requests header
    traceparent body (SourceSdk.set_reactivator_end_ns end_ns c) n q nls rls Hbody Hns Hl).
Qed.

(** What the reactivator is given is delivered to the router's topic. *)
Lemma given_delivered rounds (b : ReactivatorBuilder E Store Context_) :
  env !! "SOURCE_ID"%string = Some (ChangeRouter.cr_source_id config) →
  env_var_or env "PUBSUB" "drasi-pubsub" = ChangeRouter.cr_pubsub_name config →
  rb_publisher b = None →
  always (main rounds b) (λ t o, ∀ x, o = Done x → ∀ c, Given c ∈ observe main_observed t →
    ∃ end_ns, ∀ becomes : option string → string → value → Prop,
      (∀ header traceparent body, jindex body "data" = VArray [SourceSdk.change_json big_number
         (env !! "SOURCE_ID"%string) (SourceSdk.set_reactivator_end_ns end_ns c)] →
         becomes header traceparent body) → delivered t becomes).
Proof using Type.
  intros Hid Hpub Hb. eapply under_mono; [done| |exact (reactivator_main_requests _ _ _ _ _ rounds b Hb)].
  intros t o Ho x Hx c Hc. destruct (Ho x Hx) as (d & Hd & Hreq).
  destruct (Hreq c Hc) as [end_ns Hin]. unfold SourceSdk.sdk_publisher_new in Hd. rewrite Hid in Hd.
  destruct (parse_u16 _) as [port|]; [|done]. injection Hd as <-. rewrite Hpub in Hin.
  exists end_ns. intros becomes Hbody. by eexists _, _, _, _, _.
Qed.

Lemma given_carried requests rounds (b : ReactivatorBuilder E Store Context_) n q nls rls :
  env !! "SOURCE_ID"%string = Some (ChangeRouter.cr_source_id config) →
  env_var_or env "PUBSUB" "drasi-pubsub" = ChangeRouter.cr_pubsub_name config →
  rb_publisher b = None →
  under ChangeRouterSpec.order_ok (serve requests ChangeRouter.no_subscribers) (λ _ o,
    ∀ rs s, o = Done (rs, s) → ChangeRouterSpec.registered json_text s n q nls rls →
    always (main rounds b) (λ t o, ∀ x, o = Done x → ∀ c, Given c ∈ observe main_observed t →
      (SourceSdk.sc_source_ns c < u64_modulus)%Z → concerns c nls rls → known c s →
      carried t n q c s)).
Proof using json_roundtrip.
  intros Hid Hpub Hb. eapply under_mono; [done| |apply (delivery_reaches requests n q nls rls)].
  intros _ o Hreach rs s -> Hreg.
  eapply under_mono; [done| |exact (given_delivered rounds b Hid Hpub Hb)].
  intros t o Ho x Hx c Hc Hns Hcon Hknown. destruct (Ho x Hx c Hc) as [end_ns Hdel].
  apply Hdel. intros header traceparent body Hbody. by eapply Hreach.
Qed.

(** A change with a label no query subscribed to is delivered, and dropped. *)
Lemma given_dropped rounds (b : ReactivatorBuilder E Store Context_) s :
  env !! "SOURCE_ID"%string = Some (ChangeRouter.cr_source_id config) →
  env_var_or env "PUBSUB" "drasi-pubsub" = ChangeRouter.cr_pubsub_name config →
  rb_publisher b = None →
  always (main rounds b) (λ t o, ∀ x, o = Done x → ∀ c, Given c ∈ observe main_observed t →
    ¬ known c s → dropped t s).
Proof using Type.
  intros Hid Hpub Hb. eapply under_mono; [done| |exact (given_delivered rounds b Hid Hpub Hb)].
  intros t o Ho x Hx c Hc Hun. destruct (Ho x Hx c Hc) as [end_ns Hdel].
  apply Hdel. intros header traceparent body Hbody.
  destruct (unknown_label c s Hun) as (l & Hl & Hnone).
  by eapply (unknown_change_dropped json_text json_parse big_number (env !! "SOURCE_ID"%string)
    show_status config publisher sm header body (SourceSdk.set_reactivator_end_ns end_ns c) l).
Qed.

(** C3: What a source yields reaches the queries that asked for it, as what it
    was, unless the element has a label that no query asked for.  Take a source
    whose [main] builds a reactivator without a publisher of
    its own, in an environment that names the source and the broker as the
    router's does, and any query registered at the router, after any history of
    requests, for one of the labels of an element the source yields.  When the
    reactivator's run is over, the sidecar accepted every change it was given, as
    a document for the very topic the router subscribes to.  What becomes of a
    request that delivers that document to the router depends on whether every
    label of the element was subscribed to by some query.  If so, and the router
    answers with success, it
    published exactly one event; when the dispatcher receives that event it does
    not panic, and if it answers with success, the container's publish API
    accepted a document that the query host reads as a change event for this query
    and converts, for the engine, to the same insertion, update or deletion of the
    same element, with its labels, properties and ends, in the time unit of the
    engine.  If not, the router answers with success and publishes nothing: the
    query does not get the change, although it asked for it. *)
Theorem source_change_reaches_query requests rounds (b : ReactivatorBuilder E Store Context_)
    n q nls rls :
  env !! "SOURCE_ID"%string = Some (ChangeRouter.cr_source_id config) →
  env_var_or env "PUBSUB" "drasi-pubsub" = ChangeRouter.cr_pubsub_name config →
  rb_publisher b = None →
  under ChangeRouterSpec.order_ok (serve requests ChangeRouter.no_subscribers) (λ _ o,
    ∀ rs s, o = Done (rs, s) → ChangeRouterSpec.registered json_text s n q nls rls →
    always (main rounds b) (λ t o, ∀ x, o = Done x → ∀ c, Given c ∈ observe main_observed t →
      (SourceSdk.sc_source_ns c < u64_modulus)%Z → concerns c nls rls →
      (known c s → carried t n q c s) ∧ (¬ known c s → dropped t s))).
Proof using json_roundtrip.
  intros Hid Hpub Hb. eapply under_mono; [done| |exact (given_carried requests rounds b n q nls rls Hid Hpub Hb)].
  intros _ o Hcar rs s -> Hreg.
  eapply under_mono; [done| |apply under_conj; [exact (Hcar rs s eq_refl Hreg) |
    exact (given_dropped rounds b s Hid Hpub Hb)]].
  intros t o [H1 H2] x Hx c Hc Hns Hcon. split; [by apply (H1 x)|by apply (H2 x)].
Qed.
End pipeline.

(** ** An example: a source that yields one change *)

#[local] Existing Instance pipeline_core.

Inductive no_call : Type → Type := .

Definition example_env : Env := {["SOURCE_ID" := "hr"]}%string.

Definition example_builder : ReactivatorBuilder no_call string () :=
  without_context (with_stream_producer (λ _ _, mret (Ok ())) reactivator_builder_new).

Definition example_http {X} (c : http_call X) : X :=
  match c in http_call X return X with
  | HttpGet _ => Err "unreachable"%string
  | HttpPost _ _ _ => Ok (mkResponse 204 (Ok EmptyString) (Ok EmptyString))
  | SleepSecs _ => ()
  end.

Definition example_host {X} (c : host_call no_call X) (events : list SourceSdk.event)
    : X * list SourceSdk.event :=
  match c in host_call _ X return X * list SourceSdk.event with
  | HTracer _ => (Ok (), events)
  | HSource c => match c with end
  | HServe _ _ => ((), events)
  | HSelect => match events with e :: events => (e, events) | [] => (SourceSdk.EvEnd, []) end
  | HNow => (Ok 7000000%Z, events)
  | HHttp c => (example_http c, events)
  end.

Definition example_connect {X} (c : connect_call X) : X :=
  match c in connect_call X return X with
  | DaprHttpPort => None
  | StateStoreName => None
  | Healthz _ => Ok true
  | ConnectSidecar _ => Ok ()
  | SleepSecond => ()
  end.

(** The sidecar tells its port. *)
Definition example_main (X : Type) (c : main_call no_call X) (events : list SourceSdk.event)
    : X * list SourceSdk.event :=
  match c in main_call _ X return X * list SourceSdk.event with
  | MConnect c => (match c in connect_call X return X with
                   | DaprHttpPort => Some "3500"%string | c => example_connect c end, events)
  | MHost c => example_host c events
  end.

Definition example_run :=
  run example_main (reactivator_main (λ s, s) (λ _, VNull) "" "" example_env 3 example_builder)
    [SourceSdk.EvData example_change].

Lemma source_change_reaches_query_witness :
  (example_run.1.1 = Done ((), ()) ∧ Given example_change ∈ observe main_observed example_run.2 ∧
   concerns example_change ["Person"%string] []) ∧
  under ChangeRouterSpec.order_ok (ChangeRouterSpec.serve example_text example_parse show_unsigned
      example_config example_publisher example_manager example_requests ChangeRouter.no_subscribers)
    (λ _ o, ∀ rs s, o = Done (rs, s) →
      ChangeRouterSpec.registered example_text s "default" "q1" ["Person"%string] [] →
      always (reactivator_main (λ s, s) (λ _, VNull) "" "" example_env 3 example_builder)
        (λ t o, ∀ x, o = Done x → ∀ c, Given c ∈ observe main_observed t →
          (SourceSdk.sc_source_ns c < u64_modulus)%Z → concerns c ["Person"%string] [] →
          (known c s →
           carried example_text example_parse show_unsigned (λ s, s) Ok Ok example_config
             example_publisher example_manager example_invoker t "default" "q1" c s) ∧
          (¬ known c s →
           dropped example_text example_parse show_unsigned example_config example_publisher
             example_manager t s))).
Proof.
  split.
  - split; [vm_compute; reflexivity|]. split; [vm_compute; by left|].
    exists "Person"%string. by split; left.
  - apply (source_change_reaches_query example_text example_parse show_unsigned (λ s, s) Ok Ok
      example_config example_publisher example_manager example_invoker example_roundtrip);
      reflexivity.
Defined.
