(* ===== verification/KubePipeline.v ===== *)
(** * KubePipeline: the Kubernetes source's two programs, and the way of a
    Kubernetes object to the queries
    ([sources/kubernetes/kubernetes-reactivator] and [kubernetes-proxy]) *)
From S2P Require Import Prelude BTree Json Effects RustText Comms Core HostApi SdkStores SdkHost.
From S2P Require Import SourcePipeline SdkPipeline KubeSource.
From S2P Require SourceSdk ChangeRouter ChangeRouterSpec.
Import SourceSdk(SourceElement, SNode, SRelation, ChangeOp, OpCreate, OpUpdate, OpDelete).

(** ** The programs *)

(** What they ask of the Kubernetes client: a configuration from the
    [kubeConfig] variable, the one of the cluster, a client; and the tasks. *)
Inductive kube_start_call : Type → Type :=
| FromYaml (config : string) : kube_start_call (result unit string)
| FromCustom : kube_start_call (result unit string)
| Infer : kube_start_call (result unit string)
| TryClient : kube_start_call (result unit string)
| SpawnMonitor (kind : string) : kube_start_call unit.

(** [unwrap] of a [Result]. *)
Definition unwrap {E A} (r : result A string) : prog E A :=
  match r with
  | Ok a => mret a
  | Err e => Panic ("called `Result::unwrap()` on an `Err` value: " +:+ e)
  end.

Definition kube_client (env : Env) : prog kube_start_call unit :=
  _ ← match env !! "kubeConfig"%string with
      | Some config =>
          kc ← trigger (FromYaml config);
          _ ← unwrap kc;
          c ← trigger FromCustom;
          unwrap c
      | None => c ← trigger Infer; unwrap c
      end;
  client ← trigger TryClient;
  unwrap client.

Fixpoint spawn_all (kinds : list string) : prog kube_start_call unit :=
  match kinds with
  | [] => mret ()
  | k :: kinds => _ ← trigger (SpawnMonitor k); spawn_all kinds
  end.

(** The reactivator's own calls: those of its start, and its store's. *)
Inductive kube_call : Type → Type :=
| KStart X (c : kube_start_call X) : kube_call X
| KMonitor X (c : monitor_call X) : kube_call X.
Arguments KStart {X} c.
Arguments KMonitor {X} c.

Section programs.
Context {Store : Type} (dapr_state_store : string → Store).
Context (big_number : Z → value) (span_parent span_state : string) (env : Env).

(** [my_stream] of the reactivator: a task per kind, whose changes the stream
    yields. *)
Definition kube_my_stream (_context : ()) (state_store : Store)
    : prog kube_call (result unit string) :=
  _ ← translate (λ X c, KStart c) (_ ← kube_client env; spawn_all resource_kinds);
  mret (Ok ()).

Definition kube_deprovision (state_store : Store) : prog kube_call unit :=
  translate (λ X c, KMonitor c) deprovision.

Definition kube_reactivator : ReactivatorBuilder kube_call Store () :=
  without_context (with_deprovision_handler kube_deprovision
    (with_stream_producer kube_my_stream reactivator_builder_new)).

(** The reactivator's [main], its first [rounds] changes. *)
Definition kube_reactivator_main (rounds : nat) : prog (main_call kube_call) (() * ()) :=
  reactivator_main dapr_state_store big_number span_parent span_state env rounds kube_reactivator.
End programs.

(** The proxy's [main]: its client, then the proxy it builds and starts.  [yields]
    is the stream that the sent elements make. *)
Inductive kube_proxy_call : Type → Type :=
| KpStart X (c : kube_start_call X) : kube_proxy_call X
| KpProxy X (c : proxy_start_call X) : kube_proxy_call X.

Definition kube_proxy_builder {E} (my_stream : StreamProducer E ()) : SourceProxyBuilder E () :=
  proxy_with_context () (proxy_with_stream_producer my_stream proxy_builder_new).

Definition kube_proxy_main {E} (env : Env) (my_stream : StreamProducer E ())
    : prog kube_proxy_call unit :=
  _ ← translate (λ X c, KpStart X c) (kube_client env);
  match proxy_build (kube_proxy_builder my_stream) with
  | Done proxy => translate (λ X c, KpProxy X c) (proxy_start env proxy)
  | Panicked w => Panic w
  end.

(** ** What a monitoring task sends for an object *)

Definition object_event (e : WatchEvent) : option (ChangeOp * KObject) :=
  match e with
  | Added o => Some (OpCreate, o)
  | Modified o => Some (OpUpdate, o)
  | Deleted o => Some (OpDelete, o)
  | _ => None
  end.

(** The clock is right, and [u64] nanoseconds are enough for it. *)
Definition clock_u64 (c : call monitor_call) : Prop :=
  match c with
  | @Call _ X e x =>
      match e in monitor_call X return X → Prop with
      | NowNs => λ r, match r with Ok ns => (ns < u64_modulus)%Z | Err _ => False end
      | _ => λ _, True
      end x
  end.

(** Every event of an object was turned into its changes. *)
Definition reacted (steps : list mstep) : Prop :=
  ∀ e op o, Saw e ∈ steps → object_event e = Some (op, o) →
  ∃ start_ns, (start_ns < u64_modulus)%Z ∧ 
    ∀ c, c ∈ object_changes op start_ns o → ∃ taken, Sent c taken ∈ steps.

Lemma reacted_app l l' : reacted l → reacted l' → reacted (l ++ l').
Proof.
  intros H H' e op o [He|He]%elem_of_app Ho;
    [destruct (H e op o He Ho) as (ns & Hns & Hs)|destruct (H' e op o He Ho) as (ns & Hns & Hs)];
    exists ns; (split; [done|]); intros c Hc; destruct (Hs c Hc) as [taken ?]; exists taken;
    apply elem_of_app; [by left|by right].
Qed.

Lemma reacted_no_event l : (∀ e, Saw e ∉ l) → reacted l.
Proof. intros Hl e op o He. by destruct (Hl e). Qed.

Lemma monitor_round_reacted kind cursor :
  under clock_u64 (monitor_round kind cursor) (λ t o, ∀ x, o = Done x → reacted (observe mstep_of t)).
Proof.
  assert (Hobj : ∀ op o e, object_event e = Some (op, o) →
    under clock_u64 (c ← handle_object op o cursor; mret (true, c)) (λ t out, ∀ x, out = Done x →
      reacted (observe mstep_of (Call TryNext (Ok (Some e)) :: t)))).
  { intros op o e He. unfold handle_object. apply under_bind. apply under_call.
    intros [ns|err] Hns; [|done]. cbn in Hns. apply under_bind.
    eapply under_mono; [done| |apply send_changes_steps].
    intros t out (-> & Hs) x _. clear x.
    assert (Hsteps : observe mstep_of (Call TryNext (Ok (Some e)) :: (Call NowNs (Ok ns) :: t ++ []) ++ [])
      = Saw e :: observe mstep_of t).
    { by rewrite !app_nil_r. }
    refine (eq_ind_r reacted _ Hsteps).
    intros e' op' o' [Hin|Hin]%list.elem_of_cons He'.
    - injection Hin as ->. rewrite He in He'. injection He' as <- <-. exists ns. split; [done|].
      intros c Hc. destruct (sends_handed _ _ c Hs Hc) as [taken ?]. exists taken. by right.
    - by destruct (sends_only_sent _ _ _ Hs Hin) as (? & ? & ?). }
  unfold monitor_round. apply under_call. intros [[[o|o|o|rv|code]|]|err] _.
  - by apply Hobj.
  - by apply Hobj.
  - by apply Hobj.
  - apply under_call. intros r _ x _ e op o [Hin|[Hin|[]%elem_of_nil]%list.elem_of_cons]%list.elem_of_cons He;
      [by injection Hin as ->|done].
  - destruct (code =? 410)%Z; [|apply under_call; intros [] _]; intros x _ e op o;
      intros [Hin|[]%elem_of_nil]%list.elem_of_cons He; by injection Hin as ->.
  - by intros x _ e op o []%elem_of_nil.
  - apply under_call. by intros [] _ x _ e op o []%elem_of_nil.
Qed.

Lemma monitor_loop_reacted rounds kind cursor watching :
  under clock_u64 (monitor_loop rounds kind cursor watching) (λ t o, ∀ x, o = Done x →
    reacted (observe mstep_of t)).
Proof.
  revert cursor watching. induction rounds as [|rounds IH]; intros cursor watching.
  { by intros x _ e op o []%elem_of_nil. }
  cbn [monitor_loop]. destruct watching.
  - apply under_bind. eapply under_mono; [done| |apply monitor_round_reacted].
    intros t [[go c]|w] Ht; [|done]. eapply under_mono; [done| |apply IH].
    intros t' o Ho x ->. rewrite observe_app. apply reacted_app; [by eapply Ht|by eapply Ho].
  - assert (Hno : ∀ t, reacted (observe mstep_of t) → ∀ c : call monitor_call,
      (∀ e, mstep_of c ≠ Some (Saw e)) → reacted (observe mstep_of (c :: t))).
    { intros t Ht c Hc. change (c :: t) with ([c] ++ t). rewrite observe_app.
      apply reacted_app; [|done]. apply reacted_no_event. intros e (c' & Hin & He)%list_elem_of_omap.
      apply list_elem_of_singleton in Hin as ->. by destruct (Hc e). }
    apply under_call. intros [u|err] _; [|apply under_call; intros [] _];
      (eapply under_mono; [done| |apply IH]); intros t o Ho x ->; repeat apply Hno; try done;
      by eapply Ho.
Qed.

Lemma monitor_task_reacted rounds kind :
  under clock_u64 (spawn_monitor_task rounds kind) (λ t o, ∀ x, o = Done x →
    reacted (observe mstep_of t)).
Proof.
  unfold spawn_monitor_task, load_cursor. intros r _.
  destruct r as [[data|]|err]; cbn; [destruct (from_utf8 data)|..];
    (eapply under_mono; [done| |apply monitor_loop_reacted]); intros t o Ho x Hx; exact (Ho x Hx).
Qed.

(** ** From the object to the queries *)

Section pipeline.
Context `{DrasiCore}.
Context (json_text : value → string) (json_parse : string → result value string).
Context (show_status : Z → string) (debug_str : string → string).
Context (header_name header_value : string → result string string).
Context (config : ChangeRouter.ChangeRouterConfig) (publisher : DaprHttpPublisher).
Context (sm : ChangeRouter.DaprStateManager) (invoker : DaprHttpInvoker).
Context (json_roundtrip : ∀ n q, json_parse (json_text (ChangeRouter.subscriber_json n q)) =
  Ok (ChangeRouter.subscriber_json n q)).
Context {Store : Type} (dapr_state_store : string → Store).
Context (big_number : Z → value) (span_parent span_state : string) (env : Env).

Notation main := (kube_reactivator_main dapr_state_store big_number span_parent span_state env).
Notation serve := (ChangeRouterSpec.serve json_text json_parse show_status config publisher sm).
Notation carried := (carried json_text json_parse show_status debug_str header_name header_value
  config publisher sm invoker).

(** What an object is to the queries: a node of its kind, and a relation from each
    of its owners. *)
Definition object_elements (o : KObject) : list SourceElement :=
  match ko_uid o, object_properties o ≫= λ m, (m,.) <$> object_label m with
  | Some id, Some (m, l) => SNode id [l] m :: map (owns id) (ko_owners o)
  | _, _ => []
  end.

Lemma object_changes_elements op ns o e :
  e ∈ object_elements o → SourceSdk.change_new op e ns ns 0 None ∈ object_changes op ns o.
Proof.
  unfold object_elements, object_changes. destruct (ko_uid o) as [id|]; [|by intros ?%elem_of_nil].
  destruct (object_properties o) as [m|]; [|by intros ?%elem_of_nil].
  cbn [mbind option_bind]. destruct (object_label m) as [l|]; [|by intros ?%elem_of_nil].
  apply (list_elem_of_fmap_2 (λ e, SourceSdk.change_new op e ns ns 0 None)).
Qed.

Lemma object_elements_labels o e : e ∈ object_elements o → element_labels e ≠ [].
Proof.
  unfold object_elements. destruct (ko_uid o) as [id|]; [|by intros ?%elem_of_nil].
  destruct (object_properties o ≫= _) as [[m l]|]; [|by intros ?%elem_of_nil].
  intros [->|(owner & -> & _)%list_elem_of_fmap]%list.elem_of_cons; done.
Qed.

(** C5: A change of a Kubernetes object reaches every query that asks for it.  Take
    the changes that a monitoring task sends and the run of the reactivator that
    the source's [main] builds and starts, which is given them, and any query
    registered at the router, after any history of requests, for the kind of an
    object or for OWNS.  For every event the task saw of an object with an
    identifier, the node that stands for the object, and the relation from each of
    its owners, is carried to the query if it is registered for its label, as an
    insertion, an update or a deletion as the object was added, modified or
    deleted: the sidecar accepted it for the router's topic, and what the router
    and the dispatcher make of it arrives at the query's container as that change. *)
Theorem kube_object_reaches_query requests rounds rounds' kind n q nls rls :
  env !! "SOURCE_ID"%string = Some (ChangeRouter.cr_source_id config) →
  env_var_or env "PUBSUB" "drasi-pubsub" = ChangeRouter.cr_pubsub_name config →
  under ChangeRouterSpec.order_ok (serve requests ChangeRouter.no_subscribers) (λ _ o,
    ∀ rs s, o = Done (rs, s) → ChangeRouterSpec.registered json_text s n q nls rls →
    always (main rounds) (λ t o, ∀ x, o = Done x →
    under clock_u64 (spawn_monitor_task rounds' kind) (λ tm om, ∀ x, om = Done x →
      (∀ c taken, Sent c taken ∈ observe mstep_of tm → Given c ∈ observe main_observed t) →
      ∀ ev op ob el, Saw ev ∈ observe mstep_of tm → object_event ev = Some (op, ob) →
      el ∈ object_elements ob →
      element_labels el ⊆ match el with SNode _ _ _ => nls | SRelation _ _ _ _ _ => rls end →
      ∃ c, SourceSdk.sc_op c = op ∧ SourceSdk.sc_element c = el ∧ carried t n q c s))).
Proof using json_roundtrip.
  intros Hid Hpub. eapply under_mono; [done| |apply (given_carried json_text json_parse show_status
    debug_str header_name header_value config publisher sm invoker json_roundtrip dapr_state_store
    big_number span_parent span_state env requests rounds (kube_reactivator env) n q nls rls Hid
    Hpub eq_refl)].
  intros _ o Hgiven rs s -> Hreg. eapply under_mono; [done| |exact (Hgiven rs s eq_refl Hreg)].
  intros t o Ho x ->. eapply under_mono; [done| |apply monitor_task_reacted].
  intros tm om Hre x' -> Hchan ev op ob el Hev Hob Hel Hlab.
  destruct (Hre x' eq_refl ev op ob Hev Hob) as (ns & Hns & Hsent).
  exists (SourceSdk.change_new op el ns ns 0 None). split; [done|]. split; [done|].
  assert (element_labels el ⊆ ChangeRouterSpec.labels_of (element_kind el) nls rls) as Hsub
    by (by destruct el).
  destruct (Hsent _ (object_changes_elements op ns ob el Hel)) as [taken Htaken].
  apply (Ho x eq_refl); [by eapply Hchan|done| |].
  - pose proof (object_elements_labels ob el Hel) as Hne.
    unfold concerns. cbn. destruct (element_labels el) as [|l ls]; [done|].
    exists l. split; [left | apply Hsub; left].
  - unfold known. cbn. by eapply ChangeRouterSpec.registered_known.
Qed.
End pipeline.

(** ** An example: a pod that was added *)

#[local] Existing Instance pipeline_core.

(** The change of the pod, as the task of the reactivator sends it. *)
Definition example_pod_change : SourceSdk.SourceChange :=
  SourceSdk.change_new OpCreate (SNode "u1" ["Pod"%string] [("kind", VString "Pod")]%string)
    1000 1000 0 None.
Definition example_owner_change : SourceSdk.SourceChange :=
  SourceSdk.change_new OpCreate (owns "u1" "rs1") 1000 1000 0 None.

Definition example_kube (X : Type) (c : main_call kube_call X) (events : list SourceSdk.event)
    : X * list SourceSdk.event :=
  match c in main_call _ X return X * list SourceSdk.event with
  | MConnect c => (match c in connect_call X return X with
                   | DaprHttpPort => Some "3500"%string | c => example_connect c end, events)
  | MHost c =>
      match c in host_call _ X return X * list SourceSdk.event with
      | HTracer _ => (Ok (), events)
      | HSource c =>
          (match c in kube_call X return X with
           | KStart c => match c in kube_start_call X return X with
                         | SpawnMonitor _ => () | _ => Ok () end
           | KMonitor c => (example_rest _ c []).1
           end, events)
      | HServe _ _ => ((), events)
      | HSelect => match events with e :: events => (e, events) | [] => (SourceSdk.EvEnd, []) end
      | HNow => (Ok 7000000%Z, events)
      | HHttp c => (example_http c, events)
      end
  end.

(** The task sees the pod once; the reactivator is given what the task sent. *)
Definition example_task := run example_rest (spawn_monitor_task 2 "Pod") [Added (example_pod "5")].
Definition example_reactivator :=
  run example_kube (kube_reactivator_main (λ s, s) (λ _, VNull) "" "" example_env 4)
    [SourceSdk.EvData example_pod_change; SourceSdk.EvData example_owner_change].

Lemma kube_object_reaches_query_witness :
  (example_reactivator.1.1 = Done ((), ()) ∧ example_task.1.1 = Done () ∧
   observe mstep_of example_task.2 = [Watched "0"; Saw (Added (example_pod "5"));
     Sent example_pod_change true; Sent example_owner_change true]%string ∧
   Given example_pod_change ∈ observe main_observed example_reactivator.2 ∧
   Given example_owner_change ∈ observe main_observed example_reactivator.2) ∧
  under ChangeRouterSpec.order_ok (ChangeRouterSpec.serve example_text example_parse show_unsigned
      example_config example_publisher example_manager example_requests ChangeRouter.no_subscribers)
    (λ _ o, ∀ rs s, o = Done (rs, s) →
      ChangeRouterSpec.registered example_text s "default" "q1" ["Pod"%string] ["OWNS"%string] →
      always (kube_reactivator_main (λ s, s) (λ _, VNull) "" "" example_env 4) (λ t o,
        ∀ x, o = Done x → under clock_u64 (spawn_monitor_task 2 "Pod") (λ tm om,
        ∀ x, om = Done x →
        (∀ c taken, Sent c taken ∈ observe mstep_of tm → Given c ∈ observe main_observed t) →
        ∀ ev op ob el, Saw ev ∈ observe mstep_of tm → object_event ev = Some (op, ob) →
        el ∈ object_elements ob →
        element_labels el ⊆ match el with
          SNode _ _ _ => ["Pod"%string] | SRelation _ _ _ _ _ => ["OWNS"%string] end →
        ∃ c, SourceSdk.sc_op c = op ∧ SourceSdk.sc_element c = el ∧
          carried example_text example_parse show_unsigned (λ s, s) Ok Ok example_config
            example_publisher example_manager example_invoker t "default" "q1" c s))).
Proof.
  split.
  - split; [vm_compute; reflexivity|]. split; [vm_compute; reflexivity|].
    split; [vm_compute; reflexivity|]. split; [vm_compute; by left|vm_compute; right].
    vm_compute. right. by left.
  - apply (kube_object_reaches_query example_text example_parse show_unsigned (λ s, s) Ok Ok
      example_config example_publisher example_manager example_invoker example_roundtrip);
      reflexivity.
Defined.
