(* ===== verification/QueryApi.v ===== *)
(** * QueryApi: subscribing a query to a source
    ([sources/shared/query-api]) *)
From S2P Require Import Prelude BTree Json Effects RustText Comms ViewApi.

(** ** The wire types ([api.rs]) *)

Record SubscriptionRequest := mkRequest {
  sr_query_id : string;
  sr_query_node_id : string;
  sr_node_labels : list string;
  sr_rel_labels : list string;
}.

Record Source := mkSource { so_db : string; so_table : string }.

Record SubscriptionPayload := mkSubPayload {
  spl_source : Source;
  spl_before : option SubscriptionRequest;
  spl_after : option SubscriptionRequest;
}.

Record ControlEvent := mkControlEvent {
  cev_op : string;
  cev_ts_ns : Z;
  cev_payload : SubscriptionPayload;
}.

Definition request_from_value (v : value) : option SubscriptionRequest :=
  m ← as_object v;
  query_id ← field m "queryId" ≫= as_str;
  query_node_id ← field m "queryNodeId" ≫= as_str;
  node_labels ← field m "nodeLabels" ≫= of_list as_str;
  rel_labels ← field m "relLabels" ≫= of_list as_str;
  Some (mkRequest query_id query_node_id node_labels rel_labels).

Definition request_json (r : SubscriptionRequest) : value :=
  VObject (jobject [
    ("queryId", VString (sr_query_id r));
    ("queryNodeId", VString (sr_query_node_id r));
    ("nodeLabels", VArray (map VString (sr_node_labels r)));
    ("relLabels", VArray (map VString (sr_rel_labels r)))]%string).

Definition source_json (s : Source) : value :=
  VObject (jobject [("db", VString (so_db s)); ("table", VString (so_table s))]%string).

(** [skip_serializing_if]: an absent request has no field. *)
Definition payload_json (p : SubscriptionPayload) : value :=
  VObject (jobject ([("source", source_json (spl_source p))]%string ++
    match spl_before p with Some r => [("before", request_json r)]%string | None => [] end ++
    match spl_after p with Some r => [("after", request_json r)]%string | None => [] end)).

Definition control_event_json (e : ControlEvent) : value :=
  VObject (jobject [
    ("op", VString (cev_op e)); ("ts_ns", VNumber (NPos (cev_ts_ns e)));
    ("payload", payload_json (cev_payload e))]%string).

(** [v1]: what a source's proxy answers at once. *)
Record BootstrapNode := mkBootNode { bn_id : string; bn_labels : list string; bn_properties : jmap }.

Record BootstrapRelation := mkBootRel {
  brl_id : string;
  brl_labels : list string;
  brl_properties : jmap;
  brl_start_id : string;
  brl_end_id : string;
}.

Record BootstrapEvents := mkBootEvents {
  bev_nodes : list BootstrapNode;
  bev_rels : list BootstrapRelation;
}.

Definition node_from_value (v : value) : option BootstrapNode :=
  m ← as_object v;
  id ← field m "id" ≫= as_str;
  labels ← field m "labels" ≫= of_list as_str;
  properties ← field m "properties" ≫= as_object;
  Some (mkBootNode id labels properties).

Definition rel_from_value (v : value) : option BootstrapRelation :=
  m ← as_object v;
  id ← field m "id" ≫= as_str;
  labels ← field m "labels" ≫= of_list as_str;
  properties ← field m "properties" ≫= as_object;
  start_id ← field m "startId" ≫= as_str;
  end_id ← field m "endId" ≫= as_str;
  Some (mkBootRel id labels properties start_id end_id).

Definition events_from_value (v : value) : option BootstrapEvents :=
  m ← as_object v;
  nodes ← field m "nodes" ≫= of_list node_from_value;
  rels ← field m "rels" ≫= of_list rel_from_value;
  Some (mkBootEvents nodes rels).

(** [v2] *)
Record AcquireRequest := mkAcquire { aq_node_labels : list string; aq_rel_labels : list string }.

Definition acquire_of (r : SubscriptionRequest) : AcquireRequest :=
  mkAcquire (sr_node_labels r) (sr_rel_labels r).

Definition acquire_json (r : AcquireRequest) : value :=
  VObject (jobject [
    ("nodeLabels", VArray (map VString (aq_node_labels r)));
    ("relLabels", VArray (map VString (aq_rel_labels r)))]%string).

Record BootstrapElement := mkElement {
  bel_id : string;
  bel_labels : list string;
  bel_properties : jmap;
  bel_start_id : option string;
  bel_end_id : option string;
}.

Definition element_of_node (n : BootstrapNode) : BootstrapElement :=
  mkElement (bn_id n) (bn_labels n) (bn_properties n) None None.

Definition element_of_rel (r : BootstrapRelation) : BootstrapElement :=
  mkElement (brl_id r) (brl_labels r) (brl_properties r) (Some (brl_start_id r)) (Some (brl_end_id r)).

Definition bootstrap_element_json (e : BootstrapElement) : value :=
  VObject (jobject [
    ("id", VString (bel_id e)); ("labels", VArray (map VString (bel_labels e)));
    ("properties", VObject (bel_properties e));
    ("startId", of_option VString (bel_start_id e));
    ("endId", of_option VString (bel_end_id e))]%string).

(** ** The handlers ([main.rs]) *)

Inductive qapi_call : Type → Type :=
| QHttp {X} (c : http_call X) : qapi_call X
| QStream {X} (c : http_stream_call X) : qapi_call X
| QNowMillis : qapi_call Z.

(** A stream of documents, one per line, or a status with a text. *)
Inductive subscription_response :=
| Lines (l : list value)
| Answer (status : Z) (body : string).

Section api.
Context (show_status : Z → string) (debug_str debug_invoke : string → string).
Context (header_name header_value : string → result string string).
(** The proxy's reply as a document, and the text of a mismatch. *)
Context (json_parse : string → result value string) (shape_error : value → string).
Context (source_id : string) (publisher : DaprHttpPublisher) (invoker : DaprHttpInvoker).

Notation P := (prog qapi_call).

(** Publishing a control event: the answer to give when it fails. *)
Definition publish_event (event : value) (hs : headers) (what : string)
    : P (option subscription_response) :=
  r ← translate (λ X c, QHttp c) (dapr_publish show_status publisher event hs);
  match r with
  | Ok _ => mret None
  | Err e => mret (Some (Answer 500 ("Error publishing the " +:+ what +:+ " event: " +:+ debug_str e)))
  end.

Definition subscription_event (op : string) (now_millis : Z) (before after : option SubscriptionRequest)
    : value :=
  VArray [control_event_json (mkControlEvent op (as_u64 now_millis)
    (mkSubPayload (mkSource "Drasi" "SourceSubscription") before after))].

Definition dispatch_control_event (request : SubscriptionRequest) (hs : headers)
    : P (option subscription_response) :=
  now ← trigger QNowMillis;
  publish_event (subscription_event "i" now None (Some request)) hs "subscription".

Definition dispatch_unsubscription_event (query_node_id query_id : string)
    : P (option subscription_response) :=
  let request := mkRequest query_id query_node_id [] [] in
  now ← trigger QNowMillis;
  publish_event (subscription_event "d" now (Some request) None) [] "unsubscription".

Definition proxy_app : string := source_id +:+ "-proxy".

Definition parse_events (response : string) : result BootstrapEvents string :=
  let? v := json_parse response in ok_or (events_from_value v) (shape_error v).

(** The whole data in one reply of the proxy. *)
Definition acquire_v1 (request : SubscriptionRequest) : P subscription_response :=
  response ← translate (λ X c, QHttp c) (dapr_invoke show_status header_name header_value invoker
    (PJson (request_json request)) proxy_app "acquire" None);
  match response with
  | Err e => mret (Answer 500 ("Error invoking acquire: " +:+ debug_str e))
  | Ok response =>
      match parse_events response with
      | Err e => mret (Answer 500 ("Error parsing the response from the proxy: " +:+ e))
      | Ok events =>
          mret (Lines (map (λ n, bootstrap_element_json (element_of_node n)) (bev_nodes events) ++
                       map (λ r, bootstrap_element_json (element_of_rel r)) (bev_rels events)))
      end
  end.

(** The elements up to the first that cannot be read. *)
Fixpoint until_error (items : list (result value string)) : list value :=
  match items with
  | Ok element :: items => element :: until_error items
  | _ => []
  end.

(** The elements as the proxy streams them, passed on unread. *)
Definition acquire_v2 (request : SubscriptionRequest) (hs : headers) : P subscription_response :=
  resp ← translate (λ X c, QStream c) (stream_invoke show_status header_name header_value
    (PJson (acquire_json (acquire_of request))) proxy_app Post "acquire-stream" JsonNewLine (Some hs));
  match resp with
  | Ok items => mret (Lines (until_error items))
  | Err e => mret (Answer 502 ("Error invoking acquire-stream: " +:+ debug_invoke e))
  end.

(** [header] is the request's [traceparent], if it is text. *)
Definition handle_subscription (header : option string) (request : SubscriptionRequest)
    : P subscription_response :=
  let hs := match header with Some tp => [("traceparent"%string, tp)] | None => [] end in
  dispatched ← dispatch_control_event request hs;
  match dispatched with
  | Some err => mret err
  | None =>
      supports ← translate (λ X c, QHttp c) (dapr_invoke show_status header_name header_value invoker
        PNone proxy_app "supports-stream" None);
      if is_ok supports then acquire_v2 request hs else acquire_v1 request
  end.

Definition handle_unsubscription (query_node_id query_id : string) : P subscription_response :=
  dispatched ← dispatch_unsubscription_event query_node_id query_id;
  match dispatched with
  | Some err => mret err
  | None => mret (Answer 200 "Unsubscription event dispatched")
  end.
End api.
