(* ===== verification/QueryApiSpec.v ===== *)
(** * QueryApiSpec: a query host's subscription, through the query API *)
From S2P Require Import Prelude BTree Json Effects RustText Comms ViewApi Core HostApi Wire QueryApi.
From S2P Require SourceSdk ChangeRouter ChangeRouterSpec SourceClient SourcePipeline.

Definition qapi_posted (c : call qapi_call) : option (string * payload * bool) :=
  match c with
  | @Call _ X e x =>
      match e in qapi_call X return X → _ with
      | QHttp c => λ x, posted_of (Call c x)
      | _ => λ _, None
      end x
  end.
Notation posted := (observe qapi_posted).

Lemma qapi_posted_http t :
  posted (map (translate_call (λ X c, QHttp c)) t) = observe posted_of t.
Proof.
  induction t as [|[X e x] t IH]; [done|]. unfold observe in *. cbn [map omap list_omap].
  rewrite IH. reflexivity.
Qed.

(** ** Subscribing *)

Lemma request_roundtrip r : request_from_value (request_json r) = Some r.
Proof.
  destruct r as [q n nls rls]. unfold request_from_value, request_json.
  cbn [as_object mbind option_bind].
  rewrite (field_index _ "queryId" (VString q)), (field_index _ "queryNodeId" (VString n)),
    (field_index _ "nodeLabels" (VArray (map VString nls))),
    (field_index _ "relLabels" (VArray (map VString rls))) by done.
  cbn [mbind option_bind as_str]. by rewrite !of_list_strings.
Qed.

(** The request a query host sends is read as the same subscription. *)
Lemma subscription_request container_id query_id (s : CoreQuerySubscription) :
  request_from_value (SourceClient.subscription_body container_id query_id s) =
  Some (mkRequest query_id container_id (map cse_source_label (cs_nodes s))
    (map cse_source_label (cs_relations s))).
Proof.
  rewrite <-request_roundtrip. f_equal. unfold SourceClient.subscription_body, request_json.
  cbn [sr_query_id sr_query_node_id sr_node_labels sr_rel_labels]. by rewrite !map_map.
Qed.

Lemma subscription_event_read now r event :
  subscription_event "i" now None (Some r) = VArray [event] →
  ChangeRouterSpec.subscribes event (sr_query_node_id r) (sr_query_id r)
    (sr_node_labels r) (sr_rel_labels r).
Proof.
  intros [= <-]. unfold ChangeRouterSpec.subscribes.
  destruct r as [q n nls rls]. do 4 (split; [reflexivity|]).
  split; [exact (f_equal Some (SourcePipeline.label_strs_strings nls)) |
          exact (f_equal Some (SourcePipeline.label_strs_strings rls))].
Qed.

Section api.
Context (show_status : Z → string) (debug_str debug_invoke : string → string).
Context (header_name header_value : string → result string string).
Context (json_parse : string → result value string) (shape_error : value → string).
Context (source_id : string) (publisher : DaprHttpPublisher) (invoker : DaprHttpInvoker).

Notation handle := (handle_subscription show_status debug_str debug_invoke header_name header_value
  json_parse shape_error source_id publisher invoker).

Lemma publish_event_posts G event hs what :
  under G (publish_event show_status debug_str publisher event hs what) (λ t o,
    (o = Done None ∧ posted t = [(publish_url publisher, PJson event, true)]) ∨
    (∃ body, o = Done (Some (Answer 500 body)) ∧
       posted t = [(publish_url publisher, PJson event, false)])).
Proof.
  apply under_bind, under_translate.
  eapply under_mono; [| |apply (dapr_publish_posts show_status publisher)]; [done|].
  intros t o (ok & r & -> & Hok & Ht). destruct r as [[]|e]; cbn in Hok; subst ok.
  - left. split; [done|]. rewrite app_nil_r, qapi_posted_http. exact Ht.
  - right. eexists. split; [done|]. rewrite app_nil_r, qapi_posted_http. exact Ht.
Qed.

(** When the query API serves a subscription request of a query host, the
    first thing it posts is one control event on the source's change topic,
    which the change router reads as exactly that subscription: the same query,
    container and labels.  It answers with data only if the event was accepted;
    if it was not, it answers with an error and makes no further request. *)
Theorem subscription_reaches_router container_id query_id (s : CoreQuerySubscription) header :
  match request_from_value (SourceClient.subscription_body container_id query_id s) with
  | Some r =>
      always (handle header r) (λ t o, ∃ event rest accepted,
        posted t = (publish_url publisher, PJson (VArray [event]), accepted) :: rest ∧
        ChangeRouterSpec.subscribes event container_id query_id
          (map cse_source_label (cs_nodes s)) (map cse_source_label (cs_relations s)) ∧
        (accepted = false → rest = [] ∧ ∃ body, o = Done (Answer 500 body)))
  | None => False
  end.
Proof.
  rewrite subscription_request. unfold handle_subscription, dispatch_control_event.
  set (r := mkRequest _ _ _ _). apply under_bind, under_call. intros now _.
  destruct (subscription_event "i" now None (Some r)) as [| | | |[|event [|]]|] eqn:Hev; try done.
  pose proof (subscription_event_read _ _ _ Hev) as Hsub. cbn in Hsub.
  eapply under_mono; [done| |apply publish_event_posts].
  intros t o [[-> Ht]|(body & -> & Ht)].
  - eapply under_mono; [done| |apply under_true]. intros t' o' _.
    exists event, (posted t'), true.
    split; [|by split]. etrans; [exact (observe_app qapi_posted t t')|].
    exact (f_equal (λ l, l ++ posted t') Ht).
  - exists event, [], false.
    split; [etrans; [exact (observe_app qapi_posted t [])|]|].
    + exact (f_equal (λ l, l ++ []) Ht).
    + split; [done|]. intros _. split; [done|]. by eexists.
Qed.
(** ** Initial data *)

Section data.
Context `{DrasiCore}.

Definition node_element (n : BootstrapNode) : SourceSdk.SourceElement :=
  SourceSdk.SNode (bn_id n) (bn_labels n) (bn_properties n).
Definition rel_element (r : BootstrapRelation) : SourceSdk.SourceElement :=
  SourceSdk.SRelation (brl_id r) (brl_labels r) (brl_properties r) (brl_start_id r) (brl_end_id r).

Definition boot_of (e : SourceSdk.SourceElement) : SourceClient.BootstrapElement :=
  match e with
  | SourceSdk.SNode id labels props => SourceClient.mkBootElement id labels props None None
  | SourceSdk.SRelation id labels props start_id end_id =>
      SourceClient.mkBootElement id labels props (Some start_id) (Some end_id)
  end.

(** A document with the fields of an element is read as that element. *)
Lemma boot_from_fields m id labels props start_id end_id :
  jindex (VObject m) "id" = VString id →
  jindex (VObject m) "labels" = VArray (map VString labels) →
  jindex (VObject m) "properties" = VObject props →
  jindex (VObject m) "startId" = of_option VString start_id →
  jindex (VObject m) "endId" = of_option VString end_id →
  boot_element_from_value (VObject m) =
    Some (SourceClient.mkBootElement id labels props start_id end_id).
Proof.
  intros Hid Hl Hp Hs He. unfold boot_element_from_value. cbn [as_object mbind option_bind].
  rewrite (field_index m "id" _ Hid), (field_index m "labels" _ Hl),
    (field_index m "properties" _ Hp) by done. cbn [mbind option_bind as_str as_object].
  rewrite of_list_strings. cbn [mbind option_bind].
  rewrite !opt_field_index, Hs, He. by destruct start_id, end_id.
Qed.

Lemma boot_from_sdk e : boot_element_from_value (SourceSdk.element_json e) = Some (boot_of e).
Proof. by destruct e; apply boot_from_fields. Qed.

Lemma boot_from_node n :
  boot_element_from_value (bootstrap_element_json (element_of_node n)) = Some (boot_of (node_element n)).
Proof. by apply boot_from_fields. Qed.

Lemma boot_from_rel r :
  boot_element_from_value (bootstrap_element_json (element_of_rel r)) = Some (boot_of (rel_element r)).
Proof. by apply boot_from_fields. Qed.

(** The line of an element, as the query host's bootstrap gets it. *)
Definition host_line (v : value) (e : SourceSdk.SourceElement) : Prop :=
  boot_element_from_value v = Some (boot_of e).

Lemma host_line_item v e b (s : CoreQuerySubscription) :
  host_line v e → boot_element_from_value v = Some b →
  SourceClient.stream_item s (Ok b) =
    Done (Ok (SInsert (SourcePipeline.core_element (cs_id s) 0 e))).
Proof. intros Hv Hb. rewrite Hv in Hb. injection Hb as <-. by destruct e. Qed.

(** What the source's proxy answers: the elements [es], in the form of either
    protocol. *)
Definition proxy_serves (es : list SourceSdk.SourceElement) (c : call qapi_call) : Prop :=
  match c with
  | @Call _ X e x =>
      match e in qapi_call X return X → Prop with
      | QStream c =>
          match c in http_stream_call X return X → Prop with
          | HttpStream _ _ _ _ => λ x, ∀ resp, x = Ok resp →
              sr_items resp JsonNewLine = map (λ e, Ok (SourceSdk.element_json e)) es
          end
      | QHttp c =>
          match c in http_call X return X → Prop with
          | HttpPost url _ _ => λ x, ∀ resp bytes events,
              url = invoke_url invoker (proxy_app source_id) "acquire" → x = Ok resp →
              hr_bytes resp = Ok bytes → parse_events json_parse shape_error bytes = Ok events →
              map node_element (bev_nodes events) ++ map rel_element (bev_rels events) = es
          | _ => λ _, True
          end
      | _ => λ _, True
      end x
  end.

Lemma until_error_ok l : until_error (map Ok l) = l.
Proof. induction l as [|v l IH]; [done|]. cbn. by rewrite IH. Qed.

Lemma acquire_v2_lines es r hs :
  under (proxy_serves es) (acquire_v2 show_status debug_invoke header_name header_value source_id r hs)
    (λ _ o, ∀ lines, o = Done (Lines lines) → Forall2 host_line lines es).
Proof.
  unfold acquire_v2. apply under_bind, under_translate. unfold stream_invoke.
  destruct (parse_headers _ _ _ _) as [rh|e]; [|done].
  apply under_call. intros [resp|e] Hx; [|done]. cbn in Hx. specialize (Hx resp eq_refl).
  destruct (is_success (sr_status resp)); [|done]. intros lines [= <-]. rewrite Hx.
  rewrite <-(map_map SourceSdk.element_json Ok), until_error_ok.
  clear Hx. induction es as [|e es IH]; constructor; [apply boot_from_sdk | exact IH].
Qed.

Lemma acquire_v1_lines es r :
  under (proxy_serves es) (acquire_v1 show_status debug_str header_name header_value json_parse
    shape_error source_id invoker r)
    (λ _ o, ∀ lines, o = Done (Lines lines) → Forall2 host_line lines es).
Proof.
  unfold acquire_v1. apply under_bind, under_translate. unfold dapr_invoke.
  cbn [default parse_headers]. apply under_call. intros [resp|e] Hx; [|done]. cbn in Hx.
  destruct (is_success (hr_status resp)); [|done]. cbn.
  destruct (hr_bytes resp) as [bytes|e] eqn:Hb; [|done].
  destruct (parse_events json_parse shape_error bytes) as [events|e] eqn:He; [|done].
  intros lines [= <-]. rewrite <-(Hx resp bytes events eq_refl eq_refl Hb He).
  apply Forall2_app; apply Forall2_map_diag; intros; [apply boot_from_node | apply boot_from_rel].
Qed.
(** C40: the data a source answers a subscription with reaches the engine as what
    it is.  Whether its proxy streams the elements or returns them all at once,
    every line of a successful answer of the query API is read by the query
    host, and its bootstrap turns the lines, in order, into the insertions of
    the source's elements, nodes as nodes and relations as relations, with
    their labels, properties and ends. *)
Theorem bootstrap_data_reaches_engine es header r (s : CoreQuerySubscription) :
  under (proxy_serves es) (handle header r) (λ _ o, ∀ lines, o = Done (Lines lines) →
    ∃ bs, mapM boot_element_from_value lines = Some bs ∧
      map (λ b, SourceClient.stream_item s (Ok b)) bs =
      map (λ e, Done (Ok (SInsert (SourcePipeline.core_element (cs_id s) 0 e)))) es).
Proof.
  assert (∀ lines, Forall2 host_line lines es →
    ∃ bs, mapM boot_element_from_value lines = Some bs ∧
      map (λ b, SourceClient.stream_item s (Ok b)) bs =
      map (λ e, Done (Ok (SInsert (SourcePipeline.core_element (cs_id s) 0 e)))) es) as Hlines.
  { intros lines Hl. exists (map boot_of es). split.
    - apply mapM_Some, Forall2_fmap_r. exact Hl.
    - rewrite map_map. apply map_ext. by intros []. }
  unfold handle_subscription, dispatch_control_event. apply under_bind, under_call. intros now _.
  eapply under_mono; [done| |apply publish_event_posts].
  intros t o [[-> _]|(body & -> & _)]; [|done].
  apply under_bind. eapply under_mono; [done| |apply under_true]. intros t' [supports|w] _; [|done].
  destruct (is_ok supports).
  - eapply under_mono; [done| |apply acquire_v2_lines]. eauto.
  - eapply under_mono; [done| |apply acquire_v1_lines]. eauto.
Qed.
End data.
End api.
