(* ===== verification/MgmtModels.v ===== *)
(** * MgmtModels: the management API's domain types
    ([control-planes/mgmt_api/src/domain/models.rs]) *)
From S2P Require Import Prelude BTree Json.

Record Resource (TSpec TStatus : Type) := mkResource {
  r_id : string;
  r_spec : TSpec;
  r_status : option TStatus;
}.
Arguments mkResource {TSpec TStatus} _ _ _.
Arguments r_id {TSpec TStatus} _.
Arguments r_spec {TSpec TStatus} _.
Arguments r_status {TSpec TStatus} _.

Inductive ConfigValue :=
| Inline (value : InlineValue)
| Secret (name key : string)
with InlineValue :=
| IString (value : string)
| IInteger (value : Z)
| IBoolean (value : bool)
| IList (value : list ConfigValue).

Inductive EndpointSetting := Internal | External.

Record Endpoint := mkEndpoint { ep_setting : EndpointSetting; ep_target : string }.

Record ServiceConfig := mkService {
  svc_replica : option string;
  svc_image : option string;
  svc_external_image : option bool;
  svc_dapr : option (gmap string ConfigValue);
  svc_endpoints : option (gmap string Endpoint);
  svc_properties : option (gmap string ConfigValue);
  svc_deprovision_handler : option bool;
}.

Inductive ServiceIdentity :=
| MicrosoftEntraWorkloadID (client_id : string)
| MicrosoftEntraApplication (tenant_id client_id : ConfigValue) (secret certificate : option ConfigValue)
| ConnectionString (connection_string : ConfigValue)
| AccessKey (access_key : ConfigValue)
| AwsIamRole (role_arn : ConfigValue)
| AwsIamAccessKey (access_key_id secret_access_key aws_region : ConfigValue).

Record SourceSpec := mkSource {
  so_kind : string;
  so_services : option (gmap string ServiceConfig);
  so_properties : option (gmap string ConfigValue);
  so_identity : option ServiceIdentity;
}.

Record ReactionSpec := mkReaction {
  re_kind : string;
  re_tag : option string;
  re_services : option (gmap string ServiceConfig);
  re_properties : option (gmap string ConfigValue);
  re_queries : gmap string string;
  re_identity : option ServiceIdentity;
}.

Record SourceStatus := mkSourceStatus {
  sst_available : bool;
  sst_messages : option (btree string);
  sst_ingress_url : option string;
}.

Record ReactionStatus := mkReactionStatus {
  rst_available : bool;
  rst_messages : option (btree string);
  rst_ingress_url : option string;
}.

Inductive StorageSpec :=
| Memory (enable_archive : bool)
| Redis (connection_string : ConfigValue) (cache_size : option Z)
| RocksDb (enable_archive : bool) (storage_class : option string) (direct_io : bool).

Record QueryContainerSpec := mkContainer {
  qc_query_host_count : Z;
  qc_results : gmap string ConfigValue;
  qc_storage : gmap string StorageSpec;
  qc_default_store : string;
}.

Record QueryContainerStatus := mkContainerStatus {
  qcs_available : bool;
  qcs_messages : option (btree string);
}.

Record QuerySourceLabel := mkLabel { sl_source_label : string }.

Record QuerySubscription := mkSubscription {
  qs_id : string;
  qs_nodes : list QuerySourceLabel;
  qs_relations : list QuerySourceLabel;
  qs_pipeline : list string;
}.

Record QueryJoinKey := mkJoinKey { jk_label : string; jk_property : string }.
Record QueryJoin := mkJoin { qj_id : string; qj_keys : list QueryJoinKey }.

Inductive QueryLanguage := Cypher | GQL.

Record SourceMiddlewareConfig := mkMiddleware {
  mw_kind : string;
  mw_name : string;
  mw_config : jmap;
}.

Record QuerySources := mkSources {
  src_subscriptions : list QuerySubscription;
  src_joins : list QueryJoin;
  src_middleware : list SourceMiddlewareConfig;
}.

Inductive RetentionPolicy := Latest | Expire (after_seconds : Z) | All.

Record ViewSpec := mkView { vs_enabled : bool; vs_retention_policy : RetentionPolicy }.

Record QuerySpec := mkQuery {
  q_container : string;
  q_mode : string;
  q_query : string;
  q_query_language : option QueryLanguage;
  q_sources : QuerySources;
  q_storage_profile : option string;
  q_view : ViewSpec;
  q_transient : option bool;
}.

Record QueryStatus := mkQueryStatus {
  qst_host_name : string;
  qst_status : string;
  qst_container : string;
  qst_error_message : option string;
}.

Inductive SchemaType :=
| TyObject | TyArray | TyString | TyNumber | TyInteger | TyBoolean | TyNull.

(** A JSON schema.  Its [HashMap] of properties is the list of its entries in
    the order it is iterated in; bounds are the bits of an [f64]. *)
Inductive JsonSchema := mkSchema {
  js_schema : option string;
  js_type : SchemaType;
  js_properties : option (list (string * JsonSchema));
  js_required : option (list string);
  js_items : option JsonSchema;
  js_enum_values : option (list value);
  js_format : option string;
  js_minimum : option Z;
  js_maximum : option Z;
  js_min_length : option Z;
  js_max_length : option Z;
  js_description : option string;
  js_default : option value;
}.

Record ServiceEndpoint := mkServiceEndpoint { sep_setting : EndpointSetting; sep_target : string }.

(** The maps of a provider are only iterated: their entries, in that order. *)
Record ProviderService := mkProviderService {
  ps_image : string;
  ps_external_image : option bool;
  ps_dapr : option (list (string * string));
  ps_endpoints : option (list (string * ServiceEndpoint));
  ps_config_schema : option JsonSchema;
  ps_deprovision_handler : option bool;
}.

Record ProviderSpec := mkProvider {
  pv_services : list (string * ProviderService);
  pv_config_schema : option JsonSchema;
}.

Inductive DomainError :=
| NotFound
| Invalid (message : string)
| QueryContainerOffline
| InternalError (inner : string)
| UndefinedSetting (message : string)
| InvalidSpec (message : string)
| JsonParseError (message : string)
| Cancelled.

Definition domain_error_to_string (e : DomainError) : string :=
  match e with
  | NotFound => "Resource not found"
  | Invalid m => "Invalid: " +:+ m
  | QueryContainerOffline => "QueryContainerOffline"
  | InternalError inner => "Internal: " +:+ inner
  | UndefinedSetting m => "UndefinedSetting: " +:+ m
  | InvalidSpec m => "InvalidSpec: " +:+ m
  | JsonParseError m => "JsonParseError: " +:+ m
  | Cancelled => "Cancelled"
  end.
