(* ===== verification/MergeSpec.v ===== *)
(** * MergeSpec: completing a resource with its provider's defaults
    ([merge_spec] of [domain/resource_services/extensible/mod.rs]) *)
From S2P Require Import Prelude BTree Json RustText MgmtModels.

Notation cfg := (gmap string ConfigValue).

(** [i64]'s text. *)
Definition show_i64 (n : Z) : string :=
  if (n <? 0)%Z then "-" +:+ show_unsigned (- n) else show_unsigned n.

Definition bad_integer : DomainError := InvalidSpec "expected a valid integer".

(** A scalar default; anything else has none. *)
Definition scalar_default (v : value) : result (option InlineValue) DomainError :=
  match v with
  | VString s => Ok (Some (IString s))
  | VBool b => Ok (Some (IBoolean b))
  | VNumber n =>
      match num_as_i64 n with Some n => Ok (Some (IInteger n)) | None => Err bad_integer end
  | _ => Ok None
  end.

(** The elements that have a default, in order. *)
Fixpoint list_default {A} (f : InlineValue → A) (l : list value) : result (list A) DomainError :=
  match l with
  | [] => Ok []
  | v :: l =>
      let? d := scalar_default v in
      let? rest := list_default f l in
      Ok (match d with Some d => f d :: rest | None => rest end)
  end.

(** The default of a property of the resource... *)
Definition property_default (v : value) : result (option ConfigValue) DomainError :=
  match v with
  | VArray a => let? l := list_default Inline a in Ok (Some (Inline (IList l)))
  | _ => let? d := scalar_default v in Ok (Inline <$> d)
  end.

Definition inline_text (v : InlineValue) : string :=
  match v with
  | IString s => s
  | IBoolean b => if b then "true" else "false"
  | IInteger n => show_i64 n
  | IList _ => EmptyString
  end.

(** ... and of a service: a list becomes one text. *)
Definition service_default (v : value) : result (option ConfigValue) DomainError :=
  match v with
  | VArray a => let? l := list_default inline_text a in Ok (Some (Inline (IString (join "," l))))
  | _ => let? d := scalar_default v in Ok (Inline <$> d)
  end.

(** For each property of the schema that is not set, its default if it has one. *)
Fixpoint fill_defaults (conv : value → result (option ConfigValue) DomainError)
    (schema : list (string * JsonSchema)) (properties : cfg) : result cfg DomainError :=
  match schema with
  | [] => Ok properties
  | (key, s) :: schema =>
      match properties !! key with
      | Some _ => fill_defaults conv schema properties
      | None =>
          match js_default s with
          | None => fill_defaults conv schema properties
          | Some d =>
              let? d := conv d in
              match d with
              | Some d => fill_defaults conv schema (<[key := d]> properties)
              | None => fill_defaults conv schema properties
              end
          end
      end
  end.

Definition no_service : ServiceConfig := mkService None None None None None None None.

(** [trim_start_matches("$")] *)
Fixpoint trim_dollars (s : string) : string :=
  match s with
  | String c s' => if Ascii.eqb c (Ascii.ascii_of_nat 36) then trim_dollars s' else s
  | EmptyString => EmptyString
  end.

Definition bad_endpoint : DomainError :=
  InvalidSpec "Invalid endpoint value; expected string or integer".

(** The text of the property an endpoint's target names. *)
Definition target_port (service_properties : option cfg) (target : string)
    : result string DomainError :=
  match service_properties with
  | None => Err (InvalidSpec
      "Unable to retrieve the target port as the properties are not defined")
  | Some properties =>
      match properties !! target with
      | None => Err (InvalidSpec
          ("Unable to retrieve the target port; " +:+ target +:+ " is not defined"))
      | Some (Inline (IString value)) => Ok value
      | Some (Inline (IInteger value)) => Ok (show_i64 value)
      | Some _ => Err bad_endpoint
      end
  end.

(** The provider's endpoints the resource does not define itself. *)
Fixpoint fill_endpoints (service_properties : option cfg)
    (endpoints : list (string * ServiceEndpoint)) (acc : gmap string Endpoint)
    : result (gmap string Endpoint) DomainError :=
  match endpoints with
  | [] => Ok acc
  | (name, e) :: endpoints =>
      match acc !! name with
      | Some _ => fill_endpoints service_properties endpoints acc
      | None =>
          let? port := target_port service_properties (trim_dollars (sep_target e)) in
          fill_endpoints service_properties endpoints
            (<[name := mkEndpoint (sep_setting e) port]> acc)
      end
  end.

Definition dapr_values (dapr : list (string * string)) : cfg :=
  foldl (λ m kv, <[kv.1 := Inline (IString kv.2)]> m) ∅ dapr.

(** The service's properties: those of the resource and the schema's defaults. *)
Definition merge_properties (service_name : string) (config : ProviderService)
    (curr : ServiceConfig) : result (option cfg) DomainError :=
  match ps_config_schema config with
  | None => Ok None
  | Some schema =>
      match js_properties schema with
      | None => Err (InvalidSpec
          ("Unable to retrieve the service properties for " +:+ service_name))
      | Some properties =>
          let? m := fill_defaults service_default properties (default ∅ (svc_properties curr)) in
          Ok (Some m)
      end
  end.

Definition merge_service (service_name : string) (config : ProviderService) (curr : ServiceConfig)
    : result ServiceConfig DomainError :=
  let dapr := dapr_values <$> ps_dapr config in
  let? properties := merge_properties service_name config curr in
  let own := default ∅ (svc_endpoints curr) in
  let? endpoints :=
    match ps_endpoints config with
    | Some endpoints => let? r := fill_endpoints properties endpoints own in Ok (Some r)
    | None => Ok (if decide (own = ∅) then None else Some own)
    end in
  Ok (mkService None (Some (ps_image config)) (ps_external_image config) dapr endpoints properties
        (ps_deprovision_handler config)).

Fixpoint merge_services (config : list (string * ProviderService))
    (services : gmap string ServiceConfig) : result (gmap string ServiceConfig) DomainError :=
  match config with
  | [] => Ok services
  | (name, c) :: config =>
      let? s := merge_service name c (default no_service (services !! name)) in
      merge_services config (<[name := s]> services)
  end.

Definition schema_properties (s : option JsonSchema) : list (string * JsonSchema) :=
  default [] (s ≫= js_properties).

Definition merge_spec (source_properties : option cfg)
    (source_services : option (gmap string ServiceConfig)) (schema : ProviderSpec)
    : result (cfg * gmap string ServiceConfig) DomainError :=
  let? properties := fill_defaults property_default (schema_properties (pv_config_schema schema))
    (default ∅ source_properties) in
  let? services := merge_services (pv_services schema) (default ∅ source_services) in
  Ok (properties, services).

(** [populate_default_values], of sources and of reactions. *)
Definition populate_source (source : SourceSpec) (schema : ProviderSpec)
    : result SourceSpec DomainError :=
  let? ps := merge_spec (so_properties source) (so_services source) schema in
  Ok (mkSource (so_kind source) (Some ps.2) (Some ps.1) (so_identity source)).

Definition populate_reaction (reaction : ReactionSpec) (schema : ProviderSpec)
    : result ReactionSpec DomainError :=
  let? ps := merge_spec (re_properties reaction) (re_services reaction) schema in
  Ok (mkReaction (re_kind reaction) (re_tag reaction) (Some ps.2) (Some ps.1)
        (re_queries reaction) (re_identity reaction)).

(** ** What completing a resource gives *)

(** A property once the schema's defaults are filled in: the user's value, or
    else the default of the schema. *)
Definition filled (conv : value → result (option ConfigValue) DomainError)
    (schema : list (string * JsonSchema)) (own : cfg) (key : string) : option ConfigValue :=
  match own !! key with
  | Some v => Some v
  | None =>
      s ← (list_to_map schema : gmap string JsonSchema) !! key;
      d ← js_default s;
      match conv d with Ok d => d | Err _ => None end
  end.

(** The endpoint of a provider once its target is looked up. *)
Definition resolved (properties : option cfg) (e : ServiceEndpoint) : option Endpoint :=
  match target_port properties (trim_dollars (sep_target e)) with
  | Ok port => Some (mkEndpoint (sep_setting e) port)
  | Err _ => None
  end.

(** A service of the result, from the one the user gave. *)
Record service_merged (c : ProviderService) (own merged : ServiceConfig) : Prop := {
  merged_image : svc_image merged = Some (ps_image c);
  merged_external : svc_external_image merged = ps_external_image c;
  merged_handler : svc_deprovision_handler merged = ps_deprovision_handler c;
  merged_replica : svc_replica merged = None;
  merged_no_properties : ps_config_schema c = None → svc_properties merged = None;
  merged_properties s : ps_config_schema c = Some s → ∃ schema m,
    js_properties s = Some schema ∧ svc_properties merged = Some m ∧
    ∀ key, m !! key = filled service_default schema (default ∅ (svc_properties own)) key;
  merged_endpoints name : (default ∅ (svc_endpoints merged) : gmap string Endpoint) !! name =
    match (default ∅ (svc_endpoints own) : gmap string Endpoint) !! name with
    | Some e => Some e
    | None =>
        e ← (list_to_map (default [] (ps_endpoints c)) : gmap string ServiceEndpoint) !! name;
        resolved (svc_properties merged) e
    end;
}.

(** The maps of a provider have each key once. *)
Definition keys_once {A} (l : list (string * A)) : Prop := NoDup l.*1.

Definition service_wf (c : ProviderService) : Prop :=
  keys_once (schema_properties (ps_config_schema c)) ∧ keys_once (default [] (ps_endpoints c)).

Definition provider_wf (schema : ProviderSpec) : Prop :=
  keys_once (schema_properties (pv_config_schema schema)) ∧ keys_once (pv_services schema) ∧
  Forall (λ nc, service_wf nc.2) (pv_services schema).

Section fill.
Context (conv : value → result (option ConfigValue) DomainError).

(** A property that filling in leaves as it is. *)
Definition settled (m : cfg) (ks : string * JsonSchema) : Prop :=
  is_Some (m !! ks.1) ∨ js_default ks.2 = None ∨
  ∃ d, js_default ks.2 = Some d ∧ conv d = Ok None.

Lemma fill_defaults_settled schema m :
  Forall (settled m) schema → fill_defaults conv schema m = Ok m.
Proof.
  induction 1 as [|[k s] schema Hs _ IH]; [done|]; cbn in *.
  destruct (m !! k) as [v|] eqn:Hk; [done|].
  destruct Hs as [[v Hv]|[Hd|(d & Hd & Hc)]]; cbn in *; [congruence|..]; rewrite Hd; [done|].
  by rewrite Hc.
Qed.

Lemma fill_defaults_result schema m m' :
  fill_defaults conv schema m = Ok m' → m ⊆ m' ∧ Forall (settled m') schema.
Proof.
  revert m. induction schema as [|[k s] schema IH]; intros m; cbn.
  { intros [= ->]. by split. }
  destruct (m !! k) as [v|] eqn:Hk.
  { intros [Hm Hs]%IH. split; [done|]. constructor; [|done]. left. exists v.
    by eapply lookup_weaken. }
  destruct (js_default s) as [d|] eqn:Hd.
  - rewrite result_bind_Ok. intros ([v|] & Hv & [Hm Hs]%IH); (split; [|constructor; [|done]]).
    + etrans; [|exact Hm]. by apply insert_subseteq.
    + left. exists v. eapply lookup_weaken; [apply lookup_insert_eq | done].
    + done.
    + right; right. eauto.
  - intros [Hm Hs]%IH. split; [done|]. constructor; [|done]. by right; left.
Qed.

Lemma fill_defaults_stable schema m m' :
  fill_defaults conv schema m = Ok m' → fill_defaults conv schema m' = Ok m'.
Proof. intros [_ H]%fill_defaults_result. by apply fill_defaults_settled. Qed.

Lemma filled_cons k s schema m m1 d key :
  k ∉ schema.*1 → m !! k = None →
  (js_default s ≫= (λ d, match conv d with Ok d => d | Err _ => None end)) = d →
  (∀ key, m1 !! key = if decide (key = k) then d else m !! key) →
  filled conv schema m1 key = filled conv ((k, s) :: schema) m key.
Proof.
  intros Hk Hm Hd H1. unfold filled. rewrite H1. cbn. case_decide as E; [subst key|].
  - rewrite Hm, lookup_insert_eq. cbn. rewrite Hd. destruct d; [done|].
    by rewrite (not_elem_of_list_to_map_1 schema k Hk).
  - by rewrite lookup_insert_ne by done.
Qed.

Lemma fill_defaults_lookup schema m m' key :
  keys_once schema → fill_defaults conv schema m = Ok m' → m' !! key = filled conv schema m key.
Proof.
  unfold keys_once. revert m. induction schema as [|[k s] schema IH]; intros m; cbn.
  { intros _ [= ->]. unfold filled. cbn. by destruct (m' !! key). }
  intros [Hk Hn]%list.NoDup_cons. destruct (m !! k) as [v|] eqn:Hm.
  { intros H. rewrite (IH m Hn H). unfold filled. cbn.
    destruct (m !! key) eqn:E; [done|]. rewrite lookup_insert_ne; [done|congruence]. }
  destruct (js_default s) as [d|] eqn:Hd.
  - rewrite result_bind_Ok. intros (r & Hr & H).
    assert (fill_defaults conv schema (match r with Some v => <[k:=v]> m | None => m end) = Ok m')
      as H' by by destruct r.
    rewrite (IH _ Hn H'). apply (filled_cons _ _ _ _ _ r); [done..| |].
    { rewrite Hd. cbn. by rewrite Hr. }
    intros key'. case_decide as E; [subst key'|]; destruct r; rewrite ?lookup_insert_eq,
      ?lookup_insert_ne by done; done.
  - intros H. rewrite (IH _ Hn H). apply (filled_cons _ _ _ _ _ None); [done..| |].
    { by rewrite Hd. }
    intros key'. by case_decide as E; [subst key'|].
Qed.
End fill.

Lemma fill_endpoints_result props es acc acc' :
  fill_endpoints props es acc = Ok acc' →
  acc ⊆ acc' ∧ Forall (λ ne, is_Some (acc' !! ne.1)) es.
Proof.
  revert acc. induction es as [|[n e] es IH]; intros acc; cbn; [by intros [= ->]|].
  destruct (acc !! n) as [v|] eqn:Hn.
  - intros [Hs He]%IH. split; [done|]. constructor; [|done]. exists v. by eapply lookup_weaken.
  - rewrite result_bind_Ok. intros (port & _ & [Hs He]%IH). split.
    + etrans; [|exact Hs]. by apply insert_subseteq.
    + constructor; [|done]. eexists. eapply lookup_weaken; [apply lookup_insert_eq | done].
Qed.

Lemma fill_endpoints_present props es acc :
  Forall (λ ne, is_Some (acc !! ne.1)) es → fill_endpoints props es acc = Ok acc.
Proof. induction 1 as [|[n e] es [v Hv] _ IH]; [done|]; cbn in *. by rewrite Hv. Qed.

Lemma fill_endpoints_lookup props es acc acc' name :
  keys_once es → fill_endpoints props es acc = Ok acc' →
  acc' !! name = match acc !! name with
    | Some e => Some e
    | None => (list_to_map es : gmap string ServiceEndpoint) !! name ≫= resolved props
    end.
Proof.
  unfold keys_once. revert acc. induction es as [|[n e] es IH]; intros acc; cbn.
  { intros _ [= ->]. by destruct (acc' !! name). }
  intros [Hk Hn]%list.NoDup_cons.
  pose proof (not_elem_of_list_to_map_1 (M:=gmap string) es n Hk) as Hnone.
  destruct (acc !! n) as [v|] eqn:Ha.
  - intros H. rewrite (IH _ Hn H). destruct (acc !! name) eqn:E; [done|].
    rewrite lookup_insert_ne; [done|congruence].
  - rewrite result_bind_Ok. intros (port & Hp & H). rewrite (IH _ Hn H).
    destruct (decide (name = n)) as [->|Hne].
    + rewrite !lookup_insert_eq, Ha. cbn. unfold resolved. by rewrite Hp.
    + by rewrite !lookup_insert_ne by done.
Qed.

(** ** One service *)

Lemma merge_properties_stable name c own props image ext dapr eps h r :
  merge_properties name c own = Ok props →
  merge_properties name c (mkService r image ext dapr eps props h) = Ok props.
Proof.
  unfold merge_properties. destruct (ps_config_schema c) as [s|]; [|done].
  destruct (js_properties s) as [l|]; [|done].
  rewrite result_bind_Ok. intros (m & Hm & [= <-]). cbn. by rewrite (fill_defaults_stable _ _ _ _ Hm).
Qed.

Lemma merge_service_stable name c own merged :
  merge_service name c own = Ok merged → merge_service name c merged = Ok merged.
Proof.
  unfold merge_service. intros (props & Hp & H)%result_bind_Ok.
  apply result_bind_Ok in H as (eps & He & [= <-]).
  rewrite (merge_properties_stable _ _ _ _ _ _ _ _ _ _ Hp).
  cbn [result_bind svc_endpoints].
  destruct (ps_endpoints c) as [l|].
  - apply result_bind_Ok in He as (m & Hm & [= <-]). cbn.
    destruct (fill_endpoints_result _ _ _ _ Hm) as [_ Hl].
    by rewrite (fill_endpoints_present props l m Hl).
  - injection He as <-. destruct (decide (default ∅ (svc_endpoints own) = ∅)) as [E|E];
      cbn [default from_option id result_bind]; [done|]. by destruct (decide _).
Qed.

Lemma merge_service_spec name c own merged :
  service_wf c → merge_service name c own = Ok merged → service_merged c own merged.
Proof.
  intros [Hw1 Hw2]. unfold merge_service. rewrite result_bind_Ok.
  intros (props & Hp & H). apply result_bind_Ok in H as (eps & He & [= <-]).
  split; cbn; [done..| | |].
  - intros E. unfold merge_properties in Hp. rewrite E in Hp. congruence.
  - intros s E. unfold merge_properties in Hp. rewrite E in Hp, Hw1. cbn in Hw1.
    destruct (js_properties s) as [l|]; [|done]. cbn in Hw1.
    apply result_bind_Ok in Hp as (m & Hm & [= <-]). exists l, m. do 2 (split; [done|]).
    intros key. by apply fill_defaults_lookup.
  - intros name'. destruct (ps_endpoints c) as [l|].
    + apply result_bind_Ok in He as (m & Hm & [= <-]). cbn. by apply (fill_endpoints_lookup props).
    + injection He as <-. case_decide as E; cbn; [rewrite E|];
        rewrite ?lookup_empty; [done|]. by destruct (_ !! name').
Qed.

(** ** All services *)

Lemma merge_services_other config ss ss' name :
  name ∉ config.*1 → merge_services config ss = Ok ss' → ss' !! name = ss !! name.
Proof.
  revert ss. induction config as [|[n c] config IH]; intros ss; cbn; [by intros _ [= ->]|].
  intros [Hne Hn]%not_elem_of_cons. rewrite result_bind_Ok. intros (s & _ & H).
  rewrite (IH _ Hn H). by apply lookup_insert_ne.
Qed.

Lemma merge_services_each config ss ss' :
  keys_once config → merge_services config ss = Ok ss' →
  Forall (λ nc, ∃ s, ss' !! nc.1 = Some s ∧
    merge_service nc.1 nc.2 (default no_service (ss !! nc.1)) = Ok s) config.
Proof.
  unfold keys_once. revert ss. induction config as [|[n c] config IH]; intros ss; cbn; [done|].
  intros [Hk Hn]%list.NoDup_cons. rewrite result_bind_Ok. intros (s & Hs & H). constructor.
  - exists s. cbn. rewrite (merge_services_other _ _ _ _ Hk H), lookup_insert_eq. done.
  - pose proof (IH _ Hn H) as HF. rewrite list.Forall_forall in HF |- *.
    intros [n' c'] Hin. destruct (HF _ Hin) as (s' & H1 & H2). cbn in *. exists s'. split; [done|].
    rewrite lookup_insert_ne in H2; [done|]. intros ->. apply Hk.
    apply list_elem_of_fmap. by exists (n', c').
Qed.

Lemma merge_services_settled config ss :
  Forall (λ nc, ∃ s, ss !! nc.1 = Some s ∧ merge_service nc.1 nc.2 s = Ok s) config →
  merge_services config ss = Ok ss.
Proof.
  induction 1 as [|[n c] config (s & Hs & Hm) _ IH]; [done|]. cbn in *.
  rewrite Hs. cbn. rewrite Hm. cbn. by rewrite insert_id.
Qed.

(** C27: a source or reaction that is stored and submitted again as it was stored
    is left as it is: completing a completed specification changes nothing. *)
Theorem merge_spec_stable properties services schema p s :
  provider_wf schema → merge_spec properties services schema = Ok (p, s) →
  merge_spec (Some p) (Some s) schema = Ok (p, s).
Proof.
  intros (_ & Hw & _). unfold merge_spec. intros (p' & Hp & H)%result_bind_Ok. apply result_bind_Ok in H as (s' & Hs & [= <- <-]).
  cbn. rewrite (fill_defaults_stable _ _ _ _ Hp). cbn.
  rewrite merge_services_settled; [done|].
  eapply Forall_impl; [|by eapply merge_services_each].
  intros [n c] (m & Hm & Hc). exists m. split; [done|]. by eapply merge_service_stable.
Qed.

(** C26: a completed specification has, for each property, the user's value or
    else the schema's default (whatever the order of the schema's map); the
    services the provider does not know are untouched; each service of the
    provider has the provider's image and handler, its properties filled in the
    same way when the provider has a schema for them and dropped when it has
    none, and each endpoint is the user's, or the provider's with the text of the
    property its target names. *)
Theorem merge_spec_values properties services schema p s :
  provider_wf schema → merge_spec properties services schema = Ok (p, s) →
  (∀ key, p !! key =
     filled property_default (schema_properties (pv_config_schema schema))
       (default ∅ properties) key) ∧
  ∀ name, match (list_to_map (pv_services schema) : gmap string ProviderService) !! name with
    | None => s !! name = (default ∅ services : gmap string ServiceConfig) !! name
    | Some c => ∃ m, s !! name = Some m ∧
        service_merged c (default no_service ((default ∅ services : gmap string _) !! name)) m
    end.
Proof.
  intros (Hw & Hn & Hs). unfold merge_spec. intros (p' & Hp & H)%result_bind_Ok. apply result_bind_Ok in H as (s' & Hm & [= <- <-]). split.
  - intros key. by apply fill_defaults_lookup.
  - intros name. destruct (_ !! name) as [c|] eqn:E.
    + apply elem_of_list_to_map_2 in E.
      pose proof (merge_services_each _ _ _ Hn Hm) as HF. rewrite list.Forall_forall in HF, Hs.
      destruct (HF _ E) as (m & H1 & H2). exists m. split; [done|].
      eapply merge_service_spec; [exact (Hs _ E) | exact H2].
    + apply not_elem_of_list_to_map_2 in E. by eapply merge_services_other.
Qed.

(** ** Examples *)

Definition example_leaf (ty : SchemaType) (dflt : option value) : JsonSchema :=
  mkSchema None ty None None None None None None None None None None dflt.

Definition example_schema (ps : list (string * JsonSchema)) : JsonSchema :=
  mkSchema None TyObject (Some ps) None None None None None None None None None None.

(** A provider with one service, whose endpoint targets its property [port]. *)
Definition example_provider : ProviderSpec := mkProvider
  [("proxy", mkProviderService "source-proxy" None None
     (Some [("api", mkServiceEndpoint Internal "$port")])
     (Some (example_schema [("port", example_leaf TyNumber (Some (VNumber (NPos 8080))))])) None)]%string
  (Some (example_schema [("host", example_leaf TyString (Some (VString "localhost")));
                         ("database", example_leaf TyString None)]%string)).

Lemma example_provider_wf : provider_wf example_provider.
Proof.
  assert (∀ l : list string, bool_decide (NoDup l) = true → NoDup l) as H
    by (intros l; apply bool_decide_eq_true).
  split; [by apply H|]. split; [by apply H|]. constructor; [|constructor].
  split; by apply H.
Qed.

Lemma merge_spec_stable_witness :
  ∃ p s, merge_spec (Some {["database" := Inline (IString "hr")]}) None example_provider = Ok (p, s) ∧
    p !! "host"%string = Some (Inline (IString "localhost")) ∧
    merge_spec (Some p) (Some s) example_provider = Ok (p, s).
Proof.
  destruct (merge_spec (Some {["database" := Inline (IString "hr")]}) None example_provider)
    as [[p s]|e] eqn:E; [|vm_compute in E; discriminate].
  exists p, s. split; [done|]. split.
  - vm_compute in E. injection E as <- <-. by vm_compute.
  - exact (merge_spec_stable _ _ _ _ _ example_provider_wf E).
Defined.

Lemma merge_spec_values_witness :
  ∃ p s m, merge_spec (Some {["database" := Inline (IString "hr")]}) None example_provider = Ok (p, s) ∧
    p !! "database"%string = Some (Inline (IString "hr")) ∧
    s !! "proxy"%string = Some m ∧ svc_image m = Some "source-proxy"%string.
Proof.
  destruct (merge_spec (Some {["database" := Inline (IString "hr")]}) None example_provider)
    as [[p s]|e] eqn:E; [|vm_compute in E; discriminate].
  destruct (merge_spec_values _ _ _ _ _ example_provider_wf E) as [Hp Hs].
  destruct (Hs "proxy"%string) as (m & Hm & Hmerged). exists p, s, m.
  split; [done|]. split; [by rewrite Hp|]. split; [done|]. apply (merged_image _ _ _ Hmerged).
Defined.
