(* ===== verification/SpecValidator.v ===== *)
(** * SpecValidator: checking a source or reaction against its provider
    ([SourceSpecValidator] and [ReactionSpecValidator] of
    [domain/resource_services/extensible])

    The two validators are the same code but for three messages.  JSON schemas
    are compiled and checked by the [jsonschema] library. *)
From S2P Require Import Prelude BTree Json RustText MgmtModels MergeSpec.

(** ** A schema's JSON form *)

Definition schema_type_str (t : SchemaType) : string :=
  match t with
  | TyObject => "object" | TyArray => "array" | TyString => "string" | TyNumber => "number"
  | TyInteger => "integer" | TyBoolean => "boolean" | TyNull => "null"
  end.

(** [to_value] of an [f64]: not a finite number is [null]. *)
Definition f64_value (bits : Z) : value :=
  if (Z.land (Z.shiftr bits 52) 2047 =? 2047)%Z then VNull else VNumber (NFloat bits).

(** A field that is left out when it is [None]. *)
Definition optional {A} (name : string) (f : A → value) (o : option A) : list (string * value) :=
  match o with Some a => [(name, f a)] | None => [] end.

Fixpoint schema_to_value (s : JsonSchema) : value :=
  match s with
  | mkSchema schema ty properties required items enum_values format minimum maximum
      min_length max_length description dflt =>
      VObject (jobject (
        optional "$schema" VString schema ++
        [("type"%string, VString (schema_type_str ty))] ++
        optional "properties" (λ ps, VObject (jobject (map (λ kv,
          match kv with (k, s) => (k, schema_to_value s) end) ps))) properties ++
        optional "required" (λ r, VArray (map VString r)) required ++
        optional "items" schema_to_value items ++
        optional "enum" VArray enum_values ++
        optional "format" VString format ++
        optional "minimum" f64_value minimum ++
        optional "maximum" f64_value maximum ++
        optional "minLength" (λ n, VNumber (NPos n)) min_length ++
        optional "maxLength" (λ n, VNumber (NPos n)) max_length ++
        optional "description" VString description ++
        optional "default" (λ v, v) dflt))
  end.

(** ** A property's JSON form *)

Definition element_value (c : ConfigValue) : value :=
  match c with
  | Secret name _ => VString name
  | Inline (IString s) => VString s
  | Inline (IInteger n) => v_i64 n
  | Inline (IBoolean b) => VBool b
  | Inline (IList _) => VArray []
  end.

Definition config_value_json (c : ConfigValue) : value :=
  match c with
  | Inline (IList l) => VArray (map element_value l)
  | _ => element_value c
  end.

(** A map's entries are inserted in the order the [HashMap] is iterated in;
    the object they make does not depend on it. *)
Definition properties_json (m : cfg) : value :=
  VObject (jobject (prod_map id config_value_json <$> map_to_list m)).

(** ** The validator *)

(** The messages in which the two validators differ. *)
Record texts := mkTexts { tx_config_schema : string; tx_service_invalid : string }.

Definition source_texts : texts := mkTexts "Invalid source config schema" "Invalid source spec: ".
Definition reaction_texts : texts := mkTexts "Invalid config schema" "Invalid spec: ".

Section validator.
(** [JSONSchema::compile], and [validate]: the errors of an instance with their
    paths, in the order they are found.  A [HashMap]'s keys come in some order. *)
Context {V : Type}.
Context (compile : value → option V).
Context (check : V → value → result unit (list (string * string))).
Context (keys_of : gmap string ServiceConfig → list string).

(** The first error that is found, under a heading. *)
Definition check_instance (heading : string) (v : V) (instance : value) : result unit DomainError :=
  match check v instance with
  | Ok _ => Ok ()
  | Err ((e, path) :: _) => Err (InvalidSpec (heading +:+ e +:+ "; error path: " +:+ path))
  | Err [] => Ok ()
  end.

Definition validate_properties (tx : texts) (kind : string) (properties : option cfg)
    (config_schema : option JsonSchema) : result unit DomainError :=
  match config_schema with
  | None => Ok ()
  | Some config_schema =>
      match compile (schema_to_value config_schema) with
      | None => Err (InvalidSpec (tx_config_schema tx))
      | Some validation =>
          match properties with
          | None => Err (InvalidSpec ("properties are not defined for " +:+ kind))
          | Some properties =>
              check_instance "Invalid spec: " validation (properties_json properties)
          end
      end
  end.

(** Every service of the specification is one of the provider's. *)
Fixpoint known_services (defined names : list string) : result unit DomainError :=
  match names with
  | [] => Ok ()
  | name :: names =>
      if decide (name ∈ defined) then known_services defined names
      else Err (UndefinedSetting ("Service " +:+ name +:+ " is not defined in the schema"))
  end.

Fixpoint validate_services (tx : texts) (services : gmap string ServiceConfig)
    (provided : list (string * ProviderService)) : result unit DomainError :=
  match provided with
  | [] => Ok ()
  | (name, config) :: provided =>
      match ps_config_schema config with
      | None => validate_services tx services provided
      | Some config_schema =>
          match compile (schema_to_value config_schema) with
          | None => Err (InvalidSpec ("Invalid service config schema for service " +:+ name))
          | Some validation =>
              let? properties :=
                match services !! name with
                | Some service => ok_or (svc_properties service)
                    (InvalidSpec ("Invalid service properties for service " +:+ name))
                | None => Ok ∅
                end in
              let? u := check_instance (tx_service_invalid tx) validation (properties_json properties) in
              validate_services tx services provided
          end
      end
  end.

Definition validate_spec (tx : texts) (kind : string) (properties : option cfg)
    (services : option (gmap string ServiceConfig)) (schema : ProviderSpec)
    : result unit DomainError :=
  let? u := validate_properties tx kind properties (pv_config_schema schema) in
  match services with
  | None => Err (InvalidSpec "Services not defined")
  | Some services =>
      let? u := known_services (pv_services schema).*1 (keys_of services) in
      validate_services tx services (pv_services schema)
  end.

Definition validate_source (spec : SourceSpec) (schema : ProviderSpec) : result unit DomainError :=
  validate_spec source_texts (so_kind spec) (so_properties spec) (so_services spec) schema.

Definition validate_reaction (spec : ReactionSpec) (schema : ProviderSpec)
    : result unit DomainError :=
  validate_spec reaction_texts (re_kind spec) (re_properties spec) (re_services spec) schema.

(** ** What passes *)

(** No error is reported for [m] as an instance of [s]. *)
Definition conforms (s : JsonSchema) (m : cfg) : Prop :=
  ∃ v, compile (schema_to_value s) = Some v ∧
    (check v (properties_json m) = Ok () ∨ check v (properties_json m) = Err []).

Lemma check_instance_ok heading v m :
  check_instance heading v (properties_json m) = Ok () ↔
  check v (properties_json m) = Ok () ∨ check v (properties_json m) = Err [].
Proof using Type.
  clear keys_of.
  unfold check_instance. destruct (check v _) as [[]|[|[e p] l]]; naive_solver.
Qed.

Lemma known_services_ok defined names :
  known_services defined names = Ok () ↔ Forall (.∈ defined) names.
Proof using Type.
  clear keys_of.
  induction names as [|n names IH]; cbn; [by split|].
  rewrite list.Forall_cons. case_decide; naive_solver.
Qed.

Lemma validate_properties_ok tx kind properties schema :
  validate_properties tx kind properties schema = Ok () ↔
  ∀ s, schema = Some s → ∃ m, properties = Some m ∧ conforms s m.
Proof using Type.
  clear keys_of.
  unfold validate_properties, conforms. destruct schema as [s|]; [|naive_solver].
  destruct (compile _) as [v|] eqn:Hc; [destruct properties as [m|]|].
  - rewrite check_instance_ok. naive_solver.
  - naive_solver.
  - split; [done|]. intros H. destruct (H s eq_refl) as (m & _ & v & Hv & _). congruence.
Qed.

Lemma validate_services_ok tx services provided :
  validate_services tx services provided = Ok () ↔
  Forall (λ nc, ∀ s, ps_config_schema nc.2 = Some s → ∃ m,
    match services !! nc.1 with Some svc => svc_properties svc | None => Some ∅ end = Some m ∧
    conforms s m) provided.
Proof using Type.
  clear keys_of.
  induction provided as [|[n c] provided IH]; [by split|]. rewrite list.Forall_cons, <-IH. cbn.
  destruct (ps_config_schema c) as [s|]; [|naive_solver]. unfold conforms.
  destruct (compile _) as [v|] eqn:Hv.
  2:{ split; [done|]. intros [H _]. destruct (H s eq_refl) as (? & _ & v & ? & _). congruence. }
  destruct (services !! n) as [svc|]; cbn; [destruct (svc_properties svc) as [m|]; cbn|].
  - rewrite result_bind_Ok. setoid_rewrite <-(check_instance_ok (tx_service_invalid tx)).
    split; [intros ([] & H1 & H2); split; [|done]; intros ? [= <-]; eauto|].
    intros [H H2]. destruct (H s eq_refl) as (? & [= <-] & v' & Hv' & ?).
    assert (v' = v) as -> by congruence. eauto.
  - split; [done|]. intros [H _]. destruct (H s eq_refl) as (? & ? & _). done.
  - rewrite result_bind_Ok. setoid_rewrite <-(check_instance_ok (tx_service_invalid tx)).
    split; [intros ([] & H1 & H2); split; [|done]; intros ? [= <-]; eauto|].
    intros [H H2]. destruct (H s eq_refl) as (? & [= <-] & v' & Hv' & ?).
    assert (v' = v) as -> by congruence. eauto.
Qed.
End validator.
