(* ===== verification/Mappings.v ===== *)
(** * Mappings: the specifications sent to the resource providers
    ([resource_provider_api/src/models.rs] and [domain/mappings.rs])

    The provider API's types have the names of the domain's types in the code;
    here they start with [Api]. *)
From S2P Require Import Prelude BTree Json RustText MgmtModels MergeSpec.

Inductive ApiConfigValue :=
| ApiInline (value : string)
| ApiSecret (name key : string).

Record ApiEndpoint := mkApiEndpoint { ae_setting : EndpointSetting; ae_target : string }.

Record ApiService := mkApiService {
  as_replica : option string;
  as_image : string;
  as_external_image : option bool;
  as_endpoints : option (gmap string ApiEndpoint);
  as_dapr : option (gmap string ApiConfigValue);
  as_properties : option (gmap string ApiConfigValue);
}.

Inductive ApiServiceIdentity :=
| ApiMicrosoftEntraWorkloadID (client_id : string)
| ApiMicrosoftEntraApplication (tenant_id client_id : ApiConfigValue)
    (secret certificate : option ApiConfigValue)
| ApiConnectionString (connection_string : ApiConfigValue)
| ApiAccessKey (access_key : ApiConfigValue)
| ApiAwsIamRole (role_arn : ApiConfigValue)
| ApiAwsIamAccessKey (access_key_id secret_access_key aws_region : ApiConfigValue).

Record ApiSourceSpec := mkApiSource {
  as_kind : string;
  as_services : option (gmap string ApiService);
  as_source_properties : option (gmap string ApiConfigValue);
  as_identity : option ApiServiceIdentity;
}.

Record ApiReactionSpec := mkApiReaction {
  ar_kind : string;
  ar_tag : option string;
  ar_services : option (gmap string ApiService);
  ar_properties : option (gmap string ApiConfigValue);
  ar_queries : gmap string string;
  ar_identity : option ApiServiceIdentity;
}.

(** The provider's query, without a container and without [transient]. *)
Record ApiQuerySpec := mkApiQuery {
  aq_mode : string;
  aq_query : string;
  aq_query_language : option QueryLanguage;
  aq_sources : QuerySources;
  aq_storage_profile : option string;
  aq_view : ViewSpec;
}.

Inductive ApiStorageSpec :=
| ApiMemory (enable_archive : bool)
| ApiRedis (connection_string : ApiConfigValue) (cache_size : option Z)
| ApiRocksDb (enable_archive : bool) (storage_class : option string) (direct_io : bool).

Record ApiQueryContainerSpec := mkApiContainer {
  ac_query_host_count : Z;
  ac_results : gmap string ApiConfigValue;
  ac_storage : gmap string ApiStorageSpec;
  ac_default_store : string;
}.

Record ResourceRequest (TSpec : Type) := mkResourceRequest { rr_id : string; rr_spec : TSpec }.
Arguments mkResourceRequest {TSpec} _ _.

(** ** [From] and [Into]; [None] when the conversion panics *)

Class Into (A B : Type) := into : A → option B.

Definition inline_element_text (v : ConfigValue) : string :=
  match v with
  | Inline (IString value) => value
  | Inline (IInteger value) => show_i64 value
  | Inline (IBoolean value) => if value then "true" else "false"
  | Inline (IList _) => EmptyString
  | Secret _ _ => EmptyString
  end.

Definition config_value_into (c : ConfigValue) : ApiConfigValue :=
  match c with
  | Inline (IString value) => ApiInline value
  | Inline (IInteger value) => ApiInline (show_i64 value)
  | Inline (IBoolean value) => ApiInline (if value then "true" else "false")
  | Inline (IList value) => ApiInline (join "," (map inline_element_text value))
  | Secret name key => ApiSecret name key
  end.

Definition config_value_from (c : ApiConfigValue) : ConfigValue :=
  match c with
  | ApiInline value => Inline (IString value)
  | ApiSecret name key => Secret name key
  end.

Definition endpoint_into (e : Endpoint) : ApiEndpoint :=
  mkApiEndpoint (ep_setting e) (ep_target e).

(** Every value of an optional map converted. *)
Definition map_values {A B} (f : A → B) (m : option (gmap string A)) : option (gmap string B) :=
  match m with Some m => Some (f <$> m) | None => None end.

(** [service.image.unwrap()] *)
Definition service_into (s : ServiceConfig) : option ApiService :=
  image ← svc_image s;
  Some (mkApiService (svc_replica s) image (svc_external_image s)
    (map_values endpoint_into (svc_endpoints s))
    (map_values config_value_into (svc_dapr s))
    (map_values config_value_into (svc_properties s))).

(** Every value of a map converted, when every conversion succeeds. *)
Definition map_into {A B} (f : A → option B) (m : gmap string A) : option (gmap string B) :=
  if decide (map_Forall (λ _ a, is_Some (f a)) m) then Some (omap f m) else None.

Definition services_into (services : option (gmap string ServiceConfig))
    : option (option (gmap string ApiService)) :=
  match services with
  | None => Some None
  | Some services => Some <$> map_into service_into services
  end.

Definition identity_into (i : ServiceIdentity) : ApiServiceIdentity :=
  match i with
  | MicrosoftEntraWorkloadID client_id => ApiMicrosoftEntraWorkloadID client_id
  | MicrosoftEntraApplication tenant_id client_id secret certificate =>
      ApiMicrosoftEntraApplication (config_value_into tenant_id) (config_value_into client_id)
        (config_value_into <$> secret) (config_value_into <$> certificate)
  | ConnectionString connection_string => ApiConnectionString (config_value_into connection_string)
  | AccessKey access_key => ApiAccessKey (config_value_into access_key)
  | AwsIamRole role_arn => ApiAwsIamRole (config_value_into role_arn)
  | AwsIamAccessKey access_key_id secret_access_key aws_region =>
      ApiAwsIamAccessKey (config_value_into access_key_id) (config_value_into secret_access_key)
        (config_value_into aws_region)
  end.

#[export] Instance source_into : Into SourceSpec ApiSourceSpec := λ s,
  services ← services_into (so_services s);
  Some (mkApiSource (so_kind s) services (map_values config_value_into (so_properties s))
    (identity_into <$> so_identity s)).

#[export] Instance reaction_into : Into ReactionSpec ApiReactionSpec := λ r,
  services ← services_into (re_services r);
  Some (mkApiReaction (re_kind r) (re_tag r) services (map_values config_value_into (re_properties r))
    (re_queries r) (identity_into <$> re_identity r)).

Definition storage_into (s : StorageSpec) : ApiStorageSpec :=
  match s with
  | Memory enable_archive => ApiMemory enable_archive
  | Redis connection_string cache_size => ApiRedis (config_value_into connection_string) cache_size
  | RocksDb enable_archive storage_class direct_io =>
      ApiRocksDb enable_archive storage_class direct_io
  end.

#[export] Instance container_into : Into QueryContainerSpec ApiQueryContainerSpec := λ c,
  Some (mkApiContainer (qc_query_host_count c) (config_value_into <$> qc_results c)
    (storage_into <$> qc_storage c) (qc_default_store c)).

(** The sources, the view and the language are copied field by field. *)
#[export] Instance query_into : Into QuerySpec ApiQuerySpec := λ q,
  Some (mkApiQuery (q_mode q) (q_query q) (q_query_language q) (q_sources q)
    (q_storage_profile q) (q_view q)).

(** The provider's statuses have the fields of the domain's. *)
#[export] Instance source_status_into : Into SourceStatus SourceStatus := Some.
#[export] Instance reaction_status_into : Into ReactionStatus ReactionStatus := Some.
#[export] Instance container_status_into : Into QueryContainerStatus QueryContainerStatus := Some.
#[export] Instance query_status_into : Into QueryStatus QueryStatus := Some.

(** ** Lemmas *)

Lemma map_into_some {A B} (f : A → option B) m :
  map_Forall (λ _ a, is_Some (f a)) m → map_into f m = Some (omap f m).
Proof. intros H. unfold map_into. by rewrite decide_True. Qed.

(** A conversion of services panics only on a service without an image. *)
Lemma services_into_total services :
  (∀ m, services = Some m → map_Forall (λ _ s, is_Some (svc_image s)) m) →
  is_Some (services_into services).
Proof.
  intros H. destruct services as [m|]; [|by eexists]. cbn.
  rewrite map_into_some; [by eexists|].
  eapply map_Forall_impl; [by apply H|]. intros k s [i Hi]. unfold service_into. rewrite Hi. by eexists.
Qed.
