(* ===== verification/ResourceRepo.v ===== *)
(** * ResourceRepo: specifications in the document database
    ([mgmt_api/src/persistence/mod.rs])

    A collection is reached through the [mongodb] driver; the [bson] documents
    and their conversions are that library's. *)
From S2P Require Import Prelude Effects MgmtModels.

(** A [find]'s cursor is read to its end; reading a document can fail. *)
Inductive mongo_call (D : Type) : Type → Type :=
| FindOne (id : string) : mongo_call D (result (option D) string)
| ReplaceOne (id : string) (doc : D) : mongo_call D (result unit string)
| DeleteOne (id : string) : mongo_call D (result unit string)
| Find : mongo_call D (result (list (result D string)) string).
Arguments FindOne {D}.
Arguments ReplaceOne {D}.
Arguments DeleteOne {D}.
Arguments Find {D}.

(** How specifications become documents: [to_document], [from_document], the
    insertion of the [_id] field and its reading. *)
Class Bson (D T : Type) := {
  to_document : T → result D string;
  from_document : D → result T string;
  with_id : string → D → D;
  get_id : D → result string string;
}.
Arguments to_document {D T _}.
Arguments from_document {D T _}.
Arguments with_id {D T _}.
Arguments get_id {D T _}.

(** Serde's promise: a stored specification is read back, with its identifier. *)
Class BsonLaws (D T : Type) `{Bson D T} := {
  bson_roundtrip (t : T) id d : to_document t = Ok d → from_document (with_id (T:=T) id d) = Ok t;
  bson_id (t : T) id d : to_document t = Ok d → get_id (T:=T) (with_id (T:=T) id d) = Ok id;
}.

(** Every specification of the type becomes a document.  This is so for the types
    whose numbers fit 64 bits with a sign; a query's retention does not. *)
Class BsonTotal (D T : Type) `{Bson D T} := {
  bson_total (t : T) : is_ok (to_document (D:=D) t) = true;
}.

Definition unwrap_err (e : string) : string :=
  "called `Result::unwrap()` on an `Err` value: " +:+ e.

Section repo.
Context {D T : Type} `{Bson D T}.

Definition repo_get (id : string) : prog (mongo_call D) (result T DomainError) :=
  r ← trigger (FindOne id);
  match r with
  | Ok (Some doc) =>
      match from_document doc with
      | Ok spec => mret (Ok spec)
      | Err e => Panic (unwrap_err e)
      end
  | Ok None => mret (Err NotFound)
  | Err e => mret (Err (InternalError e))
  end.

Definition repo_set (id : string) (spec : T) : prog (mongo_call D) (result unit DomainError) :=
  match to_document spec with
  | Err e => Panic (unwrap_err e)
  | Ok doc =>
      r ← trigger (ReplaceOne id (with_id (T:=T) id doc));
      match r with
      | Ok _ => mret (Ok ())
      | Err e => mret (Err (InternalError e))
      end
  end.

Definition repo_delete (id : string) : prog (mongo_call D) (result unit DomainError) :=
  r ← trigger (DeleteOne id);
  match r with
  | Ok _ => mret (Ok ())
  | Err e => mret (Err (InternalError e))
  end.

(** One document of a listing; every failure panics. *)
Definition list_item (r : result D string) : result (string * T) string :=
  let? doc := r in
  let? id := get_id (T:=T) doc in
  let? item := from_document doc in
  Ok (id, item).

Definition repo_list : prog (mongo_call D) (list (string * T)) :=
  cursor ← trigger Find;
  match cursor with
  | Err e => Panic (unwrap_err e)
  | Ok docs =>
      match result_mapM list_item docs with
      | Ok items => mret items
      | Err e => Panic (unwrap_err e)
      end
  end.

(** ** A collection that works *)

Notation collection := (gmap string D).

(** What the calls do to a collection. *)
Definition on_collection (X : Type) (c : mongo_call D X) (m : collection) : X * collection :=
  match c in mongo_call _ X return X * collection with
  | FindOne id => (Ok (m !! id), m)
  | ReplaceOne id doc => (Ok (), <[id := doc]> m)
  | DeleteOne id => (Ok (), delete id m)
  | Find => (Ok (Ok <$> (map_to_list m).*2), m)
  end.

(** A collection holds the specifications [specs]. *)
Definition holds (m : collection) (specs : gmap string T) : Prop :=
  ∀ id, match specs !! id with
    | None => m !! id = None
    | Some t => ∃ d, to_document t = Ok d ∧ m !! id = Some (with_id (T:=T) id d)
    end.

Context `{!BsonLaws D T}.

(** The repository is a map from identifiers to specifications: getting,
    setting and deleting are the map's operations. *)
Lemma holds_get m specs id :
  holds m specs →
  run on_collection (repo_get id) m =
    (Done (match specs !! id with Some t => Ok t | None => Err NotFound end), m,
     [Call (FindOne id) (Ok (m !! id))]).
Proof.
  intros Hm. specialize (Hm id). unfold repo_get. cbn. destruct (specs !! id) as [t|].
  - destruct Hm as (d & Hd & ->). by rewrite (bson_roundtrip t id d Hd).
  - by rewrite Hm.
Qed.

Lemma holds_set `{!BsonTotal D T} m specs id (t : T) :
  holds m specs → ∃ m' tr,
  run on_collection (repo_set id t) m = (Done (Ok ()), m', tr) ∧ holds m' (<[id := t]> specs).
Proof.
  intros Hm. unfold repo_set. pose proof (bson_total (D:=D) t) as Ht.
  destruct (to_document t) as [d|e] eqn:Hd; [|done]. eexists _, _. cbn. split; [done|].
  intros id'. destruct (decide (id = id')) as [<-|Hne].
  - rewrite !lookup_insert_eq. by exists d.
  - rewrite !lookup_insert_ne by done. apply Hm.
Qed.

Lemma holds_delete m specs id :
  holds m specs → ∃ m' tr,
  run on_collection (repo_delete id) m = (Done (Ok ()), m', tr) ∧
  holds m' (delete id specs).
Proof.
  intros Hm. eexists _, _. cbn. split; [done|]. intros id'.
  destruct (decide (id = id')) as [<-|Hne].
  - by rewrite !lookup_delete_eq.
  - rewrite !lookup_delete_ne by done. apply Hm.
Qed.

Lemma list_items_ok l (specs : gmap string T) :
  (∀ id d, (id, d) ∈ l → ∃ t d', specs !! id = Some t ∧ to_document t = Ok d' ∧
     d = with_id (T:=T) id d') →
  ∃ items, result_mapM list_item (Ok <$> l.*2) = Ok items ∧ items.*1 = l.*1 ∧
    (∀ id t, (id, t) ∈ items → specs !! id = Some t).
Proof.
  induction l as [|[id d] l IH]; intros Hl.
  { exists []. split; [done|]. split; [done|]. by intros ? ? ?%elem_of_nil. }
  destruct IH as (items & Hm & Hk & Hi).
  { intros id' d' Hin. apply Hl. by right. }
  destruct (Hl id d ltac:(by left)) as (t & d' & Ht & Hd & ->).
  exists ((id, t) :: items). rewrite !fmap_cons. cbn [result_mapM fst snd].
  assert (list_item (Ok (with_id (T:=T) id d')) = Ok (id, t)) as ->.
  { unfold list_item. cbn. rewrite (bson_id t id d' Hd). cbn. by rewrite (bson_roundtrip t id d' Hd). }
  cbn [result_bind]. rewrite Hm. split; [done|]. split; [by rewrite Hk|].
  intros id' t' [[= -> ->]|Hin]%elem_of_cons; [done | by apply Hi].
Qed.

Lemma holds_list m specs :
  holds m specs → ∃ items tr,
  run on_collection repo_list m = (Done items, m, tr) ∧ items ≡ₚ map_to_list specs.
Proof.
  intros Hm. destruct (list_items_ok (map_to_list m) specs) as (items & Hi & Hk & Hs).
  { intros id d Hin%elem_of_map_to_list. specialize (Hm id).
    destruct (specs !! id) as [t|] eqn:E; [|congruence].
    destruct Hm as (d' & Hd & Hm). exists t, d'. split; [done|]. split; [done|congruence]. }
  exists items. eexists. unfold repo_list. cbn. rewrite Hi. split; [done|].
  pose proof (NoDup_fst_map_to_list m) as Hn. rewrite <-Hk in Hn.
  apply NoDup_Permutation; [by eapply list.NoDup_fmap_1 | apply NoDup_map_to_list |].
  intros [id t]. rewrite elem_of_map_to_list. split; [apply Hs|]. intros Ht.
  specialize (Hm id). rewrite Ht in Hm. destruct Hm as (d & _ & Hm).
  assert (id ∈ items.*1) as Hin.
  { rewrite Hk. apply list_elem_of_fmap. exists (id, with_id (T:=T) id d). split; [done|].
    by apply elem_of_map_to_list. }
  apply list_elem_of_fmap in Hin as ([id' t'] & -> & Hin). cbn in *.
  pose proof (Hs _ _ Hin) as Hs'. congruence.
Qed.
End repo.
