(* ===== verification/ResourceService.v ===== *)
(** * ResourceService: managing resources
    ([domain/resource_services/{extensible,standard}] of the management API)

    A source or a reaction is completed with its provider's defaults and checked
    against it ([extensible]); a query container or a query is only checked
    ([standard]).  Both are stored, and their actor is configured. *)
From S2P Require Import Prelude BTree Json RustText Effects MgmtModels MergeSpec.
From S2P Require Import SpecValidator Mappings ResourceRepo.

(** The calls a service makes: to its collection and the providers', to the
    actor of a resource, to a resource's services, and to the clock.  [Elapsed]
    is in nanoseconds. *)
Inductive service_call (D TApiSpec TApiStatus : Type) : Type → Type :=
| Specs (X : Type) (c : mongo_call D X) : service_call D TApiSpec TApiStatus X
| Providers (X : Type) (c : mongo_call D X) : service_call D TApiSpec TApiStatus X
| Configure (actor_type id : string) (request : ResourceRequest TApiSpec)
    : service_call D TApiSpec TApiStatus (result unit string)
| Deprovision (actor_type id : string) : service_call D TApiSpec TApiStatus (result unit string)
| GetStatus (actor_type id : string)
    : service_call D TApiSpec TApiStatus (result TApiStatus string)
| Invoke (app_id method : string) : service_call D TApiSpec TApiStatus (result unit string)
| Elapsed : service_call D TApiSpec TApiStatus Z
| SleepOneSecond : service_call D TApiSpec TApiStatus unit.
Arguments Specs {D TApiSpec TApiStatus X}.
Arguments Providers {D TApiSpec TApiStatus X}.
Arguments Configure {D TApiSpec TApiStatus}.
Arguments Deprovision {D TApiSpec TApiStatus}.
Arguments GetStatus {D TApiSpec TApiStatus}.
Arguments Invoke {D TApiSpec TApiStatus}.
Arguments Elapsed {D TApiSpec TApiStatus}.
Arguments SleepOneSecond {D TApiSpec TApiStatus}.

Definition internal {E} (e : string) : result E DomainError := Err (InternalError e).

Section service.
Context {D TSpec TStatus TApiSpec TApiStatus : Type}.
Context `{Bson D TSpec, Bson D ProviderSpec, Into TSpec TApiSpec, Into TApiStatus TStatus}.

Notation P := (prog (service_call D TApiSpec TApiStatus)).
Notation Resource := (Resource TSpec TStatus).

Definition specs {A} (p : prog (mongo_call D) A) : P A := translate (λ X c, Specs c) p.
Definition providers {A} (p : prog (mongo_call D) A) : P A := translate (λ X c, Providers c) p.

Definition unwrap_none : string := "called `Option::unwrap()` on a `None` value".

(** [spec.into()] *)
Definition convert {A B C} `{Into A B} (a : A) (k : B → P C) : P C :=
  match into a with Some b => k b | None => Panic unwrap_none end.

(** ** What the two kinds of services share *)

(** Telling the resource's actor about its specification. *)
Definition configure_actor (actor_type id : string) (spec : TSpec) : P (result Resource DomainError) :=
  convert spec (λ api,
    r ← trigger (Configure actor_type id (mkResourceRequest id api));
    match r with
    | Err e => mret (internal e)
    | Ok _ => mret (Ok (mkResource id spec None))
    end).

(** Storing a valid specification. *)
Definition store_and_configure (actor_type : TSpec → string) (id : string) (spec : TSpec)
    : P (result Resource DomainError) :=
  r ← specs (repo_set id spec);
  match r with
  | Err e => mret (Err e)
  | Ok _ => configure_actor (actor_type spec) id spec
  end.

(** Deleting the resource: its actor first. *)
Definition deprovision_and_delete (actor_type : TSpec → string) (id : string) (spec : TSpec)
    : P (result unit DomainError) :=
  r ← trigger (Deprovision (actor_type spec) id);
  match r with
  | Err e => mret (internal e)
  | Ok _ => specs (repo_delete id)
  end.

(** A resource with its actor's status; without one when the actor fails. *)
Definition with_status (actor_type : TSpec → string) (id : string) (spec : TSpec) : P Resource :=
  r ← trigger (GetStatus (actor_type spec) id);
  match r with
  | Ok s => convert s (λ s, mret (mkResource id spec (Some s)))
  | Err _ => mret (mkResource id spec None)
  end.

Definition get (actor_type : TSpec → string) (id : string) : P (result Resource DomainError) :=
  r ← specs (repo_get id);
  match r with
  | Err e => mret (Err e)
  | Ok spec => r ← with_status actor_type id spec; mret (Ok r)
  end.

Fixpoint list_statuses (actor_type : TSpec → string) (items : list (string * TSpec))
    : P (list Resource) :=
  match items with
  | [] => mret []
  | (id, spec) :: items =>
      r ← with_status actor_type id spec;
      rs ← list_statuses actor_type items;
      mret (r :: rs)
  end.

(** [ResourceDomainService::list] *)
Definition list_resources (actor_type : TSpec → string) : P (result (list Resource) DomainError) :=
  items ← specs repo_list;
  rs ← list_statuses actor_type items;
  mret (Ok rs).

(** The loop of [wait_for_ready], at most [fuel] rounds. *)
Fixpoint wait_rounds (fuel : nat) (actor_type id : string) (ready_check : TStatus → bool)
    (time_out : Z) : P (result bool DomainError) :=
  match fuel with
  | O => Panic "out of fuel"
  | S fuel =>
      elapsed ← trigger Elapsed;
      if (elapsed <? time_out)%Z then
        r ← trigger (GetStatus actor_type id);
        match r with
        | Err e => mret (internal e)
        | Ok s => convert s (λ s,
            if ready_check s then mret (Ok true)
            else
              _ ← trigger SleepOneSecond;
              wait_rounds fuel actor_type id ready_check time_out)
        end
      else mret (Ok false)
  end.

Definition one_second : Z := 1000000000.

(** The rounds there is time for, with the last look at the clock. *)
Definition wait_fuel (time_out : Z) : nat := S (S (Z.to_nat (time_out / one_second))).

Definition wait_for_ready (actor_type : TSpec → string) (ready_check : TStatus → bool)
    (id : string) (time_out : Z) : P (result bool DomainError) :=
  r ← specs (repo_get id);
  match r with
  | Err e => mret (Err e)
  | Ok spec => wait_rounds (wait_fuel time_out) (actor_type spec) id ready_check time_out
  end.

(** ** Extensible resources *)

Record Extensible := mkExtensible {
  ex_kind : TSpec → string;
  ex_actor_type : TSpec → string;
  ex_ready_check : TStatus → bool;
  ex_validators : list (TSpec → ProviderSpec → result unit DomainError);
  ex_populate : TSpec → ProviderSpec → result TSpec DomainError;
}.

Fixpoint validate_all (validators : list (TSpec → ProviderSpec → result unit DomainError))
    (spec : TSpec) (schema : ProviderSpec) : result unit DomainError :=
  match validators with
  | [] => Ok ()
  | v :: validators => let? u := v spec schema in validate_all validators spec schema
  end.

Definition ext_set (s : Extensible) (id : string) (source : TSpec) : P (result Resource DomainError) :=
  r ← providers (repo_get (ex_kind s source));
  match r with
  | Err NotFound =>
      mret (Err (Invalid ("Schema not initialized for kind: " +:+ ex_kind s source)))
  | Err e => mret (internal (domain_error_to_string e))
  | Ok schema =>
      match ex_populate s source schema with
      | Err e => mret (internal (domain_error_to_string e))
      | Ok source =>
          match validate_all (ex_validators s) source schema with
          | Err e => mret (Err e)
          | Ok _ => store_and_configure (ex_actor_type s) id source
          end
      end
  end.

(** The deprovision handlers of a resource's services, in the provider's
    order; a failure is only logged. *)
Fixpoint call_handlers (id : string) (services : list (string * ProviderService)) : P unit :=
  match services with
  | [] => mret ()
  | (name, config) :: services =>
      match ps_deprovision_handler config with
      | Some true =>
          _ ← trigger (Invoke (id +:+ "-" +:+ name) "deprovision");
          call_handlers id services
      | _ => call_handlers id services
      end
  end.

Definition ext_delete (s : Extensible) (id : string) : P (result unit DomainError) :=
  r ← specs (repo_get id);
  match r with
  | Err e => mret (Err e)
  | Ok spec =>
      schema ← providers (repo_get (T:=ProviderSpec) (ex_kind s spec));
      _ ← call_handlers id (match schema with Ok schema => pv_services schema | Err _ => [] end);
      deprovision_and_delete (ex_actor_type s) id spec
  end.

Definition ext_get (s : Extensible) (id : string) : P (result Resource DomainError) :=
  get (ex_actor_type s) id.

Definition ext_list (s : Extensible) : P (result (list Resource) DomainError) :=
  list_resources (ex_actor_type s).

Definition ext_wait_for_ready (s : Extensible) (id : string) (time_out : Z)
    : P (result bool DomainError) :=
  wait_for_ready (ex_actor_type s) (ex_ready_check s) id time_out.

(** ** Standard resources *)

(** A standard validator may make calls of its own, [V]. *)
Inductive standard_call {V : Type → Type} : Type → Type :=
| Own (X : Type) (c : service_call D TApiSpec TApiStatus X) : standard_call X
| Validation (X : Type) (c : V X) : standard_call X.

Record Standard {V : Type → Type} := mkStandard {
  st_actor_type : TSpec → string;
  st_ready_check : TStatus → bool;
  st_validators : list (TSpec → prog V (result unit DomainError));
}.

Section standard.
Context {V : Type → Type}.

Definition own {A} (p : P A) : prog (standard_call (V:=V)) A := translate (λ X c, Own X c) p.

(** [for validator in &self.validators { validator.validate(&resource).await?; }] *)
Definition run_validators (validators : list (TSpec → prog V (result unit DomainError)))
    (spec : TSpec) : prog V (result unit DomainError) :=
  for_try validators (λ v, v spec).

Definition std_set (s : Standard (V:=V)) (id : string) (resource : TSpec)
    : prog (standard_call (V:=V)) (result Resource DomainError) :=
  r ← translate (λ X c, Validation X c) (run_validators (st_validators s) resource);
  match r with
  | Err e => mret (Err e)
  | Ok _ => own (store_and_configure (st_actor_type s) id resource)
  end.

Definition std_delete (s : Standard (V:=V)) (id : string) : P (result unit DomainError) :=
  r ← specs (repo_get id);
  match r with
  | Err e => mret (Err e)
  | Ok spec => deprovision_and_delete (st_actor_type s) id spec
  end.

Definition std_get (s : Standard (V:=V)) (id : string) : P (result Resource DomainError) :=
  get (st_actor_type s) id.

Definition std_list (s : Standard (V:=V)) : P (result (list Resource) DomainError) :=
  list_resources (st_actor_type s).

Definition std_wait_for_ready (s : Standard (V:=V)) (id : string) (time_out : Z)
    : P (result bool DomainError) :=
  wait_for_ready (st_actor_type s) (st_ready_check s) id time_out.
End standard.
End service.

Arguments standard_call D TApiSpec TApiStatus V : clear implicits.
Arguments Own {D TApiSpec TApiStatus V X}.
Arguments Validation {D TApiSpec TApiStatus V X}.
Arguments Extensible TSpec TStatus : clear implicits.
Arguments mkExtensible {TSpec TStatus}.
Arguments Standard TSpec TStatus V : clear implicits.
Arguments mkStandard {TSpec TStatus V}.
