(* ===== verification/ResourceServiceSpec.v ===== *)
(** * ResourceServiceSpec: what setting, reading and deleting resources guarantees *)
From S2P Require Import Prelude BTree Json RustText Effects MgmtModels MergeSpec.
From S2P Require Import SpecValidator Mappings ResourceRepo ResourceService.

Section spec.
Context {D TSpec TStatus TApiSpec TApiStatus : Type}.
Context `{HS : Bson D TSpec, HP : Bson D ProviderSpec}.
Context `{HI : Into TSpec TApiSpec, HT : Into TApiStatus TStatus}.

Notation scall := (service_call D TApiSpec TApiStatus).
Notation trace := (list (call scall)).

(** The documents of both collections can be read. *)
Definition doc_ok {T} `{Bson D T} (c : call (mongo_call D)) : Prop :=
  match c with
  | @Call _ X e x =>
      match e in mongo_call _ X return X → Prop with
      | FindOne _ => λ r, ∀ d, r = Ok (Some d) → is_ok (from_document (T:=T) d) = true
      | _ => λ _, True
      end x
  end.

Definition docs_ok (c : call scall) : Prop :=
  match c with
  | @Call _ X e x =>
      match e in service_call _ _ _ X return X → Prop with
      | Specs c => λ x, doc_ok (T:=TSpec) (Call c x)
      | Providers c => λ x, doc_ok (T:=ProviderSpec) (Call c x)
      | _ => λ _, True
      end x
  end.

(** The documents written to the service's collection, and whether that worked. *)
Definition written_of (c : call scall) : option (string * D * bool) :=
  match c with
  | @Call _ X e x =>
      match e in service_call _ _ _ X return X → _ with
      | Specs c => λ x,
          match c in mongo_call _ X return X → _ with
          | ReplaceOne id d => λ r, Some (id, d, is_ok r)
          | _ => λ _, None
          end x
      | _ => λ _, None
      end x
  end.
Definition writes (t : trace) := observe written_of t.

(** The documents deleted from it. *)
Definition deleted_of (c : call scall) : option (string * bool) :=
  match c with
  | @Call _ X e x =>
      match e in service_call _ _ _ X return X → _ with
      | Specs c => λ x,
          match c in mongo_call _ X return X → _ with
          | DeleteOne id => λ r, Some (id, is_ok r)
          | _ => λ _, None
          end x
      | _ => λ _, None
      end x
  end.
Definition deletes (t : trace) := observe deleted_of t.

(** The actors told to configure or to deprovision themselves. *)
Definition configured_of (c : call scall)
    : option (string * string * ResourceRequest TApiSpec * result unit string) :=
  match c with
  | @Call _ X e x =>
      match e in service_call _ _ _ X return X → _ with
      | Configure a id r => λ x, Some (a, id, r, x)
      | _ => λ _, None
      end x
  end.
Definition configures (t : trace) := observe configured_of t.

Definition deprovisioned_of (c : call scall) : option (string * string * result unit string) :=
  match c with
  | @Call _ X e x =>
      match e in service_call _ _ _ X return X → _ with
      | Deprovision a id => λ x, Some (a, id, x)
      | _ => λ _, None
      end x
  end.
Definition deprovisions (t : trace) := observe deprovisioned_of t.

(** The services whose methods are invoked. *)
Definition invoked_of (c : call scall) : option (string * string) :=
  match c with
  | @Call _ X e x =>
      match e in service_call _ _ _ X return X → _ with
      | Invoke app_id method => λ _, Some (app_id, method)
      | _ => λ _, None
      end x
  end.
Definition invokes (t : trace) := observe invoked_of t.

(** The provider documents that were read. *)
Definition provided_of (c : call scall) : option (string * result (option D) string) :=
  match c with
  | @Call _ X e x =>
      match e in service_call _ _ _ X return X → _ with
      | Providers c => λ x,
          match c in mongo_call _ X return X → _ with
          | FindOne id => λ r, Some (id, r)
          | _ => λ _, None
          end x
      | _ => λ _, None
      end x
  end.

Definition provider_read (t : trace) (kind : string) (schema : ProviderSpec) : Prop :=
  ∃ d, (kind, Ok (Some d)) ∈ observe provided_of t ∧ from_document d = Ok schema.

(** The specifications that were read. *)
Definition found_of (c : call scall) : option (string * result (option D) string) :=
  match c with
  | @Call _ X e x =>
      match e in service_call _ _ _ X return X → _ with
      | Specs c => λ x,
          match c in mongo_call _ X return X → _ with
          | FindOne id => λ r, Some (id, r)
          | _ => λ _, None
          end x
      | _ => λ _, None
      end x
  end.

Definition spec_read (t : trace) (id : string) (spec : TSpec) : Prop :=
  ∃ d, (id, Ok (Some d)) ∈ observe found_of t ∧ from_document d = Ok spec.

(** ** Storing *)

(** A specification that becomes a document is written, and its actor configured. *)
Definition stored_as (actor_type : TSpec → string) (id : string) (stored : TSpec) (api : TApiSpec)
    (t : trace) (o : outcome (result (Resource TSpec TStatus) DomainError)) : Prop :=
  ∃ d written, to_document stored = Ok d ∧
    writes t = [(id, with_id (T:=TSpec) id d, written)] ∧ deletes t = [] ∧
    if written then ∃ r, configures t = [(actor_type stored, id, mkResourceRequest id api, r)] ∧
      o = Done (match r with Ok _ => Ok (mkResource id stored None) | Err e => internal e end)
    else configures t = [] ∧ ∃ e, o = Done (internal e).

(** One that does not makes the call panic, before anything is asked for. *)
Lemma store_and_configure_calls (actor_type : TSpec → string) id stored api :
  into stored = Some api →
  always (store_and_configure (TStatus:=TStatus) actor_type id stored) (λ t o,
    (∃ e, to_document (D:=D) stored = Err e ∧ t = [] ∧ o = Panicked (unwrap_err e)) ∨
    stored_as actor_type id stored api t o).
Proof.
  intros Hinto. unfold store_and_configure, repo_set, configure_actor, convert, stored_as.
  destruct (to_document stored) as [d|e]; [|left; by exists e].
  intros [[]|e] _; cbn.
  - rewrite Hinto. intros r _. cbn. destruct r as [[]|e]; right; exists d, true;
      do 3 (split; [done|]); eexists; done.
  - right. exists d, false. do 3 (split; [done|]). by split; [|eexists].
Qed.

(** The checks an extensible resource must pass, given its provider. *)
Definition accepts (s : Extensible TSpec TStatus) (source : TSpec) (schema : ProviderSpec)
    (stored : TSpec) : Prop :=
  ex_populate s source schema = Ok stored ∧
  validate_all (ex_validators s) stored schema = Ok ().

(** The conversion of an accepted specification does not panic. *)
Definition convertible (s : Extensible TSpec TStatus) : Prop :=
  ∀ source schema stored, accepts s source schema stored → is_Some (into stored).

(** What setting a resource can do. *)
Definition set_outcome (s : Extensible TSpec TStatus) (id : string) (source : TSpec)
    (t : trace) (o : outcome (result (Resource TSpec TStatus) DomainError)) : Prop :=
  (∃ e, o = Done (Err e) ∧ writes t = [] ∧ configures t = [] ∧
     ∀ schema stored, provider_read t (ex_kind s source) schema →
       ¬ accepts s source schema stored) ∨
  (∃ schema stored api d written,
     provider_read t (ex_kind s source) schema ∧ accepts s source schema stored ∧
     into stored = Some api ∧ to_document stored = Ok d ∧
     writes t = [(id, with_id (T:=TSpec) id d, written)] ∧
     if written then ∃ r,
       configures t = [(ex_actor_type s stored, id, mkResourceRequest id api, r)] ∧
       o = Done (match r with Ok _ => Ok (mkResource id stored None) | Err e => internal e end)
     else configures t = [] ∧ ∃ e, o = Done (internal e)).

Lemma ext_set_outcome `{!BsonTotal D TSpec} s id source :
  convertible s → under docs_ok (ext_set s id source) (set_outcome s id source).
Proof.
  intros Hs. unfold ext_set. intros answer Ha. cbn in Ha |- *.
  assert (∀ e, (∀ d, answer = Ok (Some d) → ∀ schema stored, from_document d = Ok schema →
      ¬ accepts s source schema stored) →
    set_outcome s id source [Call (Providers (FindOne (ex_kind s source))) answer] (Done (Err e)))
    as Hrejected.
  { intros e Hno. left. exists e. do 3 (split; [done|]).
    intros schema stored (d & Hd & Hp) Hacc. cbn in Hd.
    apply list_elem_of_singleton in Hd. injection Hd as Hd. by eapply Hno. }
  destruct answer as [[d|]|e]; cbn; [|by apply Hrejected..].
  specialize (Ha d eq_refl). destruct (from_document d) as [schema|e] eqn:Hd; [|done]. cbn.
  destruct (ex_populate s source schema) as [stored|e] eqn:Hp.
  2:{ apply Hrejected. intros ? [= <-] ? ? Hd' [H1 _]. congruence. }
  destruct (validate_all (ex_validators s) stored schema) as [[]|e] eqn:Hv.
  2:{ apply Hrejected. intros ? [= <-] ? ? Hd' [H1 H2]. congruence. }
  destruct (Hs source schema stored (conj Hp Hv)) as [api Hapi].
  eapply under_mono; [| |apply (store_and_configure_calls _ id stored api Hapi)]; [done|].
  intros t o [(e & He & _)|(d' & written & Hd' & Hw & _ & Ho)];
    [pose proof (bson_total (D:=D) stored) as Htotal; by rewrite He in Htotal|]. right.
  exists schema, stored, api, d', written. split; [exists d; split; [by left|done]|].
  do 3 (split; [done|]). split; [exact Hw|]. exact Ho.
Qed.

(** ** Deleting *)

Definition has_handler (nc : string * ProviderService) : Prop :=
  ps_deprovision_handler nc.2 = Some true.

#[export] Instance has_handler_dec nc : Decision (has_handler nc).
Proof. apply _. Defined.

(** The invocations of a provider's deprovision handlers. *)
Definition handler_calls (id : string) (services : list (string * ProviderService))
    : list (string * string) :=
  map (λ nc, (id +:+ "-" +:+ nc.1, "deprovision"%string)) (filter has_handler services).

Lemma call_handlers_calls id services :
  always (call_handlers id services : prog scall unit) (λ t o,
    o = Done () ∧ invokes t = handler_calls id services ∧ deletes t = [] ∧
    deprovisions t = [] ∧ writes t = []).
Proof.
  induction services as [|[n c] services IH]; [done|]. cbn [call_handlers].
  unfold handler_calls. rewrite filter_cons.
  destruct (ps_deprovision_handler c) as [[]|] eqn:Hc; case_decide as Hh;
    unfold has_handler in Hh; cbn in Hh; try congruence; [|exact IH..].
  intros r _. cbn. eapply under_mono; [done| |exact IH].
  intros t o (-> & Hi & Hd & Hp & Hw). split; [done|]. split; [|done].
  cbn. f_equal. exact Hi.
Qed.

(** What deleting a resource can do, once its specification is read. *)
Definition delete_outcome (s : Extensible TSpec TStatus) (id : string) (spec : TSpec)
    (schema : option ProviderSpec) (t : trace) (o : outcome (result unit DomainError)) : Prop :=
  writes t = [] ∧
  invokes t = handler_calls id (from_option pv_services [] schema) ∧
  ∃ r, deprovisions t = [(ex_actor_type s spec, id, r)] ∧
    match r with
    | Err e => deletes t = [] ∧ o = Done (internal e)
    | Ok _ => ∃ deleted, deletes t = [(id, deleted)] ∧
        (if deleted then o = Done (Ok ()) else ∃ e, o = Done (Err e))
    end.

Lemma deprovision_and_delete_calls (actor_type : TSpec → string) id spec :
  always (deprovision_and_delete actor_type id spec : prog scall _) (λ t o,
    writes t = [] ∧ invokes t = [] ∧ observe provided_of t = [] ∧ observe found_of t = [] ∧
    ∃ r, deprovisions t = [(actor_type spec, id, r)] ∧
    match r with
    | Err e => deletes t = [] ∧ o = Done (internal e)
    | Ok _ => ∃ deleted, deletes t = [(id, deleted)] ∧
        (if deleted then o = Done (Ok ()) else ∃ e, o = Done (Err e))
    end).
Proof.
  intros [[]|e] _; cbn; [|by do 4 (split; [done|]); eexists].
  intros [[]|e] _; cbn; do 4 (split; [done|]); eexists; (split; [done|]); eexists;
    (split; [done|]); [done|by eexists].
Qed.

Lemma call_handlers_reads id services :
  always (call_handlers id services : prog scall unit) (λ t _,
    observe provided_of t = [] ∧ observe found_of t = []).
Proof.
  induction services as [|[n c] services IH]; [done|]. cbn [call_handlers].
  destruct (ps_deprovision_handler c) as [[]|]; [|exact IH..]. intros r _. exact IH.
Qed.

Lemma ext_delete_outcome s id :
  under docs_ok (ext_delete s id) (λ t o,
    (writes t = [] ∧ deletes t = [] ∧ deprovisions t = [] ∧ invokes t = [] ∧
     (∀ spec, ¬ spec_read t id spec) ∧ ∃ e, o = Done (Err e)) ∨
    ∃ spec schema, spec_read t id spec ∧
      (∀ p, provider_read t (ex_kind s spec) p ↔ schema = Some p) ∧
      delete_outcome s id spec schema t o).
Proof.
  unfold ext_delete. intros answer Ha. cbn in Ha |- *.
  destruct answer as [[d|]|e]; cbn.
  2,3: left; do 4 (split; [done|]); split; [|by eexists];
    intros spec (d & Hd & _); cbn in Hd; apply list_elem_of_singleton in Hd; congruence.
  specialize (Ha d eq_refl). destruct (from_document d) as [spec|e] eqn:Hspec; [|done].
  cbn. intros panswer Hp. cbn in Hp |- *.
  assert (∃ schema (r : result ProviderSpec DomainError),
    (∀ p, (∃ d, panswer = Ok (Some d) ∧ from_document d = Ok p) ↔ schema = Some p) ∧
    from_option pv_services [] schema = match r with Ok p => pv_services p | Err _ => [] end ∧
    match panswer with
    | Ok (Some doc) => match from_document doc with Ok p => Ret (Ok p) | Err e => Panic (unwrap_err e) end
    | Ok None => Ret (Err NotFound)
    | Err e => Ret (Err (InternalError e))
    end = (Ret r : prog (mongo_call D) _)) as (schema & r & Hschema & Hr & Heq).
  { destruct panswer as [[pd|]|e].
    - specialize (Hp pd eq_refl). destruct (from_document pd) as [p|] eqn:Hpd; [|done].
      exists (Some p), (Ok p). split; [|done]. intros p'. split.
      + intros (d0 & [= <-] & H0). congruence.
      + intros [= <-]. by exists pd.
    - exists None, (Err NotFound). split; [naive_solver|done].
    - exists None, (Err (InternalError e)). split; [naive_solver|done]. }
  unfold mret, prog_ret. rewrite Heq. cbn. clear Heq.
  apply under_bind. eapply (under_mono anything); [done| |apply under_conj;
    [apply (call_handlers_calls id) | apply (call_handlers_reads id)]].
  intros t o ((-> & Hi & Hd & Hdp & Hw) & Hpo & Hfo).
  eapply (under_mono anything); [done| |apply (deprovision_and_delete_calls (ex_actor_type s) id spec)].
  intros t' o (Hw' & Hi' & Hpo' & Hfo' & r' & Hdp' & Ho). right. exists spec, schema.
  unfold delete_outcome, writes, deletes, deprovisions, invokes in *.
  split; [exists d; split; [by left|done]|]. split.
  { intros p. rewrite <-Hschema. unfold provider_read. unfold observe in *. cbn. rewrite omap_app, Hpo, Hpo'. cbn.
    split; intros (pd & Hpd & ?); exists pd; (split; [|done]);
      [apply list_elem_of_singleton in Hpd; congruence | subst panswer; by left]. }
  unfold observe in *. cbn. rewrite !omap_app, Hw, Hw', Hi, Hi', Hd, Hdp, Hr. cbn. rewrite app_nil_r.
  do 2 (split; [done|]). by exists r'.
Qed.
End spec.

(** ** Waiting for a resource *)

Section wait.
Context {D TSpec TStatus TApiSpec TApiStatus : Type}.
Context `{HS : Bson D TSpec, HP : Bson D ProviderSpec}.
Context `{HI : Into TSpec TApiSpec, HT : Into TApiStatus TStatus}.
Context (Hstatus : ∀ st : TApiStatus, is_Some (into st : option TStatus)).

Notation scall := (service_call D TApiSpec TApiStatus).

(** The looks at the clock, and the statuses the actor answered. *)
Definition elapsed_of (c : call scall) : option Z :=
  match c with
  | @Call _ X e x =>
      match e in service_call _ _ _ X return X → _ with
      | Elapsed => λ x, Some x
      | _ => λ _, None
      end x
  end.
Definition readings (t : list (call scall)) := observe elapsed_of t.

Definition status_of (c : call scall) : option (result TApiStatus string) :=
  match c with
  | @Call _ X e x =>
      match e in service_call _ _ _ X return X → _ with
      | GetStatus _ _ => λ x, Some x
      | _ => λ _, None
      end x
  end.
Definition statuses (t : list (call scall)) := observe status_of t.

(** Every second between two looks at the clock has passed. *)
Definition paced (k : nat) (l : list Z) : Prop :=
  ∀ i e, l !! i = Some e → (Z.of_nat (k + i) * one_second ≤ e)%Z.

(** A status the service does not wait any longer for, or does. *)
Definition is_ready (rc : TStatus → bool) (r : result TApiStatus string) : Prop :=
  ∃ st st', r = Ok st ∧ into st = Some st' ∧ rc st' = true.
Definition not_ready (rc : TStatus → bool) (r : result TApiStatus string) : Prop :=
  ∃ st st', r = Ok st ∧ into st = Some st' ∧ rc st' = false.

Definition waited (rc : TStatus → bool) (time_out : Z) (t : list (call scall))
    (o : outcome (result bool DomainError)) : Prop :=
  ∃ l, Forall (not_ready rc) l ∧
    ((∃ r, is_ready rc r ∧ statuses t = l ++ [r] ∧ o = Done (Ok true)) ∨
     (∃ e, statuses t = l ++ [Err e] ∧ o = Done (internal e)) ∨
     (∃ e, statuses t = l ∧ list.last (readings t) = Some e ∧ (time_out ≤ e)%Z ∧
        o = Done (Ok false))).

Lemma wait_rounds_waited fuel k at_ id rc time_out :
  (time_out ≤ (Z.of_nat (k + fuel) - 1) * one_second)%Z → (1 ≤ fuel)%nat →
  always (wait_rounds fuel at_ id rc time_out : prog scall _) (λ t o,
    paced k (readings t) → waited rc time_out t o ∧ (length (readings t) ≤ fuel)%nat).
Proof.
  revert k. induction fuel as [|fuel IH]; intros k Hk Hf; [lia|]. cbn [wait_rounds].
  apply under_call. intros e _. destruct (e <? time_out)%Z eqn:E.
  2:{ cbn. apply Z.ltb_ge in E. intros _. split; [|lia]. exists []. split; [done|].
      right; right. by exists e. }
  apply Z.ltb_lt in E. apply under_call. intros [st|err] _.
  2:{ cbn. intros _. split; [|lia]. exists []. split; [done|]. right; left. by exists err. }
  unfold convert. destruct (Hstatus st) as [st' Hst]. rewrite Hst.
  destruct (rc st') eqn:Hrc.
  { cbn. intros _. split; [|lia]. exists []. split; [done|]. left. exists (Ok st).
    split; [by exists st, st'|done]. }
  apply under_call. intros [] _.
  destruct (decide (1 ≤ fuel)%nat) as [Hfuel|Hfuel].
  - assert (time_out ≤ (Z.of_nat (Datatypes.S k + fuel) - 1) * one_second)%Z as Hk'
      by (replace (Datatypes.S k + fuel)%nat with (k + Datatypes.S fuel)%nat by lia; done).
    eapply under_mono; [done| |exact (IH (Datatypes.S k) Hk' Hfuel)].
    intros t o Hrest Hp. unfold readings, statuses, observe in *. cbn in Hp |- *.
    destruct Hrest as [(l & Hl & Ho) Hlen].
    { intros i e' Hi. specialize (Hp (Datatypes.S i) e' Hi).
      by replace (Datatypes.S k + i)%nat with (k + Datatypes.S i)%nat by lia. }
    split; [|lia]. exists (Ok st :: l). split; [constructor; [by exists st, st'|done]|].
    unfold statuses, readings, observe in *. cbn.
    destruct Ho as [(r & Hr & Hs & ->)|[(err & Hs & ->)|(e' & Hs & Hlast & Hle & ->)]].
    + left. exists r. by rewrite Hs.
    + right; left. exists err. by rewrite Hs.
    + right; right. exists e'. rewrite Hs. split; [done|].
      split; [by rewrite last_cons, Hlast | done].
  - eapply under_mono; [done| |apply under_true]. intros t o _ Hp.
    specialize (Hp 0%nat e eq_refl). unfold one_second in *. lia.
Qed.
End wait.

(** ** A service over a working database is a map of specifications *)

Section world.
Context {D TSpec TStatus TApiSpec TApiStatus S : Type}.
Context `{HS : Bson D TSpec, HP : Bson D ProviderSpec, !BsonLaws D TSpec, !BsonTotal D TSpec, !BsonLaws D ProviderSpec}.
Context `{HI : Into TSpec TApiSpec, HT : Into TApiStatus TStatus}.

Notation scall := (service_call D TApiSpec TApiStatus).

(** Everything but the database: the actors, the resources' services, the
    clock; they keep a state of their own. *)
Context (rest : ∀ X, scall X → S → X * S).

Definition world : Type := gmap string D * gmap string D * S.

Definition on_world (X : Type) (c : scall X) (w : world) : X * world :=
  let '(m, p, s) := w in
  match c in service_call _ _ _ X return (S → X * S) → X * world with
  | Specs c => λ _, let '(x, m) := on_collection _ c m in (x, (m, p, s))
  | Providers c => λ _, let '(x, p) := on_collection _ c p in (x, (m, p, s))
  | c => λ f, let '(x, s) := f s in (x, (m, p, s))
  end (rest X c).

(** The collections hold the resources' and the providers' specifications. *)
Definition models (w : world) (specs : gmap string TSpec) (provs : gmap string ProviderSpec) : Prop :=
  holds (T:=TSpec) w.1.1 specs ∧ holds (T:=ProviderSpec) w.1.2 provs.

Notation wpw := (wp on_world).

Lemma wp_specs {A} (p : prog (mongo_call D) A) m pr s o m' tr Q :
  run on_collection p m = (o, m', tr) → Q o (m', pr, s) → wpw (specs p) (m, pr, s) Q.
Proof.
  intros Hr HQ. unfold wp, specs. rewrite run_translate.
  rewrite (run_part (W:=world) (λ m, (m, pr, s)) on_collection); [by rewrite Hr|].
  intros X e m1. cbn. by destruct (on_collection X e m1).
Qed.

Lemma wp_providers {A} (p : prog (mongo_call D) A) m pr s o pr' tr Q :
  run on_collection p pr = (o, pr', tr) → Q o (m, pr', s) → wpw (providers p) (m, pr, s) Q.
Proof.
  intros Hr HQ. unfold wp, providers. rewrite run_translate.
  rewrite (run_part (W:=world) (λ pr, (m, pr, s)) on_collection); [by rewrite Hr|].
  intros X e p1. cbn. by destruct (on_collection X e p1).
Qed.

Lemma wp_specs_get w sp pr id Q :
  models w sp pr →
  Q (Done (match sp !! id with Some t => Ok t | None => Err NotFound end)) w →
  wpw (specs (repo_get (T:=TSpec) id)) w Q.
Proof.
  destruct w as [[m p] s]. intros [Hm Hp] HQ. eapply wp_specs; [by apply holds_get | done].
Qed.

Lemma wp_providers_get w sp pr id Q :
  models w sp pr →
  Q (Done (match pr !! id with Some t => Ok t | None => Err NotFound end)) w →
  wpw (providers (repo_get (T:=ProviderSpec) id)) w Q.
Proof.
  destruct w as [[m p] s]. intros [Hm Hp] HQ. eapply wp_providers; [by apply holds_get | done].
Qed.

Lemma wp_specs_set w sp pr id t Q :
  models w sp pr →
  (∀ w', models w' (<[id := t]> sp) pr → Q (Done (Ok ())) w') →
  wpw (specs (repo_set id t)) w Q.
Proof.
  destruct w as [[m p] s]. intros [Hm Hp] HQ.
  destruct (holds_set m sp id t Hm) as (m' & tr & Hr & Hm').
  eapply wp_specs; [exact Hr | by apply HQ].
Qed.

Lemma wp_specs_delete w sp pr id Q :
  models w sp pr →
  (∀ w', models w' (delete id sp) pr → Q (Done (Ok ())) w') →
  wpw (specs (repo_delete id)) w Q.
Proof.
  destruct w as [[m p] s]. intros [Hm Hp] HQ.
  destruct (holds_delete m sp id Hm) as (m' & tr & Hr & Hm').
  eapply wp_specs; [exact Hr | by apply HQ].
Qed.

(** The other calls leave the database alone. *)
Definition is_db (X : Type) (c : scall X) : bool :=
  match c with Specs _ => true | Providers _ => true | _ => false end.

Lemma wp_rest {X A} (c : scall X) (k : X → prog scall A) w sp pr Q :
  is_db X c = false → models w sp pr →
  (∀ x w', models w' sp pr → wpw (k x) w' Q) →
  wpw (trigger c ≫= k) w Q.
Proof.
  intros Hc Hw Hk. apply wp_call. destruct w as [[m p] s].
  destruct c; try done; cbn; destruct (rest _ _ s) as [x s']; by apply Hk.
Qed.

Lemma wp_specs_list w sp pr Q :
  models w sp pr →
  (∀ items, items ≡ₚ map_to_list sp → Q (Done items) w) →
  wpw (specs (repo_list (T:=TSpec))) w Q.
Proof.
  destruct w as [[m p] s]. intros [Hm Hp] HQ.
  destruct (holds_list m sp Hm) as (items & tr & Hr & Hi).
  eapply wp_specs; [exact Hr | by apply HQ].
Qed.

(** *** The requests a service handles *)

Inductive request :=
| OpSet (id : string) (spec : TSpec)
| OpDelete (id : string)
| OpGet (id : string)
| OpList.

Inductive answer :=
| ASet (r : result (Resource TSpec TStatus) DomainError)
| ADelete (r : result unit DomainError)
| AGet (r : result (Resource TSpec TStatus) DomainError)
| AList (r : result (list (Resource TSpec TStatus)) DomainError).

Definition serve (s : Extensible TSpec TStatus) (q : request) : prog scall answer :=
  match q with
  | OpSet id spec => r ← ext_set s id spec; mret (ASet r)
  | OpDelete id => r ← ext_delete s id; mret (ADelete r)
  | OpGet id => r ← ext_get s id; mret (AGet r)
  | OpList => r ← ext_list s; mret (AList r)
  end.

Fixpoint serve_all (s : Extensible TSpec TStatus) (qs : list request) : prog scall (list answer) :=
  match qs with
  | [] => mret []
  | q :: qs => a ← serve s q; rest ← serve_all s qs; mret (a :: rest)
  end.

(** *** The abstract service: a map from identifiers to specifications *)

Definition entry (r : Resource TSpec TStatus) : string * TSpec := (r_id r, r_spec r).

Inductive handles (s : Extensible TSpec TStatus) (provs : gmap string ProviderSpec)
    (sp : gmap string TSpec) : request → answer → gmap string TSpec → Prop :=
| handles_rejected id source e :
    (∀ schema stored, provs !! ex_kind s source = Some schema → ¬ accepts s source schema stored) →
    handles s provs sp (OpSet id source) (ASet (Err e)) sp
| handles_set id source schema stored :
    provs !! ex_kind s source = Some schema → accepts s source schema stored →
    handles s provs sp (OpSet id source) (ASet (Ok (mkResource id stored None)))
      (<[id := stored]> sp)
| handles_set_unconfigured id source schema stored e :
    provs !! ex_kind s source = Some schema → accepts s source schema stored →
    handles s provs sp (OpSet id source) (ASet (internal e)) (<[id := stored]> sp)
| handles_delete_missing id :
    sp !! id = None → handles s provs sp (OpDelete id) (ADelete (Err NotFound)) sp
| handles_delete_failed id e :
    is_Some (sp !! id) → handles s provs sp (OpDelete id) (ADelete (internal e)) sp
| handles_deleted id :
    is_Some (sp !! id) → handles s provs sp (OpDelete id) (ADelete (Ok ())) (delete id sp)
| handles_get_missing id :
    sp !! id = None → handles s provs sp (OpGet id) (AGet (Err NotFound)) sp
| handles_get id spec status :
    sp !! id = Some spec → handles s provs sp (OpGet id) (AGet (Ok (mkResource id spec status))) sp
| handles_list rs :
    entry <$> rs ≡ₚ map_to_list sp → handles s provs sp OpList (AList (Ok rs)) sp.

Inductive handles_all (s : Extensible TSpec TStatus) (provs : gmap string ProviderSpec)
    : gmap string TSpec → list request → list answer → gmap string TSpec → Prop :=
| handles_nil sp : handles_all s provs sp [] [] sp
| handles_cons sp q a sp1 qs rest sp2 :
    handles s provs sp q a sp1 → handles_all s provs sp1 qs rest sp2 →
    handles_all s provs sp (q :: qs) (a :: rest) sp2.

Context (s : Extensible TSpec TStatus) (provs : gmap string ProviderSpec).
Context (Hconv : convertible s) (Hstatus : ∀ st : TApiStatus, is_Some (into st : option TStatus)).

(** After [p], the database models the map that [q]'s abstract handling left. *)
Definition refined (sp : gmap string TSpec) (q : request) (o : outcome answer) (w : world) : Prop :=
  ∃ a sp', o = Done a ∧ handles s provs sp q a sp' ∧ models w sp' provs.

Lemma set_refines w sp id source :
  models w sp provs → wpw (serve s (OpSet id source)) w (refined sp (OpSet id source)).
Proof.
  intros Hw. cbn [serve]. apply wp_bind. unfold ext_set. apply wp_bind.
  eapply wp_providers_get; [done|].
  assert (∀ e, (∀ schema stored, provs !! ex_kind s source = Some schema →
      ¬ accepts s source schema stored) →
    refined sp (OpSet id source) (Done (ASet (Err e))) w) as Hrej.
  { intros e Hno. eexists _, sp. split; [done|]. split; [by constructor|done]. }
  destruct (provs !! ex_kind s source) as [schema|] eqn:Hprov; [|by apply Hrej].
  destruct (ex_populate s source schema) as [stored|e] eqn:Hp.
  2:{ apply Hrej. intros ? ? [= <-] [H1 _]. congruence. }
  destruct (validate_all (ex_validators s) stored schema) as [[]|e] eqn:Hv.
  2:{ apply Hrej. intros ? ? [= <-] [H1 H2]. congruence. }
  unfold store_and_configure. apply wp_bind. eapply wp_specs_set; [done|]. intros w' Hw'.
  unfold configure_actor, convert. destruct (Hconv source schema stored (conj Hp Hv)) as [api ->].
  eapply wp_rest; [done|done|]. intros [[]|e] w2 Hw2; apply wp_ret;
    eexists _, _; (split; [done|]); (split; [|done]).
  - by eapply handles_set.
  - by eapply handles_set_unconfigured.
Qed.

Lemma handlers_keep id services w sp Q :
  models w sp provs → (∀ w', models w' sp provs → Q (Done ()) w') →
  wpw (call_handlers id services) w Q.
Proof.
  revert w. induction services as [|[n c] services IH]; intros w Hw HQ; cbn [call_handlers].
  { apply wp_ret. by apply HQ. }
  destruct (ps_deprovision_handler c) as [[]|]; [|by apply IH..].
  eapply wp_rest; [done|done|]. intros _ w' Hw'. by apply IH.
Qed.

Lemma delete_refines w sp id :
  models w sp provs → wpw (serve s (OpDelete id)) w (refined sp (OpDelete id)).
Proof.
  intros Hw. cbn [serve]. apply wp_bind. unfold ext_delete. apply wp_bind.
  eapply wp_specs_get; [done|]. destruct (sp !! id) as [spec|] eqn:Hid.
  2:{ apply wp_ret. eexists _, _. split; [done|]. split; [by constructor|done]. }
  apply wp_bind. eapply wp_providers_get; [done|]. apply wp_bind.
  apply handlers_keep with (sp:=sp); [done|]. intros w1 Hw1.
  unfold deprovision_and_delete. eapply wp_rest; [done|done|]. intros [[]|e] w2 Hw2.
  - eapply wp_specs_delete; [done|]. intros w3 Hw3. apply wp_ret.
    eexists _, _. split; [done|]. split; [|done]. constructor. by eexists.
  - apply wp_ret. eexists _, _. split; [done|]. split; [|done]. constructor. by eexists.
Qed.

Lemma with_status_keeps (actor_type : TSpec → string) id spec w sp Q :
  models w sp provs →
  (∀ status w', models w' sp provs → Q (Done (mkResource id spec status)) w') →
  wpw (with_status actor_type id spec : prog scall (Resource TSpec TStatus)) w Q.
Proof.
  intros Hw HQ. unfold with_status. eapply wp_rest; [done|done|]. intros [st|e] w' Hw'.
  - unfold convert. destruct (Hstatus st) as [st' ->]. apply wp_ret. by apply HQ.
  - apply wp_ret. by apply HQ.
Qed.

Lemma get_refines w sp id :
  models w sp provs → wpw (serve s (OpGet id)) w (refined sp (OpGet id)).
Proof.
  intros Hw. cbn [serve]. apply wp_bind. unfold ext_get, get. apply wp_bind.
  eapply wp_specs_get; [done|]. destruct (sp !! id) as [spec|] eqn:Hid.
  2:{ apply wp_ret. eexists _, _. split; [done|]. split; [by constructor|done]. }
  apply wp_bind. eapply with_status_keeps; [done|]. intros status w' Hw'. apply wp_ret. apply wp_ret.
  eexists _, _. split; [done|]. split; [by constructor|done].
Qed.

Lemma list_statuses_keeps (actor_type : TSpec → string) items w sp Q :
  models w sp provs →
  (∀ rs w', entry <$> rs = items → models w' sp provs → Q (Done rs) w') →
  wpw (list_statuses actor_type items : prog scall (list (Resource TSpec TStatus))) w Q.
Proof.
  revert w Q. induction items as [|[id spec] items IH]; intros w Q Hw HQ; cbn [list_statuses].
  { apply wp_ret. by apply HQ. }
  apply wp_bind. eapply with_status_keeps; [done|]. intros status w' Hw'.
  apply wp_bind. apply IH; [done|]. intros rs w2 Hrs Hw2. apply wp_ret. apply HQ; [|done].
  cbn. by rewrite Hrs.
Qed.

Lemma list_refines w sp :
  models w sp provs → wpw (serve s OpList) w (refined sp OpList).
Proof.
  intros Hw. cbn [serve]. apply wp_bind. unfold ext_list, list_resources. apply wp_bind.
  eapply wp_specs_list; [done|]. intros items Hi. apply wp_bind.
  eapply list_statuses_keeps; [done|]. intros rs w' Hrs Hw'. do 2 apply wp_ret.
  eexists _, _. split; [done|]. split; [constructor; by rewrite Hrs | done].
Qed.

Lemma serve_all_refines qs w sp :
  models w sp provs →
  wpw (serve_all s qs) w (λ o w', ∃ answers sp', o = Done answers ∧
    handles_all s provs sp qs answers sp' ∧ models w' sp' provs).
Proof.
  revert w sp. induction qs as [|q qs IH]; intros w sp Hw; cbn [serve_all].
  { apply wp_ret. eexists _, _. split; [done|]. split; [constructor|done]. }
  apply wp_bind. eapply wp_mono; [|destruct q; [by apply set_refines | by apply delete_refines
    | by apply get_refines | by apply list_refines]].
  intros o w1 (a & sp1 & -> & Hh & Hw1). apply wp_bind. eapply wp_mono; [|by apply IH].
  intros o w2 (answers & sp2 & -> & Hr & Hw2). apply wp_ret.
  eexists _, _. split; [done|]. split; [by econstructor|done].
Qed.
End world.
