(* ===== verification/MgmtServices.v ===== *)
(** * MgmtServices: the services of sources, reactions, query containers and queries
    ([source_service.rs], [reaction_service.rs], [query_container_service.rs],
    [query_service.rs], [query_actor_service.rs] of the management API) *)
From S2P Require Import Prelude BTree Json RustText Effects MgmtModels MergeSpec.
From S2P Require Import SpecValidator Mappings ResourceRepo ResourceService.

Section services.
Context {D V : Type}.
Context (compile : value → option V).
Context (check : V → value → result unit (list (string * string))).
Context (keys_of : gmap string ServiceConfig → list string).

(** ** Sources and reactions *)

Definition source_service : Extensible SourceSpec SourceStatus :=
  mkExtensible so_kind (λ _, "SourceResource"%string) sst_available
    [validate_source compile check keys_of] populate_source.

Definition reaction_service : Extensible ReactionSpec ReactionStatus :=
  mkExtensible re_kind (λ _, "ReactionResource"%string) rst_available
    [validate_reaction compile check keys_of] populate_reaction.

(** ** Query containers *)

Notation container_call := (service_call D ApiQueryContainerSpec QueryContainerStatus).

Definition container_actor (spec : QueryContainerSpec) : string := "QueryContainerResource".

Definition container_service : Standard QueryContainerSpec QueryContainerStatus
    container_call :=
  mkStandard container_actor qcs_available [].

(** ** Queries *)

Definition query_actor (spec : QuerySpec) : string := q_container spec +:+ ".ContinuousQuery".

(** The middleware of a pipeline is defined. *)
Fixpoint check_pipeline (defined : list string) (sub_id : string) (pipeline : list string)
    : result unit DomainError :=
  match pipeline with
  | [] => Ok ()
  | mw :: pipeline =>
      if decide (mw ∈ defined) then check_pipeline defined sub_id pipeline
      else Err (InvalidSpec ("Middleware '" +:+ mw +:+
        "' referenced in pipeline for subscription '" +:+ sub_id +:+
        "' is not defined in sources.middleware"))
  end.

Fixpoint check_pipelines (defined : list string) (subs : list QuerySubscription)
    : result unit DomainError :=
  match subs with
  | [] => Ok ()
  | sub :: subs =>
      let? u := check_pipeline defined (qs_id sub) (qs_pipeline sub) in
      check_pipelines defined subs
  end.

Context `{Bson D QueryContainerSpec}.

(** [QuerySpecValidator::validate] *)
Definition validate_query (spec : QuerySpec) : prog container_call (result unit DomainError) :=
  qc ← std_get (V:=container_call) container_service (q_container spec);
  match qc with
  | Err NotFound =>
      mret (Err (Invalid ("Query container " +:+ q_container spec +:+ " does not exist")))
  | Err e => mret (Err e)
  | Ok qc =>
      match check_pipelines (mw_name <$> src_middleware (q_sources spec))
              (src_subscriptions (q_sources spec)) with
      | Err e => mret (Err e)
      | Ok _ =>
          match r_status qc with
          | Some status =>
              if qcs_available status then mret (Ok ()) else mret (Err QueryContainerOffline)
          | None => mret (Err QueryContainerOffline)
          end
      end
  end.

Definition query_service : Standard QuerySpec QueryStatus container_call :=
  mkStandard query_actor (λ s, str_eqb (qst_status s) "Running") [validate_query].
End services.

(** ** Talking to a query's actor without storing anything *)

Section query_actor_service.
Context {D : Type}.
Notation P := (prog (service_call D ApiQuerySpec QueryStatus)).

Definition qas_actor (container : string) : string := container +:+ ".ContinuousQuery".

Definition qas_configure (id : string) (spec : QuerySpec) : P (result unit DomainError) :=
  convert spec (λ api,
    r ← trigger (Configure (qas_actor (q_container spec)) id (mkResourceRequest id api));
    match r with
    | Err e => mret (internal e)
    | Ok _ => mret (Ok ())
    end).

Definition qas_deprovision (id container : string) : P (result unit DomainError) :=
  r ← trigger (Deprovision (qas_actor container) id);
  match r with
  | Err e => mret (internal e)
  | Ok _ => mret (Ok ())
  end.

Definition start_failed (s : QueryStatus) : DomainError :=
  Invalid ("Query failed to start - " +:+ default EmptyString (qst_error_message s)).

(** What a query's status says: it runs, it will not, or it is not decided. *)
Definition status_verdict (s : QueryStatus) : option (result unit DomainError) :=
  if str_eqb (qst_status s) "Running" then Some (Ok ())
  else if str_eqb (qst_status s) "TransientError" then Some (Err (start_failed s))
  else if str_eqb (qst_status s) "TerminalError" then Some (Err (start_failed s))
  else if str_eqb (qst_status s) "Deleted" then Some (Err (Invalid "Query deleted"))
  else None.
End query_actor_service.
