(* ===== verification/MgmtServicesSpec.v ===== *)
(** * MgmtServicesSpec: what managing sources, reactions and queries guarantees *)
From S2P Require Import Prelude BTree Json RustText Effects MgmtModels MergeSpec.
From S2P Require Import SpecValidator Mappings ResourceRepo ResourceService ResourceServiceSpec.
From S2P Require Import MgmtServices.

Section extensible.
Context {D V : Type}.
Context (compile : value → option V).
Context (check : V → value → result unit (list (string * string))).
Context (keys_of : gmap string ServiceConfig → list string).
Context (keys_of_ok : ∀ m name, name ∈ keys_of m ↔ is_Some (m !! name)).

Notation sources := (source_service compile check keys_of).
Notation reactions := (reaction_service compile check keys_of).

(** What a completed specification must satisfy to be stored. *)
Definition valid_spec (properties : option cfg) (services : option (gmap string ServiceConfig))
    (schema : ProviderSpec) : Prop :=
  (∀ c, pv_config_schema schema = Some c →
     ∃ m, properties = Some m ∧ conforms compile check c m) ∧
  ∃ ss, services = Some ss ∧
    (∀ name, is_Some (ss !! name) → name ∈ (pv_services schema).*1) ∧
    ∀ name config c, (name, config) ∈ pv_services schema → ps_config_schema config = Some c →
      ∃ m, match ss !! name with Some svc => svc_properties svc | None => Some ∅ end = Some m ∧
        conforms compile check c m.

Lemma validate_spec_ok tx kind properties services schema :
  validate_spec compile check keys_of tx kind properties services schema = Ok () ↔
  valid_spec properties services schema.
Proof.
  unfold validate_spec, valid_spec. rewrite result_bind_Ok. split.
  - intros ([] & Hp & H). split; [by apply (validate_properties_ok compile check tx kind)|].
    destruct services as [ss|]; [|done]. apply result_bind_Ok in H as ([] & Hk & Hs).
    exists ss. split; [done|]. split.
    + intros name Hn%keys_of_ok. rewrite known_services_ok, list.Forall_forall in Hk. exact (Hk name Hn).
    + intros name config c Hin Hc. rewrite validate_services_ok, list.Forall_forall in Hs. exact (Hs _ Hin c Hc).
  - intros (Hp & ss & -> & Hk & Hs). exists (). split; [by apply validate_properties_ok|].
    apply result_bind_Ok. exists (). split.
    + apply known_services_ok, list.Forall_forall. intros name Hn%keys_of_ok. auto.
    + apply validate_services_ok, list.Forall_forall. intros [name config] Hin c Hc. by eapply Hs.
Qed.

Lemma validate_one {T} (v : T → ProviderSpec → result unit DomainError) spec schema :
  validate_all [v] spec schema = v spec schema.
Proof. cbn. by destruct (v spec schema) as [[]|e]. Qed.

Lemma source_accepts source schema stored :
  accepts sources source schema stored ↔
  populate_source source schema = Ok stored ∧
  valid_spec (so_properties stored) (so_services stored) schema.
Proof.
  unfold accepts. cbn [ex_populate ex_validators source_service]. rewrite validate_one.
  unfold validate_source. by rewrite validate_spec_ok.
Qed.

Lemma reaction_accepts reaction schema stored :
  accepts reactions reaction schema stored ↔
  populate_reaction reaction schema = Ok stored ∧
  valid_spec (re_properties stored) (re_services stored) schema.
Proof.
  unfold accepts. cbn [ex_populate ex_validators reaction_service]. rewrite validate_one.
  unfold validate_reaction. by rewrite validate_spec_ok.
Qed.

(** Every service of the provider has an image once it is completed. *)
Lemma merge_services_images config ss ss' name :
  merge_services config ss = Ok ss' → name ∈ config.*1 →
  ∃ s, ss' !! name = Some s ∧ is_Some (svc_image s).
Proof.
  revert ss. induction config as [|[n c] config IH]; intros ss; cbn; [by intros _ ?%elem_of_nil|].
  intros (s & Hs & H)%result_bind_Ok Hin.
  destruct (decide (name ∈ config.*1)) as [Hc|Hc]; [by eapply IH|].
  apply elem_of_cons in Hin as [->|Hin]; [|done]. exists s.
  rewrite (merge_services_other _ _ _ _ Hc H), lookup_insert_eq. split; [done|].
  unfold merge_service in Hs. apply result_bind_Ok in Hs as (props & _ & Hs).
  apply result_bind_Ok in Hs as (eps & _ & [= <-]). by eexists.
Qed.

Lemma valid_images properties services schema p s :
  merge_spec properties services schema = Ok (p, s) → valid_spec (Some p) (Some s) schema →
  is_Some (services_into (Some s)).
Proof.
  intros (p' & _ & H)%result_bind_Ok (_ & ss & [= <-] & Hk & _).
  apply result_bind_Ok in H as (s' & Hs & [= <- <-]). apply services_into_total.
  intros m [= <-] name svc Hn.
  destruct (merge_services_images _ _ _ name Hs (Hk name (mk_is_Some _ _ Hn))) as (s & Hs' & Hi).
  congruence.
Qed.

Lemma source_convertible : convertible sources.
Proof.
  intros source schema stored (Hp & Hv)%source_accepts.
  apply result_bind_Ok in Hp as ([p s] & Hm & [= <-]). cbn in Hv.
  destruct (valid_images _ _ _ _ _ Hm Hv) as [x Hx]. unfold into, source_into. cbn [so_services].
  rewrite Hx. by eexists.
Qed.

Lemma reaction_convertible : convertible reactions.
Proof.
  intros source schema stored (Hp & Hv)%reaction_accepts.
  apply result_bind_Ok in Hp as ([p s] & Hm & [= <-]). cbn in Hv.
  destruct (valid_images _ _ _ _ _ Hm Hv) as [x Hx]. unfold into, reaction_into.
  cbn [re_services]. rewrite Hx. by eexists.
Qed.

Notation source_call := (service_call D ApiSourceSpec SourceStatus).

Context `{HS : Bson D SourceSpec, HR : Bson D ReactionSpec, HP : Bson D ProviderSpec}.
Context `{!BsonLaws D SourceSpec, !BsonTotal D SourceSpec, !BsonLaws D ProviderSpec}.

(** Setting a source stores it only when its provider is registered, its
    completion succeeds, and the completed specification conforms to the
    provider's schemas and names no service the provider does not have; what is
    stored is the completed specification, its actor is configured with the same
    specification only once it is stored, and the call succeeds exactly when both
    did; nothing panics. *)
Lemma source_set_checked id source :
  under (docs_ok (TSpec:=SourceSpec)) (ext_set sources id source : prog source_call _) (λ t o,
    (∃ e, o = Done (Err e) ∧ writes t = [] ∧ configures t = [] ∧
       ∀ schema stored, provider_read t (so_kind source) schema →
         ¬ (populate_source source schema = Ok stored ∧
            valid_spec (so_properties stored) (so_services stored) schema)) ∨
    (∃ schema stored api d written,
       provider_read t (so_kind source) schema ∧ populate_source source schema = Ok stored ∧
       valid_spec (so_properties stored) (so_services stored) schema ∧
       into stored = Some api ∧ to_document stored = Ok d ∧
       writes t = [(id, with_id (T:=SourceSpec) id d, written)] ∧
       if written then ∃ r,
         configures t = [("SourceResource"%string, id, mkResourceRequest id api, r)] ∧
         o = Done (match r with Ok _ => Ok (mkResource id stored None) | Err e => internal e end)
       else configures t = [] ∧ ∃ e, o = Done (internal e))).
Proof.
  eapply under_mono; [done| |apply (ext_set_outcome sources id source source_convertible)].
  intros t o [(e & Ho & Hw & Hc & Hno)|
    (schema & stored & api & d & written & Hp & [Ha Hv]%source_accepts & Hi & Hd & Hw & Ho)].
  - left. exists e. do 3 (split; [done|]). intros schema stored Hp Ha%source_accepts. by eapply Hno.
  - right. exists schema, stored, api, d, written. by do 6 (split; [done|]).
Qed.

(** C25: over a working database, the service of sources is a map from identifiers
    to specifications, whatever the actors answer: setting a source with an
    unknown provider or an invalid specification leaves the map alone; a valid
    one is stored completed, also when its actor then fails; a source is deleted
    only when its actor could be deprovisioned; reading and listing return what
    was last stored. *)
Theorem sources_refine_map {S} (rest : ∀ X, source_call X → S → X * S)
    requests (w : world) specs provs :
  models w specs provs →
  wp (on_world rest) (serve_all sources requests) w (λ o w', ∃ answers specs', o = Done answers ∧
    handles_all sources provs specs requests answers specs' ∧ models w' specs' provs).
Proof.
  intros Hw. apply serve_all_refines; [apply source_convertible | by eexists | done].
Qed.

(** Deleting a source deprovisions its actor first and removes the stored
    specification only once that worked; before it, the deprovision handler of
    exactly those services whose provider asks for it is called, in order,
    whatever they answer, and none when the provider is gone; a source that is
    not stored is reported and nothing is called. *)
Theorem source_delete_ordered id :
  under (docs_ok (TSpec:=SourceSpec)) (ext_delete sources id : prog source_call _) (λ t o,
    (writes t = [] ∧ deletes t = [] ∧ deprovisions t = [] ∧ invokes t = [] ∧
     (∀ spec, ¬ spec_read (TSpec:=SourceSpec) t id spec) ∧ ∃ e, o = Done (Err e)) ∨
    ∃ spec schema, spec_read (TSpec:=SourceSpec) t id spec ∧
      (∀ p, provider_read t (so_kind spec) p ↔ schema = Some p) ∧
      writes t = [] ∧ invokes t = handler_calls id (from_option pv_services [] schema) ∧
      ∃ r, deprovisions t = [("SourceResource"%string, id, r)] ∧
        match r with
        | Err e => deletes t = [] ∧ o = Done (internal e)
        | Ok _ => ∃ deleted, deletes t = [(id, deleted)] ∧
            (if deleted then o = Done (Ok ()) else ∃ e, o = Done (Err e))
        end).
Proof. apply (ext_delete_outcome sources id). Qed.

(** Waiting for a source ends, at the latest when its time is over: it answers
    that the source is ready exactly when the last status says so, fails with the
    actor's failure, and gives up only after the time is over, every status before
    saying that the source is not available. *)
Lemma source_wait_bounded id time_out :
  under (docs_ok (TSpec:=SourceSpec))
    (ext_wait_for_ready sources id time_out : prog source_call _) (λ t o,
    paced 0 (readings t) →
    (∃ e, (e = NotFound ∨ ∃ m, e = InternalError m) ∧ o = Done (Err e) ∧ statuses t = [] ∧ readings t = []) ∨
    waited (ex_ready_check sources) time_out t o ∧
    (length (readings t) ≤ wait_fuel time_out)%nat).
Proof.
  assert (time_out ≤ (Z.of_nat (0 + wait_fuel time_out) - 1) * one_second)%Z as Hfuel.
  { unfold wait_fuel, one_second. pose proof (Z.mod_pos_bound time_out 1000000000).
    pose proof (Z.div_mod time_out 1000000000). lia. }
  assert (1 ≤ wait_fuel time_out)%nat as Hone by (unfold wait_fuel; lia).
  unfold ext_wait_for_ready, wait_for_ready. revert Hfuel Hone. generalize (wait_fuel time_out) as fuel.
  intros fuel Hfuel Hone answer Ha. cbn in Ha |- *.
  destruct answer as [[d|]|e]; cbn; [|intros _; left; eexists; (split; [|done]); eauto..].
  specialize (Ha d eq_refl). destruct (from_document d) as [spec|e]; [|done].
  eapply (under_mono anything); [done| |eapply wait_rounds_waited; [by eexists|exact Hfuel|done]].
  intros t o Ht Hp. right. by apply Ht.
Qed.
End extensible.

(** ** Queries *)

Section queries.
Context {D : Type}.
Context `{HS : Bson D QuerySpec, HC : Bson D QueryContainerSpec, HP : Bson D ProviderSpec}.

Notation container_call := (service_call D ApiQueryContainerSpec QueryContainerStatus).
Notation query_call := (service_call D ApiQuerySpec QueryStatus).

Lemma check_pipeline_ok defined sub pipeline :
  check_pipeline defined sub pipeline = Ok () ↔ Forall (.∈ defined) pipeline.
Proof.
  induction pipeline as [|mw pipeline IH]; cbn; [by split|].
  rewrite list.Forall_cons. case_decide; naive_solver.
Qed.

Lemma check_pipelines_ok defined subs :
  check_pipelines defined subs = Ok () ↔
  Forall (λ sub, Forall (.∈ defined) (qs_pipeline sub)) subs.
Proof.
  induction subs as [|sub subs IH]; cbn; [by split|].
  rewrite list.Forall_cons, result_bind_Ok, <-IH, <-(check_pipeline_ok _ (qs_id sub)). split.
  - by intros ([] & ? & ?).
  - intros [??]. by exists ().
Qed.

(** The middleware every pipeline of a query names is defined in it. *)
Definition pipelines_defined (spec : QuerySpec) : Prop :=
  ∀ sub mw, sub ∈ src_subscriptions (q_sources spec) → mw ∈ qs_pipeline sub →
    ∃ m, m ∈ src_middleware (q_sources spec) ∧ mw_name m = mw.

Lemma pipelines_defined_ok spec :
  check_pipelines (mw_name <$> src_middleware (q_sources spec))
    (src_subscriptions (q_sources spec)) = Ok () ↔ pipelines_defined spec.
Proof.
  rewrite check_pipelines_ok, list.Forall_forall. unfold pipelines_defined.
  split.
  - intros H sub mw Hs Hm. specialize (H sub Hs). cbn in H.
    pose proof (proj1 (list.Forall_forall _ _) H mw Hm) as Hmw.
    apply list_elem_of_fmap in Hmw as (m & -> & Hin). by exists m.
  - intros H sub Hs. apply list.Forall_forall. intros mw Hm. apply list_elem_of_fmap.
    destruct (H sub mw Hs Hm) as (m & Hin & <-). by exists m.
Qed.

(** The container was read, and its actor answered that it is available. *)
Definition container_available (t : list (call container_call)) (container : string) : Prop :=
  ∃ spec st, spec_read (TSpec:=QueryContainerSpec) t container spec ∧
    statuses t = [Ok st] ∧ qcs_available st = true.

Lemma validate_query_ok spec :
  under (docs_ok (TSpec:=QueryContainerSpec)) (validate_query spec : prog container_call _) (λ t o,
    writes t = [] ∧ deletes t = [] ∧ configures t = [] ∧ ∃ r, o = Done r ∧
    (r = Ok () ↔ container_available t (q_container spec) ∧ pipelines_defined spec)).
Proof.
  unfold validate_query, std_get, container_available. pose proof (pipelines_defined_ok spec) as Hpd.
  intros answer Ha. cbn in Ha |- *.
  destruct answer as [[d|]|e]; cbn.
  2,3: do 3 (split; [done|]); eexists; (split; [done|]); split; [done|];
    intros [(c & st & _ & Hst & _) _]; done.
  specialize (Ha d eq_refl). destruct (from_document d) as [c|e] eqn:Hd; [|done].
  cbn. intros [st|e] _; cbn; destruct (check_pipelines _ _) as [[]|e'] eqn:Hpipe; cbn in *;
    try destruct (qcs_available st) eqn:Hav; cbn; do 3 (split; [done|]);
    eexists; (split; [done|]); (split; [try done|try done]);
    try (intros [(c' & st' & _ & Hst & Hav') Hp']; first [by apply Hpd in Hp' |
      unfold statuses, observe in Hst; cbn in Hst; congruence]).
  intros _. split; [|by apply Hpd]. exists c, st. split; [|done]. exists d. split; [by left|done].
Qed.

Notation full_call := (standard_call D ApiQuerySpec QueryStatus container_call).

(** The containers' documents can be read. *)
Definition validation_ok (c : call full_call) : Prop :=
  match c with
  | @Call _ X e x =>
      match e in standard_call _ _ _ _ X return X → Prop with
      | Validation c => λ x, docs_ok (TSpec:=QueryContainerSpec) (Call c x)
      | _ => λ _, True
      end x
  end.

Lemma run_validators_one (spec : QuerySpec) G (p : prog container_call (result unit DomainError)) Q :
  under G p Q → under G (run_validators [λ _, p] spec) Q.
Proof.
  intros Hp. unfold run_validators. cbn [for_try].
  apply under_bind. eapply under_mono; [done| |exact Hp].
  intros t [[[]|e]|w] HQ; cbn; by rewrite ?app_nil_r.
Qed.

(** Setting a query stores and starts it exactly when its container is
    stored and available and every middleware its pipelines name is defined;
    otherwise nothing is written and no actor is called.  The container's query
    actor is configured only after the query is stored, and an actor's failure
    leaves the query stored.  A query that passes the checks and cannot become a
    document makes the call panic; nothing is written and no actor is called. *)
Lemma query_set_checked id spec :
  under validation_ok (std_set (V:=container_call) query_service id spec : prog full_call _) (λ t o,
    ∃ checks sets,
      t = map (translate_call (λ X c, Validation c)) checks ++
          map (translate_call (λ X c, Own c)) sets ∧
      writes checks = [] ∧ configures checks = [] ∧
      ((∃ e, o = Done (Err e) ∧ sets = [] ∧
        ¬ (container_available checks (q_container spec) ∧ pipelines_defined spec)) ∨
       container_available checks (q_container spec) ∧ pipelines_defined spec ∧
       ((∃ e, to_document (D:=D) spec = Err e ∧ sets = [] ∧ o = Panicked (unwrap_err e)) ∨
        stored_as query_actor id spec
          (mkApiQuery (q_mode spec) (q_query spec) (q_query_language spec)
             (q_sources spec) (q_storage_profile spec) (q_view spec)) sets o))).
Proof.
  unfold std_set. cbn [st_validators query_service]. apply under_bind, under_translate.
  apply run_validators_one. eapply under_mono; [| |apply (validate_query_ok spec)]; [by intros [X e x]|].
  intros checks o (Hw & _ & Hc & r & -> & Hr). destruct r as [[]|e].
  - apply under_translate. eapply (under_mono anything); [done| |
      apply (store_and_configure_calls (HI:=query_into) query_actor id spec _ eq_refl)].
    intros sets o Ho. exists checks, sets. do 3 (split; [done|]). right.
    destruct (proj1 Hr eq_refl) as [Hav Hp]. do 2 (split; [done|]). exact Ho.
  - cbn. exists checks, []. split; [done|]. do 2 (split; [done|]). left. exists e.
    do 2 (split; [done|]). intros H. by apply Hr in H.
Qed.
End queries.

(** ** Examples *)

(** A document with or without its identifier. *)
Inductive example_doc :=
| DocSource (id : option string) (s : SourceSpec)
| DocReaction (id : option string) (r : ReactionSpec)
| DocProvider (id : option string) (p : ProviderSpec)
| DocQuery (id : option string) (q : QuerySpec)
| DocContainer (id : option string) (c : QueryContainerSpec).

Definition doc_with_id (id : string) (d : example_doc) : example_doc :=
  match d with
  | DocSource _ s => DocSource (Some id) s
  | DocReaction _ r => DocReaction (Some id) r
  | DocProvider _ p => DocProvider (Some id) p
  | DocQuery _ q => DocQuery (Some id) q
  | DocContainer _ c => DocContainer (Some id) c
  end.

Definition doc_id (d : example_doc) : result string string :=
  match d with
  | DocSource id _ | DocReaction id _ | DocProvider id _ | DocQuery id _ | DocContainer id _ =>
      ok_or id "no _id"%string
  end.

#[export] Instance example_bson_source : Bson example_doc SourceSpec := {|
  to_document s := Ok (DocSource None s);
  from_document d := match d with DocSource _ s => Ok s | _ => Err "not a source"%string end;
  with_id := doc_with_id; get_id := doc_id |}.
#[export] Instance example_bson_provider : Bson example_doc ProviderSpec := {|
  to_document s := Ok (DocProvider None s);
  from_document d := match d with DocProvider _ s => Ok s | _ => Err "not a provider"%string end;
  with_id := doc_with_id; get_id := doc_id |}.
#[export] Instance example_bson_query : Bson example_doc QuerySpec := {|
  to_document s := Ok (DocQuery None s);
  from_document d := match d with DocQuery _ s => Ok s | _ => Err "not a query"%string end;
  with_id := doc_with_id; get_id := doc_id |}.
#[export] Instance example_bson_container : Bson example_doc QueryContainerSpec := {|
  to_document s := Ok (DocContainer None s);
  from_document d := match d with DocContainer _ s => Ok s | _ => Err "not a container"%string end;
  with_id := doc_with_id; get_id := doc_id |}.

#[export] Instance example_laws_source : BsonLaws example_doc SourceSpec.
Proof. by split; intros t id d [= <-]. Qed.
#[export] Instance example_total_source : BsonTotal example_doc SourceSpec.
Proof. by split. Qed.
#[export] Instance example_laws_provider : BsonLaws example_doc ProviderSpec.
Proof. by split; intros t id d [= <-]. Qed.
#[export] Instance example_laws_query : BsonLaws example_doc QuerySpec.
Proof. by split; intros t id d [= <-]. Qed.

(** Schemas that accept everything. *)
Definition example_compile (v : value) : option value := Some v.
Definition example_check (v instance : value) : result unit (list (string * string)) := Ok ().
Definition example_keys (m : gmap string ServiceConfig) : list string := (map_to_list m).*1.

Lemma example_keys_ok m name : name ∈ example_keys m ↔ is_Some (m !! name).
Proof.
  unfold example_keys, is_Some. rewrite list_elem_of_fmap. split.
  - intros ([k s] & -> & Hin%elem_of_map_to_list). by exists s.
  - intros [s Hs]. exists (name, s). split; [done|]. by apply elem_of_map_to_list.
Qed.

Notation example_sources := (source_service example_compile example_check example_keys).

Definition example_source : SourceSpec :=
  mkSource "PostgreSQL" None (Some {["database" := Inline (IString "hr")]}) None.

(** A world whose actors always answer. *)
Definition example_rest (X : Type) (c : service_call example_doc ApiSourceSpec SourceStatus X)
    (s : unit) : X * unit :=
  match c in service_call _ _ _ X return X * unit with
  | Specs c => ((on_collection _ c ∅).1, s)
  | Providers c => ((on_collection _ c ∅).1, s)
  | Configure _ _ _ => (Ok (), s)
  | Deprovision _ _ => (Ok (), s)
  | GetStatus _ _ => (Ok (mkSourceStatus true None None), s)
  | Invoke _ _ => (Ok (), s)
  | Elapsed => (0%Z, s)
  | SleepOneSecond => (tt, s)
  end.

Definition example_world : world (D:=example_doc) (S:=unit) :=
  (∅, {["PostgreSQL"%string := DocProvider (Some "PostgreSQL"%string) example_provider]}, ()).

Lemma example_world_models :
  models (TSpec:=SourceSpec) example_world ∅ {["PostgreSQL"%string := example_provider]}.
Proof.
  split; intros id; cbn; [by rewrite !lookup_empty|].
  destruct (decide (id = "PostgreSQL"%string)) as [->|Hne].
  - rewrite !lookup_singleton_eq. by eexists.
  - by rewrite !lookup_singleton_ne.
Qed.

Lemma sources_refine_map_witness :
  wp (on_world example_rest) (serve_all example_sources
      [OpSet "hr" example_source; OpGet "hr"; OpDelete "hr"; OpGet "hr"]) example_world
    (λ o w', ∃ answers specs', o = Done answers ∧
      handles_all example_sources {["PostgreSQL"%string := example_provider]} ∅
        [OpSet "hr" example_source; OpGet "hr"; OpDelete "hr"; OpGet "hr"] answers specs' ∧
      models w' specs' {["PostgreSQL"%string := example_provider]}).
Proof.
  apply (sources_refine_map example_compile example_check example_keys example_keys_ok
    example_rest _ example_world ∅ _ example_world_models).
Defined.

Definition example_query : QuerySpec :=
  mkQuery "default" "query" "MATCH (n) RETURN n" None
    (mkSources [mkSubscription "hr" [] [] ["decoder"%string]] [] [mkMiddleware "decoder" "decoder" []])
    None (mkView true Latest) None.
