(* ===== verification/DebugService.v ===== *)
(** * DebugService: running a query for debugging, without storing it
    ([domain/debug_service.rs] and [domain/query_actor_service.rs]) *)
From S2P Require Import Prelude BTree Json RustText Effects MgmtModels Mappings.
From S2P Require Import ResourceRepo ResourceService MgmtServices.

(** The results that are streamed to the client ([result_service.rs]). *)
Inductive DebugSignal := SigBootstrapStarted | SigBootstrapCompleted | SigRunning | SigStopped
  | SigQueryDeleted.

Inductive DebugResult :=
| DrChange (change : value)
| DrControl (signal : DebugSignal) (rest : value).

(** What the stream's [select!] sees first. *)
Inductive debug_event :=
| DbgCancelled
| DbgReady (r : result unit DomainError)
| DbgNext (item : option DebugResult).

Inductive debug_call (D : Type) : Type → Type :=
| Actor (X : Type) (c : service_call D ApiQuerySpec QueryStatus X) : debug_call D X
| StreamFromStart (query_id consumer_id : string) : debug_call D (result unit DomainError)
| SelectEvent : debug_call D debug_event
| Yield (item : result DebugResult DomainError) : debug_call D unit
| Sleep200 : debug_call D unit.
Arguments Actor {D X}.
Arguments StreamFromStart {D}.
Arguments SelectEvent {D}.
Arguments Yield {D}.
Arguments Sleep200 {D}.

Section debug.
Context {D : Type}.
Notation P := (prog (debug_call D)).

Definition actor {A} (p : prog (service_call D ApiQuerySpec QueryStatus) A) : P A :=
  translate (λ X c, Actor c) p.

(** [wait_for_ready_or_error], its first [rounds] looks: it does not end by
    itself while the status is not decided. *)
Fixpoint wait_for_ready_or_error (rounds : nat) (id container : string)
    : P (option (result unit DomainError)) :=
  match rounds with
  | O => mret None
  | S rounds =>
      r ← trigger (Actor (GetStatus (qas_actor container) id));
      match r with
      | Err e => mret (Some (internal e))
      | Ok qs =>
          match status_verdict qs with
          | Some v => mret (Some v)
          | None => _ ← trigger Sleep200; wait_for_ready_or_error rounds id container
          end
      end
  end.

Definition set_transient (spec : QuerySpec) : QuerySpec :=
  mkQuery (q_container spec) (q_mode spec) (q_query spec) (q_query_language spec) (q_sources spec)
    (q_storage_profile spec) (q_view spec) (Some true).

Definition end_of_stream (item : DebugResult) : bool :=
  match item with
  | DrControl SigStopped _ => true
  | DrControl SigQueryDeleted _ => true
  | _ => false
  end.

(** The stream's loop, its first [rounds] events; whether it was left. *)
Fixpoint debug_loop (rounds : nat) : P bool :=
  match rounds with
  | O => mret false
  | S rounds =>
      e ← trigger SelectEvent;
      match e with
      | DbgCancelled => mret true
      | DbgReady (Ok _) => debug_loop rounds
      | DbgReady (Err e) => _ ← trigger (Yield (Err e)); mret true
      | DbgNext None => mret true
      | DbgNext (Some item) =>
          _ ← trigger (Yield (Ok item));
          if end_of_stream item then mret true else debug_loop rounds
      end
  end.

(** The stream: its loop, then the query is removed. *)
Definition debug_stream (rounds : nat) (temp_id container : string) : P bool :=
  ended ← debug_loop rounds;
  match ended with
  | true => _ ← actor (qas_deprovision temp_id container); mret true
  | false => mret false
  end.

(** [DebugService::debug] with the identifier it draws, and its stream. *)
Definition debug (rounds : nat) (uuid : string) (spec : QuerySpec)
    : P (result bool DomainError) :=
  let temp_id := "debug-" +:+ uuid in
  let spec := set_transient spec in
  r ← actor (qas_configure temp_id spec);
  match r with
  | Err e => mret (internal (domain_error_to_string e))
  | Ok _ =>
      rs ← trigger (StreamFromStart temp_id "debug");
      match rs with
      | Err e =>
          _ ← actor (qas_deprovision temp_id (q_container spec));
          mret (Err e)
      | Ok _ =>
          ended ← debug_stream rounds temp_id (q_container spec);
          mret (Ok ended)
      end
  end.

(** ** What a session leaves behind *)

Notation trace := (list (call (debug_call D))).

(** The configurations that worked, and the deprovisions. *)
Definition started_of (c : call (debug_call D)) : option (string * string) :=
  match c with
  | @Call _ X e x =>
      match e in debug_call _ X return X → _ with
      | Actor c => λ x,
          match c in service_call _ _ _ X return X → _ with
          | Configure a id _ => λ r, if is_ok r then Some (a, id) else None
          | _ => λ _, None
          end x
      | _ => λ _, None
      end x
  end.

Definition stopped_of (c : call (debug_call D)) : option (string * string) :=
  match c with
  | @Call _ X e x =>
      match e in debug_call _ X return X → _ with
      | Actor c => λ x,
          match c in service_call _ _ _ X return X → _ with
          | Deprovision a id => λ _, Some (a, id)
          | _ => λ _, None
          end x
      | _ => λ _, None
      end x
  end.

(** The results received, and the items given to the client. *)
Definition received_of (c : call (debug_call D)) : option DebugResult :=
  match c with
  | @Call _ X e x =>
      match e in debug_call _ X return X → _ with
      | SelectEvent => λ x, match x with DbgNext (Some item) => Some item | _ => None end
      | _ => λ _, None
      end x
  end.

Definition yielded_of (c : call (debug_call D)) : option (result DebugResult DomainError) :=
  match c with
  | @Call _ X e x =>
      match e in debug_call _ X return X → _ with
      | Yield item => λ _, Some item
      | _ => λ _, None
      end x
  end.

Lemma debug_loop_calls rounds :
  always (debug_loop rounds) (λ t o, ∃ ended, o = Done ended ∧
    observe started_of t = [] ∧ observe stopped_of t = [] ∧
    ∃ errs, observe yielded_of t = map Ok (observe received_of t) ++ map Err errs ∧
      (length errs ≤ 1)%nat).
Proof.
  induction rounds as [|rounds IH]; cbn [debug_loop].
  { exists false. do 3 (split; [done|]). exists []. split; [done|cbn; lia]. }
  intros [|[[]|e]|[item|]] _; cbn.
  - exists true. do 3 (split; [done|]). exists []. split; [done|cbn; lia].
  - exact IH.
  - intros _ _. exists true. do 3 (split; [done|]). exists [e]. split; [done|cbn; lia].
  - intros _ _. destruct (end_of_stream item); cbn.
    + exists true. do 3 (split; [done|]). exists []. split; [done|cbn; lia].
    + eapply under_mono; [done| |exact IH].
      intros t o (ended & -> & Hs & Hd & errs & Hy & Hl). exists ended.
      do 3 (split; [done|]). exists errs. cbn. split; [|done].
      unfold observe in *. cbn. by rewrite Hy.
  - exists true. do 3 (split; [done|]). exists []. split; [done|cbn; lia].
Qed.

(** The request a debugged query is configured with does not say that it is
    transient. *)
Lemma transient_not_sent spec :
  into (set_transient spec) = into (A:=QuerySpec) (B:=ApiQuerySpec) spec.
Proof. done. Qed.

(** A debugging session never leaves its query behind: when the stream cannot
    be opened, or once the stream has ended - cancelled, failed, stopped, deleted
    or exhausted - the query's actor has been told to deprovision; a query that
    could not be configured is not deprovisioned.  While it runs, the client gets
    the results received, in order, and at most one error after them. *)
Theorem debug_session_cleans_up rounds uuid spec :
  always (debug rounds uuid spec) (λ t o, ∃ r, o = Done r ∧
    let a := (q_container spec +:+ ".ContinuousQuery", "debug-" +:+ uuid) in
    (observe started_of t = [] ∧ observe stopped_of t = [] ∧ is_ok r = false ∨
     observe started_of t = [a] ∧
       observe stopped_of t = match r with Ok false => [] | _ => [a] end) ∧
    ∃ errs, observe yielded_of t = map Ok (observe received_of t) ++ map Err errs ∧
      (length errs ≤ 1)%nat).
Proof.
  unfold debug. intros [[]|e] _; cbn.
  2:{ eexists. split; [done|]. split; [by left|]. exists []. split; [done|cbn; lia]. }
  intros [[]|e] _; cbn.
  2:{ intros [[]|e'] _; cbn; eexists; (split; [done|]); (split; [by right|]); exists []; (split; [done|cbn; lia]). }
  unfold debug_stream. apply under_bind, under_bind.
  eapply under_mono; [done| |exact (debug_loop_calls rounds)].
  intros t o (ended & -> & Hs & Hd & errs & Hy & Hl). unfold observe in *.
  destruct ended; cbn.
  - intros r _. destruct r as [[]|e]; cbn; eexists; (split; [done|]);
      rewrite !omap_app, ?Hs, ?Hd, Hy; cbn; (split; [by right|]);
      exists errs; by rewrite !app_nil_r.
  - eexists. split; [done|]. rewrite !app_nil_r, Hs, Hd. split; [by right|]. by exists errs.
Qed.
End debug.
