(* ===== verification/ApiDto.v ===== *)
(** * ApiDto: the management API's data transfer objects
    ([mgmt_api/src/api/v1/models] and [api/v1/mappings])

    What clients send and receive, and its conversion to and from the domain's
    types.  The two families of types are separate in the code; here the names
    of the API's constructors and fields end or start with [Dto] or [d]. *)
From S2P Require Import Prelude BTree Json MgmtModels Mappings.

(** ** Types *)

Record ResourceDto (TSpec TStatus : Type) := mkResourceDto {
  dr_id : string;
  dr_spec : TSpec;
  dr_status : option TStatus;
}.
Arguments mkResourceDto {TSpec TStatus} _ _ _.
Arguments dr_id {TSpec TStatus} _.
Arguments dr_spec {TSpec TStatus} _.
Arguments dr_status {TSpec TStatus} _.

Inductive ConfigValueDto :=
| InlineDto (value : InlineValueDto)
| SecretDto (name key : string)
with InlineValueDto :=
| DString (value : string)
| DInteger (value : Z)
| DBoolean (value : bool)
| DList (value : list ConfigValueDto).

Inductive EndpointSettingDto := InternalDto | ExternalDto.

Record EndpointDto := mkEndpointDto { dep_setting : EndpointSettingDto; dep_target : string }.

(** A property may be [null]. *)
Record ServiceConfigDto := mkServiceDto {
  dsvc_endpoints : option (gmap string EndpointDto);
  dsvc_dapr : option (gmap string ConfigValueDto);
  dsvc_properties : option (gmap string (option ConfigValueDto));
}.

Inductive ServiceIdentityDto :=
| MicrosoftEntraWorkloadIDDto (client_id : string)
| MicrosoftEntraApplicationDto (tenant_id client_id : ConfigValueDto)
    (secret certificate : option ConfigValueDto)
| ConnectionStringDto (connection_string : ConfigValueDto)
| AccessKeyDto (access_key : ConfigValueDto)
| AwsIamRoleDto (role_arn : ConfigValueDto)
| AwsIamAccessKeyDto (access_key_id secret_access_key aws_region : ConfigValueDto).

Record SourceSpecDto := mkSourceDto {
  dso_kind : string;
  dso_services : option (gmap string ServiceConfigDto);
  dso_properties : option (gmap string ConfigValueDto);
  dso_identity : option ServiceIdentityDto;
}.

Record SourceStatusDto := mkSourceStatusDto {
  dsst_available : bool;
  dsst_messages : option (btree string);
  dsst_ingress_url : option string;
}.

Record ReactionSpecDto := mkReactionDto {
  dre_kind : string;
  dre_tag : option string;
  dre_services : option (gmap string ServiceConfigDto);
  dre_properties : option (gmap string ConfigValueDto);
  dre_queries : gmap string (option string);
  dre_identity : option ServiceIdentityDto;
}.

Record ReactionStatusDto := mkReactionStatusDto {
  drst_available : bool;
  drst_messages : option (btree string);
  drst_ingress_url : option string;
}.

Inductive StorageSpecDto :=
| MemoryDto (enable_archive : bool)
| RedisDto (connection_string : ConfigValueDto) (cache_size : option Z)
| RocksDbDto (enable_archive : bool) (storage_class : option string) (direct_io : bool).

Record QueryContainerSpecDto := mkContainerDto {
  dqc_query_host_count : Z;
  dqc_results : gmap string ConfigValueDto;
  dqc_storage : gmap string StorageSpecDto;
  dqc_default_store : string;
}.

Record QueryContainerStatusDto := mkContainerStatusDto {
  dqcs_available : bool;
  dqcs_messages : option (btree string);
}.

Inductive QueryLanguageDto := CypherDto | GQLDto.

Record QuerySourceLabelDto := mkLabelDto { dsl_source_label : string }.

Record QuerySubscriptionDto := mkSubscriptionDto {
  dqs_id : string;
  dqs_nodes : option (list QuerySourceLabelDto);
  dqs_relations : option (list QuerySourceLabelDto);
  dqs_pipeline : option (list string);
}.

Record QueryJoinKeyDto := mkJoinKeyDto { djk_label : string; djk_property : string }.
Record QueryJoinDto := mkJoinDto { dqj_id : string; dqj_keys : list QueryJoinKeyDto }.

Record SourceMiddlewareConfigDto := mkMiddlewareDto {
  dmw_kind : string;
  dmw_name : string;
  dmw_config : jmap;
}.

Record QuerySourcesDto := mkSourcesDto {
  dsrc_subscriptions : list QuerySubscriptionDto;
  dsrc_joins : option (list QueryJoinDto);
  dsrc_middleware : option (list SourceMiddlewareConfigDto);
}.

Inductive RetentionPolicyDto := LatestDto | ExpireDto (after_seconds : Z) | AllDto.

Record ViewSpecDto := mkViewDto { dvs_enabled : bool; dvs_retention_policy : RetentionPolicyDto }.

Definition view_default : ViewSpecDto := mkViewDto true LatestDto.

Record QuerySpecDto := mkQueryDto {
  dq_container : string;
  dq_mode : string;
  dq_query : string;
  dq_query_language : option QueryLanguageDto;
  dq_sources : QuerySourcesDto;
  dq_storage_profile : option string;
  dq_view : option ViewSpecDto;
}.

Record QueryStatusDto := mkQueryStatusDto {
  dqst_host_name : string;
  dqst_status : string;
  dqst_container : string;
  dqst_error_message : option string;
}.

Inductive SchemaTypeDto :=
| DtyObject | DtyArray | DtyString | DtyNumber | DtyInteger | DtyBoolean | DtyNull.

(** As in the domain, a [HashMap] that is only iterated is the list of its
    entries, and a bound is the bits of an [f64]. *)
Inductive JsonSchemaDto := mkSchemaDto {
  djs_schema : option string;
  djs_type : SchemaTypeDto;
  djs_properties : option (list (string * JsonSchemaDto));
  djs_required : option (list string);
  djs_items : option JsonSchemaDto;
  djs_enum_values : option (list value);
  djs_format : option string;
  djs_minimum : option Z;
  djs_maximum : option Z;
  djs_min_length : option Z;
  djs_max_length : option Z;
  djs_description : option string;
  djs_default : option value;
}.

Record ServiceEndpointDto := mkServiceEndpointDto {
  dsep_setting : EndpointSettingDto;
  dsep_target : string;
}.

Record ProviderServiceDto := mkProviderServiceDto {
  dps_image : string;
  dps_external_image : option bool;
  dps_dapr : option (list (string * string));
  dps_endpoints : option (list (string * ServiceEndpointDto));
  dps_config_schema : option JsonSchemaDto;
  dps_deprovision_handler : option bool;
}.

Record ProviderSpecDto := mkProviderDto {
  dpv_services : list (string * ProviderServiceDto);
  dpv_config_schema : option JsonSchemaDto;
}.

Record ResourceProviderDto (TSpec : Type) := mkResourceProviderDto {
  drp_id : string;
  drp_spec : TSpec;
}.
Arguments mkResourceProviderDto {TSpec} _ _.
Arguments drp_id {TSpec} _.
Arguments drp_spec {TSpec} _.

(** [ResourceProvider] of the domain *)
Record ResourceProvider (TSpec : Type) := mkResourceProvider { rp_id : string; rp_spec : TSpec }.
Arguments mkResourceProvider {TSpec} _ _.
Arguments rp_id {TSpec} _.
Arguments rp_spec {TSpec} _.

(** ** From the API to the domain *)

Fixpoint config_value_of_dto (v : ConfigValueDto) : ConfigValue :=
  match v with
  | InlineDto (DString value) => Inline (IString value)
  | InlineDto (DInteger value) => Inline (IInteger value)
  | InlineDto (DBoolean value) => Inline (IBoolean value)
  | InlineDto (DList value) => Inline (IList (map config_value_of_dto value))
  | SecretDto name key => Secret name key
  end.

Definition setting_of_dto (s : EndpointSettingDto) : EndpointSetting :=
  match s with InternalDto => Internal | ExternalDto => External end.

Definition endpoint_of_dto (e : EndpointDto) : Endpoint :=
  mkEndpoint (setting_of_dto (dep_setting e)) (dep_target e).

(** [(k, v.unwrap().into())] *)
Definition property_of_dto (v : option ConfigValueDto) : option ConfigValue :=
  config_value_of_dto <$> v.

(** The conversion of every value of an optional map; [None] when one panics. *)
Definition opt_map_into {A B} (f : A → option B) (m : option (gmap string A))
    : option (option (gmap string B)) :=
  match m with
  | None => Some None
  | Some m => Some <$> map_into f m
  end.

Definition service_of_dto (s : ServiceConfigDto) : option ServiceConfig :=
  properties ← opt_map_into property_of_dto (dsvc_properties s);
  Some (mkService None None None
    (map_values config_value_of_dto (dsvc_dapr s))
    (map_values endpoint_of_dto (dsvc_endpoints s))
    properties None).

Definition identity_of_dto (i : ServiceIdentityDto) : ServiceIdentity :=
  match i with
  | MicrosoftEntraWorkloadIDDto client_id => MicrosoftEntraWorkloadID client_id
  | MicrosoftEntraApplicationDto tenant_id client_id secret certificate =>
      MicrosoftEntraApplication (config_value_of_dto tenant_id) (config_value_of_dto client_id)
        (config_value_of_dto <$> secret) (config_value_of_dto <$> certificate)
  | ConnectionStringDto connection_string => ConnectionString (config_value_of_dto connection_string)
  | AccessKeyDto access_key => AccessKey (config_value_of_dto access_key)
  | AwsIamRoleDto role_arn => AwsIamRole (config_value_of_dto role_arn)
  | AwsIamAccessKeyDto access_key_id secret_access_key aws_region =>
      AwsIamAccessKey (config_value_of_dto access_key_id) (config_value_of_dto secret_access_key)
        (config_value_of_dto aws_region)
  end.

#[export] Instance source_of_dto : Into SourceSpecDto SourceSpec := λ s,
  services ← opt_map_into service_of_dto (dso_services s);
  Some (mkSource (dso_kind s) services (map_values config_value_of_dto (dso_properties s))
    (identity_of_dto <$> dso_identity s)).

#[export] Instance reaction_of_dto : Into ReactionSpecDto ReactionSpec := λ r,
  services ← opt_map_into service_of_dto (dre_services r);
  Some (mkReaction (dre_kind r) (dre_tag r) services
    (map_values config_value_of_dto (dre_properties r))
    (default EmptyString <$> dre_queries r)
    (identity_of_dto <$> dre_identity r)).

Definition storage_of_dto (s : StorageSpecDto) : StorageSpec :=
  match s with
  | MemoryDto enable_archive => Memory enable_archive
  | RedisDto connection_string cache_size => Redis (config_value_of_dto connection_string) cache_size
  | RocksDbDto enable_archive storage_class direct_io =>
      RocksDb enable_archive storage_class direct_io
  end.

#[export] Instance container_of_dto : Into QueryContainerSpecDto QueryContainerSpec := λ c,
  Some (mkContainer (dqc_query_host_count c) (config_value_of_dto <$> dqc_results c)
    (storage_of_dto <$> dqc_storage c) (dqc_default_store c)).

Definition language_of_dto (l : QueryLanguageDto) : QueryLanguage :=
  match l with CypherDto => Cypher | GQLDto => GQL end.

Definition label_of_dto (l : QuerySourceLabelDto) : QuerySourceLabel :=
  mkLabel (dsl_source_label l).

Definition subscription_of_dto (s : QuerySubscriptionDto) : QuerySubscription :=
  mkSubscription (dqs_id s)
    (match dqs_nodes s with Some nodes => map label_of_dto nodes | None => [] end)
    (match dqs_relations s with Some relations => map label_of_dto relations | None => [] end)
    (default [] (dqs_pipeline s)).

Definition join_key_of_dto (k : QueryJoinKeyDto) : QueryJoinKey :=
  mkJoinKey (djk_label k) (djk_property k).

Definition join_of_dto (j : QueryJoinDto) : QueryJoin :=
  mkJoin (dqj_id j) (map join_key_of_dto (dqj_keys j)).

Definition middleware_of_dto (m : SourceMiddlewareConfigDto) : SourceMiddlewareConfig :=
  mkMiddleware (dmw_kind m) (dmw_name m) (dmw_config m).

Definition sources_of_dto (s : QuerySourcesDto) : QuerySources :=
  mkSources (map subscription_of_dto (dsrc_subscriptions s))
    (match dsrc_joins s with Some joins => map join_of_dto joins | None => [] end)
    (match dsrc_middleware s with Some m => map middleware_of_dto m | None => [] end).

Definition policy_of_dto (p : RetentionPolicyDto) : RetentionPolicy :=
  match p with
  | LatestDto => Latest
  | ExpireDto after_seconds => Expire after_seconds
  | AllDto => All
  end.

Definition view_of_dto (v : ViewSpecDto) : ViewSpec :=
  mkView (dvs_enabled v) (policy_of_dto (dvs_retention_policy v)).

#[export] Instance query_of_dto : Into QuerySpecDto QuerySpec := λ q,
  Some (mkQuery (dq_container q) (dq_mode q) (dq_query q) (language_of_dto <$> dq_query_language q)
    (sources_of_dto (dq_sources q)) (dq_storage_profile q)
    (view_of_dto (default view_default (dq_view q))) None).

(** ** From the domain to the API *)

Fixpoint config_value_to_dto (v : ConfigValue) : ConfigValueDto :=
  match v with
  | Inline (IString value) => InlineDto (DString value)
  | Inline (IInteger value) => InlineDto (DInteger value)
  | Inline (IBoolean value) => InlineDto (DBoolean value)
  | Inline (IList value) => InlineDto (DList (map config_value_to_dto value))
  | Secret name key => SecretDto name key
  end.

Definition setting_to_dto (s : EndpointSetting) : EndpointSettingDto :=
  match s with Internal => InternalDto | External => ExternalDto end.

Definition endpoint_to_dto (e : Endpoint) : EndpointDto :=
  mkEndpointDto (setting_to_dto (ep_setting e)) (ep_target e).

(** The image, the replicas and the handler are not shown. *)
Definition service_to_dto (s : ServiceConfig) : ServiceConfigDto :=
  mkServiceDto (map_values endpoint_to_dto (svc_endpoints s))
    (map_values config_value_to_dto (svc_dapr s))
    (map_values (λ v, Some (config_value_to_dto v)) (svc_properties s)).

Definition identity_to_dto (i : ServiceIdentity) : ServiceIdentityDto :=
  match i with
  | MicrosoftEntraWorkloadID client_id => MicrosoftEntraWorkloadIDDto client_id
  | MicrosoftEntraApplication tenant_id client_id secret certificate =>
      MicrosoftEntraApplicationDto (config_value_to_dto tenant_id) (config_value_to_dto client_id)
        (config_value_to_dto <$> secret) (config_value_to_dto <$> certificate)
  | ConnectionString connection_string => ConnectionStringDto (config_value_to_dto connection_string)
  | AccessKey access_key => AccessKeyDto (config_value_to_dto access_key)
  | AwsIamRole role_arn => AwsIamRoleDto (config_value_to_dto role_arn)
  | AwsIamAccessKey access_key_id secret_access_key aws_region =>
      AwsIamAccessKeyDto (config_value_to_dto access_key_id)
        (config_value_to_dto secret_access_key) (config_value_to_dto aws_region)
  end.

Definition source_to_dto (s : SourceSpec) : SourceSpecDto :=
  mkSourceDto (so_kind s) (map_values service_to_dto (so_services s))
    (map_values config_value_to_dto (so_properties s)) (identity_to_dto <$> so_identity s).

Definition source_status_to_dto (s : SourceStatus) : SourceStatusDto :=
  mkSourceStatusDto (sst_available s) (sst_messages s) (sst_ingress_url s).

Definition reaction_to_dto (r : ReactionSpec) : ReactionSpecDto :=
  mkReactionDto (re_kind r) (re_tag r) (map_values service_to_dto (re_services r))
    (map_values config_value_to_dto (re_properties r)) (Some <$> re_queries r)
    (identity_to_dto <$> re_identity r).

Definition reaction_status_to_dto (s : ReactionStatus) : ReactionStatusDto :=
  mkReactionStatusDto (rst_available s) (rst_messages s) (rst_ingress_url s).

Definition storage_to_dto (s : StorageSpec) : StorageSpecDto :=
  match s with
  | Memory enable_archive => MemoryDto enable_archive
  | Redis connection_string cache_size => RedisDto (config_value_to_dto connection_string) cache_size
  | RocksDb enable_archive storage_class direct_io =>
      RocksDbDto enable_archive storage_class direct_io
  end.

Definition container_to_dto (c : QueryContainerSpec) : QueryContainerSpecDto :=
  mkContainerDto (qc_query_host_count c) (config_value_to_dto <$> qc_results c)
    (storage_to_dto <$> qc_storage c) (qc_default_store c).

Definition container_status_to_dto (s : QueryContainerStatus) : QueryContainerStatusDto :=
  mkContainerStatusDto (qcs_available s) (qcs_messages s).

Definition language_to_dto (l : QueryLanguage) : QueryLanguageDto :=
  match l with Cypher => CypherDto | GQL => GQLDto end.

Definition label_to_dto (l : QuerySourceLabel) : QuerySourceLabelDto :=
  mkLabelDto (sl_source_label l).

Definition subscription_to_dto (s : QuerySubscription) : QuerySubscriptionDto :=
  mkSubscriptionDto (qs_id s) (Some (map label_to_dto (qs_nodes s)))
    (Some (map label_to_dto (qs_relations s))) (Some (qs_pipeline s)).

Definition join_key_to_dto (k : QueryJoinKey) : QueryJoinKeyDto :=
  mkJoinKeyDto (jk_label k) (jk_property k).

Definition join_to_dto (j : QueryJoin) : QueryJoinDto :=
  mkJoinDto (qj_id j) (map join_key_to_dto (qj_keys j)).

Definition middleware_to_dto (m : SourceMiddlewareConfig) : SourceMiddlewareConfigDto :=
  mkMiddlewareDto (mw_kind m) (mw_name m) (mw_config m).

Definition sources_to_dto (s : QuerySources) : QuerySourcesDto :=
  mkSourcesDto (map subscription_to_dto (src_subscriptions s))
    (Some (map join_to_dto (src_joins s))) (Some (map middleware_to_dto (src_middleware s))).

Definition policy_to_dto (p : RetentionPolicy) : RetentionPolicyDto :=
  match p with
  | Latest => LatestDto
  | Expire after_seconds => ExpireDto after_seconds
  | All => AllDto
  end.

Definition view_to_dto (v : ViewSpec) : ViewSpecDto :=
  mkViewDto (vs_enabled v) (policy_to_dto (vs_retention_policy v)).

Definition query_to_dto (q : QuerySpec) : QuerySpecDto :=
  mkQueryDto (q_container q) (q_mode q) (q_query q) (language_to_dto <$> q_query_language q)
    (sources_to_dto (q_sources q)) (q_storage_profile q) (Some (view_to_dto (q_view q))).

Definition query_status_to_dto (s : QueryStatus) : QueryStatusDto :=
  mkQueryStatusDto (qst_host_name s) (qst_status s) (qst_container s) (qst_error_message s).

(** [ResourceDto::from], with the conversions of the specification and status. *)
Definition resource_to_dto {A B C D} (f : A → C) (g : B → D) (r : Resource A B)
    : ResourceDto C D :=
  mkResourceDto (r_id r) (f (r_spec r)) (g <$> r_status r).

(** ** Providers

    Collecting entries into a [HashMap] gives them a new order. *)
Section providers.
Context (hash_collect : ∀ A, list (string * A) → list (string * A)).

Definition collect_values {A B} (f : A → B) (m : list (string * A)) : list (string * B) :=
  hash_collect _ (map (λ kv, (kv.1, f kv.2)) m).

Definition schema_type_of_dto (t : SchemaTypeDto) : SchemaType :=
  match t with
  | DtyString => TyString | DtyNumber => TyNumber | DtyInteger => TyInteger
  | DtyObject => TyObject | DtyArray => TyArray | DtyBoolean => TyBoolean | DtyNull => TyNull
  end.

Definition schema_type_to_dto (t : SchemaType) : SchemaTypeDto :=
  match t with
  | TyString => DtyString | TyNumber => DtyNumber | TyInteger => DtyInteger
  | TyObject => DtyObject | TyArray => DtyArray | TyBoolean => DtyBoolean | TyNull => DtyNull
  end.

Fixpoint schema_of_dto (s : JsonSchemaDto) : JsonSchema :=
  match s with
  | mkSchemaDto schema ty properties required items enum_values format minimum maximum
      min_length max_length description default =>
      mkSchema schema (schema_type_of_dto ty)
        (match properties with
         | Some properties => Some (collect_values schema_of_dto properties)
         | None => None
         end)
        required
        (match items with Some items => Some (schema_of_dto items) | None => None end)
        enum_values format minimum maximum min_length max_length description default
  end.

Fixpoint schema_to_dto (s : JsonSchema) : JsonSchemaDto :=
  match s with
  | mkSchema schema ty properties required items enum_values format minimum maximum
      min_length max_length description default =>
      mkSchemaDto schema (schema_type_to_dto ty)
        (match properties with
         | Some properties => Some (collect_values schema_to_dto properties)
         | None => None
         end)
        required
        (match items with Some items => Some (schema_to_dto items) | None => None end)
        enum_values format minimum maximum min_length max_length description default
  end.

Definition service_endpoint_of_dto (e : ServiceEndpointDto) : ServiceEndpoint :=
  mkServiceEndpoint (setting_of_dto (dsep_setting e)) (dsep_target e).

Definition service_endpoint_to_dto (e : ServiceEndpoint) : ServiceEndpointDto :=
  mkServiceEndpointDto (setting_to_dto (sep_setting e)) (sep_target e).

Definition provider_service_of_dto (s : ProviderServiceDto) : ProviderService :=
  mkProviderService (dps_image s) (dps_external_image s) (dps_dapr s)
    (collect_values service_endpoint_of_dto <$> dps_endpoints s)
    (schema_of_dto <$> dps_config_schema s) (dps_deprovision_handler s).

Definition provider_service_to_dto (s : ProviderService) : ProviderServiceDto :=
  mkProviderServiceDto (ps_image s) (ps_external_image s) (ps_dapr s)
    (collect_values service_endpoint_to_dto <$> ps_endpoints s)
    (schema_to_dto <$> ps_config_schema s) (ps_deprovision_handler s).

#[export] Instance provider_of_dto : Into ProviderSpecDto ProviderSpec := λ p,
  Some (mkProvider (collect_values provider_service_of_dto (dpv_services p))
    (schema_of_dto <$> dpv_config_schema p)).

Definition provider_to_dto (p : ProviderSpec) : ProviderSpecDto :=
  mkProviderDto (collect_values provider_service_to_dto (pv_services p))
    (schema_to_dto <$> pv_config_schema p).

Definition resource_provider_to_dto (r : ResourceProvider ProviderSpec)
    : ResourceProviderDto ProviderSpecDto :=
  mkResourceProviderDto (rp_id r) (provider_to_dto (rp_spec r)).
End providers.
