(* ===== verification/ApiWire.v ===== *)
(** * ApiWire: the JSON form of the management API's objects
    ([mgmt_api/src/api/v1/models])

    The derived readers and writers of [serde], and the API's own reader of
    configuration values.  An object that is written keeps its fields in the
    order they are written in; one that is read may hold a field twice, which a
    reader of a struct refuses. *)
From S2P Require Import Prelude BTree Json ViewApi Wire MgmtModels SpecValidator Mappings ApiDto.

(** ** Reading structs, maps and options *)

Definition occurs (k : string) (m : jmap) : nat := length (filter (λ kv, kv.1 = k) m).

(** The fields of a struct: none of the [known] ones may be there twice. *)
Definition struct (known : list string) (v : value) : option jmap :=
  m ← as_object v;
  if forallb (λ k, (occurs k m <=? 1)%nat) known then Some m else None.

(** A struct variant of an enum with [#[serde(tag = "kind")]]. *)
Definition tagged (v : value) : option (string * jmap) :=
  m ← struct ["kind"] v;
  kind ← field m "kind" ≫= as_str;
  Some (kind, m).

Definition variant_fields (known : list string) (m : jmap) : option jmap := struct known (VObject m).

Definition as_bool (v : value) : option bool :=
  match v with VBool b => Some b | _ => None end.

(** An unsigned integer of [bits] bits. *)
Definition as_unsigned (bits : Z) (v : value) : option Z :=
  n ← as_u64_num v; if (n <? 2 ^ bits)%Z then Some n else None.

(** [#[serde(default)]] *)
Definition default_field {A} (f : value → option A) (d : A) (m : jmap) (k : string) : option A :=
  match field m k with None => Some d | Some v => f v end.

(** An [Option] that is not a field. *)
Definition nullable {A} (f : value → option A) (v : value) : option (option A) :=
  match v with VNull => Some None | v => a ← f v; Some (Some a) end.

(** The entries of a map, in the order they were read. *)
Definition entries {A} (f : value → option A) (v : value) : option (list (string * A)) :=
  m ← as_object v;
  mapM (λ kv, match kv with (k, v) => a ← f v; Some (k, a) end) m.

(** A [HashMap]: a later entry replaces an earlier one with the same key. *)
Definition read_map {A} (f : value → option A) (v : value) : option (gmap string A) :=
  l ← entries f v; Some (list_to_map (rev l)).

(** [f] applied to a field. *)
Definition jget_with {B} (f : value → B) (k : string) : jmap → option B :=
  fix go m :=
    match m with
    | [] => None
    | (k', v) :: m => if str_eqb k k' then Some (f v) else go m
    end.

(** ** Configuration values

    The reader accepts a string, an integer, a boolean, a list, or an object
    with a [kind]. *)
Fixpoint config_value_from_value (v : value) : option ConfigValueDto :=
  match v with
  | VString s => Some (InlineDto (DString s))
  | VArray l => l ← mapM config_value_from_value l; Some (InlineDto (DList l))
  | VNumber (NNeg n) => Some (InlineDto (DInteger n))
  | VNumber (NPos n) => Some (InlineDto (DInteger (as_i64 n)))
  | VBool b => Some (InlineDto (DBoolean b))
  | VObject m =>
      list ← Some (jget_with (λ v, match v with
        | VArray l => mapM config_value_from_value l
        | _ => None
        end) "value" m);
      '(kind, m) ← tagged (VObject m);
      if str_eqb kind "Inline" then
        m ← variant_fields ["value"] m;
        s ← field m "value" ≫= as_str; Some (InlineDto (DString s))
      else if str_eqb kind "Secret" then
        m ← variant_fields ["name"; "key"] m;
        name ← field m "name" ≫= as_str;
        key ← field m "key" ≫= as_str;
        Some (SecretDto name key)
      else if str_eqb kind "List" then
        m ← variant_fields ["value"] m;
        l ← mjoin list; Some (InlineDto (DList l))
      else if str_eqb kind "Boolean" then
        m ← variant_fields ["value"] m;
        b ← field m "value" ≫= as_bool; Some (InlineDto (DBoolean b))
      else if str_eqb kind "Integer" then
        m ← variant_fields ["value"] m;
        n ← field m "value" ≫= (λ v, match v with VNumber n => num_as_i64 n | _ => None end);
        Some (InlineDto (DInteger n))
      else None
  | VNull | VNumber (NFloat _) => None
  end.

Fixpoint config_value_to_value (v : ConfigValueDto) : value :=
  match v with
  | InlineDto value =>
      VObject [("kind", VString "Inline");
        ("value", match value with
          | DString s => VObject [("String", VObject [("value", VString s)])]
          | DInteger n => VObject [("Integer", VObject [("value", v_i64 n)])]
          | DBoolean b => VObject [("Boolean", VObject [("value", VBool b)])]
          | DList l => VObject [("List", VObject [("value", VArray (map config_value_to_value l))])]
          end)]%string
  | SecretDto name key =>
      VObject [("kind", VString "Secret"); ("name", VString name); ("key", VString key)]%string
  end.

(** ** Services and identities *)

Definition setting_from_value (v : value) : option EndpointSettingDto :=
  s ← variant_name v;
  if str_eqb s "internal" then Some InternalDto
  else if str_eqb s "external" then Some ExternalDto
  else None.

Definition endpoint_from_value (v : value) : option EndpointDto :=
  m ← struct ["setting"; "target"] v;
  setting ← field m "setting" ≫= setting_from_value;
  target ← field m "target" ≫= as_str;
  Some (mkEndpointDto setting target).

Definition service_from_value (v : value) : option ServiceConfigDto :=
  m ← struct ["endpoints"; "dapr"; "properties"] v;
  endpoints ← opt_field (read_map endpoint_from_value) m "endpoints";
  dapr ← opt_field (read_map config_value_from_value) m "dapr";
  properties ← opt_field (read_map (nullable config_value_from_value)) m "properties";
  Some (mkServiceDto endpoints dapr properties).

Definition identity_from_value (v : value) : option ServiceIdentityDto :=
  '(kind, m) ← tagged v;
  if str_eqb kind "MicrosoftEntraWorkloadID" then
    m ← variant_fields ["clientId"] m;
    client_id ← field m "clientId" ≫= as_str;
    Some (MicrosoftEntraWorkloadIDDto client_id)
  else if str_eqb kind "MicrosoftEntraApplication" then
    m ← variant_fields ["tenantId"; "clientId"; "secret"; "certificate"] m;
    tenant_id ← field m "tenantId" ≫= config_value_from_value;
    client_id ← field m "clientId" ≫= config_value_from_value;
    secret ← opt_field config_value_from_value m "secret";
    certificate ← opt_field config_value_from_value m "certificate";
    Some (MicrosoftEntraApplicationDto tenant_id client_id secret certificate)
  else if str_eqb kind "ConnectionString" then
    m ← variant_fields ["connectionString"] m;
    connection_string ← field m "connectionString" ≫= config_value_from_value;
    Some (ConnectionStringDto connection_string)
  else if str_eqb kind "AccessKey" then
    m ← variant_fields ["accessKey"] m;
    access_key ← field m "accessKey" ≫= config_value_from_value;
    Some (AccessKeyDto access_key)
  else if str_eqb kind "AwsIamRole" then
    m ← variant_fields ["roleArn"] m;
    role_arn ← field m "roleArn" ≫= config_value_from_value;
    Some (AwsIamRoleDto role_arn)
  else if str_eqb kind "AwsIamAccessKey" then
    m ← variant_fields ["accessKeyId"; "secretAccessKey"; "region"] m;
    access_key_id ← field m "accessKeyId" ≫= config_value_from_value;
    secret_access_key ← field m "secretAccessKey" ≫= config_value_from_value;
    aws_region ← field m "region" ≫= config_value_from_value;
    Some (AwsIamAccessKeyDto access_key_id secret_access_key aws_region)
  else None.

Definition setting_to_value (s : EndpointSettingDto) : value :=
  VString (match s with InternalDto => "internal" | ExternalDto => "external" end).

Definition endpoint_to_value (e : EndpointDto) : value :=
  VObject [("setting", setting_to_value (dep_setting e)); ("target", VString (dep_target e))]%string.

Definition identity_to_value (i : ServiceIdentityDto) : value :=
  match i with
  | MicrosoftEntraWorkloadIDDto client_id =>
      VObject [("kind", VString "MicrosoftEntraWorkloadID"); ("clientId", VString client_id)]%string
  | MicrosoftEntraApplicationDto tenant_id client_id secret certificate =>
      VObject [("kind", VString "MicrosoftEntraApplication");
        ("tenantId", config_value_to_value tenant_id);
        ("clientId", config_value_to_value client_id);
        ("secret", of_option config_value_to_value secret);
        ("certificate", of_option config_value_to_value certificate)]%string
  | ConnectionStringDto connection_string =>
      VObject [("kind", VString "ConnectionString");
        ("connectionString", config_value_to_value connection_string)]%string
  | AccessKeyDto access_key =>
      VObject [("kind", VString "AccessKey"); ("accessKey", config_value_to_value access_key)]%string
  | AwsIamRoleDto role_arn =>
      VObject [("kind", VString "AwsIamRole"); ("roleArn", config_value_to_value role_arn)]%string
  | AwsIamAccessKeyDto access_key_id secret_access_key aws_region =>
      VObject [("kind", VString "AwsIamAccessKey");
        ("accessKeyId", config_value_to_value access_key_id);
        ("secretAccessKey", config_value_to_value secret_access_key);
        ("region", config_value_to_value aws_region)]%string
  end.

(** ** Sources, reactions and query containers *)

Definition source_from_value (v : value) : option SourceSpecDto :=
  m ← struct ["kind"; "services"; "properties"; "identity"] v;
  kind ← field m "kind" ≫= as_str;
  services ← opt_field (read_map service_from_value) m "services";
  properties ← opt_field (read_map config_value_from_value) m "properties";
  identity ← opt_field identity_from_value m "identity";
  Some (mkSourceDto kind services properties identity).

Definition reaction_from_value (v : value) : option ReactionSpecDto :=
  m ← struct ["kind"; "tag"; "services"; "properties"; "queries"; "identity"] v;
  kind ← field m "kind" ≫= as_str;
  tag ← opt_field as_str m "tag";
  services ← opt_field (read_map service_from_value) m "services";
  properties ← opt_field (read_map config_value_from_value) m "properties";
  queries ← field m "queries" ≫= read_map (nullable as_str);
  identity ← opt_field identity_from_value m "identity";
  Some (mkReactionDto kind tag services properties queries identity).

Definition storage_from_value (v : value) : option StorageSpecDto :=
  '(kind, m) ← tagged v;
  if str_eqb kind "memory" then
    m ← variant_fields ["enableArchive"] m;
    enable_archive ← field m "enableArchive" ≫= as_bool;
    Some (MemoryDto enable_archive)
  else if str_eqb kind "redis" then
    m ← variant_fields ["connectionString"; "cacheSize"] m;
    connection_string ← field m "connectionString" ≫= config_value_from_value;
    cache_size ← opt_field (as_unsigned 32) m "cacheSize";
    Some (RedisDto connection_string cache_size)
  else if str_eqb kind "rocksDb" then
    m ← variant_fields ["enableArchive"; "storageClass"; "directIo"] m;
    enable_archive ← default_field as_bool false m "enableArchive";
    storage_class ← opt_field as_str m "storageClass";
    direct_io ← default_field as_bool false m "directIo";
    Some (RocksDbDto enable_archive storage_class direct_io)
  else None.

Definition container_from_value (v : value) : option QueryContainerSpecDto :=
  m ← struct ["queryHostCount"; "results"; "storage"; "defaultStore"] v;
  query_host_count ← field m "queryHostCount" ≫= as_unsigned 16;
  results ← field m "results" ≫= read_map config_value_from_value;
  storage ← field m "storage" ≫= read_map storage_from_value;
  default_store ← field m "defaultStore" ≫= as_str;
  Some (mkContainerDto query_host_count results storage default_store).

(** Writing a [HashMap] in the order it is iterated in. *)
Section written_maps.
Context (hash_iter : ∀ A, gmap string A → list (string * A)).

Definition map_to_value {A} (f : A → value) (m : gmap string A) : value :=
  VObject (map (λ kv, (kv.1, f kv.2)) (hash_iter _ m)).

Definition service_to_value (s : ServiceConfigDto) : value :=
  VObject [("endpoints", of_option (map_to_value endpoint_to_value) (dsvc_endpoints s));
    ("dapr", of_option (map_to_value config_value_to_value) (dsvc_dapr s));
    ("properties", of_option (map_to_value (of_option config_value_to_value))
       (dsvc_properties s))]%string.

(** [#[serde(tag = "kind")]] on a struct writes its name first. *)
Definition source_to_value (s : SourceSpecDto) : value :=
  VObject [("kind", VString "SourceSpecDto");
    ("kind", VString (dso_kind s));
    ("services", of_option (map_to_value service_to_value) (dso_services s));
    ("properties", of_option (map_to_value config_value_to_value) (dso_properties s));
    ("identity", of_option identity_to_value (dso_identity s))]%string.

Definition reaction_to_value (r : ReactionSpecDto) : value :=
  VObject [("kind", VString (dre_kind r));
    ("tag", of_option VString (dre_tag r));
    ("services", of_option (map_to_value service_to_value) (dre_services r));
    ("properties", of_option (map_to_value config_value_to_value) (dre_properties r));
    ("queries", map_to_value (of_option VString) (dre_queries r));
    ("identity", of_option identity_to_value (dre_identity r))]%string.

Definition storage_to_value (s : StorageSpecDto) : value :=
  match s with
  | MemoryDto enable_archive =>
      VObject [("kind", VString "memory"); ("enableArchive", VBool enable_archive)]%string
  | RedisDto connection_string cache_size =>
      VObject [("kind", VString "redis");
        ("connectionString", config_value_to_value connection_string);
        ("cacheSize", of_option (λ n, VNumber (NPos n)) cache_size)]%string
  | RocksDbDto enable_archive storage_class direct_io =>
      VObject [("kind", VString "rocksDb"); ("enableArchive", VBool enable_archive);
        ("storageClass", of_option VString storage_class); ("directIo", VBool direct_io)]%string
  end.

Definition container_to_value (c : QueryContainerSpecDto) : value :=
  VObject [("queryHostCount", VNumber (NPos (dqc_query_host_count c)));
    ("results", map_to_value config_value_to_value (dqc_results c));
    ("storage", map_to_value storage_to_value (dqc_storage c));
    ("defaultStore", VString (dqc_default_store c))]%string.
End written_maps.

Definition messages_to_value : option (btree string) → value :=
  of_option (λ m : btree string, VObject (map (λ kv, (kv.1, VString kv.2)) m)).

Definition source_status_to_value (s : SourceStatusDto) : value :=
  VObject [("available", VBool (dsst_available s)); ("messages", messages_to_value (dsst_messages s));
    ("ingress_url", of_option VString (dsst_ingress_url s))]%string.

Definition reaction_status_to_value (s : ReactionStatusDto) : value :=
  VObject [("available", VBool (drst_available s)); ("messages", messages_to_value (drst_messages s));
    ("ingress_url", of_option VString (drst_ingress_url s))]%string.

Definition container_status_to_value (s : QueryContainerStatusDto) : value :=
  VObject [("available", VBool (dqcs_available s));
    ("messages", messages_to_value (dqcs_messages s))]%string.

(** ** Queries *)

Definition language_from_value (v : value) : option QueryLanguageDto :=
  s ← variant_name v;
  if str_eqb s "Cypher" then Some CypherDto
  else if str_eqb s "GQL" then Some GQLDto
  else None.

Definition label_from_value (v : value) : option QuerySourceLabelDto :=
  m ← struct ["sourceLabel"] v;
  source_label ← field m "sourceLabel" ≫= as_str;
  Some (mkLabelDto source_label).

Definition subscription_from_value (v : value) : option QuerySubscriptionDto :=
  m ← struct ["id"; "nodes"; "relations"; "pipeline"] v;
  id ← field m "id" ≫= as_str;
  nodes ← opt_field (of_list label_from_value) m "nodes";
  relations ← opt_field (of_list label_from_value) m "relations";
  pipeline ← opt_field (of_list as_str) m "pipeline";
  Some (mkSubscriptionDto id nodes relations pipeline).

Definition join_key_from_value (v : value) : option QueryJoinKeyDto :=
  m ← struct ["label"; "property"] v;
  label ← field m "label" ≫= as_str;
  property ← field m "property" ≫= as_str;
  Some (mkJoinKeyDto label property).

Definition join_from_value (v : value) : option QueryJoinDto :=
  m ← struct ["id"; "keys"] v;
  id ← field m "id" ≫= as_str;
  keys ← field m "keys" ≫= of_list join_key_from_value;
  Some (mkJoinDto id keys).

(** [#[serde(flatten)]]: the configuration is what is left of the object. *)
Definition middleware_own (k : string) : Prop := k = "kind"%string ∨ k = "name"%string.

Definition flattened (m : jmap) : jmap := jobject (filter (λ kv, ¬ middleware_own kv.1) m).

Definition middleware_from_value (v : value) : option SourceMiddlewareConfigDto :=
  m ← struct ["kind"; "name"] v;
  kind ← field m "kind" ≫= as_str;
  name ← field m "name" ≫= as_str;
  Some (mkMiddlewareDto kind name (flattened m)).

Definition sources_from_value (v : value) : option QuerySourcesDto :=
  m ← struct ["subscriptions"; "joins"; "middleware"] v;
  subscriptions ← field m "subscriptions" ≫= of_list subscription_from_value;
  joins ← opt_field (of_list join_from_value) m "joins";
  middleware ← opt_field (of_list middleware_from_value) m "middleware";
  Some (mkSourcesDto subscriptions joins middleware).

Definition expire_from_value (v : value) : option RetentionPolicyDto :=
  m ← struct ["afterSeconds"] v;
  after_seconds ← field m "afterSeconds" ≫= as_u64_num;
  Some (ExpireDto after_seconds).

Definition policy_from_value (v : value) : option RetentionPolicyDto :=
  match v with
  | VObject [(k, w)] =>
      if str_eqb k "expire" then expire_from_value w
      else
        s ← variant_name v;
        if str_eqb s "latest" then Some LatestDto
        else if str_eqb s "all" then Some AllDto
        else None
  | VString s =>
      if str_eqb s "latest" then Some LatestDto
      else if str_eqb s "all" then Some AllDto
      else None
  | _ => None
  end.

Definition view_from_value (v : value) : option ViewSpecDto :=
  m ← struct ["enabled"; "retentionPolicy"] v;
  enabled ← field m "enabled" ≫= as_bool;
  policy ← field m "retentionPolicy" ≫= policy_from_value;
  Some (mkViewDto enabled policy).

Definition default_container : string := "default".

Definition query_fields : list string :=
  ["container"; "mode"; "query"; "queryLanguage"; "sources"; "storageProfile"; "view"]%string.

Definition query_from_value (v : value) : option QuerySpecDto :=
  m ← struct query_fields v;
  container ← default_field as_str default_container m "container";
  mode ← field m "mode" ≫= as_str;
  query ← field m "query" ≫= as_str;
  query_language ← opt_field language_from_value m "queryLanguage";
  sources ← field m "sources" ≫= sources_from_value;
  storage_profile ← opt_field as_str m "storageProfile";
  view ← opt_field view_from_value m "view";
  Some (mkQueryDto container mode query query_language sources storage_profile view).

Definition language_to_value (l : QueryLanguageDto) : value :=
  VString (match l with CypherDto => "Cypher" | GQLDto => "GQL" end).

Definition label_to_value (l : QuerySourceLabelDto) : value :=
  VObject [("sourceLabel", VString (dsl_source_label l))]%string.

Definition list_to_value {A} (f : A → value) (l : list A) : value := VArray (map f l).

Definition subscription_to_value (s : QuerySubscriptionDto) : value :=
  VObject [("id", VString (dqs_id s));
    ("nodes", of_option (list_to_value label_to_value) (dqs_nodes s));
    ("relations", of_option (list_to_value label_to_value) (dqs_relations s));
    ("pipeline", of_option (list_to_value VString) (dqs_pipeline s))]%string.

Definition join_key_to_value (k : QueryJoinKeyDto) : value :=
  VObject [("label", VString (djk_label k)); ("property", VString (djk_property k))]%string.

Definition join_to_value (j : QueryJoinDto) : value :=
  VObject [("id", VString (dqj_id j));
    ("keys", list_to_value join_key_to_value (dqj_keys j))]%string.

Definition middleware_to_value (m : SourceMiddlewareConfigDto) : value :=
  VObject (("kind", VString (dmw_kind m)) :: ("name", VString (dmw_name m)) :: dmw_config m)%string.

Definition sources_to_value (s : QuerySourcesDto) : value :=
  VObject [("subscriptions", list_to_value subscription_to_value (dsrc_subscriptions s));
    ("joins", of_option (list_to_value join_to_value) (dsrc_joins s));
    ("middleware", of_option (list_to_value middleware_to_value) (dsrc_middleware s))]%string.

Definition policy_to_value (p : RetentionPolicyDto) : value :=
  match p with
  | LatestDto => VString "latest"
  | ExpireDto after_seconds =>
      VObject [("expire", VObject [("afterSeconds", VNumber (NPos after_seconds))])]%string
  | AllDto => VString "all"
  end.

Definition view_to_value (v : ViewSpecDto) : value :=
  VObject [("enabled", VBool (dvs_enabled v));
    ("retentionPolicy", policy_to_value (dvs_retention_policy v))]%string.

Definition query_to_value (q : QuerySpecDto) : value :=
  VObject [("container", VString (dq_container q)); ("mode", VString (dq_mode q));
    ("query", VString (dq_query q));
    ("queryLanguage", of_option language_to_value (dq_query_language q));
    ("sources", sources_to_value (dq_sources q));
    ("storageProfile", of_option VString (dq_storage_profile q));
    ("view", of_option view_to_value (dq_view q))]%string.

Definition query_status_to_value (s : QueryStatusDto) : value :=
  VObject [("hostName", VString (dqst_host_name s)); ("status", VString (dqst_status s));
    ("container", VString (dqst_container s));
    ("errorMessage", of_option VString (dqst_error_message s))]%string.

(** ** Resources *)

Definition resource_to_value {A B} (f : A → value) (g : B → value) (r : ResourceDto A B) : value :=
  VObject [("id", VString (dr_id r)); ("spec", f (dr_spec r));
    ("status", of_option g (dr_status r))]%string.

(** ** Providers *)

(** The bits of the [f64] closest to an integer; ties go to the even one. *)
Definition f64_of_unsigned (n : Z) : Z :=
  if (n =? 0)%Z then 0%Z
  else
    let e := Z.log2 n in
    let mantissa :=
      if (e <=? 52)%Z then (n * 2 ^ (52 - e))%Z
      else
        let q := Z.shiftr n (e - 52) in
        let r := (n - Z.shiftl q (e - 52))%Z in
        let half := (2 ^ (e - 53))%Z in
        if ((half <? r) || ((r =? half) && Z.odd q))%Z then (q + 1)%Z else q in
    ((e + 1023) * 2 ^ 52 + (mantissa - 2 ^ 52))%Z.

Definition as_f64 (v : value) : option Z :=
  match v with
  | VNumber (NPos n) => Some (f64_of_unsigned n)
  | VNumber (NNeg n) => Some (2 ^ 63 + f64_of_unsigned (- n))%Z
  | VNumber (NFloat bits) => Some bits
  | _ => None
  end.

Definition schema_type_from_value (v : value) : option SchemaTypeDto :=
  s ← variant_name v;
  if str_eqb s "object" then Some DtyObject
  else if str_eqb s "array" then Some DtyArray
  else if str_eqb s "string" then Some DtyString
  else if str_eqb s "number" then Some DtyNumber
  else if str_eqb s "integer" then Some DtyInteger
  else if str_eqb s "boolean" then Some DtyBoolean
  else if str_eqb s "null" then Some DtyNull
  else None.

Definition schema_known : list string :=
  ["$schema"; "type"; "properties"; "required"; "items"; "enum"; "format"; "minimum";
   "maximum"; "minLength"; "maxLength"; "description"; "default"]%string.

Section read_providers.
Context (hash_collect : ∀ A, list (string * A) → list (string * A)).

(** The optional sub-schemas of a schema come first: the fields they are in are
    read like the others. *)
Fixpoint schema_from_value (v : value) : option JsonSchemaDto :=
  match v with
  | VObject m =>
      let properties := jget_with (λ v, match v with
        | VNull => Some None
        | VObject ps =>
            l ← mapM (λ kv, match kv with (k, v) => a ← schema_from_value v; Some (k, a) end) ps;
            Some (Some (hash_collect _ l))
        | _ => None
        end) "properties" m in
      let items := jget_with (λ v, match v with
        | VNull => Some None
        | v => a ← schema_from_value v; Some (Some a)
        end) "items" m in
      m ← struct schema_known (VObject m);
      schema ← opt_field as_str m "$schema";
      ty ← field m "type" ≫= schema_type_from_value;
      properties ← default (Some None) properties;
      required ← opt_field (of_list as_str) m "required";
      items ← default (Some None) items;
      enum_values ← opt_field as_array m "enum";
      format ← opt_field as_str m "format";
      minimum ← opt_field as_f64 m "minimum";
      maximum ← opt_field as_f64 m "maximum";
      min_length ← opt_field as_u64_num m "minLength";
      max_length ← opt_field as_u64_num m "maxLength";
      description ← opt_field as_str m "description";
      dflt ← opt_field Some m "default";
      Some (mkSchemaDto schema ty properties required items enum_values format minimum maximum
        min_length max_length description dflt)
  | _ => None
  end.

Definition read_entries {A} (f : value → option A) (v : value) : option (list (string * A)) :=
  hash_collect _ <$> entries f v.

Definition service_endpoint_from_value (v : value) : option ServiceEndpointDto :=
  m ← struct ["setting"; "target"] v;
  setting ← field m "setting" ≫= setting_from_value;
  target ← field m "target" ≫= as_str;
  Some (mkServiceEndpointDto setting target).

Definition provider_service_known : list string :=
  ["image"; "externalImage"; "dapr"; "endpoints"; "config_schema"; "deprovisionHandler"]%string.

Definition provider_service_from_value (v : value) : option ProviderServiceDto :=
  m ← struct provider_service_known v;
  image ← field m "image" ≫= as_str;
  external_image ← opt_field as_bool m "externalImage";
  dapr ← opt_field (read_entries as_str) m "dapr";
  endpoints ← opt_field (read_entries service_endpoint_from_value) m "endpoints";
  config_schema ← opt_field schema_from_value m "config_schema";
  deprovision_handler ← opt_field as_bool m "deprovisionHandler";
  Some (mkProviderServiceDto image external_image dapr endpoints config_schema
    deprovision_handler).

Definition provider_from_value (v : value) : option ProviderSpecDto :=
  m ← struct ["services"; "config_schema"] v;
  services ← field m "services" ≫= read_entries provider_service_from_value;
  config_schema ← opt_field schema_from_value m "config_schema";
  Some (mkProviderDto services config_schema).
End read_providers.

Definition schema_type_to_value (t : SchemaTypeDto) : value :=
  VString (match t with
    | DtyObject => "object" | DtyArray => "array" | DtyString => "string"
    | DtyNumber => "number" | DtyInteger => "integer" | DtyBoolean => "boolean"
    | DtyNull => "null"
    end).

Fixpoint schema_dto_to_value (s : JsonSchemaDto) : value :=
  match s with
  | mkSchemaDto schema ty properties required items enum_values format minimum maximum
      min_length max_length description dflt =>
      VObject (
        optional "$schema" VString schema ++
        [("type"%string, schema_type_to_value ty)] ++
        optional "properties" (λ ps, VObject (map (λ kv,
          match kv with (k, s) => (k, schema_dto_to_value s) end) ps)) properties ++
        optional "required" (λ r, VArray (map VString r)) required ++
        optional "items" schema_dto_to_value items ++
        optional "enum" VArray enum_values ++
        optional "format" VString format ++
        optional "minimum" f64_value minimum ++
        optional "maximum" f64_value maximum ++
        optional "minLength" (λ n, VNumber (NPos n)) min_length ++
        optional "maxLength" (λ n, VNumber (NPos n)) max_length ++
        optional "description" VString description ++
        optional "default" (λ v, v) dflt)
  end.

Definition entries_to_value {A} (f : A → value) (l : list (string * A)) : value :=
  VObject (map (λ kv, (kv.1, f kv.2)) l).

Definition service_endpoint_to_value (e : ServiceEndpointDto) : value :=
  VObject [("setting", setting_to_value (dsep_setting e)); ("target", VString (dsep_target e))]%string.

Definition provider_service_to_value (s : ProviderServiceDto) : value :=
  VObject [("image", VString (dps_image s));
    ("externalImage", of_option VBool (dps_external_image s));
    ("dapr", of_option (entries_to_value VString) (dps_dapr s));
    ("endpoints", of_option (entries_to_value service_endpoint_to_value) (dps_endpoints s));
    ("config_schema", of_option schema_dto_to_value (dps_config_schema s));
    ("deprovisionHandler", of_option VBool (dps_deprovision_handler s))]%string.

Definition provider_to_value (p : ProviderSpecDto) : value :=
  VObject [("services", entries_to_value provider_service_to_value (dpv_services p));
    ("config_schema", of_option schema_dto_to_value (dpv_config_schema p))]%string.

Definition resource_provider_to_value (r : ResourceProviderDto ProviderSpecDto) : value :=
  VObject [("id", VString (drp_id r)); ("spec", provider_to_value (drp_spec r))]%string.

(** *** The domain's providers, which some handlers answer as they are *)

Definition domain_setting_to_value (s : EndpointSetting) : value :=
  VString (match s with Internal => "internal" | External => "external" end).

Definition domain_service_endpoint_to_value (e : ServiceEndpoint) : value :=
  VObject [("setting", domain_setting_to_value (sep_setting e));
    ("target", VString (sep_target e))]%string.

Definition domain_provider_service_to_value (s : ProviderService) : value :=
  VObject [("image", VString (ps_image s));
    ("externalImage", of_option VBool (ps_external_image s));
    ("dapr", of_option (entries_to_value VString) (ps_dapr s));
    ("endpoints", of_option (entries_to_value domain_service_endpoint_to_value) (ps_endpoints s));
    ("configSchema", of_option schema_to_value (ps_config_schema s));
    ("deprovisionHandler", of_option VBool (ps_deprovision_handler s))]%string.

Definition domain_provider_to_value (p : ProviderSpec) : value :=
  VObject [("services", entries_to_value domain_provider_service_to_value (pv_services p));
    ("configSchema", of_option schema_to_value (pv_config_schema p))]%string.

Definition domain_resource_provider_to_value (r : ResourceProvider ProviderSpec) : value :=
  VObject [("id", VString (rp_id r)); ("spec", domain_provider_to_value (rp_spec r))]%string.
