(* ===== verification/ApiWireSpec.v ===== *)
(** * ApiWireSpec: what clients read from the management API, and can send back *)
From S2P Require Import Prelude BTree Json ViewApi Wire MgmtModels SpecValidator Mappings ApiDto.
From S2P Require Import ApiWire.

Lemma jget_with_spec {B} (f : value → B) k m : jget_with f k m = f <$> jget k m.
Proof. induction m as [|[k' v] m IH]; [done|]. cbn. by destruct (str_eqb k k'). Qed.

(** ** Sorted objects *)

Lemma jobject_snoc {A} (l : list (string * A)) kv : jobject (l ++ [kv]) = jset kv.1 kv.2 (jobject l).
Proof. unfold jobject. by rewrite foldl_app. Qed.

Lemma jset_last {A} k (v : A) m :
  (∀ k', k' ∈ m.*1 → String.ltb k' k = true) → jset k v m = m ++ [(k, v)].
Proof.
  induction m as [|[k' w] m IH]; intros H; [done|]. cbn.
  assert (Hlt : String.ltb k' k = true) by (apply H; cbn; by left).
  assert (E : String.compare k k' = Gt).
  { unfold String.ltb in Hlt. rewrite String.compare_antisym.
    destruct (String.compare k' k); by cbn in *. }
  rewrite E, IH; [done|]. intros k2 Hk2. apply H. cbn. by right.
Qed.

Lemma jsorted_snoc_lt {A} (m : btree A) kv k :
  jsorted (m ++ [kv]) = true → k ∈ m.*1 → String.ltb k kv.1 = true.
Proof.
  induction m as [|[k1 v1] m IH]; intros Hs Hk; [by apply elem_of_nil in Hk|].
  apply list.elem_of_cons in Hk as [->|Hk].
  - apply (jsorted_lt k1 v1 (m ++ [kv]) kv.1 Hs), list_elem_of_fmap_2, elem_of_app. right. by left.
  - apply IH; [|done]. by eapply (jsorted_tail (k1, v1)).
Qed.

Lemma jsorted_init {A} (m : btree A) kv : jsorted (m ++ [kv]) = true → jsorted m = true.
Proof.
  induction m as [|[k1 v1] m IH]; [done|]. intros Hs. pose proof (jsorted_tail _ _ Hs) as Ht.
  specialize (IH Ht). destruct m as [|[k2 v2] m]; [done|]. cbn in *.
  apply andb_true_iff in Hs as [-> _]. done.
Qed.

(** Inserting the entries of a sorted object one by one gives it back. *)
Lemma jobject_id {A} (m : btree A) : jsorted m = true → jobject m = m.
Proof.
  induction m as [|kv m IH] using rev_ind; [done|]. intros Hs.
  rewrite jobject_snoc, IH by (by eapply jsorted_init).
  rewrite jset_last; [by destruct kv|]. intros k Hk. by eapply jsorted_snoc_lt.
Qed.

Lemma jset_keys {A} k (v : A) m k' : k' ∈ (jset k v m).*1 → k' = k ∨ k' ∈ m.*1.
Proof.
  induction m as [|[k1 v1] m IH]; cbn; [rewrite list_elem_of_singleton; by left|].
  destruct (String.compare k k1) eqn:E; cbn; rewrite ?list.elem_of_cons; [|tauto|].
  - apply compare_eq_iff in E as ->. tauto.
  - intros [->|H]; [tauto|]. destruct (IH H); tauto.
Qed.

Lemma jobject_keys {A} (l : list (string * A)) k : k ∈ (jobject l).*1 → k ∈ l.*1.
Proof.
  induction l as [|kv l IH] using rev_ind; [done|].
  rewrite jobject_snoc. intros [->|H]%jset_keys.
  - apply list_elem_of_fmap_2, elem_of_app. right. by left.
  - apply IH, list_elem_of_fmap in H as (kv' & -> & H). apply list_elem_of_fmap_2, elem_of_app. by left.
Qed.

Lemma filter_all {A} (P : A → Prop) `{!∀ x, Decision (P x)} (l : list A) :
  (∀ x, x ∈ l → P x) → filter P l = l.
Proof.
  induction l as [|x l IH]; intros Hl; [done|]. rewrite filter_cons, decide_True by (apply Hl; by left).
  f_equal. apply IH. intros y Hy. apply Hl. by right.
Qed.

Lemma filter_none {A} (P : A → Prop) `{!∀ x, Decision (P x)} (l : list A) :
  (∀ x, x ∈ l → ¬ P x) → filter P l = [].
Proof.
  induction l as [|x l IH]; intros Hl; [done|]. rewrite filter_cons, decide_False by (apply Hl; by left).
  apply IH. intros y Hy. apply Hl. by right.
Qed.

(** ** Queries *)

(** The extra settings of a middleware, as the reader leaves them. *)
Definition clean_config (m : jmap) : Prop :=
  jsorted m = true ∧ Forall (λ k, ¬ middleware_own k) m.*1.

Definition clean_query (d : QuerySpecDto) : Prop :=
  Forall (λ m, clean_config (dmw_config m)) (default [] (dsrc_middleware (dq_sources d))).

Lemma flattened_clean m : clean_config (flattened m).
Proof.
  split; [apply jobject_sorted|]. apply list.Forall_forall. intros k Hk%jobject_keys.
  apply list_elem_of_fmap in Hk as ([k' v] & -> & Hk). by apply list_elem_of_filter in Hk as [? _].
Qed.

Lemma flattened_id m : clean_config m → flattened m = m.
Proof.
  intros [Hs Hk]. unfold flattened. rewrite filter_all; [by apply jobject_id|].
  intros kv Hkv. rewrite list.Forall_forall in Hk. apply Hk.
  by apply list_elem_of_fmap_2.
Qed.

Lemma occurs_cons k k' v m :
  occurs k ((k', v) :: m) = ((if decide (k' = k) then 1 else 0) + occurs k m)%nat.
Proof. unfold occurs. rewrite filter_cons. cbn [fst]. by destruct (decide (k' = k)). Qed.

Lemma occurs_zero k m : k ∉ m.*1 → occurs k m = 0%nat.
Proof.
  unfold occurs. intros H. rewrite filter_none; [done|].
  intros kv Hkv <-. by apply H, list_elem_of_fmap_2.
Qed.

Lemma of_list_map_id {A} (f : value → option A) (g : A → value) (l : list A) :
  Forall (λ a, f (g a) = Some a) l → of_list f (list_to_value g l) = Some l.
Proof.
  unfold of_list, list_to_value. cbn. induction 1 as [|a l Ha _ IH]; [done|]. cbn.
  by rewrite Ha; cbn; rewrite IH.
Qed.

Lemma of_list_same {A} (f : value → option A) (g : A → value) l :
  (∀ a, f (g a) = Some a) → of_list f (list_to_value g l) = Some l.
Proof. intros H. apply of_list_map_id, list.Forall_forall. by intros a _. Qed.

(** An optional list of a struct. *)
Lemma opt_list_field {A} (f : value → option A) (g : A → value) m k (o : option (list A)) :
  jget k m = Some (of_option (list_to_value g) o) →
  Forall (λ a, f (g a) = Some a) (default [] o) →
  opt_field (of_list f) m k = Some o.
Proof.
  intros Hm H. unfold opt_field, field. rewrite Hm. destruct o as [l|]; [|done].
  cbn [of_option]. change (list_to_value g l) with (VArray (map g l)) at 1. cbn match.
  by rewrite (of_list_map_id f g).
Qed.

(** Reading a struct whose fields are all distinct. *)
Ltac read_struct :=
  lazymatch goal with
  | |- context [struct ?known (VObject ?m)] =>
      let H := fresh in assert (H : struct known (VObject m) = Some m) by reflexivity;
      rewrite H; clear H; cbn [mbind option_bind]
  end.

Ltac all_same := apply list.Forall_forall; intros ? _.

Lemma label_read l : label_from_value (label_to_value l) = Some l.
Proof. by destruct l. Qed.

Lemma subscription_read s : subscription_from_value (subscription_to_value s) = Some s.
Proof.
  destruct s as [id nodes relations pipeline]. unfold subscription_from_value, subscription_to_value.
  cbn [dqs_id dqs_nodes dqs_relations dqs_pipeline]. read_struct.
  rewrite (opt_list_field label_from_value label_to_value _ "nodes" nodes);
    [|reflexivity|all_same; apply label_read].
  rewrite (opt_list_field label_from_value label_to_value _ "relations" relations);
    [|reflexivity|all_same; apply label_read].
  rewrite (opt_list_field as_str VString _ "pipeline" pipeline); [done|reflexivity|by all_same].
Qed.

Lemma join_read j : join_from_value (join_to_value j) = Some j.
Proof.
  destruct j as [id keys]. unfold join_from_value, join_to_value. read_struct.
  change (field _ "id") with (Some (VString id)).
  change (field _ "keys") with (Some (list_to_value join_key_to_value keys)).
  cbn [mbind option_bind as_str].
  rewrite (of_list_same join_key_from_value); [done|]. by intros [].
Qed.

(** The flattened settings neither hide nor repeat a field of the struct. *)
Lemma middleware_struct kind name config : clean_config config →
  let m := (("kind", VString kind) :: ("name", VString name) :: config)%string : jmap in
  struct ["kind"; "name"] (VObject m) = Some m ∧ flattened m = config.
Proof.
  intros Hc m.
  assert (Hown : ∀ k, middleware_own k → k ∉ config.*1).
  { intros k Hk Hin. destruct Hc as [_ Hc]. rewrite list.Forall_forall in Hc. by apply (Hc k). }
  split.
  - unfold struct, m. cbn [as_object mbind option_bind forallb].
    rewrite !occurs_cons, !(occurs_zero _ config) by (apply Hown; (by left) || by right).
    reflexivity.
  - unfold flattened, m.
    rewrite !filter_cons, !decide_False by (intros H; apply H; cbn; (by left) || by right).
    by apply flattened_id.
Qed.

Lemma middleware_read m :
  clean_config (dmw_config m) → middleware_from_value (middleware_to_value m) = Some m.
Proof.
  destruct m as [kind name config]. cbn [dmw_config]. intros Hc.
  unfold middleware_from_value, middleware_to_value. cbn [dmw_kind dmw_name dmw_config].
  destruct (middleware_struct kind name config Hc) as [-> Hf].
  cbn [mbind option_bind]. rewrite Hf. reflexivity.
Qed.

Lemma policy_read p : policy_from_value (policy_to_value p) = Some p.
Proof. by destruct p. Qed.

Lemma view_read v : view_from_value (view_to_value v) = Some v.
Proof. destruct v as [e []]; reflexivity. Qed.

Lemma sources_read s :
  Forall (λ m, clean_config (dmw_config m)) (default [] (dsrc_middleware s)) →
  sources_from_value (sources_to_value s) = Some s.
Proof.
  destruct s as [subs joins middleware]. cbn [dsrc_middleware]. intros Hm.
  unfold sources_from_value, sources_to_value.
  cbn [dsrc_subscriptions dsrc_joins dsrc_middleware]. read_struct.
  change (field _ "subscriptions") with (Some (list_to_value subscription_to_value subs)).
  cbn [mbind option_bind]. rewrite (of_list_same subscription_from_value) by apply subscription_read.
  cbn [mbind option_bind].
  rewrite (opt_list_field join_from_value join_to_value _ "joins" joins);
    [|reflexivity|all_same; apply join_read].
  rewrite (opt_list_field middleware_from_value middleware_to_value _ "middleware" middleware);
    [done|reflexivity|]. eapply list.Forall_impl; [exact Hm|]. intros m. apply middleware_read.
Qed.

(** Every query is read back as it was written. *)
Lemma query_read d : clean_query d → query_from_value (query_to_value d) = Some d.
Proof.
  destruct d as [container mode query language sources profile view]. intros Hc.
  unfold query_from_value, query_to_value. cbn [dq_container dq_mode dq_query dq_query_language
    dq_sources dq_storage_profile dq_view]. read_struct.
  change (default_field as_str default_container _ "container") with (Some container).
  change (field _ "mode") with (Some (VString mode)).
  change (field _ "query") with (Some (VString query)).
  change (field _ "sources") with (Some (sources_to_value sources)).
  cbn [mbind option_bind as_str]. rewrite sources_read by apply Hc.
  rewrite (opt_field_of language_from_value language_to_value _ "queryLanguage" language);
    [|reflexivity|by intros []|by intros []].
  rewrite (opt_field_of as_str VString _ "storageProfile" profile); [|reflexivity|done|done].
  rewrite (opt_field_of view_from_value view_to_value _ "view" view);
    [done|reflexivity|apply view_read|done].
Qed.

(** ** What was written can be sent back *)

Lemma map_of_to {A B} (f : B → A) (g : A → B) l : (∀ a, f (g a) = a) → map f (map g l) = l.
Proof.
  intros H. rewrite map_map. rewrite <-(map_id l) at 2. by apply map_ext.
Qed.

Lemma sources_of_to s : sources_of_dto (sources_to_dto s) = s.
Proof.
  destruct s as [subs joins middleware]. unfold sources_of_dto, sources_to_dto. cbn.
  rewrite (map_of_to middleware_of_dto), (map_of_to subscription_of_dto), (map_of_to join_of_dto);
    [done|..].
  - intros [id keys]. unfold join_of_dto, join_to_dto. cbn.
    rewrite (map_of_to join_key_of_dto); [done|by intros []].
  - intros [id nodes relations pipeline]. unfold subscription_of_dto, subscription_to_dto. cbn.
    by rewrite !(map_of_to label_of_dto) by by intros [].
  - by intros [].
Qed.

Lemma query_of_to q : q_transient q = None → into (query_to_dto q) = Some q.
Proof.
  destruct q as [container mode query language sources profile [e p] transient]. cbn. intros ->.
  unfold into, query_of_dto, query_to_dto. cbn -[sources_of_dto sources_to_dto].
  rewrite sources_of_to. by destruct language as [[]|], p.
Qed.

Lemma mapM_each {A B} (f : A → option B) (P : B → Prop) l l' :
  (∀ a b, f a = Some b → P b) → mapM f l = Some l' → Forall P l'.
Proof.
  intros HP H%mapM_Some. induction H as [|a b l l' Hab _ IH]; constructor; [by eapply HP|done].
Qed.

Lemma middleware_from_clean v m : middleware_from_value v = Some m → clean_config (dmw_config m).
Proof.
  unfold middleware_from_value. intros H.
  destruct (struct _ v) as [m0|]; [|done]. cbn [mbind option_bind] in H.
  destruct (field m0 "kind" ≫= as_str); [|done]. cbn [mbind option_bind] in H.
  destruct (field m0 "name" ≫= as_str); [|done]. cbn [mbind option_bind] in H.
  injection H as <-. apply flattened_clean.
Qed.

Lemma sources_from_clean v s : sources_from_value v = Some s →
  Forall (λ m, clean_config (dmw_config m)) (default [] (dsrc_middleware s)).
Proof.
  unfold sources_from_value. intros H.
  destruct (struct _ v) as [m0|]; [|done]. cbn [mbind option_bind] in H.
  destruct (field m0 "subscriptions" ≫= _); [|done]. cbn [mbind option_bind] in H.
  destruct (opt_field _ m0 "joins"); [|done]. cbn [mbind option_bind] in H.
  destruct (opt_field _ m0 "middleware") as [mw|] eqn:E; [|done]. cbn [mbind option_bind] in H.
  injection H as <-. cbn [dsrc_middleware]. destruct mw as [ms|]; [|constructor].
  unfold opt_field in E. destruct (field m0 "middleware") as [w|]; [|done].
  assert (Hl : of_list middleware_from_value w = Some ms).
  { by destruct w; destruct (of_list _ _); simplify_eq/=. }
  unfold of_list in Hl. destruct (as_array w); [|done].
  eapply (mapM_each middleware_from_value); [|exact Hl]. apply middleware_from_clean.
Qed.

Lemma query_from_clean v d : query_from_value v = Some d → clean_query d.
Proof.
  unfold query_from_value, clean_query. intros H.
  destruct (struct _ v) as [m|]; [|done]. cbn [mbind option_bind] in H.
  destruct (default_field _ _ m "container"); [|done]. cbn [mbind option_bind] in H.
  destruct (field m "mode" ≫= _); [|done]. cbn [mbind option_bind] in H.
  destruct (field m "query" ≫= _); [|done]. cbn [mbind option_bind] in H.
  destruct (opt_field _ m "queryLanguage"); [|done]. cbn [mbind option_bind] in H.
  destruct (field m "sources") as [w|]; [|done]. cbn [mbind option_bind] in H.
  destruct (sources_from_value w) as [srcs|] eqn:E; [|done]. cbn [mbind option_bind] in H.
  destruct (opt_field _ m "storageProfile"); [|done]. cbn [mbind option_bind] in H.
  destruct (opt_field _ m "view"); [|done]. cbn [mbind option_bind] in H.
  injection H as <-. by eapply sources_from_clean.
Qed.

Lemma clean_query_of_to d q : clean_query d → into d = Some q → clean_query (query_to_dto q).
Proof.
  unfold clean_query, into, query_of_dto. intros H [= <-]. cbn.
  destruct (dsrc_middleware (dq_sources d)) as [l|]; cbn; [|constructor].
  rewrite map_map. cbn in H. induction H; by constructor.
Qed.

(** C19: A query that was accepted can be read, and what is read can be sent
    back: the document the API answers for the query's specification is itself
    an acceptable specification, of the same query.  (Subscriptions, joins and
    middleware with its free-form settings, retention and language included.) *)
Theorem query_get_put_roundtrip v d q :
  query_from_value v = Some d → into d = Some q →
  ∃ d', query_from_value (query_to_value (query_to_dto q)) = Some d' ∧ into d' = Some q.
Proof.
  intros Hv Hd. exists (query_to_dto q). split.
  - eapply query_read, clean_query_of_to; [by eapply query_from_clean|done].
  - apply query_of_to. by injection Hd as <-.
Qed.

Definition sample_query : value :=
  VObject [("mode", VString "query"); ("query", VString "MATCH (n) RETURN n");
    ("sources", VObject [("subscriptions", VArray [VObject [("id", VString "facilities");
        ("nodes", VArray [VObject [("sourceLabel", VString "Room")]]);
        ("pipeline", VArray [VString "extract"])]]);
      ("middleware", VArray [VObject [("name", VString "extract"); ("kind", VString "map");
        ("to", VString "a"); ("from", VNull)]])]);
    ("view", VObject [("enabled", VBool true);
      ("retentionPolicy", VObject [("expire", VObject [("afterSeconds", VNumber (NPos 5))])])])]%string.

Lemma query_get_put_roundtrip_witness :
  ∃ d q, query_from_value sample_query = Some d ∧ into d = Some q ∧
    q_container q = "default"%string ∧
    ∃ d', query_from_value (query_to_value (query_to_dto q)) = Some d' ∧ into d' = Some q.
Proof.
  destruct (query_from_value sample_query) as [d|] eqn:E; [|by vm_compute in E].
  destruct (into d) as [q|] eqn:Eq; [|done].
  exists d, q. split_and!; [done|done| |exact (query_get_put_roundtrip _ _ _ E Eq)].
  injection Eq as <-. vm_compute in E. by injection E as <-.
Defined.

(** ** ... but not every resource *)

(** The document of a source has its [kind] twice. *)
Lemma source_document_rejected hash_iter s :
  source_from_value (source_to_value hash_iter s) = None.
Proof. reflexivity. Qed.

(** A configuration value is read back exactly when it is a secret. *)
Lemma config_value_reread v :
  config_value_from_value (config_value_to_value v) =
    match v with SecretDto _ _ => Some v | InlineDto _ => None end.
Proof. by destruct v as [[]|]. Qed.
