(* ===== verification/QueryWire.v ===== *)
(** * QueryWire: a query's way from the management API to its query host

    The management API sends a query to its container's actor as JSON
    ([resource_provider_api/src/models.rs]); the query host reads it with types of
    its own ([query-host/src/api.rs]), and answers its status the same way. *)
From S2P Require Import Prelude BTree Json ViewApi Wire HostApi.
From S2P Require Import MgmtModels Mappings ApiDto ApiWire ApiWireSpec.

(** ** What the management API writes *)

Definition api_language_to_value (l : QueryLanguage) : value :=
  VString (match l with Cypher => "Cypher" | GQL => "GQL" end).

Definition api_label_to_value (l : QuerySourceLabel) : value :=
  VObject [("sourceLabel", VString (sl_source_label l))]%string.

Definition api_subscription_to_value (s : QuerySubscription) : value :=
  VObject [("id", VString (qs_id s)); ("nodes", list_to_value api_label_to_value (qs_nodes s));
    ("relations", list_to_value api_label_to_value (qs_relations s));
    ("pipeline", list_to_value VString (qs_pipeline s))]%string.

Definition api_join_key_to_value (k : QueryJoinKey) : value :=
  VObject [("label", VString (jk_label k)); ("property", VString (jk_property k))]%string.

Definition api_join_to_value (j : QueryJoin) : value :=
  VObject [("id", VString (qj_id j)); ("keys", list_to_value api_join_key_to_value (qj_keys j))]%string.

Definition api_middleware_to_value (m : SourceMiddlewareConfig) : value :=
  VObject (("kind", VString (mw_kind m)) :: ("name", VString (mw_name m)) :: mw_config m)%string.

Definition api_sources_to_value (s : QuerySources) : value :=
  VObject [("subscriptions", list_to_value api_subscription_to_value (src_subscriptions s));
    ("joins", list_to_value api_join_to_value (src_joins s));
    ("middleware", list_to_value api_middleware_to_value (src_middleware s))]%string.

Definition api_policy_to_value (p : RetentionPolicy) : value :=
  match p with
  | Latest => VString "latest"
  | Expire after_seconds =>
      VObject [("expire", VObject [("afterSeconds", VNumber (NPos after_seconds))])]%string
  | All => VString "all"
  end.

Definition api_view_to_value (v : ViewSpec) : value :=
  VObject [("enabled", VBool (vs_enabled v));
    ("retentionPolicy", api_policy_to_value (vs_retention_policy v))]%string.

Definition api_query_to_value (q : ApiQuerySpec) : value :=
  VObject [("mode", VString (aq_mode q)); ("query", VString (aq_query q));
    ("queryLanguage", of_option api_language_to_value (aq_query_language q));
    ("sources", api_sources_to_value (aq_sources q));
    ("storageProfile", of_option VString (aq_storage_profile q));
    ("view", api_view_to_value (aq_view q))]%string.

Definition resource_request_to_value {A} (f : A → value) (r : ResourceRequest A) : value :=
  VObject [("id", VString (rr_id _ r)); ("spec", f (rr_spec _ r))]%string.

(** ** What the query host reads *)

Definition host_language_from_value (v : value) : option HostApi.QueryLanguage :=
  s ← variant_name v;
  if str_eqb s "Cypher" then Some HostApi.Cypher
  else if str_eqb s "GQL" then Some HostApi.GQL
  else None.

Definition host_label_from_value (v : value) : option HostApi.QuerySourceLabel :=
  m ← struct ["sourceLabel"] v;
  source_label ← field m "sourceLabel" ≫= as_str;
  Some (HostApi.Build_QuerySourceLabel source_label).

Definition host_subscription_from_value (v : value) : option HostApi.QuerySubscription :=
  m ← struct ["id"; "nodes"; "relations"; "pipeline"] v;
  id ← field m "id" ≫= as_str;
  nodes ← default_field (of_list host_label_from_value) [] m "nodes";
  relations ← default_field (of_list host_label_from_value) [] m "relations";
  pipeline ← default_field (of_list as_str) [] m "pipeline";
  Some (HostApi.Build_QuerySubscription id nodes relations pipeline).

Definition host_join_key_from_value (v : value) : option HostApi.QueryJoinKey :=
  m ← struct ["label"; "property"] v;
  label ← field m "label" ≫= as_str;
  property ← field m "property" ≫= as_str;
  Some (HostApi.Build_QueryJoinKey label property).

Definition host_join_from_value (v : value) : option HostApi.QueryJoin :=
  m ← struct ["id"; "keys"] v;
  id ← field m "id" ≫= as_str;
  keys ← field m "keys" ≫= of_list host_join_key_from_value;
  Some (HostApi.Build_QueryJoin id keys).

Definition host_middleware_from_value (v : value) : option HostApi.SourceMiddlewareConfig :=
  m ← struct ["kind"; "name"] v;
  kind ← field m "kind" ≫= as_str;
  name ← field m "name" ≫= as_str;
  Some (HostApi.Build_SourceMiddlewareConfig kind name (flattened m)).

Definition host_sources_from_value (v : value) : option HostApi.QuerySources :=
  m ← struct ["subscriptions"; "joins"; "middleware"] v;
  subscriptions ← field m "subscriptions" ≫= of_list host_subscription_from_value;
  joins ← field m "joins" ≫= of_list host_join_from_value;
  middleware ← default_field (of_list host_middleware_from_value) [] m "middleware";
  Some (HostApi.Build_QuerySources subscriptions joins middleware).

Definition host_policy_from_value (v : value) : option HostApi.RetentionPolicy :=
  match v with
  | VObject [(k, w)] =>
      if str_eqb k "expire" then
        m ← struct ["afterSeconds"] w;
        after_seconds ← field m "afterSeconds" ≫= as_u64_num;
        Some (HostApi.Expire after_seconds)
      else
        s ← variant_name v;
        if str_eqb s "latest" then Some HostApi.Latest
        else if str_eqb s "all" then Some HostApi.All
        else None
  | VString s =>
      if str_eqb s "latest" then Some HostApi.Latest
      else if str_eqb s "all" then Some HostApi.All
      else None
  | _ => None
  end.

Definition host_view_from_value (v : value) : option HostApi.ViewSpec :=
  m ← struct ["enabled"; "retentionPolicy"] v;
  enabled ← field m "enabled" ≫= as_bool;
  policy ← field m "retentionPolicy" ≫= host_policy_from_value;
  Some (HostApi.Build_ViewSpec enabled policy).

Definition host_query_fields : list string :=
  ["mode"; "query"; "queryLanguage"; "sources"; "storageProfile"; "view"; "transient"]%string.

Definition host_query_from_value (v : value) : option HostApi.QuerySpec :=
  m ← struct host_query_fields v;
  mode ← field m "mode" ≫= as_str;
  query ← field m "query" ≫= as_str;
  query_language ← opt_field host_language_from_value m "queryLanguage";
  sources ← field m "sources" ≫= host_sources_from_value;
  storage_profile ← opt_field as_str m "storageProfile";
  view ← field m "view" ≫= host_view_from_value;
  transient ← opt_field as_bool m "transient";
  Some (HostApi.Build_QuerySpec mode query query_language sources storage_profile view transient).

Definition query_request_from_value (v : value) : option (string * HostApi.QuerySpec) :=
  m ← struct ["id"; "spec"] v;
  id ← field m "id" ≫= as_str;
  spec ← field m "spec" ≫= host_query_from_value;
  Some (id, spec).

(** ** The status on its way back *)

Definition host_status_to_value (s : HostApi.QueryStatus) : value :=
  VObject [("hostName", VString (HostApi.st_host_name s)); ("status", VString (HostApi.st_status s));
    ("container", VString (HostApi.st_container s));
    ("errorMessage", VString (HostApi.st_error_message s))]%string.

Definition api_status_from_value (v : value) : option QueryStatus :=
  m ← struct ["hostName"; "status"; "container"; "errorMessage"] v;
  host_name ← field m "hostName" ≫= as_str;
  status ← field m "status" ≫= as_str;
  container ← field m "container" ≫= as_str;
  error_message ← opt_field as_str m "errorMessage";
  Some (mkQueryStatus host_name status container error_message).

(** ** The same query on both sides *)

Definition host_language (l : QueryLanguage) : HostApi.QueryLanguage :=
  match l with Cypher => HostApi.Cypher | GQL => HostApi.GQL end.

Definition host_label (l : QuerySourceLabel) : HostApi.QuerySourceLabel :=
  HostApi.Build_QuerySourceLabel (sl_source_label l).

Definition host_subscription (s : QuerySubscription) : HostApi.QuerySubscription :=
  HostApi.Build_QuerySubscription (qs_id s)
    (map host_label (qs_nodes s)) (map host_label (qs_relations s))
    (qs_pipeline s).

Definition host_join (j : QueryJoin) : HostApi.QueryJoin :=
  HostApi.Build_QueryJoin (qj_id j)
    (map (λ k, HostApi.Build_QueryJoinKey (jk_label k) (jk_property k)) (qj_keys j)).

Definition host_middleware (m : SourceMiddlewareConfig) : HostApi.SourceMiddlewareConfig :=
  HostApi.Build_SourceMiddlewareConfig (mw_kind m) (mw_name m) (mw_config m).

Definition host_sources (s : QuerySources) : HostApi.QuerySources :=
  HostApi.Build_QuerySources (map host_subscription (src_subscriptions s))
    (map host_join (src_joins s)) (map host_middleware (src_middleware s)).

Definition host_policy (p : RetentionPolicy) : HostApi.RetentionPolicy :=
  match p with
  | Latest => HostApi.Latest
  | Expire n => HostApi.Expire n
  | All => HostApi.All
  end.

Definition host_query (q : ApiQuerySpec) : HostApi.QuerySpec :=
  HostApi.Build_QuerySpec (aq_mode q) (aq_query q) (host_language <$> aq_query_language q)
    (host_sources (aq_sources q)) (aq_storage_profile q)
    (HostApi.Build_ViewSpec (vs_enabled (aq_view q)) (host_policy (vs_retention_policy (aq_view q))))
    None.

(** ** Proofs *)

Lemma of_list_both {A B} (f : value → option B) (g : A → value) (h : A → B) (l : list A) :
  Forall (λ a, f (g a) = Some (h a)) l → of_list f (list_to_value g l) = Some (map h l).
Proof.
  unfold of_list, list_to_value. cbn. induction 1 as [|a l Ha _ IH]; [done|]. cbn.
  by rewrite Ha; cbn; rewrite IH.
Qed.

Lemma of_list_each {A B} (f : value → option B) (g : A → value) (h : A → B) l :
  (∀ a, f (g a) = Some (h a)) → of_list f (list_to_value g l) = Some (map h l).
Proof. intros H. apply of_list_both, list.Forall_forall. by intros a _. Qed.

Lemma default_list_field {A B} (f : value → option B) (g : A → value) (h : A → B) m k l :
  jget k m = Some (list_to_value g l) → Forall (λ a, f (g a) = Some (h a)) l →
  default_field (of_list f) [] m k = Some (map h l).
Proof. intros Hm H. unfold default_field, field. rewrite Hm. by apply of_list_both. Qed.

Lemma opt_field_both {A B} (f : value → option B) (g : A → value) (h : A → B) m k o :
  jget k m = Some (of_option g o) → (∀ a, f (g a) = Some (h a)) → (∀ a, g a ≠ VNull) →
  opt_field f m k = Some (h <$> o).
Proof.
  intros Hm Hfg Hnull. unfold opt_field, field. rewrite Hm.
  destruct o as [a|]; [|done]. cbn [of_option]. specialize (Hnull a).
  destruct (g a) eqn:Hg; [done|..]; by rewrite <-Hg, Hfg.
Qed.

Lemma default_field_at {A B} (f : value → option B) (g : A → value) (h : A → B) d m k a :
  jget k m = Some (g a) → f (g a) = Some (h a) → default_field f d m k = Some (h a).
Proof. intros Hm H. unfold default_field, field. by rewrite Hm. Qed.

Lemma host_subscription_read s :
  host_subscription_from_value (api_subscription_to_value s) = Some (host_subscription s).
Proof.
  destruct s as [sid nodes relations pipeline]. unfold host_subscription_from_value,
    api_subscription_to_value. cbn [qs_id qs_nodes qs_relations qs_pipeline]. read_struct.
  change (field _ "id") with (Some (VString sid)). cbn [mbind option_bind as_str].
  rewrite (default_list_field host_label_from_value api_label_to_value host_label _ "nodes" nodes);
    [|reflexivity|all_same; reflexivity].
  rewrite (default_list_field host_label_from_value api_label_to_value host_label
    _ "relations" relations); [|reflexivity|all_same; reflexivity].
  rewrite (default_list_field as_str VString (λ x, x) _ "pipeline" pipeline);
    [|reflexivity|by all_same].
  cbn [mbind option_bind]. by rewrite map_id.
Qed.

Lemma host_join_read j : host_join_from_value (api_join_to_value j) = Some (host_join j).
Proof.
  destruct j as [jid keys]. unfold host_join_from_value, api_join_to_value. read_struct.
  change (field _ "id") with (Some (VString jid)).
  change (field _ "keys") with (Some (list_to_value api_join_key_to_value keys)).
  cbn [mbind option_bind as_str].
  rewrite (of_list_each _ _ (λ k, HostApi.Build_QueryJoinKey (jk_label k) (jk_property k)));
    [done|]. reflexivity.
Qed.

Lemma host_middleware_read m : clean_config (mw_config m) →
  host_middleware_from_value (api_middleware_to_value m) = Some (host_middleware m).
Proof.
  destruct m as [kind name config]. intros Hc.
  unfold host_middleware_from_value, api_middleware_to_value. cbn [mw_kind mw_name mw_config].
  destruct (middleware_struct kind name config Hc) as [-> Hf].
  cbn [mbind option_bind]. rewrite Hf. reflexivity.
Qed.

Lemma host_sources_read s : Forall (λ m, clean_config (mw_config m)) (src_middleware s) →
  host_sources_from_value (api_sources_to_value s) = Some (host_sources s).
Proof.
  destruct s as [subs joins middleware]. cbn [src_middleware]. intros Hm.
  unfold host_sources_from_value, api_sources_to_value.
  cbn [src_subscriptions src_joins src_middleware]. read_struct.
  change (field _ "subscriptions") with (Some (list_to_value api_subscription_to_value subs)).
  change (field _ "joins") with (Some (list_to_value api_join_to_value joins)).
  cbn [mbind option_bind]. rewrite (of_list_each _ _ _ _ host_subscription_read).
  cbn [mbind option_bind]. rewrite (of_list_each _ _ _ _ host_join_read).
  cbn [mbind option_bind].
  rewrite (default_list_field host_middleware_from_value api_middleware_to_value host_middleware
    _ "middleware" middleware); [done|reflexivity|].
  eapply list.Forall_impl; [exact Hm|]. intros m. apply host_middleware_read.
Qed.

Lemma host_view_read v : host_view_from_value (api_view_to_value v) =
  Some (HostApi.Build_ViewSpec (vs_enabled v) (host_policy (vs_retention_policy v))).
Proof. destruct v as [e []]; reflexivity. Qed.

Lemma host_query_read q :
  Forall (λ m, clean_config (mw_config m)) (src_middleware (aq_sources q)) →
  host_query_from_value (api_query_to_value q) = Some (host_query q).
Proof.
  destruct q as [mode query language sources profile view]. intros Hm.
  unfold host_query_from_value, api_query_to_value. cbn [aq_mode aq_query aq_query_language
    aq_sources aq_storage_profile aq_view] in *. read_struct.
  change (field _ "mode") with (Some (VString mode)).
  change (field _ "query") with (Some (VString query)).
  change (field _ "sources") with (Some (api_sources_to_value sources)).
  change (field _ "view") with (Some (api_view_to_value view)).
  cbn [mbind option_bind as_str]. rewrite host_sources_read, host_view_read by done.
  rewrite (opt_field_both host_language_from_value api_language_to_value host_language
    _ "queryLanguage" language); [|reflexivity|by intros []|by intros []].
  rewrite (opt_field_both as_str VString (λ x, x) _ "storageProfile" profile);
    [|reflexivity|done|done].
  cbn [mbind option_bind]. unfold host_query. by destruct profile.
Qed.

Lemma query_request_read r :
  Forall (λ m, clean_config (mw_config m)) (src_middleware (aq_sources (rr_spec _ r))) →
  query_request_from_value (resource_request_to_value api_query_to_value r) =
    Some (rr_id _ r, host_query (rr_spec _ r)).
Proof.
  intros H. unfold query_request_from_value, resource_request_to_value. read_struct.
  change (field _ "id") with (Some (VString (rr_id _ r))).
  change (field _ "spec") with (Some (api_query_to_value (rr_spec _ r))).
  cbn [mbind option_bind as_str]. by rewrite host_query_read.
Qed.

(** What the management API hands over of the query a client sent. *)
Lemma accepted_middleware_clean d q (api : ApiQuerySpec) :
  clean_query d → into d = Some q → into q = Some api →
  Forall (λ m, clean_config (mw_config m)) (src_middleware (aq_sources api)).
Proof.
  unfold clean_query, into, query_of_dto. intros H [= <-] [= <-]. cbn.
  destruct (dsrc_middleware (dq_sources d)) as [l|]; cbn; [|constructor].
  cbn in H. induction H; by constructor.
Qed.

(** The error message is always there on the host's side. *)
Lemma query_status_read_back s :
  api_status_from_value (host_status_to_value s) =
    Some (mkQueryStatus (HostApi.st_host_name s) (HostApi.st_status s) (HostApi.st_container s)
      (Some (HostApi.st_error_message s))).
Proof. reflexivity. Qed.

(** C22: A query a client submits reaches its query host unchanged: the JSON that the
    management API sends to the query's actor is read by the host, and the host's
    specification has the client's query text, mode, language and storage profile,
    its subscriptions in order with absent label lists and pipelines empty, every
    join and every middleware with its free-form settings, the default view when
    the client gave none, and it is not transient. *)
Theorem submitted_query_reaches_host v d (q : QuerySpec) query_id :
  query_from_value v = Some d → into d = Some q →
  ∃ (api : ApiQuerySpec) h, into q = Some api ∧
    query_request_from_value
      (resource_request_to_value api_query_to_value (mkResourceRequest query_id api))
      = Some (query_id, h) ∧
    HostApi.spec_mode h = dq_mode d ∧ HostApi.spec_query h = dq_query d ∧
    HostApi.spec_storage_profile h = dq_storage_profile d ∧
    HostApi.spec_query_language h = (λ l, host_language (language_of_dto l)) <$> dq_query_language d ∧
    HostApi.spec_transient h = None ∧
    HostApi.spec_view h = match dq_view d with
      | Some view => HostApi.Build_ViewSpec (dvs_enabled view)
                       (host_policy (policy_of_dto (dvs_retention_policy view)))
      | None => HostApi.Build_ViewSpec true HostApi.Latest
      end ∧
    HostApi.src_subscriptions (HostApi.spec_sources h) =
      map (λ s, HostApi.Build_QuerySubscription (dqs_id s)
        (map (λ l, HostApi.Build_QuerySourceLabel (dsl_source_label l)) (default [] (dqs_nodes s)))
        (map (λ l, HostApi.Build_QuerySourceLabel (dsl_source_label l)) (default [] (dqs_relations s)))
        (default [] (dqs_pipeline s))) (dsrc_subscriptions (dq_sources d)) ∧
    HostApi.src_joins (HostApi.spec_sources h) =
      map (λ j, HostApi.Build_QueryJoin (dqj_id j)
        (map (λ k, HostApi.Build_QueryJoinKey (djk_label k) (djk_property k)) (dqj_keys j)))
        (default [] (dsrc_joins (dq_sources d))) ∧
    HostApi.src_middleware (HostApi.spec_sources h) =
      map (λ m, HostApi.Build_SourceMiddlewareConfig (dmw_kind m) (dmw_name m) (dmw_config m))
        (default [] (dsrc_middleware (dq_sources d))).
Proof.
  intros Hv Hd. pose proof (query_from_clean _ _ Hv) as Hc.
  destruct (into (A := QuerySpec) (B := ApiQuerySpec) q) as [api|] eqn:Ha; [|done].
  exists api, (host_query api). split; [done|].
  split; [apply (query_request_read (mkResourceRequest query_id api));
    by eapply accepted_middleware_clean|].
  injection Hd as <-. injection Ha as <-. destruct d as [c mo qu la [su jo mi] st vi]. cbn.
  split_and!; try done.
  - by destruct la as [[]|].
  - by destruct vi as [[? []]|].
  - rewrite map_map. apply map_ext. intros [? no re pi].
    destruct no, re; unfold host_subscription; cbn; by rewrite ?map_map.
  - destruct jo as [jo|]; [|done]. cbn. rewrite map_map. apply map_ext. intros [].
    unfold host_join. cbn. by rewrite map_map.
  - destruct mi as [mi|]; [|done]. cbn. by rewrite !map_map.
Qed.

Lemma submitted_query_reaches_host_witness :
  ∃ d (q : QuerySpec) (api : ApiQuerySpec) h,
    query_from_value sample_query = Some d ∧ into d = Some q ∧
    query_request_from_value
      (resource_request_to_value api_query_to_value (mkResourceRequest "rooms"%string api))
      = Some ("rooms"%string, h) ∧
    HostApi.spec_query h = "MATCH (n) RETURN n"%string ∧
    length (HostApi.src_subscriptions (HostApi.spec_sources h)) = 1%nat.
Proof.
  destruct (query_from_value sample_query) as [d|] eqn:E; [|by vm_compute in E].
  destruct (into (A := QuerySpecDto) (B := QuerySpec) d) as [q|] eqn:Eq; [|done].
  destruct (submitted_query_reaches_host _ _ _ "rooms"%string E Eq)
    as (api & h & _ & Hr & _ & Hq & _ & _ & _ & _ & Hs & _).
  exists d, q, api, h. split_and!; [done|done|done|rewrite Hq|rewrite Hs];
    vm_compute in E; by injection E as <-.
Defined.
