(* ===== verification/ProviderWire.v ===== *)
(** * ProviderWire: resources on their way to the resource provider
    ([resource_provider_api/src/models.rs])

    The management API writes the request it sends to a resource's actor, and the
    provider reads it, with the same types; the status travels back. *)
From S2P Require Import Prelude BTree Json RustText ViewApi Wire MgmtModels Mappings.
From S2P Require Import ApiDto ApiWire ApiWireSpec QueryWire.

(** ** Configuration values *)

Definition api_config_to_value (c : ApiConfigValue) : value :=
  match c with
  | ApiInline v => VObject [("kind", VString "Inline"); ("value", VString v)]%string
  | ApiSecret name key =>
      VObject [("kind", VString "Secret"); ("name", VString name); ("key", VString key)]%string
  end.

Definition api_config_from_value (v : value) : option ApiConfigValue :=
  '(kind, m) ← tagged v;
  if str_eqb kind "Inline" then
    m ← variant_fields ["value"] m;
    s ← field m "value" ≫= as_str; Some (ApiInline s)
  else if str_eqb kind "Secret" then
    m ← variant_fields ["name"; "key"] m;
    name ← field m "name" ≫= as_str;
    key ← field m "key" ≫= as_str;
    Some (ApiSecret name key)
  else None.

(** A value of a [FromStr] type may be given as a string. *)
Definition string_or_struct {A} (from_str : string → A) (from_map : value → option A) (v : value)
    : option A :=
  match v with
  | VString s => Some (from_str s)
  | VObject _ => from_map v
  | _ => None
  end.

(** ** Services and identities *)

Definition api_setting_to_value (s : EndpointSetting) : value :=
  VString (match s with Internal => "Internal" | External => "External" end).

Definition api_setting_from_value (v : value) : option EndpointSetting :=
  s ← variant_name v;
  if str_eqb s "Internal" then Some Internal
  else if str_eqb s "External" then Some External
  else None.

Definition api_endpoint_to_value (e : ApiEndpoint) : value :=
  VObject [("setting", api_setting_to_value (ae_setting e)); ("target", VString (ae_target e))]%string.

Definition api_endpoint_from_value (v : value) : option ApiEndpoint :=
  m ← struct ["setting"; "target"] v;
  setting ← field m "setting" ≫= api_setting_from_value;
  target ← field m "target" ≫= as_str;
  Some (mkApiEndpoint setting target).

Definition api_identity_to_value (i : ApiServiceIdentity) : value :=
  match i with
  | ApiMicrosoftEntraWorkloadID client_id =>
      VObject [("kind", VString "MicrosoftEntraWorkloadID"); ("clientId", VString client_id)]%string
  | ApiMicrosoftEntraApplication tenant_id client_id secret certificate =>
      VObject [("kind", VString "MicrosoftEntraApplication");
        ("tenantId", api_config_to_value tenant_id);
        ("clientId", api_config_to_value client_id);
        ("secret", of_option api_config_to_value secret);
        ("certificate", of_option api_config_to_value certificate)]%string
  | ApiConnectionString connection_string =>
      VObject [("kind", VString "ConnectionString");
        ("connectionString", api_config_to_value connection_string)]%string
  | ApiAccessKey access_key =>
      VObject [("kind", VString "AccessKey"); ("accessKey", api_config_to_value access_key)]%string
  | ApiAwsIamRole role_arn =>
      VObject [("kind", VString "AwsIamRole"); ("roleArn", api_config_to_value role_arn)]%string
  | ApiAwsIamAccessKey access_key_id secret_access_key aws_region =>
      VObject [("kind", VString "AwsIamAccessKey");
        ("accessKeyId", api_config_to_value access_key_id);
        ("secretAccessKey", api_config_to_value secret_access_key);
        ("region", api_config_to_value aws_region)]%string
  end.

Definition api_identity_from_value (v : value) : option ApiServiceIdentity :=
  '(kind, m) ← tagged v;
  if str_eqb kind "MicrosoftEntraWorkloadID" then
    m ← variant_fields ["clientId"] m;
    client_id ← field m "clientId" ≫= as_str;
    Some (ApiMicrosoftEntraWorkloadID client_id)
  else if str_eqb kind "MicrosoftEntraApplication" then
    m ← variant_fields ["tenantId"; "clientId"; "secret"; "certificate"] m;
    tenant_id ← field m "tenantId" ≫= api_config_from_value;
    client_id ← field m "clientId" ≫= api_config_from_value;
    secret ← opt_field api_config_from_value m "secret";
    certificate ← opt_field api_config_from_value m "certificate";
    Some (ApiMicrosoftEntraApplication tenant_id client_id secret certificate)
  else if str_eqb kind "ConnectionString" then
    m ← variant_fields ["connectionString"] m;
    connection_string ← field m "connectionString" ≫= api_config_from_value;
    Some (ApiConnectionString connection_string)
  else if str_eqb kind "AccessKey" then
    m ← variant_fields ["accessKey"] m;
    access_key ← field m "accessKey" ≫= api_config_from_value;
    Some (ApiAccessKey access_key)
  else if str_eqb kind "AwsIamRole" then
    m ← variant_fields ["roleArn"] m;
    role_arn ← field m "roleArn" ≫= api_config_from_value;
    Some (ApiAwsIamRole role_arn)
  else if str_eqb kind "AwsIamAccessKey" then
    m ← variant_fields ["accessKeyId"; "secretAccessKey"; "region"] m;
    access_key_id ← field m "accessKeyId" ≫= api_config_from_value;
    secret_access_key ← field m "secretAccessKey" ≫= api_config_from_value;
    aws_region ← field m "region" ≫= api_config_from_value;
    Some (ApiAwsIamAccessKey access_key_id secret_access_key aws_region)
  else None.

Definition api_service_from_value (v : value) : option ApiService :=
  m ← struct ["replica"; "image"; "external_image"; "endpoints"; "dapr"; "properties"] v;
  replica ← opt_field as_str m "replica";
  image ← field m "image" ≫= as_str;
  external_image ← opt_field as_bool m "external_image";
  endpoints ← opt_field (read_map api_endpoint_from_value) m "endpoints";
  dapr ← opt_field (read_map api_config_from_value) m "dapr";
  properties ← opt_field (read_map api_config_from_value) m "properties";
  Some (mkApiService replica image external_image endpoints dapr properties).

(** ** Specifications *)

Definition api_source_from_value (v : value) : option ApiSourceSpec :=
  m ← struct ["sourceKind"; "services"; "properties"; "identity"] v;
  kind ← field m "sourceKind" ≫= as_str;
  services ← opt_field (read_map api_service_from_value) m "services";
  properties ← opt_field (read_map api_config_from_value) m "properties";
  identity ← opt_field api_identity_from_value m "identity";
  Some (mkApiSource kind services properties identity).

Definition api_reaction_from_value (v : value) : option ApiReactionSpec :=
  m ← struct ["kind"; "tag"; "services"; "properties"; "queries"; "identity"] v;
  kind ← field m "kind" ≫= as_str;
  tag ← opt_field as_str m "tag";
  services ← opt_field (read_map api_service_from_value) m "services";
  properties ← opt_field (read_map api_config_from_value) m "properties";
  queries ← field m "queries" ≫= read_map as_str;
  identity ← opt_field api_identity_from_value m "identity";
  Some (mkApiReaction kind tag services properties queries identity).

Definition api_storage_from_value (v : value) : option ApiStorageSpec :=
  '(kind, m) ← tagged v;
  if str_eqb kind "memory" then
    m ← variant_fields ["enable_archive"] m;
    enable_archive ← field m "enable_archive" ≫= as_bool;
    Some (ApiMemory enable_archive)
  else if str_eqb kind "redis" then
    m ← variant_fields ["connection_string"; "cache_size"] m;
    connection_string ← field m "connection_string"
      ≫= string_or_struct ApiInline api_config_from_value;
    cache_size ← opt_field (as_unsigned 32) m "cache_size";
    Some (ApiRedis connection_string cache_size)
  else if str_eqb kind "rocksDb" then
    m ← variant_fields ["enable_archive"; "storage_class"; "direct_io"] m;
    enable_archive ← field m "enable_archive" ≫= as_bool;
    storage_class ← opt_field as_str m "storage_class";
    direct_io ← field m "direct_io" ≫= as_bool;
    Some (ApiRocksDb enable_archive storage_class direct_io)
  else None.

Definition api_storage_to_value (s : ApiStorageSpec) : value :=
  match s with
  | ApiMemory enable_archive =>
      VObject [("kind", VString "memory"); ("enable_archive", VBool enable_archive)]%string
  | ApiRedis connection_string cache_size =>
      VObject [("kind", VString "redis");
        ("connection_string", api_config_to_value connection_string);
        ("cache_size", of_option (λ n, VNumber (NPos n)) cache_size)]%string
  | ApiRocksDb enable_archive storage_class direct_io =>
      VObject [("kind", VString "rocksDb"); ("enable_archive", VBool enable_archive);
        ("storage_class", of_option VString storage_class); ("direct_io", VBool direct_io)]%string
  end.

Definition api_container_from_value (v : value) : option ApiQueryContainerSpec :=
  m ← struct ["queryHostCount"; "results"; "storage"; "defaultStore"] v;
  query_host_count ← field m "queryHostCount" ≫= as_unsigned 16;
  results ← field m "results" ≫= read_map api_config_from_value;
  storage ← field m "storage" ≫= read_map api_storage_from_value;
  default_store ← field m "defaultStore" ≫= as_str;
  Some (mkApiContainer query_host_count results storage default_store).

Definition resource_request_from_value {A} (f : value → option A) (v : value)
    : option (ResourceRequest A) :=
  m ← struct ["id"; "spec"] v;
  id ← field m "id" ≫= as_str;
  spec ← field m "spec" ≫= f;
  Some (mkResourceRequest id spec).

Section written.
Context (hash_iter : ∀ A, gmap string A → list (string * A)).
Notation map_value f := (map_to_value hash_iter f).

Definition api_service_to_value (s : ApiService) : value :=
  VObject [("replica", of_option VString (as_replica s)); ("image", VString (as_image s));
    ("external_image", of_option VBool (as_external_image s));
    ("endpoints", of_option (map_value api_endpoint_to_value) (as_endpoints s));
    ("dapr", of_option (map_value api_config_to_value) (as_dapr s));
    ("properties", of_option (map_value api_config_to_value) (as_properties s))]%string.

(** [#[serde(tag = "kind")]] on a struct writes its name first. *)
Definition api_source_to_value (s : ApiSourceSpec) : value :=
  VObject [("kind", VString "SourceSpec"); ("sourceKind", VString (as_kind s));
    ("services", of_option (map_value api_service_to_value) (as_services s));
    ("properties", of_option (map_value api_config_to_value) (as_source_properties s));
    ("identity", of_option api_identity_to_value (as_identity s))]%string.

Definition api_reaction_to_value (r : ApiReactionSpec) : value :=
  VObject [("kind", VString (ar_kind r)); ("tag", of_option VString (ar_tag r));
    ("services", of_option (map_value api_service_to_value) (ar_services r));
    ("properties", of_option (map_value api_config_to_value) (ar_properties r));
    ("queries", map_value VString (ar_queries r));
    ("identity", of_option api_identity_to_value (ar_identity r))]%string.

Definition api_container_to_value (c : ApiQueryContainerSpec) : value :=
  VObject [("queryHostCount", VNumber (NPos (ac_query_host_count c)));
    ("results", map_value api_config_to_value (ac_results c));
    ("storage", map_value api_storage_to_value (ac_storage c));
    ("defaultStore", VString (ac_default_store c))]%string.
End written.

(** ** Statuses *)

Definition api_source_status_to_value (s : SourceStatus) : value :=
  VObject [("available", VBool (sst_available s)); ("messages", messages_to_value (sst_messages s));
    ("ingress_url", of_option VString (sst_ingress_url s))]%string.

Definition api_reaction_status_to_value (s : ReactionStatus) : value :=
  VObject [("available", VBool (rst_available s)); ("messages", messages_to_value (rst_messages s));
    ("ingress_url", of_option VString (rst_ingress_url s))]%string.

Definition api_container_status_to_value (s : QueryContainerStatus) : value :=
  VObject [("available", VBool (qcs_available s)); ("messages", messages_to_value (qcs_messages s))]%string.

(** A [BTreeMap]: each entry is inserted. *)
Definition read_btree {A} (f : value → option A) (v : value) : option (btree A) :=
  l ← entries f v; Some (jobject l).

Definition api_source_status_from_value (v : value) : option SourceStatus :=
  m ← struct ["available"; "messages"; "ingress_url"] v;
  available ← field m "available" ≫= as_bool;
  messages ← opt_field (read_btree as_str) m "messages";
  ingress_url ← opt_field as_str m "ingress_url";
  Some (mkSourceStatus available messages ingress_url).

Definition api_reaction_status_from_value (v : value) : option ReactionStatus :=
  m ← struct ["available"; "messages"; "ingress_url"] v;
  available ← field m "available" ≫= as_bool;
  messages ← opt_field (read_btree as_str) m "messages";
  ingress_url ← opt_field as_str m "ingress_url";
  Some (mkReactionStatus available messages ingress_url).

Definition api_container_status_from_value (v : value) : option QueryContainerStatus :=
  m ← struct ["available"; "messages"] v;
  available ← field m "available" ≫= as_bool;
  messages ← opt_field (read_btree as_str) m "messages";
  Some (mkContainerStatus available messages).

(** ** What is written is read back *)

Definition read_back {A} (f : value → option A) (g : A → value) : Prop := ∀ a, f (g a) = Some a.

Lemma config_read_back : read_back api_config_from_value api_config_to_value.
Proof. by intros []. Qed.

Lemma endpoint_read_back : read_back api_endpoint_from_value api_endpoint_to_value.
Proof. by intros [[] target]. Qed.

Lemma config_not_null c : api_config_to_value c ≠ VNull.
Proof. by destruct c. Qed.

Lemma identity_read_back : read_back api_identity_from_value api_identity_to_value.
Proof.
  intros [client_id|[] [] [[]|] [[]|]|[]|[]|[]|[] [] []]; reflexivity.
Qed.

Lemma identity_not_null i : api_identity_to_value i ≠ VNull.
Proof. by destruct i. Qed.

Section maps.
Context (hash_iter : ∀ A, gmap string A → list (string * A)).
Context (iter_ok : ∀ A (m : gmap string A), hash_iter A m ≡ₚ map_to_list m).
Notation map_value f := (map_to_value hash_iter f).

Lemma entries_written {A} (f : value → option A) (g : A → value) (l : list (string * A)) :
  Forall (λ kv, f (g kv.2) = Some kv.2) l → entries f (VObject (map (λ kv, (kv.1, g kv.2)) l)) = Some l.
Proof.
  unfold entries. cbn. induction 1 as [|[k a] l Ha _ IH]; [done|]. cbn in *.
  rewrite Ha. cbn. by rewrite IH.
Qed.

Lemma map_read_back_values {A} (f : value → option A) (g : A → value) m :
  map_Forall (λ _ a, f (g a) = Some a) m → read_map f (map_value g m) = Some m.
Proof.
  intros Hm. unfold read_map, map_to_value. rewrite entries_written.
  - cbn. f_equal. rewrite <-(list_to_map_to_list m) at 2. symmetry. apply list_to_map_proper.
    + apply NoDup_fst_map_to_list.
    + by rewrite <-Permutation_rev, iter_ok.
  - apply list.Forall_forall. intros [k a] Hka. rewrite iter_ok in Hka.
    apply elem_of_map_to_list in Hka. by apply (Hm k).
Qed.

Lemma map_read_back {A} (f : value → option A) (g : A → value) :
  read_back f g → read_back (read_map f) (map_value g).
Proof. intros H m. apply map_read_back_values. by intros k a _. Qed.

Lemma map_not_null {A} (g : A → value) m : map_value g m ≠ VNull.
Proof. done. Qed.

(** An optional field that holds what [g] wrote. *)
Lemma opt_read_back {A} (f : value → option A) (g : A → value) m k o :
  jget k m = Some (of_option g o) → read_back f g → (∀ a, g a ≠ VNull) → opt_field f m k = Some o.
Proof. apply opt_field_of. Qed.

Lemma service_read_back : read_back api_service_from_value (api_service_to_value hash_iter).
Proof.
  intros [replica image external endpoints dapr properties].
  unfold api_service_from_value, api_service_to_value. cbn [as_replica as_image as_external_image
    as_endpoints as_dapr as_properties]. read_struct.
  change (field _ "image") with (Some (VString image)).
  rewrite (opt_read_back as_str VString _ "replica" replica) by done. cbn [mbind option_bind as_str].
  rewrite (opt_read_back as_bool VBool _ "external_image" external) by done.
  cbn [mbind option_bind].
  rewrite (opt_read_back (read_map api_endpoint_from_value) (map_value api_endpoint_to_value)
    _ "endpoints" endpoints); [|done|apply map_read_back, endpoint_read_back|done].
  cbn [mbind option_bind].
  rewrite !(opt_read_back (read_map api_config_from_value) (map_value api_config_to_value)
    _ "dapr" dapr); [|done|apply map_read_back, config_read_back|done].
  cbn [mbind option_bind].
  rewrite !(opt_read_back (read_map api_config_from_value) (map_value api_config_to_value)
    _ "properties" properties); [done|done|apply map_read_back, config_read_back|done].
Qed.

Lemma service_not_null s : api_service_to_value hash_iter s ≠ VNull.
Proof. done. Qed.

Lemma source_read_back : read_back api_source_from_value (api_source_to_value hash_iter).
Proof.
  intros [kind services properties identity].
  unfold api_source_from_value, api_source_to_value. cbn [as_kind as_services
    as_source_properties as_identity]. read_struct.
  change (field _ "sourceKind") with (Some (VString kind)). cbn [mbind option_bind as_str].
  rewrite (opt_read_back (read_map api_service_from_value) (map_value (api_service_to_value hash_iter))
    _ "services" services); [|done|apply map_read_back, service_read_back|done].
  cbn [mbind option_bind].
  rewrite (opt_read_back (read_map api_config_from_value) (map_value api_config_to_value)
    _ "properties" properties); [|done|apply map_read_back, config_read_back|done].
  cbn [mbind option_bind].
  by rewrite (opt_read_back api_identity_from_value api_identity_to_value _ "identity" identity);
    [|done|apply identity_read_back|apply identity_not_null].
Qed.

Lemma reaction_read_back : read_back api_reaction_from_value (api_reaction_to_value hash_iter).
Proof.
  intros [kind tag services properties queries identity].
  unfold api_reaction_from_value, api_reaction_to_value. cbn [ar_kind ar_tag ar_services
    ar_properties ar_queries ar_identity]. read_struct.
  change (field _ "kind") with (Some (VString kind)).
  change (field _ "queries") with (Some (map_value VString queries)). cbn [mbind option_bind as_str].
  rewrite (opt_read_back as_str VString _ "tag" tag) by done. cbn [mbind option_bind].
  rewrite (opt_read_back (read_map api_service_from_value) (map_value (api_service_to_value hash_iter))
    _ "services" services); [|done|apply map_read_back, service_read_back|done].
  cbn [mbind option_bind].
  rewrite (opt_read_back (read_map api_config_from_value) (map_value api_config_to_value)
    _ "properties" properties); [|done|apply map_read_back, config_read_back|done].
  cbn [mbind option_bind]. rewrite map_read_back by done. cbn [mbind option_bind].
  by rewrite (opt_read_back api_identity_from_value api_identity_to_value _ "identity" identity);
    [|done|apply identity_read_back|apply identity_not_null].
Qed.
End maps.

(** ** Query containers *)

Definition storage_in_range (s : ApiStorageSpec) : Prop :=
  match s with ApiRedis _ (Some n) => (n < 2 ^ 32)%Z | _ => True end.

Definition container_in_range (c : ApiQueryContainerSpec) : Prop :=
  (ac_query_host_count c < 2 ^ 16)%Z ∧ map_Forall (λ _, storage_in_range) (ac_storage c).

Lemma as_unsigned_written bits n : (n < 2 ^ bits)%Z → as_unsigned bits (VNumber (NPos n)) = Some n.
Proof. unfold as_unsigned. cbn. intros H%Z.ltb_lt. by rewrite H. Qed.

Lemma storage_read_back s :
  storage_in_range s → api_storage_from_value (api_storage_to_value s) = Some s.
Proof.
  destruct s as [enable_archive|c [n|]|enable_archive [] direct_io];
    [reflexivity| |by destruct c|reflexivity..].
  cbn [storage_in_range]. intros Hn%as_unsigned_written.
  unfold api_storage_from_value, api_storage_to_value. cbn [of_option]. set (m := (_ :: _) : jmap).
  change (tagged (VObject m)) with (Some ("redis"%string, m)). cbn [mbind option_bind].
  change (str_eqb "redis" "memory") with false. change (str_eqb "redis" "redis") with true. cbn match.
  change (variant_fields _ m) with (Some m). cbn [mbind option_bind]. unfold opt_field.
  change (field m "connection_string") with (Some (api_config_to_value c)).
  change (field m "cache_size") with (Some (VNumber (NPos n))). cbn [mbind option_bind].
  rewrite Hn. by destruct c.
Qed.

Lemma as_unsigned_range bits v n : as_unsigned bits v = Some n → (n < 2 ^ bits)%Z.
Proof.
  unfold as_unsigned. destruct (as_u64_num v) as [n'|]; [|done]. cbn.
  destruct (n' <? 2 ^ bits)%Z eqn:E; [|done]. intros [= <-]. by apply Z.ltb_lt.
Qed.

Lemma storage_from_range v s : storage_from_value v = Some s → storage_in_range (storage_into (storage_of_dto s)).
Proof.
  unfold storage_from_value. intros H.
  destruct (tagged v) as [[kind m]|]; [|done]. cbn [mbind option_bind] in H.
  destruct (str_eqb kind "memory").
  { destruct (variant_fields _ m) as [m'|]; [|done]. cbn [mbind option_bind] in H.
    destruct (field m' _ ≫= as_bool); [|done]. by injection H as <-. }
  destruct (str_eqb kind "redis").
  - destruct (variant_fields _ m) as [m'|]; [|done]. cbn [mbind option_bind] in H.
    destruct (field m' _ ≫= config_value_from_value); [|done]. cbn [mbind option_bind] in H.
    destruct (opt_field (as_unsigned 32) m' "cacheSize") as [o|] eqn:E; [|done].
    injection H as <-. cbn. destruct o as [n|]; [|done].
    unfold opt_field in E. destruct (field m' "cacheSize") as [w|]; [|done].
    apply (as_unsigned_range 32 w). destruct w; destruct (as_unsigned 32 _); by simplify_eq/=.
  - destruct (str_eqb kind "rocksDb"); [|done].
    destruct (variant_fields _ m) as [m'|]; [|done]. cbn [mbind option_bind] in H.
    destruct (default_field as_bool false m' "enableArchive"); [|done]. cbn [mbind option_bind] in H.
    destruct (opt_field as_str m' _); [|done]. cbn [mbind option_bind] in H.
    destruct (default_field as_bool false m' "directIo"); [|done]. by injection H as <-.
Qed.

(** What a reader of values ensures holds of the values of a map it read. *)
Lemma read_map_forall {A} (f : value → option A) (P : A → Prop) v m :
  (∀ w a, f w = Some a → P a) → read_map f v = Some m → map_Forall (λ _, P) m.
Proof.
  intros HP H. unfold read_map, entries in H. destruct (as_object v) as [l|]; [|done].
  cbn [mbind option_bind] in H. destruct (mapM _ l) as [es|] eqn:E; [|done]. injection H as <-.
  eapply (mapM_each _ (λ kv : string * A, P kv.2)) in E.
  - intros k a Hka%elem_of_list_to_map_2. rewrite <-Permutation_rev in Hka.
    rewrite list.Forall_forall in E. exact (E _ Hka).
  - intros [k' w] [k2 a2] Hf. cbn in Hf. destruct (f w) eqn:Hw; [|done]. injection Hf as <- <-.
    by apply (HP w).
Qed.

Lemma container_from_range v d c (api : ApiQueryContainerSpec) :
  container_from_value v = Some d → into d = Some c → into (A := QueryContainerSpec) c = Some api →
  container_in_range api.
Proof.
  unfold container_from_value. intros H [= <-] [= <-].
  destruct (struct _ v) as [m|]; [|done]. cbn [mbind option_bind] in H.
  destruct (field m "queryHostCount") as [w|]; [|done]. cbn [mbind option_bind] in H.
  destruct (as_unsigned 16 w) as [n|] eqn:En; [|done]. cbn [mbind option_bind] in H.
  destruct (field m "results" ≫= _) as [rs|]; [|done]. cbn [mbind option_bind] in H.
  destruct (field m "storage") as [w'|]; [|done]. cbn [mbind option_bind] in H.
  destruct (read_map storage_from_value w') as [st|] eqn:Es; [|done]. cbn [mbind option_bind] in H.
  destruct (field m "defaultStore" ≫= as_str); [|done]. injection H as <-. split; cbn.
  - by eapply as_unsigned_range.
  - intros k sto Hs. rewrite !lookup_fmap in Hs. destruct (st !! k) as [sd|] eqn:Ek; [|done].
    injection Hs as <-. pose proof (read_map_forall _
      (λ sd, storage_in_range (storage_into (storage_of_dto sd))) _ _ storage_from_range Es k sd Ek).
    done.
Qed.

Section provider.
Context (hash_iter : ∀ A, gmap string A → list (string * A)).
Context (iter_ok : ∀ A (m : gmap string A), hash_iter A m ≡ₚ map_to_list m).

Lemma container_read_back c : container_in_range c →
  api_container_from_value (api_container_to_value hash_iter c) = Some c.
Proof.
  destruct c as [count results storage store]. intros [Hc Hs]. cbn in Hc, Hs.
  unfold api_container_from_value, api_container_to_value. cbn [ac_query_host_count ac_results
    ac_storage ac_default_store]. read_struct.
  change (field _ "queryHostCount") with (Some (VNumber (NPos count))).
  change (field _ "results") with (Some (map_to_value hash_iter api_config_to_value results)).
  change (field _ "storage") with (Some (map_to_value hash_iter api_storage_to_value storage)).
  change (field _ "defaultStore") with (Some (VString store)). cbn [mbind option_bind as_str].
  rewrite as_unsigned_written by done. cbn [mbind option_bind].
  rewrite (map_read_back hash_iter iter_ok api_config_from_value) by apply config_read_back. cbn [mbind option_bind].
  rewrite (map_read_back_values hash_iter iter_ok); [done|].
  eapply map_Forall_impl; [exact Hs|]. intros k s. apply storage_read_back.
Qed.

Lemma request_read_back {A} (f : value → option A) (g : A → value) r :
  f (g (rr_spec _ r)) = Some (rr_spec _ r) →
  resource_request_from_value f (resource_request_to_value g r) = Some r.
Proof.
  destruct r as [rid spec]. cbn [rr_spec]. intros H. unfold resource_request_from_value,
    resource_request_to_value. cbn [rr_id rr_spec].
  read_struct.
  change (field _ "id") with (Some (VString rid)). change (field _ "spec") with (Some (g spec)).
  cbn [mbind option_bind as_str]. by rewrite H.
Qed.

(** *** Statuses *)

Lemma btree_read_back (m : btree string) : jsorted m = true →
  read_btree as_str (VObject (map (λ kv, (kv.1, VString kv.2)) m)) = Some m.
Proof.
  intros Hm. unfold read_btree. rewrite (entries_written as_str VString).
  - cbn. by rewrite jobject_id.
  - by apply list.Forall_forall.
Qed.

Definition messages_sorted (o : option (btree string)) : Prop := ∀ m, o = Some m → jsorted m = true.

Lemma messages_read_back m k o : jget k m = Some (messages_to_value o) → messages_sorted o →
  opt_field (read_btree as_str) m k = Some o.
Proof.
  intros Hm Ho. unfold opt_field, field. rewrite Hm. destruct o as [b|]; [|done].
  unfold messages_to_value, of_option. by rewrite btree_read_back by by apply Ho.
Qed.

Lemma source_status_read_back s : messages_sorted (sst_messages s) →
  api_source_status_from_value (api_source_status_to_value s) = Some s.
Proof.
  destruct s as [available messages url]. cbn [sst_messages rst_messages]. intros Hm.
  unfold api_source_status_from_value, api_source_status_to_value.
  cbn [sst_available sst_messages sst_ingress_url]. read_struct.
  change (field _ "available") with (Some (VBool available)). cbn [mbind option_bind as_bool].
  rewrite (messages_read_back _ "messages" messages) by done. cbn [mbind option_bind].
  by rewrite (opt_field_of as_str VString _ "ingress_url" url).
Qed.

Lemma reaction_status_read_back s : messages_sorted (rst_messages s) →
  api_reaction_status_from_value (api_reaction_status_to_value s) = Some s.
Proof.
  destruct s as [available messages url]. cbn [sst_messages rst_messages]. intros Hm.
  unfold api_reaction_status_from_value, api_reaction_status_to_value.
  cbn [rst_available rst_messages rst_ingress_url]. read_struct.
  change (field _ "available") with (Some (VBool available)). cbn [mbind option_bind as_bool].
  rewrite (messages_read_back _ "messages" messages) by done. cbn [mbind option_bind].
  by rewrite (opt_field_of as_str VString _ "ingress_url" url).
Qed.

Lemma container_status_read_back s : messages_sorted (qcs_messages s) →
  api_container_status_from_value (api_container_status_to_value s) = Some s.
Proof.
  destruct s as [available messages]. cbn [qcs_messages]. intros Hm.
  unfold api_container_status_from_value, api_container_status_to_value.
  cbn [qcs_available qcs_messages]. read_struct.
  change (field _ "available") with (Some (VBool available)). cbn [mbind option_bind as_bool].
  by rewrite (messages_read_back _ "messages" messages).
Qed.

(** C23: What the management API sends to a resource provider is what the
    provider reads, in whatever order its maps are iterated in: every source and
    every reaction with its services, endpoints, properties, identity and queries,
    and every query container that a client could submit, whose numbers fit their
    widths.  The statuses that travel back are read as the provider wrote them. *)
Theorem resources_reach_provider rid :
  (∀ s : ApiSourceSpec,
    resource_request_from_value api_source_from_value (resource_request_to_value
      (api_source_to_value hash_iter) (mkResourceRequest rid s)) = Some (mkResourceRequest rid s)) ∧
  (∀ r : ApiReactionSpec,
    resource_request_from_value api_reaction_from_value (resource_request_to_value
      (api_reaction_to_value hash_iter) (mkResourceRequest rid r)) = Some (mkResourceRequest rid r)) ∧
  (∀ v d (c : QueryContainerSpec) (api : ApiQueryContainerSpec),
    container_from_value v = Some d → into d = Some c → into c = Some api →
    resource_request_from_value api_container_from_value (resource_request_to_value
      (api_container_to_value hash_iter) (mkResourceRequest rid api)) =
    Some (mkResourceRequest rid api)) ∧
  (∀ s, messages_sorted (sst_messages s) →
    api_source_status_from_value (api_source_status_to_value s) = Some s) ∧
  (∀ s, messages_sorted (rst_messages s) →
    api_reaction_status_from_value (api_reaction_status_to_value s) = Some s) ∧
  (∀ s, messages_sorted (qcs_messages s) →
    api_container_status_from_value (api_container_status_to_value s) = Some s).
Proof.
  split_and!.
  - intros s. apply request_read_back. by apply source_read_back.
  - intros r. apply request_read_back. by apply reaction_read_back.
  - intros v d c api Hv Hd Hc. apply request_read_back, container_read_back.
    by eapply container_from_range.
  - apply source_status_read_back.
  - apply reaction_status_read_back.
  - apply container_status_read_back.
Qed.
End provider.

(** A container with two stores and a secret. *)
Definition sample_container : value :=
  VObject [("queryHostCount", VNumber (NPos 3)); ("defaultStore", VString "cache");
    ("results", VObject [("queue", VString "redis")]);
    ("storage", VObject [
      ("cache", VObject [("kind", VString "redis"); ("cacheSize", VNumber (NPos 10));
         ("connectionString", VObject [("kind", VString "Secret"); ("name", VString "creds");
           ("key", VString "url")])]);
      ("disk", VObject [("kind", VString "rocksDb")])])]%string.

Lemma resources_reach_provider_witness :
  ∃ d (c : QueryContainerSpec) (api : ApiQueryContainerSpec),
    container_from_value sample_container = Some d ∧ into d = Some c ∧ into c = Some api ∧
    ac_query_host_count api = 3%Z ∧
    resource_request_from_value api_container_from_value (resource_request_to_value
      (api_container_to_value (λ A, map_to_list)) (mkResourceRequest "qc"%string api)) =
    Some (mkResourceRequest "qc"%string api).
Proof.
  destruct (container_from_value sample_container) as [d|] eqn:E; [|by vm_compute in E].
  destruct (into (A := QueryContainerSpecDto) (B := QueryContainerSpec) d) as [c|] eqn:Ec; [|done].
  destruct (into (A := QueryContainerSpec) (B := ApiQueryContainerSpec) c) as [api|] eqn:Ea; [|done].
  exists d, c, api. split_and!; [done..| |].
  - injection Ea as <-. injection Ec as <-. cbn.
    assert (Hn : dqc_query_host_count <$> container_from_value sample_container = Some 3%Z)
      by by vm_compute.
    rewrite E in Hn. by injection Hn.
  - eapply (resources_reach_provider (λ A, map_to_list) (λ A m, reflexivity _)); done.
Defined.
