(* ===== verification/ApiHandlers.v ===== *)
(** * ApiHandlers: the management API's HTTP handlers
    ([mgmt_api/src/api/mod.rs] and [api/v1/mod.rs])

    actix parses the request's body and parameters before a handler runs. *)
From S2P Require Import Prelude BTree Json Effects MgmtModels Mappings ResourceRepo ResourceService.
From S2P Require Import ApiDto ApiWire.

(** ** The registered kinds of sources and reactions
    ([domain/resource_provider_services]) *)

(** A provider is stored as it is; the source and the reaction services are the
    same code over two collections. *)

(** [Value::as_object().unwrap()]: [None] when it panics. *)
Definition add_kind_field_to_schema (schema : value) : option (result value DomainError) :=
  schema ← as_object schema;
  Some (Ok (VObject (jset "kind" (VObject [("type"%string, VString "string")]) schema))).

Section provider_service.
Context {D : Type} `{Bson D ProviderSpec}.
Notation P := (prog (mongo_call D)).

(** [SchemaValidator]; the two services have none. *)
Context (validators : list (ProviderSpec → P (result unit DomainError))).

Definition provider_set (id : string) (registration : ProviderSpec) : P (result ProviderSpec DomainError) :=
  r ← for_try validators (λ v, v registration);
  match r with
  | Err e => mret (Err e)
  | Ok _ =>
      r ← repo_set id registration;
      match r with
      | Err e => mret (Err e)
      | Ok _ => mret (Ok registration)
      end
  end.

Definition provider_get (id : string) : P (result (ResourceProvider ProviderSpec) DomainError) :=
  r ← repo_get id;
  match r with
  | Err e => mret (Err e)
  | Ok spec => mret (Ok (mkResourceProvider id spec))
  end.

Definition provider_delete (id : string) : P (result unit DomainError) :=
  r ← repo_delete id;
  match r with
  | Ok _ => mret (Ok ())
  | Err e => mret (Err (InternalError (domain_error_to_string e)))
  end.

Definition provider_list : P (result (list (ResourceProvider ProviderSpec)) DomainError) :=
  items ← repo_list;
  mret (Ok (map (λ item, mkResourceProvider item.1 item.2) items)).
End provider_service.

(** [new] of both services: no validators. *)
Definition provider_validators {D : Type} : list (ProviderSpec → prog (mongo_call D) (result unit DomainError)) := [].


(** ** Responses *)

Inductive Body :=
| EmptyBody
| TextBody (text : string)
| JsonBody (v : value).

Record HttpResponse := mkResponse { status : Z; body : Body }.

Definition ok_json (v : value) : HttpResponse := mkResponse 200 (JsonBody v).

(** [impl From<DomainError> for HttpResponse] *)
Definition error_response (e : DomainError) : HttpResponse :=
  match e with
  | NotFound => mkResponse 404 (TextBody "Resource not found")
  | Invalid message => mkResponse 400 (TextBody message)
  | QueryContainerOffline => mkResponse 503 (TextBody "Query container is offline")
  | UndefinedSetting message => mkResponse 400 (TextBody ("Undefined setting: " +:+ message))
  | InvalidSpec message => mkResponse 400 (TextBody message)
  | JsonParseError message => mkResponse 400 (TextBody message)
  | _ => mkResponse 500 (TextBody "Internal server error")
  end.

(** ** Resources *)

(** [trait ResourceDomainService] *)
Record DomainService (E : Type → Type) (TSpec TStatus : Type) := mkDomainService {
  svc_set : string → TSpec → prog E (result (Resource TSpec TStatus) DomainError);
  svc_delete : string → prog E (result unit DomainError);
  svc_get : string → prog E (result (Resource TSpec TStatus) DomainError);
  svc_list : prog E (result (list (Resource TSpec TStatus)) DomainError);
  svc_wait_for_ready : string → Z → prog E (result bool DomainError);
}.
Arguments mkDomainService {E TSpec TStatus}.
Arguments svc_set {E TSpec TStatus}.
Arguments svc_delete {E TSpec TStatus}.
Arguments svc_get {E TSpec TStatus}.
Arguments svc_list {E TSpec TStatus}.
Arguments svc_wait_for_ready {E TSpec TStatus}.

(** The implementations of the trait. *)
Section services.
Context {D TSpec TStatus TApiSpec TApiStatus : Type}.
Context `{Bson D TSpec, Bson D ProviderSpec, Into TSpec TApiSpec, Into TApiStatus TStatus}.

Definition extensible_service (s : Extensible TSpec TStatus)
    : DomainService (service_call D TApiSpec TApiStatus) TSpec TStatus :=
  mkDomainService (ext_set s) (ext_delete s) (ext_get s) (ext_list s) (ext_wait_for_ready s).

Definition standard_service {V} (s : Standard TSpec TStatus V)
    : DomainService (standard_call D TApiSpec TApiStatus V) TSpec TStatus :=
  mkDomainService (std_set s) (λ id, own (std_delete s id)) (λ id, own (std_get s id))
    (own (std_list s)) (λ id time_out, own (std_wait_for_ready s id time_out)).
End services.

Definition default_ready_timeout : Z := 60.

(** [ReadyWaitParams]: the [timeout] of the query string. *)
Definition ready_timeout (timeout : option Z) : Z := default default_ready_timeout timeout.

(** [v1_crud_api!] *)
Section crud.
Context {E : Type → Type} {TSpec TStatus TSpecDto TStatusDto : Type}.
Context `{Into TSpecDto TSpec}.
Context (spec_to_dto : TSpec → TSpecDto) (status_to_dto : TStatus → TStatusDto).
Context (spec_to_value : TSpecDto → value) (status_to_value : TStatusDto → value).
Context (svc : DomainService E TSpec TStatus).

Definition resource_json (r : Resource TSpec TStatus) : value :=
  resource_to_value spec_to_value status_to_value (resource_to_dto spec_to_dto status_to_dto r).

Definition get_resource (id : string) : prog E HttpResponse :=
  r ← svc_get svc id;
  match r with
  | Ok res => mret (ok_json (resource_json res))
  | Err e => mret (error_response e)
  end.

Definition readywait_resource (id : string) (timeout : Z) : prog E HttpResponse :=
  if (300 <? timeout)%Z then
    mret (mkResponse 400 (TextBody "timeout must be less than 5 minutes"))
  else
    r ← svc_wait_for_ready svc id (timeout * one_second);
    match r with
    | Ok true => mret (mkResponse 200 EmptyBody)
    | Ok false => mret (mkResponse 503 EmptyBody)
    | Err e => mret (error_response e)
    end.

Definition put_resource (id : string) (data : TSpecDto) : prog E HttpResponse :=
  match into data with
  | None => Panic unwrap_none
  | Some spec =>
      r ← svc_set svc id spec;
      match r with
      | Ok res => mret (ok_json (resource_json res))
      | Err e => mret (error_response e)
      end
  end.

Definition delete_resource (id : string) : prog E HttpResponse :=
  r ← svc_delete svc id;
  match r with
  | Ok _ => mret (mkResponse 204 EmptyBody)
  | Err e => mret (error_response e)
  end.

Definition list_resources : prog E HttpResponse :=
  r ← svc_list svc;
  match r with
  | Ok res => mret (ok_json (VArray (map resource_json res)))
  | Err e => mret (error_response e)
  end.
End crud.

(** ** Providers: [v1_crud_api_provider!] *)
Section provider_crud.
Context {D : Type} `{Bson D ProviderSpec}.
Context (hash_collect : ∀ A, list (string * A) → list (string * A)).
Notation P := (prog (mongo_call D)).

Definition put_provider (id : string) (data : ProviderSpecDto) : P HttpResponse :=
  let _ := provider_of_dto hash_collect in
  match into data with
  | None => Panic unwrap_none
  | Some spec =>
      r ← provider_set provider_validators id spec;
      match r with
      | Ok res => mret (ok_json (domain_provider_to_value res))
      | Err e => mret (error_response e)
      end
  end.

Definition delete_provider (id : string) : P HttpResponse :=
  r ← provider_delete id;
  match r with
  | Ok _ => mret (mkResponse 204 EmptyBody)
  | Err e => mret (error_response e)
  end.

Definition list_providers : P HttpResponse :=
  r ← provider_list;
  match r with
  | Ok res =>
      mret (ok_json (VArray (map (λ r,
        resource_provider_to_value (resource_provider_to_dto hash_collect r)) res)))
  | Err e => mret (error_response e)
  end.

Definition get_provider (id : string) : P HttpResponse :=
  r ← provider_get id;
  match r with
  | Ok res => mret (ok_json (domain_resource_provider_to_value res))
  | Err e => mret (error_response e)
  end.
End provider_crud.
