(* ===== verification/ApiSpec.v ===== *)
(** * ApiSpec: what the management API's handlers promise their clients *)
From S2P Require Import Prelude BTree Json RustText Effects MgmtModels MergeSpec SpecValidator Mappings.
From S2P Require Import ResourceRepo ResourceService ResourceServiceSpec MgmtServices MgmtServicesSpec.
From S2P Require Import ApiDto ApiWire ApiHandlers.

(** Only a failure of the API itself is answered with 500. *)
Lemma error_response_500 e :
  status (error_response e) = 500%Z ↔ (∃ m, e = InternalError m) ∨ e = Cancelled.
Proof. destruct e; cbn; naive_solver. Qed.

Lemma error_response_not_200 e : status (error_response e) ≠ 200%Z.
Proof. by destruct e. Qed.

Section extensible.
Context {D V : Type}.
Context (compile : value → option V).
Context (check : V → value → result unit (list (string * string))).
Context (keys_of : gmap string ServiceConfig → list string).
Context (keys_of_ok : ∀ m name, name ∈ keys_of m ↔ is_Some (m !! name)).
Context (hash_iter : ∀ A, gmap string A → list (string * A)).
Context `{HS : Bson D SourceSpec, HP : Bson D ProviderSpec}.
Context `{!BsonTotal D SourceSpec}.

Notation source_call := (service_call D ApiSourceSpec SourceStatus).
Notation sources := (source_service compile check keys_of).
Notation source_document :=
  (resource_json source_to_dto source_status_to_dto (source_to_value hash_iter) source_status_to_value).
Notation put_source :=
  (put_resource source_to_dto source_status_to_dto (source_to_value hash_iter) source_status_to_value
     (extensible_service sources : DomainService source_call _ _)).

(** C24: What a client can conclude from the answer to a [PUT] of a source.  200:
    the source conforms to its provider, what was stored is its completion, its
    actor has taken the same specification, and the body shows it.  Any other
    answer but 500: nothing was written, no actor was called, and the source does
    not conform to its provider.  Whatever the answer, the actor is called only
    once the specification is stored, and no handler panics. *)
Theorem put_source_answers id data source :
  into data = Some source →
  under (docs_ok (TSpec:=SourceSpec)) (put_source id data) (λ t o, ∃ resp, o = Done resp ∧
    (status resp = 200%Z → ∃ schema stored api d,
       provider_read t (so_kind source) schema ∧ populate_source source schema = Ok stored ∧
       valid_spec compile check (so_properties stored) (so_services stored) schema ∧
       into stored = Some api ∧ to_document stored = Ok d ∧
       writes t = [(id, with_id (T:=SourceSpec) id d, true)] ∧
       configures t = [("SourceResource"%string, id, mkResourceRequest id api, Ok ())] ∧
       body resp = JsonBody (source_document (mkResource id stored None))) ∧
    (status resp ≠ 200%Z → status resp ≠ 500%Z →
       writes t = [] ∧ configures t = [] ∧
       ∀ schema stored, provider_read t (so_kind source) schema →
         ¬ (populate_source source schema = Ok stored ∧
            valid_spec compile check (so_properties stored) (so_services stored) schema)) ∧
    (configures t ≠ [] → ∃ d, writes t = [(id, with_id (T:=SourceSpec) id d, true)])).
Proof.
  intros Hinto. unfold put_resource. rewrite Hinto. cbn [svc_set extensible_service].
  apply under_bind.
  eapply under_mono; [done| |apply (source_set_checked compile check keys_of keys_of_ok id source)].
  intros t o [(e & -> & Hw & Hc & Hno)|
    (schema & stored & api & d & written & Hp & Ha & Hv & Hi & Hd & Hw & Ho)];
    cbn [under mret prog_ret app].
  - rewrite ?app_nil_r. eexists. split; [done|]. split; [by intros ?%error_response_not_200|done].
  - destruct written; [destruct Ho as ([[]|e] & Hc & ->)|destruct Ho as (Hc & e & ->)];
      cbn; rewrite ?app_nil_r; eexists; (split; [done|]);
      (split; [try done|split; [done|rewrite ?Hw, ?Hc; first [done|intros _; by eexists]]]).
    intros _. exists schema, stored, api, d. by do 7 (split; [done|]).
Qed.

(** How waiting ends: an error, available, or never available in the time. *)
Definition wait_ended timeout (t : list (call source_call)) (o : outcome (result bool DomainError)) : Prop :=
  (∃ e, (e = NotFound ∨ ∃ m, e = InternalError m) ∧ o = Done (Err e) ∧
      ∀ r, list.last (statuses t) = Some r → ¬ is_ready sst_available r) ∨
  (∃ r, o = Done (Ok true) ∧ list.last (statuses t) = Some r ∧ is_ready sst_available r) ∨
  (∃ e, o = Done (Ok false) ∧ Forall (not_ready sst_available) (statuses t) ∧
      list.last (readings t) = Some e ∧ (timeout * one_second ≤ e)%Z).

Lemma source_wait_ends id timeout : (timeout ≤ 300)%Z →
  under (docs_ok (TSpec:=SourceSpec))
    (svc_wait_for_ready (extensible_service sources : DomainService source_call _ _) id (timeout * one_second))
    (λ t o, paced 0 (readings t) → (length (readings t) ≤ 302)%nat ∧ wait_ended timeout t o).
Proof using Type.
  clear keys_of_ok BsonTotal0. intros Et. cbn [svc_wait_for_ready extensible_service].
  eapply under_mono; [done| |apply source_wait_bounded]. intros t o Ho Hp.
  assert (Hfuel : (wait_fuel (timeout * one_second) ≤ 302)%nat).
  { unfold wait_fuel. rewrite Z.div_mul by done. lia. }
  destruct (Ho Hp) as [(e & He & -> & Hs & Hr)|[(l & Hl & H) Hlen]].
  - rewrite Hr. split; [cbn; lia|]. left. exists e. by rewrite Hs.
  - split; [lia|]. destruct H as [(r & Hr & Hs & ->)|[(e & Hs & ->)|(e & Hs & Hlast & Hle & ->)]].
    + right; left. exists r. by rewrite Hs, last_snoc.
    + left. eexists. split; [right; by eexists|]. split; [done|]. rewrite Hs, last_snoc.
      by intros r [= <-] (? & ? & ? & _).
    + right; right. exists e. by rewrite Hs.
Qed.

Lemma not_ready_last l r :
  Forall (not_ready sst_available) l → list.last l = Some r → ¬ is_ready sst_available r.
Proof using Type.
  intros Hl Hlast (st & st' & -> & Hi & Hr). rewrite list.Forall_forall in Hl.
  destruct (Hl (Ok st)) as (st2 & st2' & [= <-] & Hi2 & Hr2); [by apply last_Some_elem_of | congruence].
Qed.

(** C31: Waiting for a source over HTTP takes bounded time: a request for more
    than five minutes is refused before anything is done; otherwise the status is
    looked at, at most 302 times when a second passes in between, until it says
    that the source is available (200), the actor fails (500) or the time is over
    (503) with the source never available; a source that is not stored is 404. *)
Theorem source_ready_wait_bounded id timeout :
  under (docs_ok (TSpec:=SourceSpec))
    (readywait_resource (extensible_service sources : DomainService source_call _ _) id timeout)
    (λ t o,
    ((300 < timeout)%Z ∧ t = [] ∧ ∃ b, o = Done (mkResponse 400 b)) ∨
    (timeout ≤ 300)%Z ∧ (paced 0 (readings t) → (length (readings t) ≤ 302)%nat ∧
      ∃ resp, o = Done resp ∧
        (status resp = 200%Z ↔ ∃ r, list.last (statuses t) = Some r ∧ is_ready sst_available r) ∧
        (status resp = 503%Z → Forall (not_ready sst_available) (statuses t) ∧
           ∃ e, list.last (readings t) = Some e ∧ (timeout * one_second ≤ e)%Z) ∧
        status resp ∈ [200; 404; 500; 503]%Z)).
Proof using Type.
  clear keys_of_ok BsonTotal0. unfold readywait_resource. destruct (300 <? timeout)%Z eqn:Et.
  { apply Z.ltb_lt in Et. left. split; [done|]. split; [done|]. by eexists. }
  apply Z.ltb_ge in Et. apply under_bind.
  eapply under_mono; [done| |by apply source_wait_ends]. intros t o Ho.
  destruct o as [a|w].
  2:{ right. split; [done|]. intros Hp. by destruct (Ho Hp) as [_ [(? & ? & ? & ?)|[(? & ? & ?)|(? & ? & ?)]]]. }
  assert (Hresp : ∃ resp, match a with
    | Ok true => mret (mkResponse 200 EmptyBody)
    | Ok false => mret (mkResponse 503 EmptyBody)
    | Err e => mret (error_response e)
    end = (Ret resp : prog source_call _) ∧
    resp = match a with Ok true => mkResponse 200 EmptyBody | Ok false => mkResponse 503 EmptyBody
      | Err e => error_response e end) by (destruct a as [[]|]; by eexists).
  destruct Hresp as (resp & -> & Hresp). cbn [under]. rewrite !app_nil_r.
  right. split; [done|]. intros Hp. destruct (Ho Hp) as [Hlen H]. split; [done|].
  exists resp. split; [done|].
  destruct H as [(e & He & [= ->] & Hno)|[(r & [= ->] & Hlast & Hr)|(e & [= ->] & Hall & Hlast & Hle)]];
    rewrite Hresp.
  - split; [split; [by intros ?%error_response_not_200|intros (r & Hlast & Hr); by destruct (Hno r)]|].
    split; [by destruct He as [->|[m ->]]|]. destruct He as [->|[m ->]]; cbn; set_solver.
  - split; [split; [intros _; by exists r|done]|]. split; [done|]. cbn. set_solver.
  - split; [split; [done|]|].
    { intros (r & Hl & Hr). by destruct (not_ready_last _ _ Hall Hl). }
    split; [intros _; split; [done|by exists e]|]. cbn. set_solver.
Qed.
End extensible.

Section queries.
Context {D : Type}.
Context `{HS : Bson D QuerySpec, HC : Bson D QueryContainerSpec, HP : Bson D ProviderSpec}.

Notation container_call := (service_call D ApiQueryContainerSpec QueryContainerStatus).
Notation full_call := (standard_call D ApiQuerySpec QueryStatus container_call).
Notation put_query :=
  (put_resource query_to_dto query_status_to_dto query_to_value query_status_to_value
     (standard_service query_service : DomainService full_call _ _)).

(** C28: What a client can conclude from the answer to a [PUT] of a query.  200:
    its container was available, the middleware of its pipelines is defined, it is
    stored and its container's query actor has taken it.  Any other answer but
    500: its container is not available or a pipeline names unknown middleware,
    nothing was written and no actor was called.  Whatever the answer, the actor
    is called only once the query is stored.  The handler panics exactly when the
    query passed the checks and cannot become a document, as with a retention of
    2^63 seconds; then nothing was written and no actor was called. *)
Theorem put_query_answers id data spec :
  into data = Some spec →
  under validation_ok (put_query id data) (λ t o, ∃ checks sets,
    t = map (translate_call (λ X c, Validation c)) checks ++
        map (translate_call (λ X c, Own c)) sets ∧
    writes checks = [] ∧ configures checks = [] ∧
    ((∃ e, to_document (D:=D) spec = Err e ∧ container_available checks (q_container spec) ∧
        pipelines_defined spec ∧ o = Panicked (unwrap_err e) ∧ sets = []) ∨
     ∃ resp, o = Done resp ∧
     (∀ e, to_document (D:=D) spec = Err e →
        ¬ (container_available checks (q_container spec) ∧ pipelines_defined spec)) ∧
     (status resp = 200%Z →
        container_available checks (q_container spec) ∧ pipelines_defined spec ∧ ∃ d r,
        to_document spec = Ok d ∧ writes sets = [(id, with_id (T:=QuerySpec) id d, true)] ∧
        configures sets = [(q_container spec +:+ ".ContinuousQuery", id, r, Ok ())] ∧
        r = mkResourceRequest id (mkApiQuery (q_mode spec) (q_query spec) (q_query_language spec)
          (q_sources spec) (q_storage_profile spec) (q_view spec))) ∧
     (status resp ≠ 200%Z → status resp ≠ 500%Z →
        sets = [] ∧ ¬ (container_available checks (q_container spec) ∧ pipelines_defined spec)) ∧
     (configures sets ≠ [] → ∃ d, writes sets = [(id, with_id (T:=QuerySpec) id d, true)]))).
Proof.
  intros Hinto. unfold put_resource. rewrite Hinto. cbn [svc_set standard_service].
  apply under_bind. eapply under_mono; [done| |apply (query_set_checked id spec)].
  intros t o (checks & sets & -> & Hwc & Hcc & [(e & -> & -> & Hno)|
    (Hav & Hp & [(e & He & -> & ->)|(d & written & Hd & Hw & _ & Ho)])]); cbn [under mret prog_ret].
  - exists checks, []. rewrite app_nil_r. do 3 (split; [done|]). right. exists (error_response e).
    do 2 (split; [done|]). split; [by intros ?%error_response_not_200|]. split; [|done]. done.
  - exists checks, []. do 3 (split; [done|]). left. by exists e.
  - destruct written; [destruct Ho as ([[]|e] & Hc & ->)|destruct Ho as (Hc & e & ->)];
      cbn; rewrite app_nil_r; exists checks, sets; do 3 (split; [done|]); right; eexists;
      (split; [done|]); (split; [intros e' He'; congruence|]);
      (split; [try done|split; [done|rewrite ?Hw, ?Hc; first [done|intros _; by eexists]]]).
    intros _. do 2 (split; [done|]). by eexists d, _.
Qed.
End queries.

(** ** Examples *)

Definition example_hash (A : Type) (m : gmap string A) : list (string * A) := map_to_list m.

Definition example_source_dto : SourceSpecDto := source_to_dto example_source.

Lemma example_source_dto_into : is_Some (into (B:=SourceSpec) example_source_dto).
Proof. apply (bool_decide_unpack _). by vm_compute. Qed.

Lemma put_source_answers_witness :
  ∃ source, into example_source_dto = Some source ∧
  under (docs_ok (TSpec:=SourceSpec))
    (put_resource source_to_dto source_status_to_dto (source_to_value example_hash)
       source_status_to_value
       (extensible_service example_sources
          : DomainService (service_call example_doc ApiSourceSpec SourceStatus) _ _)
       "hr" example_source_dto) (λ t o, ∃ resp, o = Done resp ∧
    (status resp ≠ 200%Z → status resp ≠ 500%Z → writes t = [] ∧ configures t = [])).
Proof.
  destruct example_source_dto_into as [source Hs]. exists source. split; [exact Hs|].
  eapply under_mono; [done| |apply (put_source_answers example_compile example_check example_keys
    example_keys_ok example_hash "hr" example_source_dto source Hs)].
  intros t o (resp & Ho & _ & Hno & _). exists resp. split; [done|].
  intros H1 H2. by destruct (Hno H1 H2) as (? & ? & _).
Defined.

Lemma put_query_answers_witness :
  into (query_to_dto example_query) = Some example_query ∧
  under (validation_ok (D:=example_doc))
    (put_resource query_to_dto query_status_to_dto query_to_value query_status_to_value
       (standard_service query_service
          : DomainService (standard_call example_doc ApiQuerySpec QueryStatus
              (service_call example_doc ApiQueryContainerSpec QueryContainerStatus)) _ _)
       "employees" (query_to_dto example_query)) (λ t o, ∃ resp, o = Done resp).
Proof.
  split; [reflexivity|].
  eapply under_mono; [done| |apply (put_query_answers "employees" (query_to_dto example_query)
    example_query eq_refl)].
  intros t o (checks & sets & _ & _ & _ & [(e & He & _)|(resp & Ho & _)]); [done | by exists resp].
Defined.

(** [bson] has no numbers of 64 bits without a sign: it refuses those that do not
    fit a signed one. *)
Definition signed_bson_query : Bson example_doc QuerySpec := {|
  to_document q :=
    match vs_retention_policy (q_view q) with
    | Expire s => if (s <? 2 ^ 63)%Z then Ok (DocQuery None q)
                  else Err "unsigned integer value was greater than i64::MAX"%string
    | _ => Ok (DocQuery None q)
    end;
  from_document d := match d with DocQuery _ s => Ok s | _ => Err "not a query"%string end;
  with_id := doc_with_id; get_id := doc_id |}.

(** So a query of an accepted form can make the handler that stores it panic. *)
Example long_retention_panics :
  let q := mkQuery (q_container example_query) (q_mode example_query) (q_query example_query)
    (q_query_language example_query) (q_sources example_query) (q_storage_profile example_query)
    (mkView true (Expire (2 ^ 63))) (q_transient example_query) in
  into (query_to_dto q) = Some q ∧
  (repo_set (H:=signed_bson_query) "employees" q : prog (mongo_call example_doc) _) =
    Panic (unwrap_err "unsigned integer value was greater than i64::MAX").
Proof. split; vm_compute; reflexivity. Qed.

(** ** Where the API's answers and its requests do not fit *)

(** A service with a property that is [null] makes the handler panic. *)
Lemma null_property_panics s m k :
  dsvc_properties s = Some m → m !! k = Some None → service_of_dto s = None.
Proof.
  intros Hm Hk. unfold service_of_dto, opt_map_into, map_into. rewrite Hm.
  rewrite decide_False; [done|]. intros H. by destruct (H k None Hk).
Qed.

(** The answer to [PUT] and [GET] of a provider has [configSchema]; a request is
    read with [config_schema], so sending the answer back drops the schema. *)
Lemma provider_answer_loses_schema hash_collect p d :
  provider_from_value hash_collect (domain_provider_to_value p) = Some d →
  dpv_config_schema d = None.
Proof.
  unfold provider_from_value. intros H.
  assert (Hm : struct ["services"; "config_schema"] (domain_provider_to_value p) =
    Some [("services", entries_to_value domain_provider_service_to_value (pv_services p));
      ("configSchema", Json.of_option schema_to_value (pv_config_schema p))]%string) by reflexivity.
  rewrite Hm in H. cbn [mbind option_bind] in H.
  destruct (mbind _ (ViewApi.field _ "services")); [|done]. cbn in H. by injection H as <-.
Qed.
