(* ===== verification/ResultStream.v ===== *)
(** * ResultStream: following a query's results from the management API
    ([mgmt_api/src/domain/result_service.rs], [change_stream/redis_change_stream.rs],
    [watch_query] of [domain/debug_service.rs] and the handler that serves it)

    The events are those the view service reads; the types and their readers are
    the same code.  A stream that is yielded runs only while it is polled: each
    [Emit] hands one event to whoever polls. *)
From S2P Require Import Prelude BTree Json RustText Effects MgmtModels ResourceRepo.
From S2P Require Import ChangeStream ViewApi ViewWorker.

(** ** The events' JSON form, as the API writes it *)

Definition signal_to_value (s : ControlSignal) : value :=
  VObject [("kind"%string, VString (match s with
    | BootstrapStarted => "bootstrapStarted"
    | BootstrapCompleted => "bootstrapCompleted"
    | Running => "running"
    | Stopped => "stopped"
    | QueryDeleted => "deleted"
    end))].

Definition rows_to_value (rows : list jmap) : value := VArray (map VObject rows).

Definition update_to_value (u : UpdatePayload) : value :=
  VObject [("before", of_option VObject (u_before u)); ("after", of_option VObject (u_after u));
    ("grouping_keys", of_option (λ l, VArray (map VString l)) (u_grouping_keys u))]%string.

Definition event_to_value (e : ResultEvent) : value :=
  match e with
  | EvChange c =>
      VObject [("kind", VString "change"); ("queryId", VString (c_query_id c));
        ("sequence", VNumber (NPos (c_sequence c)));
        ("sourceTimeMs", VNumber (NPos (c_source_time_ms c)));
        ("addedResults", rows_to_value (c_added_results c));
        ("updatedResults", VArray (map update_to_value (c_updated_results c)));
        ("deletedResults", rows_to_value (c_deleted_results c));
        ("metadata", of_option VObject (c_metadata c))]%string
  | EvControl c =>
      VObject [("kind", VString "control"); ("queryId", VString (k_query_id c));
        ("sequence", VNumber (NPos (k_sequence c)));
        ("sourceTimeMs", VNumber (NPos (k_source_time_ms c)));
        ("metadata", of_option VObject (k_metadata c));
        ("controlSignal", signal_to_value (k_control_signal c))]%string
  end.

(** An element of a view, as the view service serves it. *)
Definition view_element_from_value (v : value) : option ViewElement :=
  match v with
  | VObject [(k, w)] =>
      m ← as_object w;
      if str_eqb k "header" then
        sequence ← field m "sequence" ≫= as_u64_num;
        timestamp ← field m "timestamp" ≫= as_u64_num;
        state ← opt_field as_str m "state";
        Some (Header sequence timestamp state)
      else if str_eqb k "data" then Some (Data m)
      else None
  | _ => None
  end.

(** ** The stream of the management API *)

Inductive InitialCursor := Beginning | End_.

Definition cursor_start (c : InitialCursor) : string :=
  match c with Beginning => "0" | End_ => "$" end.

Definition new_result_stream (url topic group_id consumer_id : string)
    (buffer_size fetch_batch_size : Z) (initial_cursor : InitialCursor)
    : prog open_call (result RedisChangeStream ChangeStreamError) :=
  client ← trigger (OpenClient url);
  match client with
  | Err e => mret (Err (from_redis_error e))
  | Ok _ =>
      connection ← trigger GetConnection;
      match connection with
      | Err e => mret (Err (from_redis_error e))
      | Ok _ =>
          _ ← trigger (XGroupCreateMkstream topic group_id (cursor_start initial_cursor));
          bg_connection ← trigger GetConnection;
          match bg_connection with
          | Err e => mret (Err (from_redis_error e))
          | Ok _ =>
              _ ← trigger (SpawnFetch topic group_id consumer_id fetch_batch_size buffer_size);
              mret (Ok (mkStream topic group_id None))
          end
      end
  end.

Section deserialize.
Context `{CloudEvents}.
Context (from_value : value → result ResultEvent string).

Definition result_deserialize (message : StreamId) : result ViewMessage ChangeStreamError :=
  let? evt :=
    match sid_map message !! "data"%string with
    | Some (RData data) =>
        match event_from_slice data with
        | Ok data => Ok data
        | Err err =>
            Err (MessageError (sid_id message) ("Failed to deserialize data: " +:+ err))
        end
    | Some ROther => Err (MessageError (sid_id message) "Invalid data type")
    | None => Err (MessageError (sid_id message) "Missing data")
    end in
  match event_data evt with
  | Some (CeJson data) =>
      match from_value data with
      | Ok data =>
          Ok (mkViewMessage (sid_id message) data
                (event_extension evt "tracestate") (event_extension evt "traceparent"))
      | Err err => Err (MessageError (sid_id message) ("Failed to deserialize data: " +:+ err))
      end
  | Some CeOther => Err (MessageError (sid_id message) "Invalid data type")
  | None => Err (MessageError (sid_id message) "Missing data")
  end.
End deserialize.

(** ** Result streams *)

Inductive result_call (D : Type) : Type → Type :=
| RsRepo (X : Type) (c : mongo_call D X) : result_call D X
| RsOpen (X : Type) (c : open_call X) : result_call D X
| RsStream (X : Type) (c : stream_call X) : result_call D X
| GetView (url : string) : result_call D (result bool string)
| NextElement : result_call D (option (result ViewElement string))
| Sleep100 : result_call D unit
| Emit (e : ResultEvent) : result_call D unit.
Arguments RsRepo {D X}.
Arguments RsOpen {D X}.
Arguments RsStream {D X}.
Arguments GetView {D}.
Arguments NextElement {D}.
Arguments Sleep100 {D}.
Arguments Emit {D}.

Record ChangeStreamConfig := mkStreamConfig {
  cs_redis_url : string;
  cs_buffer_size : Z;
  cs_fetch_batch_size : Z;
}.

Section results.
Context {D : Type} `{CloudEvents}.
Context (from_value : value → result ResultEvent string).
Context (stream_config : ChangeStreamConfig).
Notation P := (prog (result_call D)).

Definition open_results (query_id consumer_id : string) (initial_cursor : InitialCursor)
    : P (result RedisChangeStream MgmtModels.DomainError) :=
  cs ← translate (λ X c, RsOpen c) (new_result_stream (cs_redis_url stream_config)
    (query_id +:+ "-results") consumer_id consumer_id (cs_buffer_size stream_config)
    (cs_fetch_batch_size stream_config) initial_cursor);
  match cs with
  | Ok cs => mret (Ok cs)
  | Err err => mret (Err (MgmtModels.InternalError (stream_error_to_string err)))
  end.

(** The stream's methods, as the query host's. *)
Definition result_recv (st : RedisChangeStream)
    : P (result (option ViewMessage) ChangeStreamError * RedisChangeStream) :=
  translate (λ X c, RsStream c) (recv (result_deserialize from_value) st).

Definition result_ack (id : string) (st : RedisChangeStream)
    : P (result unit ChangeStreamError * RedisChangeStream) :=
  translate (λ X c, RsStream c) (ack id st).

(** The loop over the change stream, its first [rounds] turns; whether it was
    left.  Whether an acknowledgement worked is not looked at. *)
Fixpoint result_loop (rounds : nat) (st : RedisChangeStream) : P bool :=
  match rounds with
  | O => mret false
  | S rounds =>
      '(msg, st) ← result_recv st;
      match msg with
      | Err _ => mret true
      | Ok (Some msg) =>
          '(_, st) ← result_ack (vm_id msg) st;
          _ ← trigger (Emit (vm_data msg));
          result_loop rounds st
      | Ok None => _ ← trigger Sleep100; result_loop rounds st
      end
  end.

Definition stream_from_start (rounds : nat) (query_id consumer_id : string)
    : P (result bool MgmtModels.DomainError) :=
  cs ← open_results query_id consumer_id Beginning;
  match cs with
  | Err e => mret (Err e)
  | Ok cs => ended ← result_loop rounds cs; mret (Ok ended)
  end.

Definition row_event (query_id : string) (data : jmap) : ResultEvent :=
  EvChange (mkChange query_id 0 0 [data] [] [] None).

(** The snapshot's loop; whether the snapshot was read to its end. *)
Fixpoint snapshot_loop (rounds : nat) (query_id : string) : P bool :=
  match rounds with
  | O => mret false
  | S rounds =>
      item ← trigger NextElement;
      match item with
      | None => mret true
      | Some (Ok (Data data)) =>
          _ ← trigger (Emit (row_event query_id data));
          snapshot_loop rounds query_id
      | Some _ => snapshot_loop rounds query_id
      end
  end.

Definition snapshot_stream_from_now (rounds : nat) (query_container_id query_id consumer_id : string)
    : P (result bool MgmtModels.DomainError) :=
  r ← trigger (GetView ("http://" +:+ query_container_id +:+ "-view-svc/" +:+ query_id));
  match r with
  | Err e => mret (Err (MgmtModels.InternalError e))
  | Ok false => mret (Err (MgmtModels.InternalError "Error getting view"))
  | Ok true =>
      cs ← open_results query_id consumer_id End_;
      match cs with
      | Err e => mret (Err e)
      | Ok cs =>
          read ← snapshot_loop rounds query_id;
          match read with
          | true => ended ← result_loop rounds cs; mret (Ok ended)
          | false => mret (Ok false)
          end
      end
  end.

Context `{Bson D MgmtModels.QuerySpec}.

Definition watch_query (rounds : nat) (uuid query_id : string)
    : P (result bool MgmtModels.DomainError) :=
  let consumer_id := "debug-" +:+ uuid in
  query ← translate (λ X c, RsRepo c) (repo_get query_id);
  match query with
  | Err e => mret (Err e)
  | Ok query =>
      snapshot_stream_from_now rounds (MgmtModels.q_container query) query_id consumer_id
  end.
End results.

(** ** The body of the [watch] handler: a JSON array, in chunks *)
Section body.
Context (to_vec : value → result string string).

Fixpoint watch_items (is_first : bool) (events : list ResultEvent) : list (result string string) :=
  match events with
  | [] => []
  | item :: events =>
      match to_vec (event_to_value item) with
      | Ok bytes =>
          (if is_first then [] else [Ok ","%string]) ++ Ok bytes :: watch_items false events
      | Err e => Err e :: watch_items is_first events
      end
  end.

Definition watch_body (events : list ResultEvent) (ended : bool) : list (result string string) :=
  Ok "["%string :: watch_items true events ++ (if ended then [Ok "]"%string] else []).
End body.

(** ** What a watcher sees *)

Section spec.
Context {D : Type} `{CloudEvents} `{Bson D MgmtModels.QuerySpec}.
Context (from_value : value → result ResultEvent string).
Context (stream_config : ChangeStreamConfig).
Notation trace := (list (call (result_call D))).
Notation decode := (result_deserialize from_value).

(** The entries taken from the change stream. *)
Definition entry_of (c : call (result_call D)) : option StreamId :=
  match c with
  | @Call _ X e x =>
      match e in result_call _ X return X → _ with
      | RsStream c => λ x,
          match c in stream_call X return X → _ with RxRecv => λ x, x | _ => λ _, None end x
      | _ => λ _, None
      end x
  end.

(** The acknowledgements sent, and whether Redis took them. *)
Definition acked_of (c : call (result_call D)) : option (string * bool) :=
  match c with
  | @Call _ X e x =>
      match e in result_call _ X return X → _ with
      | RsStream c => λ x,
          match c in stream_call X return X → _ with
          | XAck _ _ id => λ r, Some (id, is_ok r)
          | _ => λ _, None
          end x
      | _ => λ _, None
      end x
  end.

(** The rows of the snapshot. *)
Definition row_of (c : call (result_call D)) : option jmap :=
  match c with
  | @Call _ X e x =>
      match e in result_call _ X return X → _ with
      | NextElement => λ x, match x with Some (Ok (Data row)) => Some row | _ => None end
      | _ => λ _, None
      end x
  end.

Definition emitted_of (c : call (result_call D)) : option ResultEvent :=
  match c with
  | @Call _ X e x =>
      match e in result_call _ X return X → _ with Emit e => λ _, Some e | _ => λ _, None end x
  end.

Lemma decode_id x m : decode x = Ok m → vm_id m = sid_id x.
Proof.
  unfold result_deserialize. intros (evt & _ & H1)%result_bind_Ok.
  destruct (event_data evt) as [[v|]|]; [|done..].
  destruct (from_value v); [|done]. by injection H1 as <-.
Qed.

Definition decodes_to (x : StreamId) (e : ResultEvent) : Prop :=
  ∃ m, decode x = Ok m ∧ vm_data m = e.

(** How often the entries are handed on, each time with whether its
    acknowledgement was taken: in order, each one again and again until it was. *)
Inductive served : list StreamId → list (StreamId * bool) → Prop :=
| served_nil : served [] []
| served_taken x good l : served good l → served (x :: good) ((x, true) :: l)
| served_again x good l : served (x :: good) l → served (x :: good) ((x, false) :: l)
| served_refused x : served [x] [(x, false)].

(** When Redis takes every acknowledgement, each entry is handed on once. *)
Lemma served_once good l : served good l → Forall (λ p, p.2 = true) l → l.*1 = good.
Proof.
  induction 1 as [|x good l Hs IH|x good l Hs IH|x]; intros Ht; [done|..];
    apply list.Forall_cons in Ht as [Hx Ht]; [|done|done].
  rewrite fmap_cons. cbn. by rewrite IH.
Qed.

(** No entry is left out. *)
Lemma served_all good l x : served good l → x ∈ good → x ∈ l.*1.
Proof.
  induction 1 as [|y good l Hs IH|y good l Hs IH|y]; intros Hx; [done| | |exact Hx].
  - apply list.elem_of_cons in Hx as [->|Hx]; [by left|right; by apply IH].
  - right. by apply IH.
Qed.

(** What the loop over the change stream does with an entry whose acknowledgement
    was refused, and those that follow: each is acknowledged and handed on, in
    order; the first that cannot be read ends it. *)
Definition followed (refused : option StreamId) (t : trace) (o : outcome bool) : Prop :=
  ∃ ended good bad l, o = Done ended ∧ observe entry_of t = good ++ bad ∧
    match refused with
    | None => served good l
    | Some x => served (x :: good) l ∨ (good = [] ∧ bad = [] ∧ l = [])
    end ∧
    Forall2 decodes_to l.*1 (observe emitted_of t) ∧
    observe acked_of t = map (λ p, (sid_id p.1, p.2)) l ∧
    Forall (λ x, is_ok (decode x) = false) bad ∧ (length bad ≤ 1)%nat ∧
    (bad ≠ [] → ended = true) ∧ observe row_of t = [].

Lemma followed_nil refused ended : followed refused [] (Done ended).
Proof.
  exists ended, [], [], []. split_and!; [done..| | |done| | | |done].
  - destruct refused; [by right|constructor].
  - constructor.
  - constructor.
  - cbn. lia.
  - done.
Qed.

(** An entry is acknowledged and handed on; the rest goes on from the answer. *)
Lemma followed_entry x m taken refused (t : trace) o topic group (r : result Z RedisError) u :
  decode x = Ok m → taken = is_ok r → followed (if taken then None else Some x) t o →
  ∀ t', t' = Call (RsStream (XAck topic group (sid_id x))) r :: Call (Emit (vm_data m)) u :: t →
  match refused with
  | None => followed None (Call (RsStream RxRecv) (Some x) :: t') o
  | Some y => y = x → followed (Some x) t' o
  end.
Proof.
  intros Hx -> (ended & good & bad & l & -> & He & Hs & Hd & Ha & Hb & Hl & Hend & Hr) t' ->.
  assert (∃ l', l' = (x, is_ok r) :: l ∧ (served (x :: good) l')) as (l' & Hl' & Hs').
  { eexists. split; [done|]. destruct r as [n|e]; cbn in *; [by constructor|].
    destruct Hs as [Hs|(-> & -> & ->)]; by constructor. }
  assert (Forall2 decodes_to l'.*1 (vm_data m :: observe emitted_of t)) as Hd'.
  { rewrite Hl'. constructor; [by exists m|done]. }
  destruct refused as [y|]; [intros ->|].
  - exists ended, good, bad, l'. unfold observe in *. cbn. rewrite He, Ha.
    split_and!; try done; [|by rewrite Hl']. by left.
  - exists ended, (x :: good), bad, l'. unfold observe in *. cbn. rewrite He, Ha.
    split_and!; try done. by rewrite Hl'.
Qed.

Lemma result_loop_follows rounds topic group refused :
  match refused with Some x => is_ok (decode x) = true | None => True end →
  always (result_loop from_value rounds (mkStream topic group refused)) (followed refused).
Proof.
  revert refused. induction rounds as [|rounds IH]; intros refused Hx; [apply followed_nil|].
  cbn [result_loop].
  assert (∀ x m, decode x = Ok m → always
    ('(_, st) ← result_ack (vm_id m) (mkStream topic group (Some x)); _ ← trigger (Emit (vm_data m));
     result_loop from_value rounds st) (λ t o, ∃ r u t', followed (if is_ok r then None else Some x) t' o ∧
       t = Call (RsStream (XAck topic group (sid_id x))) r :: Call (Emit (vm_data m)) u :: t')) as Hack.
  { intros x m Hm. rewrite (decode_id _ _ Hm). unfold result_ack, ack. cbn [rs_unack_item].
    rewrite str_eqb_refl. cbn. intros [n|err] _; cbn; intros u _;
      (eapply under_mono; [done| |apply IH; by rewrite ?Hm]);
      intros t o Ht; [by exists (Ok n), u, t | by exists (Err err), u, t]. }
  destruct refused as [x|].
  - destruct (decode x) as [m|e] eqn:Hm; [|done]. unfold result_recv, recv. cbn [rs_unack_item].
    rewrite Hm. eapply under_mono; [done| |exact (Hack x m Hm)].
    intros t o (r & u & t' & Ht & ->). by apply (followed_entry x m (is_ok r) (Some x) t' o topic group r u).
  - intros [x|] _; cbn.
    2:{ intros u _. eapply under_mono; [done| |by apply (IH None)].
        intros t o (ended & good & bad & l & Ht). by exists ended, good, bad, l. }
    destruct (decode x) as [m|e] eqn:Hm; cbn.
    2:{ exists true, [], [x], []. split_and!; try done; try constructor; [by rewrite Hm|constructor]. }
    eapply under_mono; [done| |exact (Hack x m Hm)].
    intros t o (r & u & t' & Ht & ->). by apply (followed_entry x m (is_ok r) None t' o topic group r u).
Qed.

Lemma snapshot_loop_rows rounds query_id :
  always (snapshot_loop (D:=D) rounds query_id) (λ t o, ∃ read, o = Done read ∧
    observe emitted_of t = map (row_event query_id) (observe row_of t) ∧
    observe entry_of t = [] ∧ observe acked_of t = []).
Proof.
  induction rounds as [|rounds IH]; [by exists false|]. cbn [snapshot_loop].
  intros [[[s ts st|row]|err]|] _; cbn; [| | |by exists true].
  - exact IH.
  - intros [] _. eapply under_mono; [done| |exact IH].
    intros t o (read & -> & He & Hn & Ha). exists read. unfold observe in *. cbn. by rewrite He.
  - exact IH.
Qed.

(** Opening the change stream touches no entry. *)
Lemma open_results_quiet query_id consumer_id cursor :
  always (open_results (D:=D) stream_config query_id consumer_id cursor) (λ t o,
    observe emitted_of t = [] ∧ observe entry_of t = [] ∧ observe acked_of t = [] ∧
    observe row_of t = [] ∧
    ((∃ e, o = Done (Err e)) ∨ ∃ topic group, o = Done (Ok (mkStream topic group None)))).
Proof.
  assert (Herr : ∀ t e, observe emitted_of t = [] → observe entry_of t = [] →
    observe acked_of t = [] → observe row_of t = [] →
    observe emitted_of t = [] ∧ observe entry_of t = [] ∧ observe acked_of t = [] ∧
    observe row_of t = [] ∧
    ((∃ e', (Done (Err e) : outcome (result RedisChangeStream MgmtModels.DomainError)) = Done (Err e'))
      ∨ ∃ topic group, Done (Err e) = Done (Ok (mkStream topic group None)))).
  { intros t e He Hn Ha Hr. do 4 (split; [done|]). left. by exists e. }
  intros client _. destruct client as [u|e]; [|by apply Herr].
  intros conn _. destruct conn as [u1|e]; [|by apply Herr].
  intros created _ bg _. destruct bg as [u2|e]; [|by apply Herr].
  intros u3 _. do 4 (split; [done|]). right. by eexists _, _.
Qed.

(** What a watcher gets: the rows of the snapshot, then the results of the
    stream, in order, until one of them cannot be read; each result is
    acknowledged and handed on until its acknowledgement was taken, so once when it
    was taken at once.  Nothing when watching could not start. *)
Definition watch_outcome (query_id : string) (t : trace) (r : result bool MgmtModels.DomainError) : Prop :=
  ∃ good bad l later,
    observe entry_of t = good ++ bad ∧ served good l ∧ Forall2 decodes_to l.*1 later ∧
    observe emitted_of t = map (row_event query_id) (observe row_of t) ++ later ∧
    observe acked_of t = map (λ p, (sid_id p.1, p.2)) l ∧
    Forall (λ x, is_ok (decode x) = false) bad ∧ (length bad ≤ 1)%nat ∧
    (bad ≠ [] → r = Ok true) ∧ (is_ok r = false → observe emitted_of t = []).

Lemma watch_outcome_quiet query_id t r :
  observe entry_of t = [] → observe acked_of t = [] →
  observe emitted_of t = map (row_event query_id) (observe row_of t) →
  (is_ok r = false → observe emitted_of t = []) → watch_outcome query_id t r.
Proof.
  intros Hn Ha He Hno. exists [], [], [], []. rewrite !app_nil_r.
  split; [done|]. split; [constructor|]. split; [by apply Forall2_nil|]. do 2 (split; [done|]).
  split; [by apply List.Forall_nil|]. split; [cbn; lia|done].
Qed.

Lemma snapshot_follows rounds container query_id consumer_id :
  under anything
    (snapshot_stream_from_now (D:=D) from_value stream_config rounds container query_id consumer_id)
    (λ t o, ∃ r, o = Done r ∧ watch_outcome query_id t r).
Proof.
  unfold snapshot_stream_from_now. apply under_call. intros answer _.
  destruct answer as [[]|e]; [|eexists; (split; [done|]); by apply watch_outcome_quiet..].
  apply under_bind. eapply under_mono; [done| |apply open_results_quiet].
  intros t1 o1 (He1 & Hn1 & Ha1 & Hr1 & [[e ->]|(topic & group & ->)]); cbn [under mret prog_ret].
  { rewrite app_nil_r. eexists. split; [done|]. apply watch_outcome_quiet; unfold observe in *; cbn; by rewrite ?He1, ?Hn1, ?Ha1, ?Hr1. }
  apply under_bind. eapply under_mono; [done| |apply snapshot_loop_rows].
  intros t2 o2 (read & -> & He2 & Hn2 & Ha2). destruct read.
  2:{ cbn. rewrite app_nil_r. eexists. split; [done|]. apply watch_outcome_quiet; unfold observe in *; cbn;
        by rewrite ?omap_app, ?He1, ?Hn1, ?Ha1, ?Hr1, ?Hn2, ?Ha2, ?He2. }
  apply under_bind. eapply under_mono; [done| |by apply (result_loop_follows _ _ _ None)].
  intros t3 o3 (ended & good & bad & l & -> & He3 & Hg & Hd & Ha3 & Hb & Hl & Hend & Hr3).
  cbn. rewrite app_nil_r. exists (Ok ended). split; [done|].
  exists good, bad, l, (observe emitted_of t3). unfold observe in *. cbn.
  rewrite !omap_app, He1, Hn1, Ha1, Hr1, Hn2, Ha2, He2, He3, Ha3, Hr3. cbn.
  rewrite app_nil_r. split_and!; try done. intros Hbad. f_equal. by apply Hend.
Qed.

Lemma append_text_assoc (a b c : string) : (a +:+ b) +:+ c = a +:+ (b +:+ c).
Proof. induction a as [|x a IH]; [done|]. change (String x ((a +:+ b) +:+ c) = String x (a +:+ (b +:+ c))). by rewrite IH. Qed.

(** The text of a complete body. *)
Lemma watch_items_text (text : value → string) to_vec is_first events :
  (∀ v, to_vec v = Ok (text v)) →
  foldr (λ c acc, match c with Ok b => b +:+ acc | Err _ => acc end) "]"%string
    (watch_items to_vec is_first events) =
  ((if is_first then EmptyString else match events with [] => EmptyString | _ => "," end) +:+
   join "," (map (λ e, text (event_to_value e)) events) +:+ "]")%string.
Proof.
  intros Htext. revert is_first. induction events as [|e events IH]; intros is_first.
  { by destruct is_first. }
  cbn [watch_items]. rewrite Htext, foldr_app. cbn [foldr]. rewrite (IH false).
  destruct is_first, events as [|e' events]; cbn; by rewrite ?append_text_assoc.
Qed.

Lemma read_query_quiet query_id :
  always (translate (λ X c, RsRepo c) (repo_get query_id)
      : prog (result_call D) (result MgmtModels.QuerySpec _)) (λ t _,
    observe emitted_of t = [] ∧ observe entry_of t = [] ∧ observe acked_of t = [] ∧
    observe row_of t = []).
Proof.
  intros answer _. destruct answer as [[doc|]|e]; cbn; [destruct (from_document doc)|..]; done.
Qed.

End spec.

(** ** An example: two results, the first acknowledgement refused, then an entry
    that cannot be read *)

Definition example_events : CloudEvents := {|
  Event := string;
  event_from_slice s := Ok s;
  event_data s := Some (CeJson (VString s));
  event_extension _ _ := None;
|}.

Definition example_from_value (v : value) : result ResultEvent string :=
  match v with
  | VString "broken" => Err "not a result"%string
  | VString s => Ok (EvChange (mkChange s 1 2 [] [] [] None))
  | _ => Err "not a result"%string
  end.

Definition example_watched : MgmtModels.QuerySpec :=
  MgmtModels.mkQuery "default" "query" "MATCH (n) RETURN n" None (MgmtModels.mkSources [] [] [])
    None (MgmtModels.mkView true MgmtModels.Latest) None.

Definition example_documents : Bson unit MgmtModels.QuerySpec := {|
  to_document _ := Ok ();
  from_document _ := Ok example_watched;
  with_id _ d := d;
  get_id _ := Ok "q"%string;
|}.

Definition example_entry (id data : string) : StreamId :=
  mkStreamId id {["data"%string := RData data]}.

(** What the rest of the system has left to answer: the view's rows, the entries
    of the stream and whether the next acknowledgements are taken. *)
Record to_answer := mkToAnswer {
  w_rows : list jmap;
  w_entries : list StreamId;
  w_acks : list bool;
}.

Definition on_stream X (c : stream_call X) (s : to_answer) : X * to_answer :=
  match c in stream_call X return X * to_answer with
  | RxRecv =>
      match w_entries s with
      | x :: l => (Some x, mkToAnswer (w_rows s) l (w_acks s))
      | [] => (None, s)
      end
  | XAck _ _ _ =>
      match w_acks s with
      | taken :: l => (if taken then Ok 1%Z else Err (Build_RedisError true None),
          mkToAnswer (w_rows s) (w_entries s) l)
      | [] => (Ok 1%Z, s)
      end
  | XGroupDelConsumer _ _ _ => (Ok 1%Z, s)
  | CancelNotifyOne => ((), s)
  end.

Definition on_watch X (c : result_call unit X) (s : to_answer) : X * to_answer :=
  match c in result_call _ X return X * to_answer with
  | RsRepo c =>
      (match c in mongo_call _ X return X with
       | FindOne _ => Ok (Some ()) | ReplaceOne _ _ => Ok () | DeleteOne _ => Ok () | Find => Ok []
       end, s)
  | RsOpen c =>
      (match c in open_call X return X with
       | OpenClient _ => Ok () | GetConnection => Ok ()
       | XGroupCreateMkstream _ _ _ => Ok "OK"%string | SpawnFetch _ _ _ _ _ => ()
       end, s)
  | RsStream c => on_stream _ c s
  | GetView _ => (Ok true, s)
  | NextElement =>
      match w_rows s with
      | row :: l => (Some (Ok (Data row)), mkToAnswer l (w_entries s) (w_acks s))
      | [] => (None, s)
      end
  | Sleep100 => ((), s)
  | Emit _ => ((), s)
  end.

Definition example_watch : to_answer :=
  mkToAnswer [ [("n"%string, VString "1")] ]
    [example_entry "1-0" "first"; example_entry "2-0" "second"; example_entry "3-0" "broken"]
    [false; true; true].

