(* ===== verification/DebugSocket.v ===== *)
(** * DebugSocket: debugging a query over a WebSocket
    ([debug_handlers] of [mgmt_api/src/api/v1/mod.rs])

    The session, the client's messages and the debugging stream are reached by
    calls.  A loop that lasts as long as the session takes the number of its
    first rounds. *)
From S2P Require Import Prelude BTree Json Effects MgmtModels Mappings ApiDto ApiWire.

Inductive CloseCode := CodeInvalid | CodeError.

(** A message of the client, or the failure to read one. *)
Inductive ws_message :=
| WsText (text : string)
| WsPing (bytes : string)
| WsPong
| WsClose
| WsOther.

(** The text of an item of the stream: an event as [to_string] writes it, when it
    does, or an error. *)
Inductive stream_event :=
| EvtOk (json : result string string)
| EvtErr (e : DomainError).

(** What the [select!] of the main loop sees first. *)
Inductive ws_selected :=
| TenSeconds
| ClientMsg (msg : option (result ws_message string))
| StreamEvt (evt : option stream_event).

Inductive ws_call : Type → Type :=
| NextMsg : ws_call (option (result ws_message string))
| SessionText (text : string) : ws_call (result unit unit)
| SessionPing : ws_call (result unit unit)
| SessionPong (bytes : string) : ws_call (result unit unit)
| SessionClose (reason : option (CloseCode * option string)) : ws_call (result unit unit)
| SvcDebug (spec : QuerySpec) : ws_call (result unit DomainError)
| WsSelect : ws_call ws_selected
| CancelSend : ws_call (result unit unit)
| DrainNext : ws_call (option stream_event).

(** [serde_json]: parsing a text, with its error, and writing one. *)
Section socket.
Context (parse : string → result value string).
Context (spec_error : value → string).
Context (to_json_text : value → string).
Notation P := (prog ws_call).

(** [serde_json::from_str::<QuerySpecDto>] *)
Definition query_from_str (text : string) : result QuerySpecDto string :=
  match parse text with
  | Err e => Err e
  | Ok v => match query_from_value v with Some q => Ok q | None => Err (spec_error v) end
  end.

(** [ControlMessage::error(message).to_json()] *)
Definition control_error (message : string) : string :=
  to_json_text (VObject [("kind", VString "error"); ("message", VString message)]%string).

(** How the first loop ends: with a query, without one, or the handler returns. *)
Inductive opening := Opened (q : QuerySpecDto) | NoQuery | Returned | StillOpening.

(** The first loop, its first [rounds] messages. *)
Fixpoint read_query (rounds : nat) : P opening :=
  match rounds with
  | O => mret StillOpening
  | S rounds =>
      msg ← trigger NextMsg;
      match msg with
      | None => mret NoQuery
      | Some (Ok (WsText text)) =>
          match query_from_str text with
          | Ok q => mret (Opened q)
          | Err e =>
              _ ← trigger (SessionText (control_error e));
              _ ← trigger (SessionClose (Some (CodeInvalid, None)));
              mret Returned
          end
      | Some (Ok (WsPing bytes)) =>
          r ← trigger (SessionPong bytes);
          if is_ok r then read_query rounds else mret NoQuery
      | Some (Ok WsPong) => read_query rounds
      | Some (Ok WsClose) => mret Returned
      | Some (Err _) => mret Returned
      | Some (Ok WsOther) => read_query rounds
      end
  end.

(** One round of the main loop: whether it goes on. *)
Definition socket_round : P bool :=
  s ← trigger WsSelect;
  match s with
  | TenSeconds => r ← trigger SessionPing; mret (is_ok r)
  | ClientMsg (Some (Ok (WsPing bytes))) => r ← trigger (SessionPong bytes); mret (is_ok r)
  | ClientMsg (Some (Ok WsPong)) => mret true
  | ClientMsg (Some (Ok _)) => mret false
  | ClientMsg (Some (Err _)) => mret false
  | ClientMsg None => mret false
  | StreamEvt None => mret false
  | StreamEvt (Some (EvtErr e)) =>
      _ ← trigger (SessionText (control_error (domain_error_to_string e)));
      mret true
  | StreamEvt (Some (EvtOk (Err _))) => mret false
  | StreamEvt (Some (EvtOk (Ok json))) => r ← trigger (SessionText json); mret (is_ok r)
  end.

(** Whether the main loop was left within its first [rounds] rounds. *)
Fixpoint socket_loop (rounds : nat) : P bool :=
  match rounds with
  | O => mret false
  | S rounds => go ← socket_round; if (go : bool) then socket_loop rounds else mret true
  end.

(** [while (data_stream.next().await).is_some()] *)
Fixpoint drain (rounds : nat) : P bool :=
  match rounds with
  | O => mret false
  | S rounds =>
      evt ← trigger DrainNext;
      match evt with None => mret true | Some _ => drain rounds end
  end.

(** The session, as far as the rounds take it; whether it has ended. *)
Definition debug_session (rounds : nat) : P bool :=
  query ← read_query rounds;
  match query with
  | StillOpening => mret false
  | Returned => mret true
  | NoQuery =>
      _ ← trigger (SessionClose (Some (CodeInvalid, Some "No query provided"%string)));
      mret true
  | Opened query =>
      match into query with
      | None => Panic "called `Option::unwrap()` on a `None` value"
      | Some spec =>
          r ← trigger (SvcDebug spec);
          match r with
          | Err e =>
              _ ← trigger (SessionText (control_error (domain_error_to_string e)));
              _ ← trigger (SessionClose (Some (CodeError, None)));
              mret true
          | Ok _ =>
              left ← socket_loop rounds;
              if (left : bool) then
                _ ← trigger CancelSend;
                drained ← drain rounds;
                if (drained : bool) then _ ← trigger (SessionClose None); mret true
                else mret false
              else mret false
          end
      end
  end.

(** ** What a session does with the stream it opened *)

Notation trace := (list (call ws_call)).

(** The steps in the life of a debugging stream. *)
Inductive stream_step :=
| StreamOpened (spec : QuerySpec)
| StreamCancelled
| StreamFinished.

(** A stream that gives no further item has finished: its query is removed. *)
Definition step_of (c : call ws_call) : option stream_step :=
  match c with
  | @Call _ X e x =>
      match e in ws_call X return X → _ with
      | SvcDebug spec => λ r, if is_ok r then Some (StreamOpened spec) else None
      | CancelSend => λ _, Some StreamCancelled
      | DrainNext => λ x, match x with None => Some StreamFinished | Some _ => None end
      | _ => λ _, None
      end x
  end.

(** The texts given to the client that worked, and the events' texts. *)
Definition text_of (c : call ws_call) : option (string * bool) :=
  match c with
  | @Call _ X e x =>
      match e in ws_call X return X → _ with
      | SessionText t => λ r, Some (t, is_ok r)
      | _ => λ _, None
      end x
  end.

Definition evt_text (e : stream_event) : option string :=
  match e with
  | EvtOk (Ok json) => Some json
  | EvtOk (Err _) => None
  | EvtErr e => Some (control_error (domain_error_to_string e))
  end.

Definition evt_of (c : call ws_call) : option string :=
  match c with
  | @Call _ X e x =>
      match e in ws_call X return X → _ with
      | WsSelect => λ x, match x with StreamEvt (Some e) => evt_text e | _ => None end
      | _ => λ _, None
      end x
  end.

(** The texts the client sent before the stream was opened. *)
Definition sent_of (c : call ws_call) : option string :=
  match c with
  | @Call _ X e x =>
      match e in ws_call X return X → _ with
      | NextMsg => λ x, match x with Some (Ok (WsText text)) => Some text | _ => None end
      | _ => λ _, None
      end x
  end.

Lemma read_query_steps rounds :
  always (read_query rounds) (λ t o, observe step_of t = [] ∧ observe evt_of t = [] ∧
    ∃ r, o = Done r ∧ match r with
      | Opened q => observe text_of t = [] ∧
          ∃ text, observe sent_of t = [text] ∧ query_from_str text = Ok q
      | _ => True
      end).
Proof.
  induction rounds as [|rounds IH]; [do 2 (split; [done|]); by eexists|]. cbn [read_query].
  intros [[[text|bytes| | |]|err]|] _; cbn; try (do 2 (split; [done|]); by eexists); try exact IH.
  - destruct (query_from_str text) as [q|e] eqn:Hq; cbn.
    { do 2 (split; [done|]). exists (Opened q). do 2 (split; [done|]). by exists text. }
    intros r1 _ r2 _. do 2 (split; [done|]). by eexists.
  - intros [[]|[]] _; cbn; [exact IH|]. do 2 (split; [done|]). by eexists.
Qed.

Lemma socket_round_steps :
  always socket_round (λ t o, observe step_of t = [] ∧ observe sent_of t = [] ∧
    (observe text_of t).*1 = observe evt_of t ∧ ∃ go, o = Done go).
Proof.
  intros [|[[[text|bytes| | |]|err]|]|[[[json|e]|e]|]] _; cbn;
    try (do 3 (split; [done|]); by eexists);
    intros r _; do 3 (split; [done|]); by eexists.
Qed.

Lemma socket_loop_steps rounds :
  always (socket_loop rounds) (λ t o, observe step_of t = [] ∧ observe sent_of t = [] ∧
    (observe text_of t).*1 = observe evt_of t ∧ ∃ left, o = Done left).
Proof.
  induction rounds as [|rounds IH]; [do 3 (split; [done|]); by eexists|]. cbn [socket_loop].
  apply under_bind. eapply under_mono; [done| |apply socket_round_steps].
  intros t o (Hs & Hx & Ht & go & ->). destruct go.
  - eapply under_mono; [done| |exact IH]. intros t' o (Hs' & Hx' & Ht' & left & ->).
    rewrite !observe_app, Hs, Hs', Hx, Hx', fmap_app, Ht, Ht'. do 3 (split; [done|]). by eexists.
  - cbn. rewrite app_nil_r. do 3 (split; [done|]). by eexists.
Qed.

Lemma drain_steps rounds :
  always (drain rounds) (λ t o, observe text_of t = [] ∧ observe evt_of t = [] ∧
    observe sent_of t = [] ∧ ∃ drained, o = Done drained ∧
      observe step_of t = if drained then [StreamFinished] else []).
Proof.
  induction rounds as [|rounds IH]; [do 3 (split; [done|]); by exists false|]. cbn [drain].
  intros [evt|] _; cbn; [exact IH|]. do 3 (split; [done|]). by exists true.
Qed.

(** A debugging session ends the stream it has opened: whatever the client, the
    network and the stream do, once the session is over a stream that was opened
    has been cancelled and then read to its end, so that its query is removed; it
    is opened at most once, with the query of the first text the client sent.
    While it is open the client is sent every event and every error, in order,
    until it cannot be reached. *)
Theorem debug_session_ends_stream rounds :
  always (debug_session rounds) (λ t o, ∃ over, o = Done over ∧
    (observe step_of t = [] ∨ ∃ text q spec,
       observe sent_of t = [text] ∧ query_from_str text = Ok q ∧ into q = Some spec ∧
       (observe text_of t).*1 = observe evt_of t ∧
       if over then observe step_of t = [StreamOpened spec; StreamCancelled; StreamFinished]
       else observe step_of t = [StreamOpened spec] ∨
            observe step_of t = [StreamOpened spec; StreamCancelled])).
Proof.
  unfold debug_session. apply under_bind. eapply under_mono; [done| |apply read_query_steps].
  intros t o (Hs & He & r & -> & Hr).
  destruct r as [q| | |]; [destruct Hr as (Ht & text & Hx & Hq)|..].
  2:{ intros r1 _. cbn. eexists. split; [done|]. left. by rewrite observe_app, Hs. }
  2,3: cbn; eexists; (split; [done|]); left; by rewrite app_nil_r.
  destruct (into q) as [spec|] eqn:Hspec; [|done].
  intros [u|e] _.
  2:{ intros r1 _ r2 _. cbn. eexists. split; [done|]. left. by rewrite observe_app, Hs. }
  apply under_bind. eapply under_mono; [done| |apply socket_loop_steps].
  intros t2 o2 (Hs2 & Hx2 & Ht2 & left & ->). destruct left.
  2:{ cbn. eexists. split; [done|]. right. exists text, q, spec.
      unfold observe in *. rewrite app_nil_r, !omap_app. cbn.
      rewrite Hs, Hs2, Hx, Hx2, Ht, He. cbn. rewrite Ht2. do 4 (split; [done|]). by left. }
  intros sent _. apply under_bind. eapply under_mono; [done| |apply drain_steps].
  intros t3 o3 (Ht3 & He3 & Hx3 & drained & -> & Hs3).
  destruct drained; [intros closed _|]; cbn; eexists; (split; [done|]); right; exists text, q, spec;
    unfold observe in *; rewrite ?app_nil_r, !omap_app; cbn; rewrite ?omap_app, Hs, Hs2, Hx, Hx2, Ht, He;
    cbn; rewrite ?omap_app, Hs3, Ht3, Hx3, He3; cbn; rewrite ?app_nil_r, ?Ht2;
    do 4 (split; [done|]); [done|by right].
Qed.
End socket.
