(* ===== verification/KubeModels.v ===== *)
(** * KubeModels: the Kubernetes objects and the provider's specifications
    ([kubernetes_provider/src/models.rs])

    The records hold the fields of [k8s_openapi]'s types that the provider
    reads or writes; where the code compares whole values, the fields it leaves
    at their default are kept together as [others].  [BTreeMap]s are ordered
    association lists. *)
From S2P Require Import Prelude BTree RustText.
From Stdlib Require Import Ascii.

(** ** [k8s_openapi]'s types *)

Definition others := btree string.

Record ObjectMeta := mkMeta {
  om_name : option string;
  om_labels : option (btree string);
  om_annotations : option (btree string);
  om_deletion_timestamp : option string;
}.

Record SecretKeySelector := mkSecretKey {
  sk_key : string; sk_name : option string; sk_optional : option bool;
}.
Record EnvVarSource := mkEnvSource {
  evs_secret_key_ref : option SecretKeySelector; evs_others : others;
}.
Record EnvVar := mkEnvVar {
  ev_name : string; ev_value : option string; ev_value_from : option EnvVarSource;
}.

Record ContainerPort := mkContainerPort { cp_name : option string; cp_container_port : Z }.
Record VolumeMount := mkVolumeMount {
  vmt_name : string; vmt_mount_path : string; vmt_read_only : option bool;
}.
Record Volume := mkVolume {
  vol_name : string;
  vol_persistent_volume_claim : option string;  (** the [claim_name] *)
  vol_config_map : option (option string);      (** the [name] *)
}.
Record ResourceRequirements := mkResources {
  rq_limits : option (btree string); rq_requests : option (btree string);
}.

Record Container := mkContainer {
  c_name : string;
  c_image : option string;
  c_image_pull_policy : option string;
  c_termination_message_policy : option string;
  c_env : option (list EnvVar);
  c_resources : option ResourceRequirements;
  c_ports : option (list ContainerPort);
  c_volume_mounts : option (list VolumeMount);
}.
Record PodSpec := mkPodSpec {
  ps_containers : list Container;
  ps_volumes : option (list Volume);
  ps_service_account_name : option string;
}.
Record PodTemplateSpec := mkTemplate { pt_metadata : option ObjectMeta; pt_spec : option PodSpec }.
Record DeploymentSpec := mkDeploymentSpec {
  ds_replicas : option Z;
  ds_match_labels : option (btree string);  (** of the [selector] *)
  ds_strategy : option (option string);     (** the [type_] *)
  ds_template : PodTemplateSpec;
}.
Record Deployment := mkDeployment {
  dep_metadata : ObjectMeta;
  dep_spec : option DeploymentSpec;
  dep_status : option (option Z);           (** [available_replicas] *)
}.

Inductive IntOrString := IOSInt (i : Z) | IOSString (s : string).
Record ServicePort := mkServicePort {
  sp_name : option string; sp_port : Z; sp_target_port : option IntOrString;
}.
Record ServiceSpec := mkServiceSpec {
  ss_type : option string;
  ss_selector : option (btree string);
  ss_ports : option (list ServicePort);
}.
Record LoadBalancerIngress := mkLbIngress { lb_ip : option string; lb_hostname : option string }.
(** [status.load_balancer.ingress] *)
Definition LoadBalancerStatus := option (option (list LoadBalancerIngress)).
Record KubeService := mkKubeService {
  ks_metadata : ObjectMeta;
  ks_spec : option ServiceSpec;
  ks_status : option LoadBalancerStatus;
}.

Record ConfigMap := mkConfigMap { cm_metadata : ObjectMeta; cm_data : option (btree string) }.

Record PersistentVolumeClaimSpec := mkPvcSpec {
  pvs_access_modes : option (list string);
  pvs_resources : option ResourceRequirements;
  pvs_storage_class_name : option string;
}.
Record PersistentVolumeClaim := mkPvc {
  pvc_metadata : ObjectMeta; pvc_spec : option PersistentVolumeClaimSpec;
}.

Record ServiceBackendPort := mkBackendPort { bp_name : option string; bp_number : option Z }.
Record IngressServiceBackend := mkServiceBackend {
  isb_name : string; isb_port : option ServiceBackendPort;
}.
Record IngressBackend := mkIngressBackend {
  ib_service : option IngressServiceBackend; ib_others : others;
}.
Record HTTPIngressPath := mkIngressPath {
  hp_backend : IngressBackend; hp_path : option string; hp_path_type : string;
}.
Record IngressRule := mkIngressRule {
  ir_host : option string;
  ir_http : option (list HTTPIngressPath);  (** the [paths] *)
}.
Record IngressSpec := mkIngressSpec {
  is_ingress_class_name : option string;
  is_rules : option (list IngressRule);
  is_others : others;
}.
Record Ingress := mkIngress {
  ing_metadata : ObjectMeta;
  ing_spec : option IngressSpec;
  ing_status : option LoadBalancerStatus;
}.

Record ServiceAccount := mkServiceAccount { sa_metadata : ObjectMeta }.

(** What a container was or is doing: [reason] and [message]. *)
Record StateReason := mkReason { sr_reason : option string; sr_message : option string }.
Record ContainerState := mkContainerState {
  cs_terminated : option StateReason; cs_waiting : option StateReason;
}.
Record ContainerStatus := mkContainerStatus {
  ct_name : string;
  ct_ready : bool;
  ct_state : option ContainerState;
  ct_last_state : option ContainerState;
}.
Record Pod := mkPod {
  pod_metadata : ObjectMeta;
  pod_container_statuses : option (option (list ContainerStatus));  (** of the [status] *)
}.

#[export] Instance SecretKeySelector_eq_dec : EqDecision SecretKeySelector.
Proof. solve_decision. Defined.
#[export] Instance EnvVarSource_eq_dec : EqDecision EnvVarSource.
Proof. solve_decision. Defined.
#[export] Instance EnvVar_eq_dec : EqDecision EnvVar.
Proof. solve_decision. Defined.
#[export] Instance ServiceBackendPort_eq_dec : EqDecision ServiceBackendPort.
Proof. solve_decision. Defined.
#[export] Instance IngressServiceBackend_eq_dec : EqDecision IngressServiceBackend.
Proof. solve_decision. Defined.
#[export] Instance IngressBackend_eq_dec : EqDecision IngressBackend.
Proof. solve_decision. Defined.
#[export] Instance HTTPIngressPath_eq_dec : EqDecision HTTPIngressPath.
Proof. solve_decision. Defined.
#[export] Instance IngressRule_eq_dec : EqDecision IngressRule.
Proof. solve_decision. Defined.
#[export] Instance IngressSpec_eq_dec : EqDecision IngressSpec.
Proof. solve_decision. Defined.

(** ** Default values *)

Definition meta_default : ObjectMeta := mkMeta None None None None.
Definition meta_named (name : string) : ObjectMeta := mkMeta (Some name) None None None.

(** ** The provider's own types *)

Record ComponentSpec := mkComponentSpec {
  cmp_type : string; cmp_version : string; cmp_metadata : list EnvVar;
}.
Record Component := mkComponent { cm_meta : ObjectMeta; cm_spec : ComponentSpec }.

#[export] Instance ComponentSpec_eq_dec : EqDecision ComponentSpec.
Proof. solve_decision. Defined.

Inductive ResourceType := RtSource | RtReaction | RtQueryContainer.

#[export] Instance ResourceType_eq_dec : EqDecision ResourceType.
Proof. solve_decision. Defined.

(** [ResourceType::parse] *)
Definition parse_resource_type (s : string) : option ResourceType :=
  if str_eqb s "source" then Some RtSource
  else if str_eqb s "reaction" then Some RtReaction
  else if str_eqb s "query-container" then Some RtQueryContainer
  else None.

(** [impl Display for ResourceType] *)
Definition resource_type_to_string (t : ResourceType) : string :=
  match t with
  | RtSource => "source"
  | RtReaction => "reaction"
  | RtQueryContainer => "query-container"
  end.

Record KubernetesSpec := mkKubernetesSpec {
  k_resource_type : ResourceType;
  k_resource_id : string;
  k_service_name : string;
  k_deployment : DeploymentSpec;
  k_services : btree ServiceSpec;
  k_config_maps : btree ConfigMap;
  k_volume_claims : btree PersistentVolumeClaim;
  k_ingresses : option (btree Ingress);
  k_pub_sub : option Component;
  k_service_account : option ServiceAccount;
  k_removed : bool;
}.

Definition kubernetes_spec_new (resource_type : ResourceType) (resource_id service_name : string)
    (deployment : DeploymentSpec) : KubernetesSpec :=
  mkKubernetesSpec resource_type resource_id service_name deployment [] [] [] (Some []) None None
    false.

(** ** The provider's configuration *)

Record RuntimeConfig := mkRuntimeConfig {
  rc_image_prefix : string;
  rc_image_tag : string;
  rc_image_pull_policy : string;
  rc_dapr_config : string;
  rc_dapr_sidecar : string;
  rc_pub_sub_type : string;
  rc_pub_sub_version : string;
  rc_pub_sub_config : list EnvVar;
  rc_ingress_class_name : string;
  rc_ingress_load_balancer_service : string;
  rc_ingress_load_balancer_namespace : string;
  rc_ingress_annotations : btree string;
}.

(** One [key=value] of a comma-separated list put into the annotations; a part
    without an equals sign is skipped. *)
Definition insert_annotation (annotations : btree string) (pair : string) : btree string :=
  match split_once "="%char pair with
  | Some (key, value) => jset (trim key) (trim value) annotations
  | None => annotations
  end.

Section environment.
(** The environment variables that are set, to Unicode text. *)
Context (env : gmap string string).

Definition env_or (name other : string) : string :=
  match env !! name with Some v => v | None => other end.

Definition parse_ingress_annotations : btree string :=
  match env !! "INGRESS_ANNOTATIONS"%string with
  | Some annotations_str => foldl insert_annotation [] (split_on ","%char annotations_str)
  | None => []
  end.

Definition pub_sub_var (name value : string) : EnvVar := mkEnvVar name (Some value) None.

(** [RuntimeConfig::default()] *)
Definition runtime_config_default : RuntimeConfig :=
  let pub_sub_config :=
    [pub_sub_var "redisHost" "drasi-redis:6379"; pub_sub_var "redisPassword" "";
     pub_sub_var "concurrency" "1"; pub_sub_var "queueDepth" "100000"] in
  {| rc_image_prefix :=
       match env !! "ACR"%string with
       | Some acr => acr +:+ "/drasi-project/"
       | None => "drasi-project/"
       end;
     rc_image_tag := env_or "IMAGE_VERSION_TAG" "latest";
     rc_image_pull_policy := env_or "IMAGE_PULL_POLICY" "Always";
     rc_dapr_config := env_or "DAPR_CONFIG" "dapr-config";
     rc_dapr_sidecar := env_or "DAPR_SIDECAR" "daprio/daprd:1.9.0";
     rc_pub_sub_type := env_or "PUB_SUB_TYPE" "pubsub.redis";
     rc_pub_sub_version := env_or "PUB_SUB_VERSION" "v1";
     rc_pub_sub_config := pub_sub_config;
     rc_ingress_class_name := env_or "INGRESS_CLASS_NAME" "contour";
     rc_ingress_load_balancer_service := env_or "INGRESS_LOAD_BALANCER_SERVICE" "contour-envoy";
     rc_ingress_load_balancer_namespace :=
       env_or "INGRESS_LOAD_BALANCER_NAMESPACE" "projectcontour";
     rc_ingress_annotations := parse_ingress_annotations |}.
End environment.

(** ** Facts *)

Lemma parse_resource_type_display t : parse_resource_type (resource_type_to_string t) = Some t.
Proof. by destruct t. Qed.

Lemma resource_type_to_string_inj t t' :
  resource_type_to_string t = resource_type_to_string t' → t = t'.
Proof.
  intros H. apply (f_equal parse_resource_type) in H. rewrite !parse_resource_type_display in H.
  congruence.
Qed.

(** ** Well-formed specifications *)

(** The name a service of the specification gets in the cluster. *)
Definition service_object (spec : KubernetesSpec) (name : string) : string :=
  k_resource_id spec +:+ "-" +:+ name.

(** Every object carries the name it is kept under, and no name occurs twice. *)
Record well_named (spec : KubernetesSpec) : Prop := {
  wn_config_maps : NoDup (k_config_maps spec).*1 ∧
    ∀ name cm, (name, cm) ∈ k_config_maps spec → om_name (cm_metadata cm) = Some name;
  wn_volume_claims : NoDup (k_volume_claims spec).*1;
  wn_component : ∀ c, k_pub_sub spec = Some c → is_Some (om_name (cm_meta c));
  wn_account : ∀ sa, k_service_account spec = Some sa → is_Some (om_name (sa_metadata sa));
  wn_ingresses : ∀ l, k_ingresses spec = Some l →
    NoDup l.*1 ∧ ∀ name i, (name, i) ∈ l → om_name (ing_metadata i) = Some name;
  wn_services : NoDup (k_services spec).*1;
}.

(** No service is kept under a name that another one gets in the cluster. *)
Definition services_apart (spec : KubernetesSpec) : Prop :=
  ∀ a b, a ∈ (k_services spec).*1 → b ∈ (k_services spec).*1 → a ≠ service_object spec b.
