(* ===== verification/SpecBuilder.v ===== *)
(** * SpecBuilder: from the resources' specifications to Kubernetes objects
    ([kubernetes_provider/src/spec_builder])

    A conversion that panics is [None].  A [HashMap] is iterated in an unknown
    order: [hash_iter] gives the entries in the order they come in. *)
From S2P Require Import Prelude BTree RustText MgmtModels Mappings KubeModels.

(** ** Shared parts ([spec_builder/mod.rs]) *)

Definition env_var_of (k : string) (v : ApiConfigValue) : EnvVar :=
  mkEnvVar k
    (match v with ApiInline value => Some value | _ => None end)
    (match v with
     | ApiSecret name key => Some (mkEnvSource (Some (mkSecretKey key (Some name) None)) [])
     | _ => None
     end).

Definition map_env_vars (env_vars : btree ApiConfigValue) : list EnvVar :=
  map (λ kv, env_var_of kv.1 kv.2) env_vars.

(** [sort_by_key] on the variables' names: a stable insertion sort. *)
Fixpoint insert_env (e : EnvVar) (l : list EnvVar) : list EnvVar :=
  match l with
  | [] => [e]
  | e' :: l' => if String.leb (ev_name e) (ev_name e') then e :: l else e' :: insert_env e l'
  end.
Definition sort_env (l : list EnvVar) : list EnvVar := foldr insert_env [] l.

Definition get_default_resource_requirements (image : string) : ResourceRequirements :=
  if str_eqb image "query-container-query-host" then
    mkResources (Some [("cpu", "250m"); ("memory", "4Gi")])
      (Some [("cpu", "250m"); ("memory", "512Mi")])
  else
    mkResources (Some [("cpu", "200m"); ("memory", "512Mi")])
      (Some [("cpu", "50m"); ("memory", "128Mi")]).

(** The labels of a service's pods. *)
Definition service_labels (resource_type : ResourceType) (resource_id service_name : string)
    : btree string :=
  jobject [("drasi/type", resource_type_to_string resource_type);
           ("drasi/resource", resource_id); ("drasi/service", service_name)]%string.

Definition pod_annotations_of (runtime_config : RuntimeConfig) (app_id : string)
    (app_port : option Z) (app_protocol : option string) : btree string :=
  let pod_annotations :=
    jobject [("dapr.io/enabled", "true"); ("dapr.io/app-id", app_id);
             ("dapr.io/config", rc_dapr_config runtime_config);
             ("dapr.io/sidecar-image", rc_dapr_sidecar runtime_config)]%string in
  let pod_annotations :=
    match app_port with
    | Some port => jset "dapr.io/app-port" (show_unsigned port) pod_annotations
    | None => pod_annotations
    end in
  match app_protocol with
  | Some protocol => jset "dapr.io/app-protocol" protocol pod_annotations
  | None => pod_annotations
  end.

Definition build_deployment_spec (runtime_config : RuntimeConfig) (resource_type : ResourceType)
    (resource_id service_name image : string) (external_image : bool) (replicas : Z)
    (app_port : option Z) (env_vars : btree ApiConfigValue) (endpoints : option (btree Z))
    (config_volumes persistent_volumes : option (btree string)) (app_protocol : option string)
    : DeploymentSpec :=
  let app_id := resource_id +:+ "-" +:+ service_name in
  let env := map_env_vars env_vars in
  let pod_annotations := pod_annotations_of runtime_config app_id app_port app_protocol in
  let match_labels := service_labels resource_type resource_id service_name in
  let ports := map (λ kv, mkContainerPort (Some kv.1) kv.2) (default [] endpoints) in
  let persistent_volumes := default [] persistent_volumes in
  let config_volumes := default [] config_volumes in
  let volume_mounts :=
    map (λ kv, mkVolumeMount kv.1 kv.2 None) persistent_volumes ++
    map (λ kv, mkVolumeMount kv.1 kv.2 (Some true)) config_volumes in
  let volumes :=
    map (λ kv, mkVolume kv.1 (Some kv.1) None) persistent_volumes ++
    map (λ kv, mkVolume kv.1 None (Some (Some kv.1))) config_volumes in
  let env := sort_env env in
  {| ds_replicas := Some replicas;
     ds_match_labels := Some match_labels;
     ds_strategy := None;
     ds_template :=
       {| pt_metadata := Some (mkMeta None (Some match_labels) (Some pod_annotations) None);
          pt_spec :=
            Some {| ps_containers :=
                      [{| c_name := service_name;
                          c_image :=
                            Some (if external_image then image
                                  else rc_image_prefix runtime_config +:+ image +:+ ":" +:+
                                       rc_image_tag runtime_config);
                          c_image_pull_policy := Some (rc_image_pull_policy runtime_config);
                          c_termination_message_policy := Some "FallbackToLogsOnError"%string;
                          c_env := Some env;
                          c_resources := Some (get_default_resource_requirements image);
                          c_ports := Some ports;
                          c_volume_mounts := Some volume_mounts |}];
                    ps_volumes := Some volumes;
                    ps_service_account_name := None |} |} |}.

(** ** Changing one field *)

Definition with_annotation (k v : string) (m : ObjectMeta) : ObjectMeta :=
  mkMeta (om_name m) (om_labels m) (Some (jset k v (default [] (om_annotations m))))
    (om_deletion_timestamp m).
Definition with_label (k v : string) (m : ObjectMeta) : ObjectMeta :=
  mkMeta (om_name m) (Some (jset k v (default [] (om_labels m)))) (om_annotations m)
    (om_deletion_timestamp m).
Definition with_template (t : PodTemplateSpec) (d : DeploymentSpec) : DeploymentSpec :=
  mkDeploymentSpec (ds_replicas d) (ds_match_labels d) (ds_strategy d) t.
Definition with_account_name (name : string) (d : DeploymentSpec) : DeploymentSpec :=
  with_template (mkTemplate (pt_metadata (ds_template d))
    ((λ p, mkPodSpec (ps_containers p) (ps_volumes p) (Some name)) <$> pt_spec (ds_template d))) d.
Definition with_pod_label (k v : string) (d : DeploymentSpec) : DeploymentSpec :=
  with_template (mkTemplate (with_label k v <$> pt_metadata (ds_template d))
    (pt_spec (ds_template d))) d.
Definition with_container_env (env : list EnvVar) (c : Container) : Container :=
  mkContainer (c_name c) (c_image c) (c_image_pull_policy c) (c_termination_message_policy c)
    (Some (default [] (c_env c) ++ env)) (c_resources c) (c_ports c) (c_volume_mounts c).
Definition with_env (env : list EnvVar) (d : DeploymentSpec) : DeploymentSpec :=
  with_template (mkTemplate (pt_metadata (ds_template d))
    ((λ p, mkPodSpec (map (with_container_env env) (ps_containers p)) (ps_volumes p)
             (ps_service_account_name p)) <$> pt_spec (ds_template d))) d.
Definition with_account (d : DeploymentSpec) (sa : option ServiceAccount) (k : KubernetesSpec)
    : KubernetesSpec :=
  mkKubernetesSpec (k_resource_type k) (k_resource_id k) (k_service_name k) d (k_services k)
    (k_config_maps k) (k_volume_claims k) (k_ingresses k) (k_pub_sub k) sa (k_removed k).
Definition with_services (s : btree ServiceSpec) (k : KubernetesSpec) : KubernetesSpec :=
  mkKubernetesSpec (k_resource_type k) (k_resource_id k) (k_service_name k) (k_deployment k) s
    (k_config_maps k) (k_volume_claims k) (k_ingresses k) (k_pub_sub k) (k_service_account k)
    (k_removed k).

(** ** Identities ([spec_builder/identity.rs]) *)

(** A specification with a service account has one made before; otherwise it
    gets one. *)
Definition ensure_account (spec : KubernetesSpec) : KubernetesSpec * ServiceAccount :=
  match k_service_account spec with
  | Some sa => (spec, sa)
  | None =>
      let service_account_name :=
        resource_type_to_string (k_resource_type spec) +:+ "." +:+ k_resource_id spec in
      let labels :=
        jobject [("drasi/type", resource_type_to_string (k_resource_type spec));
                 ("drasi/resource", k_resource_id spec)]%string in
      let sa := mkServiceAccount (mkMeta (Some service_account_name) (Some labels) (Some []) None) in
      (with_account (with_account_name service_account_name (k_deployment spec)) (Some sa) spec, sa)
  end.

Definition annotate_account (k v : string) (sa : ServiceAccount) : ServiceAccount :=
  mkServiceAccount (with_annotation k v (sa_metadata sa)).

(** A variable set when there is a value for it. *)
Definition set_if (k : string) (v : option ApiConfigValue) (m : btree ApiConfigValue)
    : btree ApiConfigValue :=
  match v with Some v => jset k v m | None => m end.

(** What an identity asks for: its type, the variables, the account and the
    deployment it changes. *)
Definition identity_parts (identity : ApiServiceIdentity) (sa : ServiceAccount)
    (d : DeploymentSpec)
    : option (string * btree ApiConfigValue * ServiceAccount * DeploymentSpec) :=
  match identity with
  | ApiMicrosoftEntraWorkloadID client_id =>
      Some ("MicrosoftEntraWorkloadID", [],
            annotate_account "azure.workload.identity/client-id" client_id sa,
            with_pod_label "azure.workload.identity/use" "true" d)
  | ApiMicrosoftEntraApplication tenant_id client_id secret certificate =>
      Some ("MicrosoftEntraApplication",
            set_if "AZURE_CLIENT_CERTIFICATE" certificate
              (set_if "AZURE_CLIENT_SECRET" secret
                 (jobject [("AZURE_TENANT_ID", tenant_id); ("AZURE_CLIENT_ID", client_id)])),
            sa, d)
  | ApiConnectionString connection_string =>
      Some ("ConnectionString", [("CONNECTION_STRING", connection_string)], sa, d)
  | ApiAccessKey access_key => Some ("AccessKey", [("ACCESS_KEY", access_key)], sa, d)
  | ApiAwsIamRole role_arn =>
      match role_arn with
      | ApiInline arn =>
          Some ("AwsIamRole",
                jobject [("AWS_ROLE_ARN", role_arn);
                         ("AWS_WEB_IDENTITY_TOKEN_FILE",
                          ApiInline "/var/run/secrets/eks.amazonaws.com/serviceaccount/token")],
                annotate_account "eks.amazonaws.com/role-arn" arn sa, d)
      | _ => None
      end
  | ApiAwsIamAccessKey access_key_id secret_access_key aws_region =>
      Some ("AwsIamAccessKey",
            jobject [("AWS_ACCESS_KEY_ID", access_key_id);
                     ("AWS_SECRET_ACCESS_KEY", secret_access_key); ("AWS_REGION", aws_region)],
            sa, d)
  end%string.

Definition apply_identity (spec : KubernetesSpec) (identity : ApiServiceIdentity)
    : option KubernetesSpec :=
  let '(spec, service_account) := ensure_account spec in
  '(id_type, env_vars, service_account, d) ←
    identity_parts identity service_account (k_deployment spec);
  let env := mkEnvVar "IDENTITY_TYPE" (Some id_type) None :: map_env_vars env_vars in
  Some (with_account (with_env env d) (Some service_account) spec).

Definition apply_identity_opt (identity : option ApiServiceIdentity) (spec : KubernetesSpec)
    : option KubernetesSpec :=
  match identity with Some identity => apply_identity spec identity | None => Some spec end.

(** ** The services' settings that sources and reactions share *)

(** [Some(ref dapr) => match dapr.get("app-port")]; the port must be a number. *)
Definition dapr_app_port (service_spec : ApiService) : option (option Z) :=
  match as_dapr service_spec with
  | Some dapr =>
      match dapr !! "app-port"%string with
      | Some (ApiInline value) => port ← parse_u16 value; Some (Some port)
      | _ => Some None
      end
  | None => Some None
  end.

Definition dapr_app_protocol (service_spec : ApiService) : option string :=
  match as_dapr service_spec with
  | Some dapr =>
      match dapr !! "app-protocol"%string with
      | Some (ApiInline value) => Some value
      | _ => None
      end
  | None => None
  end.

Definition cluster_ip (selector : btree string) (name : option string) (port : Z)
    (target_port : IntOrString) : ServiceSpec :=
  mkServiceSpec (Some "ClusterIP"%string) (Some selector)
    (Some [mkServicePort name port (Some target_port)]).

(** An ingress that sends everything on [hostname] to one service. *)
Definition host_ingress (runtime_config : RuntimeConfig) (name : string)
    (labels : option (btree string)) (hostname backend : string) (port : Z) : Ingress :=
  let annotations :=
    foldl (λ m kv, jset kv.1 kv.2 m) [] (rc_ingress_annotations runtime_config) in
  {| ing_metadata :=
       mkMeta (Some name) labels
         (match annotations with [] => None | _ => Some annotations end) None;
     ing_spec :=
       Some {| is_ingress_class_name := Some (rc_ingress_class_name runtime_config);
               is_rules :=
                 Some [mkIngressRule (Some hostname)
                   (Some [mkIngressPath
                     (mkIngressBackend
                        (Some (mkServiceBackend backend (Some (mkBackendPort None (Some port))))) [])
                     (Some "/"%string) "Prefix"])];
               is_others := [] |};
     ing_status := None |}.

(** A loop whose body may panic. *)
Fixpoint fold_opt {A B} (f : A → B → option A) (a : A) (l : list B) : option A :=
  match l with
  | [] => Some a
  | b :: l => a ← f a b; fold_opt f a l
  end.

Section builders.
Context (hash_iter : ∀ {A}, gmap string A → list (string * A)).
Context (runtime_config : RuntimeConfig).

(** A built-in service of a resource. *)
Definition plain_spec (resource_type : ResourceType) (resource_id service_name : string)
    (deployment : DeploymentSpec) (services : btree ServiceSpec)
    (volume_claims : btree PersistentVolumeClaim) : KubernetesSpec :=
  mkKubernetesSpec resource_type resource_id service_name deployment services [] volume_claims
    None None None false.

(** ** Sources ([spec_builder/source.rs]) *)

Definition source_env (source_id instance_id : string) : btree ApiConfigValue :=
  jobject [("SOURCE_ID", ApiInline source_id); ("INSTANCE_ID", ApiInline instance_id)]%string.

Definition change_router_spec (source_id instance_id : string) : KubernetesSpec :=
  plain_spec RtSource source_id "change-router"
    (build_deployment_spec runtime_config RtSource source_id "change-router"
       "source-change-router" false 1 (Some 3000%Z) (source_env source_id instance_id)
       None None None None) [] [].

Definition change_dispatcher_spec (source_id instance_id : string) : KubernetesSpec :=
  plain_spec RtSource source_id "change-dispatcher"
    (build_deployment_spec runtime_config RtSource source_id "change-dispatcher"
       "source-change-dispatcher" false 1 (Some 3000%Z) (source_env source_id instance_id)
       None None None None) [] [].

Definition query_api_spec (source_id instance_id : string) : KubernetesSpec :=
  plain_spec RtSource source_id "query-api"
    (build_deployment_spec runtime_config RtSource source_id "query-api" "source-query-api" false 1
       (Some 80%Z) (source_env source_id instance_id) (Some [("api"%string, 80%Z)])
       None None None)
    [("query-api"%string,
      cluster_ip (service_labels RtSource source_id "query-api") None 80 (IOSString "api"))] [].

(** One endpoint of a source's service: the services and the ingresses it adds. *)
Definition source_endpoint (source_id service_name : string)
    (acc : btree ServiceSpec * btree Ingress) (ep : string * ApiEndpoint)
    : option (btree ServiceSpec * btree Ingress) :=
  let '(k8s_services, k8s_ingresses) := acc in
  let '(endpoint_name, endpoint) := ep in
  port ← parse_i32 (ae_target endpoint);
  let service_spec :=
    cluster_ip (service_labels RtSource source_id service_name) (Some endpoint_name) port
      (IOSInt port) in
  let k8s_services := jset endpoint_name service_spec k8s_services in
  match ae_setting endpoint with
  | Internal => Some (k8s_services, k8s_ingresses)
  | External =>
      let ingress_name := source_id +:+ "-" +:+ endpoint_name in
      let service_name_full := source_id +:+ "-" +:+ service_name in
      let hostname := source_id +:+ ".drasi.PLACEHOLDER" in
      Some (k8s_services,
            jset ingress_name
              (host_ingress runtime_config ingress_name None hostname service_name_full port)
              k8s_ingresses)
  end.

Definition apply_proxy_svc (spec : KubernetesSpec) (app_port : option Z) : KubernetesSpec :=
  let port := default 80%Z app_port in
  let svc :=
    cluster_ip (service_labels (k_resource_type spec) (k_resource_id spec) (k_service_name spec))
      None 80 (IOSInt port) in
  with_services (jset "proxy" svc (k_services spec)) spec.

(** One service of a source: the body of the loop over the services. *)
Definition source_service_spec (source_id instance_id : string)
    (identity : option ApiServiceIdentity) (env_var_map : btree ApiConfigValue)
    (svc : string * ApiService) : option KubernetesSpec :=
  let '(service_name, service_spec) := svc in
  app_port ← dapr_app_port service_spec;
  let app_protocol := dapr_app_protocol service_spec in
  let replica :=
    match as_replica service_spec with
    | Some rep => default 1%Z (parse_i32 rep)
    | None => 1%Z
    end in
  let env_var_map := jset "SOURCE_ID" (ApiInline source_id) env_var_map in
  let env_var_map := jset "INSTANCE_ID" (ApiInline instance_id) env_var_map in
  let env_var_map :=
    match as_properties service_spec with
    | Some props => foldl (λ m kv, jset kv.1 kv.2 m) env_var_map (hash_iter _ props)
    | None => env_var_map
    end in
  '(k8s_services, k8s_ingresses) ←
    match as_endpoints service_spec with
    | Some endpoints =>
        fold_opt (source_endpoint source_id service_name) ([], []) (hash_iter _ endpoints)
    | None => Some ([], [])
    end;
  let k8s_spec :=
    {| k_resource_type := RtSource;
       k_resource_id := source_id;
       k_service_name := service_name;
       k_deployment :=
         build_deployment_spec runtime_config RtSource source_id service_name
           (as_image service_spec) (default false (as_external_image service_spec)) replica app_port
           env_var_map None None None app_protocol;
       k_services := k8s_services;
       k_config_maps := [];
       k_volume_claims := [];
       k_ingresses := match k8s_ingresses with [] => None | _ => Some k8s_ingresses end;
       k_pub_sub := None;
       k_service_account := None;
       k_removed := false |} in
  let k8s_spec :=
    if str_eqb service_name "proxy" then apply_proxy_svc k8s_spec app_port else k8s_spec in
  apply_identity_opt identity k8s_spec.

(** [SourceSpecBuilder::build] *)
Definition source_build (source : ResourceRequest ApiSourceSpec) (instance_id : string)
    : option (list KubernetesSpec) :=
  let id := rr_id _ source in
  let services := default ∅ (as_services (rr_spec _ source)) in
  let properties := default ∅ (as_source_properties (rr_spec _ source)) in
  let env_var_map := jobject (hash_iter _ properties) in
  specs ← mapM (source_service_spec id instance_id (as_identity (rr_spec _ source)) env_var_map)
            (hash_iter _ services);
  Some (change_router_spec id instance_id :: change_dispatcher_spec id instance_id ::
        query_api_spec id instance_id :: specs).

(** ** Reactions ([spec_builder/reaction.rs]) *)

(** The hash of a sequence of byte vectors ([hashers]' [SpookyHasher]), and
    [serde_json::to_vec] of a reaction's specification. *)
Context (spooky : list string → Z).
Context (reaction_to_vec : ApiReactionSpec → string).

Definition calc_hash (reaction : ApiReactionSpec) : string :=
  show_02x (spooky [reaction_to_vec reaction]).

Definition reaction_env (reaction : ResourceRequest ApiReactionSpec) (instance_id : string)
    : btree ApiConfigValue :=
  let properties := default ∅ (ar_properties (rr_spec _ reaction)) in
  let env := jobject (hash_iter _ properties) in
  let env := jset "CONFIG_HASH" (ApiInline (calc_hash (rr_spec _ reaction))) env in
  let env := jset "INSTANCE_ID" (ApiInline instance_id) env in
  jset "PubsubName" (ApiInline ("drasi-pubsub-" +:+ rr_id _ reaction)) env.

(** One endpoint of a reaction's service: the services, the ingresses and the
    container ports it adds. *)
Definition reaction_endpoint (reaction_id service_name : string) (labels : btree string)
    (acc : btree ServiceSpec * btree Ingress * btree Z) (ep : string * ApiEndpoint)
    : option (btree ServiceSpec * btree Ingress * btree Z) :=
  let '(k8s_services, k8s_ingresses, ports) := acc in
  let '(endpoint_name, endpoint) := ep in
  port ← parse_i32 (ae_target endpoint);
  let ports := jset endpoint_name port ports in
  let service_spec := cluster_ip labels (Some endpoint_name) port (IOSString endpoint_name) in
  match ae_setting endpoint with
  | Internal => Some (jset endpoint_name service_spec k8s_services, k8s_ingresses, ports)
  | External =>
      let service_key := service_name +:+ "-" +:+ endpoint_name in
      let ingress_name := reaction_id +:+ "-reaction-ingress" in
      let hostname := reaction_id +:+ ".drasi.PLACEHOLDER" in
      Some (jset service_key service_spec k8s_services,
            jset ingress_name
              (host_ingress runtime_config ingress_name (Some labels) hostname
                 (reaction_id +:+ "-" +:+ service_key) port) k8s_ingresses,
            ports)
  end.

Definition reaction_component (reaction_id : string) (labels : btree string) : Component :=
  mkComponent (mkMeta (Some ("drasi-pubsub-" +:+ reaction_id)) (Some labels) None None)
    (mkComponentSpec (rc_pub_sub_type runtime_config) (rc_pub_sub_version runtime_config)
       (rc_pub_sub_config runtime_config ++ [mkEnvVar "consumerID" (Some reaction_id) None])).

(** One service of a reaction: the body of the loop over the services. *)
Definition reaction_service_spec (reaction : ResourceRequest ApiReactionSpec)
    (env : btree ApiConfigValue) (svc : string * ApiService) : option KubernetesSpec :=
  let id := rr_id _ reaction in
  let '(service_name, service_spec) := svc in
  let labels := service_labels RtReaction id service_name in
  let config_name := id +:+ "-" +:+ service_name +:+ "-" +:+ "queries" in
  let config_maps :=
    [(config_name, mkConfigMap (mkMeta (Some config_name) (Some labels) None None)
        (Some (jobject (hash_iter _ (ar_queries (rr_spec _ reaction))))))] in
  let replica := default "1"%string (as_replica service_spec) in
  app_port ← dapr_app_port service_spec;
  let app_protocol := dapr_app_protocol service_spec in
  '(k8s_services, k8s_ingresses, ports) ←
    match as_endpoints service_spec with
    | Some endpoints =>
        fold_opt (reaction_endpoint id service_name labels) ([], [], []) (hash_iter _ endpoints)
    | None => Some ([], [], [])
    end;
  let config_volumes := [(config_name, "/etc/queries"%string)] in
  replica ← parse_i32 replica;
  let deployment_spec :=
    build_deployment_spec runtime_config RtReaction id service_name (as_image service_spec)
      (default false (as_external_image service_spec)) replica (Some (default 80%Z app_port)) env
      (Some ports) (Some config_volumes) None app_protocol in
  let k8s_spec :=
    {| k_resource_type := RtReaction;
       k_resource_id := id;
       k_service_name := service_name;
       k_deployment := deployment_spec;
       k_services := k8s_services;
       k_config_maps := config_maps;
       k_volume_claims := [];
       k_ingresses := Some k8s_ingresses;
       k_pub_sub := Some (reaction_component id labels);
       k_service_account := None;
       k_removed := false |} in
  apply_identity_opt (ar_identity (rr_spec _ reaction)) k8s_spec.

(** [ReactionSpecBuilder::build] *)
Definition reaction_build (reaction : ResourceRequest ApiReactionSpec) (instance_id : string)
    : option (list KubernetesSpec) :=
  let env := reaction_env reaction instance_id in
  let services := default ∅ (ar_services (rr_spec _ reaction)) in
  mapM (reaction_service_spec reaction env) (hash_iter _ services).

(** ** Query containers ([spec_builder/query_container.rs]) *)

Definition DEFAULT_STORAGE_CLASS : string := "azurefile-csi-premium".
Definition DEFAULT_STORAGE_SIZE : string := "10Gi".

Definition storage_requests (storage : string) : btree string := [("storage"%string, storage)].

Definition store_key (store_index : nat) (suffix : string) : string :=
  "STORE_" +:+ show_unsigned (Z.of_nat store_index) +:+ suffix.

Definition show_bool (b : bool) : string := if b then "true" else "false".

(** The claim of a RocksDb store. *)
Definition store_claim (pv_name storage_class : string) : PersistentVolumeClaim :=
  mkPvc (meta_named pv_name)
    (Some (mkPvcSpec (Some ["ReadWriteMany"%string])
       (Some (mkResources None (Some (storage_requests DEFAULT_STORAGE_SIZE))))
       (Some storage_class))).

(** One store of the container: the variables, the claims and the volumes it
    adds. *)
Definition container_store (source_id : string) (store_index : nat)
    (acc : btree ApiConfigValue * btree PersistentVolumeClaim * btree string)
    (store : string * ApiStorageSpec)
    : btree ApiConfigValue * btree PersistentVolumeClaim * btree string :=
  let '(env, persistent_volume_claims, persistent_volumes) := acc in
  let '(name, storage_spec) := store in
  let env := jset (store_key store_index "") (ApiInline name) env in
  match storage_spec with
  | ApiMemory enable_archive =>
      let env := jset (store_key store_index "_TYPE") (ApiInline "Memory") env in
      (jset (store_key store_index "_ENABLE_ARCHIVE") (ApiInline (show_bool enable_archive)) env,
       persistent_volume_claims, persistent_volumes)
  | ApiRedis connection_string cache_size =>
      let env := jset (store_key store_index "_TYPE") (ApiInline "Redis") env in
      let env := jset (store_key store_index "_CONNECTION_STRING") connection_string env in
      (match cache_size with
       | Some cache_size =>
           jset (store_key store_index "_CACHE_SIZE") (ApiInline (show_unsigned cache_size)) env
       | None => env
       end, persistent_volume_claims, persistent_volumes)
  | ApiRocksDb enable_archive storage_class direct_io =>
      let storage_class := default DEFAULT_STORAGE_CLASS storage_class in
      let pv_name := source_id +:+ "-" +:+ name +:+ "-store-" +:+ storage_class in
      let env := jset (store_key store_index "_TYPE") (ApiInline "RocksDb") env in
      let env :=
        jset (store_key store_index "_ENABLE_ARCHIVE") (ApiInline (show_bool enable_archive)) env in
      (jset (store_key store_index "_DIRECT_IO") (ApiInline (show_bool direct_io)) env,
       jset pv_name (store_claim pv_name storage_class) persistent_volume_claims,
       jset pv_name "/data"%string persistent_volumes)
  end.

(** [into_iter().enumerate()] *)
Fixpoint container_stores (source_id : string) (store_index : nat)
    (acc : btree ApiConfigValue * btree PersistentVolumeClaim * btree string)
    (stores : list (string * ApiStorageSpec))
    : btree ApiConfigValue * btree PersistentVolumeClaim * btree string :=
  match stores with
  | [] => acc
  | s :: stores =>
      container_stores source_id (S store_index) (container_store source_id store_index acc s)
        stores
  end.

Definition publish_api_spec (id instance_id : string) : KubernetesSpec :=
  plain_spec RtQueryContainer id "publish-api"
    (build_deployment_spec runtime_config RtQueryContainer id "publish-api"
       "query-container-publish-api" false 1 (Some 4000%Z)
       (jobject [("QUERY_NODE_ID", ApiInline id); ("INSTANCE_ID", ApiInline instance_id)])
       None None None None) [] [].

(** The variables of the query host before those of the stores. *)
Definition host_env (id : string) (spec : ApiQueryContainerSpec) : btree ApiConfigValue :=
  let env := [("QUERY_NODE_ID"%string, ApiInline id)] in
  let env := foldl (λ m kv, jset kv.1 kv.2 m) env (hash_iter _ (ac_results spec)) in
  jset "DEFAULT_STORE" (ApiInline (ac_default_store spec)) env.

Definition query_host_spec (id : string) (spec : ApiQueryContainerSpec) : KubernetesSpec :=
  let '(env, persistent_volume_claims, persistent_volumes) :=
    container_stores id 0 (host_env id spec, [], []) (hash_iter _ (ac_storage spec)) in
  plain_spec RtQueryContainer id "query-host"
    (build_deployment_spec runtime_config RtQueryContainer id "query-host"
       "query-container-query-host" false (ac_query_host_count spec) (Some 3000%Z) env
       None None (Some persistent_volumes) None) [] persistent_volume_claims.

Definition view_svc_spec (id instance_id : string) : KubernetesSpec :=
  plain_spec RtQueryContainer id "view-svc"
    (build_deployment_spec runtime_config RtQueryContainer id "view-svc"
       "query-container-view-svc" false 1 (Some 8080%Z)
       (jobject [("QUERY_NODE_ID", ApiInline id); ("VIEW_STORE_TYPE", ApiInline "mongo");
                 ("INSTANCE_ID", ApiInline instance_id)])
       (Some [("api"%string, 80%Z)]) None None None)
    [("view-svc"%string,
      cluster_ip (service_labels RtQueryContainer id "view-svc") None 80 (IOSString "api"))] [].

(** [QueryContainerSpecBuilder::build] *)
Definition container_build (source : ResourceRequest ApiQueryContainerSpec) (instance_id : string)
    : option (list KubernetesSpec) :=
  let id := rr_id _ source in
  Some [publish_api_spec id instance_id; query_host_spec id (rr_spec _ source);
        view_svc_spec id instance_id].
End builders.
