(* ===== verification/SpecBuilderSpec.v ===== *)
(** * SpecBuilderSpec: the specifications that are built are well-formed *)
From S2P Require Import Prelude BTree RustText MgmtModels Mappings KubeModels SpecBuilder.

(** Every entry of [m] is one of [m']. *)
Definition sub_labels (m m' : btree string) : Prop :=
  ∀ k v, jget k m = Some v → jget k m' = Some v.

Definition pod_labels (d : DeploymentSpec) : option (btree string) :=
  pt_metadata (ds_template d) ≫= om_labels.

(** The labels [sel] select the pods of [d]. *)
Definition selects (sel : option (btree string)) (d : DeploymentSpec) : Prop :=
  ∃ m labels, sel = Some m ∧ pod_labels d = Some labels ∧ sub_labels m labels.

(** The parts of a specification fit together: the deployment and the services
    select its pods, every mounted volume is a volume of the pod, which is a
    config map or a claim of the specification, and the pods run under its
    service account. *)
Record fits (spec : KubernetesSpec) : Prop := {
  ft_deployment : selects (ds_match_labels (k_deployment spec)) (k_deployment spec);
  ft_services n s : (n, s) ∈ k_services spec → selects (ss_selector s) (k_deployment spec);
  ft_volumes p v : pt_spec (ds_template (k_deployment spec)) = Some p →
    v ∈ default [] (ps_volumes p) →
    (∀ name, vol_config_map v = Some (Some name) → name ∈ (k_config_maps spec).*1) ∧
    (∀ claim, vol_persistent_volume_claim v = Some claim → claim ∈ (k_volume_claims spec).*1);
  ft_mounts p c m : pt_spec (ds_template (k_deployment spec)) = Some p → c ∈ ps_containers p →
    m ∈ default [] (c_volume_mounts c) → vmt_name m ∈ map vol_name (default [] (ps_volumes p));
  ft_account p : pt_spec (ds_template (k_deployment spec)) = Some p →
    ps_service_account_name p = k_service_account spec ≫= λ sa, om_name (sa_metadata sa);
}.

Definition well_formed (spec : KubernetesSpec) : Prop :=
  well_named spec ∧ fits spec ∧ k_removed spec = false.

(** ** Loops *)

Lemma fold_opt_inv {A B} (P : A → Prop) (f : A → B → option A) l a a' :
  (∀ a b a', b ∈ l → P a → f a b = Some a' → P a') → P a → fold_opt f a l = Some a' → P a'.
Proof.
  revert a. induction l as [|b l IH]; intros a Hf Ha; simpl; [by intros [= <-]|].
  destruct (f a b) as [a1|] eqn:E; [|done]. cbn. apply IH.
  - intros a2 b' a3 Hin. apply Hf. by right.
  - eapply Hf; [left | done..].
Qed.

Lemma elem_of_jset {A} k (v : A) m k' v' :
  (k', v') ∈ jset k v m → (k', v') = (k, v) ∨ (k', v') ∈ m.
Proof.
  induction m as [|[k1 v1] m IH]; simpl; [set_solver|].
  destruct (String.compare k k1); set_solver.
Qed.

Lemma elem_of_jset_fst {A} k (v : A) m k' : k' ∈ (jset k v m).*1 ↔ k' = k ∨ k' ∈ m.*1.
Proof.
  induction m as [|[k1 v1] m IH]; simpl; [set_solver|].
  destruct (String.compare k k1) eqn:E; simpl; [|set_solver|set_solver].
  apply compare_eq_iff in E. subst. set_solver.
Qed.

(** ** The deployment of a built specification *)

Section deployment.
Context (rc : RuntimeConfig) (rt : ResourceType) (id sn image : string) (ext : bool) (n : Z).
Context (port : option Z) (env : btree ApiConfigValue) (eps : option (btree Z)).
Context (cvs pvs : option (btree string)) (proto : option string).
Notation d := (build_deployment_spec rc rt id sn image ext n port env eps cvs pvs proto).

Lemma build_selects : selects (Some (service_labels rt id sn)) d.
Proof. do 2 eexists. split; [done|]. split; [done|]. by intros k v. Qed.

(** A built specification without a service account. *)
Lemma built_fits services cms claims ings ps :
  (∀ name s, (name, s) ∈ services → ss_selector s = Some (service_labels rt id sn)) →
  (∀ name, name ∈ (default [] cvs).*1 → name ∈ cms.*1) →
  (∀ name, name ∈ (default [] pvs).*1 → name ∈ claims.*1) →
  fits (mkKubernetesSpec rt id sn d services cms claims ings ps None false).
Proof.
  intros Hs Hc Hv. constructor; cbn [k_deployment k_services k_config_maps k_volume_claims].
  - apply build_selects.
  - intros name s Hin. rewrite (Hs name s Hin). apply build_selects.
  - intros p v [= <-]. cbn. intros [(kv & -> & Hin)%list_elem_of_fmap|
      (kv & -> & Hin)%list_elem_of_fmap]%elem_of_app; (split; [intros name|intros claim]);
      intros [= <-].
    + apply Hv, list_elem_of_fmap. eauto.
    + apply Hc, list_elem_of_fmap. eauto.
  - intros p c m [= <-]. cbn. intros ->%list_elem_of_singleton. cbn. rewrite map_app, !map_map.
    intros [(kv & -> & Hin)%list_elem_of_fmap|(kv & -> & Hin)%list_elem_of_fmap]%elem_of_app;
      apply elem_of_app; [left | right]; apply list_elem_of_fmap; eauto.
  - by intros p [= <-].
Qed.
End deployment.

(** ** Identities *)

Lemma sub_labels_jset m m' k v :
  sub_labels m m' → jget k m = None → sub_labels m (jset k v m').
Proof.
  intros Hs Hk k' v' Hv'. rewrite jget_jset_ne; [by apply Hs|]. intros ->. congruence.
Qed.

Lemma service_labels_azure rt id sn :
  jget "azure.workload.identity/use" (service_labels rt id sn) = None.
Proof. by destruct rt. Qed.

Definition azure_label : string := "azure.workload.identity/use".

(** What an identity leaves as it is. *)
Lemma identity_parts_spec identity sa d ty env sa' d' :
  identity_parts identity sa d = Some (ty, env, sa', d') →
  om_name (sa_metadata sa') = om_name (sa_metadata sa) ∧
  ds_match_labels d' = ds_match_labels d ∧
  pt_spec (ds_template d') = pt_spec (ds_template d) ∧
  (pod_labels d' = pod_labels d ∨
   ∀ l, pod_labels d = Some l → pod_labels d' = Some (jset azure_label "true" l)).
Proof.
  destruct identity as [| | | |[]|]; cbn; try done; intros [= <- <- <- <-];
    (split; [done|]); (split; [done|]); (split; [done|]); try (by left).
  right. intros l. unfold pod_labels. cbn. destruct (pt_metadata (ds_template d)) as [m|]; [|done].
  cbn. by intros ->.
Qed.

Lemma selects_identity rt id sn d d' :
  (pod_labels d' = pod_labels d ∨
   ∀ l, pod_labels d = Some l → pod_labels d' = Some (jset azure_label "true" l)) →
  selects (Some (service_labels rt id sn)) d → selects (Some (service_labels rt id sn)) d'.
Proof.
  intros Hd (m & l & [= <-] & Hl & Hsub). exists (service_labels rt id sn).
  destruct Hd as [Hd|Hd]; [exists l; by rewrite Hd|].
  exists (jset azure_label "true"%string l). split; [done|]. split; [by apply Hd|].
  apply sub_labels_jset; [done | apply service_labels_azure].
Qed.

Lemma apply_identity_well_formed spec identity spec' rt id sn :
  well_formed spec → k_service_account spec = None →
  ds_match_labels (k_deployment spec) = Some (service_labels rt id sn) →
  (∀ name s, (name, s) ∈ k_services spec → ss_selector s = Some (service_labels rt id sn)) →
  apply_identity spec identity = Some spec' → well_formed spec'.
Proof.
  intros (Hwn & Hfit & Hrm) Hnone Hsel Hsvc. unfold apply_identity, ensure_account.
  rewrite Hnone. set (name := resource_type_to_string _ +:+ _).
  set (sa := mkServiceAccount _). cbn [k_deployment with_account].
  destruct (identity_parts identity sa _) as [[[[ty env] sa'] d']|] eqn:E; [|done].
  apply identity_parts_spec in E as (Hname & Hml & Hpt & Hpod).
  cbn [mbind option_bind]. intros [= <-]. set (e := mkEnvVar _ _ _ :: _).
  assert (pod_labels (with_account_name name (k_deployment spec)) = pod_labels (k_deployment spec))
    as Hpod0 by done.
  assert (∀ m, selects (Some (service_labels rt id sn)) (k_deployment spec) →
    m = Some (service_labels rt id sn) → selects m (with_env e d')) as Hselects.
  { intros m Hs ->. apply (selects_identity _ _ _ d'); [by left|].
    by apply (selects_identity _ _ _ (with_account_name name (k_deployment spec))). }
  pose proof (ft_deployment _ Hfit) as Hdep. rewrite Hsel in Hdep.
  split; [|split; [|done]].
  - destruct Hwn as [H1 H2 H3 H4 H5 H6]. constructor; try done. intros sa1 [= <-]. rewrite Hname. by eexists.
  - assert (∀ p, pt_spec (ds_template (with_env e d')) = Some p → ∃ p0,
      pt_spec (ds_template (k_deployment spec)) = Some p0 ∧
      p = mkPodSpec (map (with_container_env e) (ps_containers p0)) (ps_volumes p0) (Some name))
      as Hp.
    { cbn. rewrite Hpt. cbn. destruct (pt_spec (ds_template (k_deployment spec))) as [p0|]; [|by intros p [=]]. intros p [= <-]. by eexists. }
    constructor; cbn [k_deployment k_services k_config_maps k_volume_claims k_service_account
      with_account].
    + apply Hselects; [done|]. cbn. by rewrite Hml.
    + intros n s Hin. apply Hselects; [done|]. by eapply Hsvc.
    + intros p v (p0 & Hp0 & ->)%Hp. cbn. by apply (ft_volumes _ Hfit).
    + intros p c m (p0 & Hp0 & ->)%Hp. cbn. intros (c0 & -> & Hc0)%list_elem_of_fmap.
      cbn. by apply (ft_mounts _ Hfit).
    + intros p (p0 & Hp0 & ->)%Hp. cbn. by rewrite Hname.
Qed.

(** ** The builders *)

Section builders.
Context (hash_iter : ∀ A, gmap string A → list (string * A)).
Context (rc : RuntimeConfig).
Context (spooky : list string → Z) (reaction_to_vec : ApiReactionSpec → string).

Notation svcs := (btree ServiceSpec).

(** The services made for one service's endpoints, and its ingresses. *)
Definition endpoints_ok (labels : btree string) (services : svcs) (ingresses : btree Ingress)
    : Prop :=
  jsorted services = true ∧ (∀ n s, (n, s) ∈ services → ss_selector s = Some labels) ∧
  jsorted ingresses = true ∧
  ∀ n i, (n, i) ∈ ingresses → om_name (ing_metadata i) = Some n.

Lemma endpoints_ok_nil labels : endpoints_ok labels [] [].
Proof. split; [done|]. split; [by intros ?? ?%elem_of_nil|]. split; [done|]. by intros ?? ?%elem_of_nil. Qed.

Lemma endpoints_ok_service labels services ingresses n s :
  ss_selector s = Some labels → endpoints_ok labels services ingresses →
  endpoints_ok labels (jset n s services) ingresses.
Proof.
  intros Hs (H1 & H2 & H3 & H4). split; [by apply jset_sorted|]. split; [|done].
  intros n' s' [[= -> ->]|Hin]%elem_of_jset; [done | by eapply H2].
Qed.

Lemma endpoints_ok_ingress labels services ingresses n i :
  om_name (ing_metadata i) = Some n → endpoints_ok labels services ingresses →
  endpoints_ok labels services (jset n i ingresses).
Proof.
  intros Hs (H1 & H2 & H3 & H4). split; [done|]. split; [done|]. split; [by apply jset_sorted|].
  intros n' i' [[= -> ->]|Hin]%elem_of_jset; [done | by eapply H4].
Qed.

Lemma source_endpoint_ok id sn acc ep acc' :
  endpoints_ok (service_labels RtSource id sn) acc.1 acc.2 →
  source_endpoint rc id sn acc ep = Some acc' →
  endpoints_ok (service_labels RtSource id sn) acc'.1 acc'.2.
Proof.
  destruct acc as [services ingresses], ep as [name e]. unfold source_endpoint. intros H.
  destruct (parse_i32 (ae_target e)) as [port|]; [|done]. cbn [mbind option_bind].
  destruct (ae_setting e); intros [= <-]; cbn [fst snd].
  - by apply endpoints_ok_service.
  - by apply endpoints_ok_ingress; [|apply endpoints_ok_service].
Qed.

Lemma reaction_endpoint_ok id sn labels acc ep acc' :
  endpoints_ok labels acc.1.1 acc.1.2 →
  reaction_endpoint rc id sn labels acc ep = Some acc' → endpoints_ok labels acc'.1.1 acc'.1.2.
Proof.
  destruct acc as [[services ingresses] ports], ep as [name e]. unfold reaction_endpoint. intros H.
  destruct (parse_i32 (ae_target e)) as [port|]; [|done]. cbn [mbind option_bind].
  destruct (ae_setting e); intros [= <-]; cbn [fst snd].
  - by apply endpoints_ok_service.
  - by apply endpoints_ok_ingress; [|apply endpoints_ok_service].
Qed.

(** A specification without config maps, claims, account and component. *)
Lemma plain_well_formed rt id sn d services ings :
  endpoints_ok (service_labels rt id sn) services (default [] ings) →
  fits (mkKubernetesSpec rt id sn d services [] [] ings None None false) →
  well_formed (mkKubernetesSpec rt id sn d services [] [] ings None None false).
Proof.
  intros (H1 & H2 & H3 & H4) Hf. split; [|done]. constructor; cbn; try done.
  - split; [constructor | by intros ?? ?%elem_of_nil].
  - constructor.
  - intros l ->. by split; [apply jsorted_NoDup|].
  - by apply jsorted_NoDup.
Qed.

Lemma identity_opt_well_formed identity spec spec' rt id sn :
  well_formed spec → k_service_account spec = None →
  ds_match_labels (k_deployment spec) = Some (service_labels rt id sn) →
  (∀ name s, (name, s) ∈ k_services spec → ss_selector s = Some (service_labels rt id sn)) →
  apply_identity_opt identity spec = Some spec' → well_formed spec'.
Proof.
  destruct identity; cbn; [apply apply_identity_well_formed | by intros ???? [= <-]].
Qed.

Lemma source_service_well_formed id iid identity env svc spec :
  source_service_spec hash_iter rc id iid identity env svc = Some spec → well_formed spec.
Proof.
  destruct svc as [sn s]. unfold source_service_spec.
  destruct (dapr_app_port s) as [port|]; [|done]. cbn [mbind option_bind].
  set (env' := match as_properties s with Some _ => _ | None => _ end).
  destruct (match as_endpoints s with Some _ => _ | None => _ end) as [[services ings]|] eqn:E;
    [|done].
  assert (endpoints_ok (service_labels RtSource id sn) services ings) as Hok.
  { destruct (as_endpoints s) as [eps|]; [|injection E as <- <-; apply endpoints_ok_nil].
    refine (fold_opt_inv (λ acc, endpoints_ok _ acc.1 acc.2) _ _ _ _ _ _ E);
      [|apply endpoints_ok_nil]. intros ??? _. apply source_endpoint_ok. }
  cbn [mbind option_bind]. set (k := mkKubernetesSpec _ _ _ _ _ _ _ _ _ _ _).
  assert (well_formed k) as Hk.
  { apply plain_well_formed; [by destruct ings|]. apply built_fits; try by intros ? ?%elem_of_nil.
    apply Hok. }
  apply (identity_opt_well_formed _ _ _ RtSource id sn); destruct (str_eqb sn "proxy"); try done.
  - unfold apply_proxy_svc, with_services. apply plain_well_formed.
    + destruct ings; by apply endpoints_ok_service.
    + apply built_fits; try by intros ? ?%elem_of_nil.
      intros n s' [[= -> ->]|Hin]%elem_of_jset; [done|]. by eapply Hok.
  - cbn. intros n s' [[= -> ->]|Hin]%elem_of_jset; [done|]. by eapply Hok.
  - apply Hok.
Qed.

Lemma reaction_service_well_formed reaction env svc spec :
  reaction_service_spec hash_iter rc reaction env svc = Some spec → well_formed spec.
Proof.
  destruct svc as [sn s]. unfold reaction_service_spec. set (id := rr_id _ reaction).
  set (labels := service_labels RtReaction id sn).
  destruct (dapr_app_port s) as [port|]; [|done]. cbn [mbind option_bind].
  destruct (match as_endpoints s with Some _ => _ | None => _ end)
    as [[[services ings] ports]|] eqn:E; [|done].
  assert (endpoints_ok labels services ings) as Hok.
  { destruct (as_endpoints s) as [eps|]; [|injection E as <- <- <-; apply endpoints_ok_nil].
    refine (fold_opt_inv (λ acc, endpoints_ok _ acc.1.1 acc.1.2) _ _ _ _ _ _ E);
      [|apply endpoints_ok_nil]. intros ??? _. apply reaction_endpoint_ok. }
  cbn [mbind option_bind]. destruct (parse_i32 _) as [n|]; [|done]. cbn [mbind option_bind].
  set (config_name := id +:+ _). set (k := mkKubernetesSpec _ _ _ _ _ _ _ _ _ _ _).
  destruct Hok as (H1 & H2 & H3 & H4).
  apply (identity_opt_well_formed _ _ _ RtReaction id sn); [|done|done|apply H2].
  split; [constructor|split; [|done]].
  - split; [repeat constructor; apply not_elem_of_nil|].
    by intros name cm [= -> ->]%list_elem_of_singleton.
  - constructor.
  - intros c [= <-]. by eexists.
  - done.
  - intros l [= <-]. by split; [apply jsorted_NoDup|].
  - by apply jsorted_NoDup.
  - unfold k. destruct (built_fits rc RtReaction id sn (as_image s)
      (default false (as_external_image s)) n (Some (default 80%Z port)) env (Some ports)
      (Some [(config_name, "/etc/queries"%string)]) None (dapr_app_protocol s) services
      [(config_name, mkConfigMap meta_default None)] [] None None) as [F1 F2 F3 F4 F5];
      [done..|by intros ? ?%elem_of_nil|]. by constructor.
Qed.

(** Every volume of the stores has a claim. *)
Definition claims_ok (claims : btree PersistentVolumeClaim) (volumes : btree string) : Prop :=
  jsorted claims = true ∧ ∀ name, name ∈ volumes.*1 → name ∈ claims.*1.

Lemma container_stores_claims id i acc stores :
  claims_ok acc.1.2 acc.2 →
  claims_ok (container_stores id i acc stores).1.2 (container_stores id i acc stores).2.
Proof.
  revert i acc. induction stores as [|[name st] stores IH]; intros i [[env claims] volumes] H; [done|].
  cbn [container_stores]. apply IH. destruct st; try exact H.
  destruct H as [H1 H2]. split; cbn; [by apply jset_sorted|]. intros n.
  rewrite !elem_of_jset_fst. naive_solver.
Qed.

Lemma query_host_well_formed id spec : well_formed (query_host_spec hash_iter rc id spec).
Proof.
  unfold query_host_spec. pose proof (container_stores_claims id 0
    (host_env hash_iter id spec, [], []) (hash_iter _ (ac_storage spec))) as H.
  destruct (container_stores _ _ _ _) as [[env claims] volumes]. cbn in H.
  destruct H as [H1 H2]; [by split; [|intros ? ?%elem_of_nil]|].
  split; [constructor; cbn; try done|split; [|done]].
  - split; [constructor | by intros ?? ?%elem_of_nil].
  - by apply jsorted_NoDup.
  - constructor.
  - apply built_fits; [by intros ?? ?%elem_of_nil | by intros ? ?%elem_of_nil | done].
Qed.

(** A built-in service. *)
Lemma builtin_well_formed rt id sn image n port env eps services :
  endpoints_ok (service_labels rt id sn) services [] →
  well_formed (plain_spec rt id sn
    (build_deployment_spec rc rt id sn image false n port env eps None None None) services []).
Proof.
  intros H. apply (plain_well_formed _ _ _ _ _ None); [done|].
  apply built_fits; [apply H | by intros ? ?%elem_of_nil | by intros ? ?%elem_of_nil].
Qed.

Lemma single_service_ok labels n s :
  ss_selector s = Some labels → endpoints_ok labels [(n, s)] [].
Proof. intros H. by apply (endpoints_ok_service _ [] [] n), endpoints_ok_nil. Qed.

#[local] Hint Resolve query_host_well_formed
  source_service_well_formed reaction_service_well_formed : core.

Lemma mapM_Forall {A B} (f : A → option B) (P : B → Prop) l l' :
  (∀ a b, f a = Some b → P b) → mapM f l = Some l' → Forall P l'.
Proof.
  intros Hf Hm%mapM_Some. induction Hm; constructor; [by eapply Hf | done].
Qed.

Lemma source_build_well_formed source iid specs :
  source_build hash_iter rc source iid = Some specs → Forall well_formed specs.
Proof.
  unfold source_build. destruct (mapM _ _) as [l|] eqn:E; [|done]. intros [= <-].
  do 2 (constructor; [apply builtin_well_formed, endpoints_ok_nil|]).
  constructor; [by apply builtin_well_formed, single_service_ok|].
  eapply mapM_Forall; [|exact E]. eauto.
Qed.

Lemma reaction_build_well_formed reaction iid specs :
  reaction_build hash_iter rc spooky reaction_to_vec reaction iid = Some specs →
  Forall well_formed specs.
Proof. intros H. eapply mapM_Forall; [|exact H]. eauto. Qed.

Lemma container_build_well_formed container iid specs :
  container_build hash_iter rc container iid = Some specs → Forall well_formed specs.
Proof.
  intros [= <-]. constructor; [apply builtin_well_formed, endpoints_ok_nil|].
  constructor; [done|]. constructor; [by apply builtin_well_formed, single_service_ok | done].
Qed.

(** C15: Every specification built for a source, a reaction or a query container
    is well-formed: its objects carry their names, no name occurs twice, the
    deployment and the services select the pods, every mounted volume is a
    config map or a claim of the specification, the pods run under its service
    account, and it is not marked as removed. *)
Theorem built_specs_well_formed source reaction container iid specs :
  source_build hash_iter rc source iid = Some specs ∨
  reaction_build hash_iter rc spooky reaction_to_vec reaction iid = Some specs ∨
  container_build hash_iter rc container iid = Some specs →
  Forall well_formed specs.
Proof.
  intros [H|[H|H]]; [by eapply source_build_well_formed | by eapply reaction_build_well_formed |
    by eapply container_build_well_formed].
Qed.
End builders.

Definition example_reaction : ResourceRequest ApiReactionSpec :=
  mkResourceRequest "debug" (mkApiReaction "Debug" None
    (Some {["api"%string := mkApiService None "reaction-debug" None
       (Some {["gw"%string := mkApiEndpoint External "8080"]}) None None]})
    None {["q1" := ""]}%string (Some (ApiMicrosoftEntraWorkloadID "client"))).

Definition example_specs : list KubernetesSpec :=
  default [] (reaction_build (λ _, map_to_list) (runtime_config_default ∅) (λ _, 255%Z) (λ _, ""%string)
    example_reaction "iid").

Lemma built_specs_well_formed_witness :
  length example_specs = 1 ∧ Forall well_formed example_specs.
Proof.
  split; [by vm_compute|].
  apply (built_specs_well_formed (λ _, map_to_list) (runtime_config_default ∅) (λ _, 255%Z)
    (λ _, ""%string) (mkResourceRequest "s" (mkApiSource "k" None None None)) example_reaction
    (mkResourceRequest "c" (mkApiContainer 1 ∅ ∅ "s")) "iid").
  right. left. vm_compute. reflexivity.
Defined.
