(* ===== verification/StorageConfig.v ===== *)
(** * StorageConfig: the storage a query container asks for is what its query
    host uses

    The provider ([spec_builder/query_container.rs]) writes the stores of a
    container into environment variables; the query host
    ([query-host/src/index_factory.rs]) reads them back.  What Kubernetes does in
    between: a variable is its value, or the value of the secret it names, and a
    pod with an unknown secret does not start. *)
From S2P Require Import Prelude BTree RustText MgmtModels Mappings KubeModels SpecBuilder.
From S2P Require IndexFactory.

(** ** The environment of a container *)

Section pod.
Context (secrets : string → string → option string).

Definition env_value (e : EnvVar) : option string :=
  match ev_value e with
  | Some value => Some value
  | None =>
      match ev_value_from e with
      | Some src =>
          sk ← evs_secret_key_ref src;
          name ← sk_name sk;
          secrets name (sk_key sk)
      | None => Some EmptyString
      end
  end.

Definition env_entry (e : EnvVar) : option (string * string) :=
  v ← env_value e; Some (ev_name e, v).

(** The later of two variables of the same name counts. *)
Definition pod_env (env : list EnvVar) : option (gmap string string) :=
  entries ← mapM env_entry env;
  Some (list_to_map (reverse entries)).

Definition config_text (v : ApiConfigValue) : option string :=
  match v with ApiInline value => Some value | ApiSecret name key => secrets name key end.

Lemma env_value_of k v : env_value (env_var_of k v) = config_text v.
Proof. by destruct v. Qed.

(** *** The variables made from a map *)

Lemma elem_of_mapM {A B} (f : A → option B) l l' y :
  mapM f l = Some l' → y ∈ l' ↔ ∃ x, x ∈ l ∧ f x = Some y.
Proof.
  intros E%mapM_Some. split.
  - intros [i Hi]%list_elem_of_lookup.
    destruct (Forall2_lookup_r _ _ _ _ _ E Hi) as (x & Hx & Hf). exists x.
    split; [by eapply list_elem_of_lookup_2 | done].
  - intros (x & [i Hi]%list_elem_of_lookup & Hf).
    destruct (Forall2_lookup_l _ _ _ _ _ E Hi) as (y' & Hy & Hf'). rewrite Hf in Hf'.
    injection Hf' as <-. by eapply list_elem_of_lookup_2.
Qed.

Lemma insert_env_perm e l : insert_env e l ≡ₚ e :: l.
Proof.
  induction l as [|e' l IH]; simpl; [done|]. case_match; [done|]. rewrite IH. apply perm_swap.
Qed.

Lemma sort_env_perm l : sort_env l ≡ₚ l.
Proof. induction l as [|e l IH]; simpl; [done|]. by rewrite insert_env_perm, IH. Qed.

Lemma pod_env_lookup (m : btree ApiConfigValue) env :
  NoDup m.*1 → pod_env (sort_env (map_env_vars m)) = Some env →
  ∀ k, env !! k = jget k m ≫= config_text.
Proof.
  intros Hnd. unfold pod_env. destruct (mapM env_entry _) as [entries|] eqn:E; [|done].
  intros [= <-].
  assert (∀ k v, (k, v) ∈ entries ↔ ∃ c, (k, c) ∈ m ∧ config_text c = Some v) as Hin.
  { assert (∀ k v, (k, v) ∈ entries ↔ ∃ e, e ∈ sort_env (map_env_vars m) ∧ env_entry e = Some (k, v))
      as H by (intros k v; by apply elem_of_mapM).
    intros k v. rewrite H. setoid_rewrite sort_env_perm. split.
    - intros (e & (kc & -> & Hkc)%list_elem_of_fmap & He). destruct kc as [k' c].
      unfold env_entry in He. rewrite env_value_of in He. cbn in He.
      destruct (config_text c) eqn:Ec; [|done]. injection He as <- <-. by exists c.
    - intros (c & Hc & Hv). exists (env_var_of k c). split.
      + apply list_elem_of_fmap. by exists (k, c).
      + unfold env_entry. by rewrite env_value_of, Hv. }
  assert (NoDup entries.*1) as Hnde.
  { assert (entries.*1 ≡ₚ m.*1) as ->; [|done].
    assert (entries.*1 = ev_name <$> sort_env (map_env_vars m)) as ->.
    { apply mapM_Some in E. clear -E. induction E as [|e kv l l' He HE IH]; [done|]. cbn. f_equal; [|done].
      unfold env_entry in He. destruct (env_value e); [|done]. by injection He as <-. }
    rewrite sort_env_perm. unfold map_env_vars. rewrite <-list_fmap_compose. done. }
  intros k. destruct (jget k m) as [c|] eqn:Ek; cbn.
  - destruct (config_text c) as [v|] eqn:Ec.
    + apply elem_of_list_to_map; [by rewrite fmap_reverse, reverse_Permutation|].
      rewrite elem_of_reverse. apply Hin. exists c. split; [by apply elem_of_jget | done].
    + apply not_elem_of_list_to_map. rewrite fmap_reverse, elem_of_reverse.
      intros ([k' v] & -> & Hkv)%list_elem_of_fmap. apply Hin in Hkv as (c' & Hc' & Hv).
      cbn in *. apply jget_elem_of in Hc'; [congruence | done].
  - apply not_elem_of_list_to_map. rewrite fmap_reverse, elem_of_reverse.
    intros ([k' v] & -> & Hkv)%list_elem_of_fmap. apply Hin in Hkv as (c' & Hc' & Hv).
    apply jget_elem_of in Hc'; [cbn in *; congruence | done].
Qed.
End pod.

(** ** The variables of the stores *)

(** What a store's specification is written as, after its name. *)
Definition store_fields (st : ApiStorageSpec) : list (string * ApiConfigValue) :=
  match st with
  | ApiMemory enable_archive =>
      [("_TYPE", ApiInline "Memory"); ("_ENABLE_ARCHIVE", ApiInline (show_bool enable_archive))]
  | ApiRedis connection_string cache_size =>
      ("_TYPE", ApiInline "Redis") :: ("_CONNECTION_STRING", connection_string) ::
      match cache_size with
      | Some cache_size => [("_CACHE_SIZE", ApiInline (show_unsigned cache_size))]
      | None => []
      end
  | ApiRocksDb enable_archive _ direct_io =>
      [("_TYPE", ApiInline "RocksDb"); ("_ENABLE_ARCHIVE", ApiInline (show_bool enable_archive));
       ("_DIRECT_IO", ApiInline (show_bool direct_io))]
  end%string.

Definition store_entries (i : nat) (name : string) (st : ApiStorageSpec)
    : list (string * ApiConfigValue) :=
  map (λ sv, (store_key i sv.1, sv.2)) ((""%string, ApiInline name) :: store_fields st).

Definition put_entries (m : btree ApiConfigValue) (l : list (string * ApiConfigValue))
    : btree ApiConfigValue := foldl (λ m kv, jset kv.1 kv.2 m) m l.

Lemma container_store_env id i acc name st :
  (container_store id i acc (name, st)).1.1 = put_entries acc.1.1 (store_entries i name st).
Proof. destruct acc as [[env claims] volumes]. by destruct st as [|? []|]. Qed.

Lemma put_entries_other m l k : k ∉ l.*1 → jget k (put_entries m l) = jget k m.
Proof.
  unfold put_entries. revert m. induction l as [|[k' v] l IH]; intros m Hk; [done|]. cbn in *.
  rewrite IH by set_solver. apply jget_jset_ne. set_solver.
Qed.

Lemma put_entries_elem m l k v : NoDup l.*1 → (k, v) ∈ l → jget k (put_entries m l) = Some v.
Proof.
  revert m. induction l as [|[k' v'] l IH]; intros m Hnd Hin; [by apply elem_of_nil in Hin|].
  cbn in Hnd. apply list.NoDup_cons in Hnd as [Hni Hnd].
  apply list.elem_of_cons in Hin as [[= -> ->]|Hin].
  - change (jget k' (put_entries (jset k' v' m) l) = Some v').
    rewrite put_entries_other by done. apply jget_jset_eq.
  - by apply IH.
Qed.

Lemma put_entries_sorted m l : jsorted m = true → jsorted (put_entries m l) = true.
Proof.
  unfold put_entries. revert m. induction l as [|[k v] l IH]; intros m H; [done|].
  by apply IH, jset_sorted.
Qed.

Lemma store_key_inj i j s t :
  is_u64 (Z.of_nat i) → is_u64 (Z.of_nat j) → no_digit_first s = true → no_digit_first t = true →
  store_key i s = store_key j t → i = j ∧ s = t.
Proof.
  intros Hi Hj Hs Ht H. unfold store_key in H. apply str_app_inj in H.
  apply digits_app_inj in H as [H ->]; [|apply all_digits_show; lia..|done|done].
  apply show_unsigned_inj in H; [|done..]. split; [lia|done].
Qed.

Lemma store_fields_suffix st s v : (s, v) ∈ store_fields st → no_digit_first s = true ∧ s ≠ ""%string.
Proof.
  intros Hin. assert (Forall (λ kv, no_digit_first kv.1 = true ∧ kv.1 ≠ ""%string) (store_fields st))
    as Hall by (destruct st as [|? []|]; repeat constructor; done).
  exact (proj1 (list.Forall_forall _ _) Hall (s, v) Hin).
Qed.

Lemma NoDup_store_fields st : NoDup (store_fields st).*1.
Proof. destruct st as [|? []|]; cbn; apply (bool_decide_unpack _); by vm_compute. Qed.

Section index.
Context (i : nat) (Hi : is_u64 (Z.of_nat i)).

Lemma store_entries_keys name st k :
  k ∈ (store_entries i name st).*1 → ∃ s, k = store_key i s ∧ no_digit_first s = true.
Proof.
  unfold store_entries. rewrite map_cons, fmap_cons. intros [->|Hin]%list.elem_of_cons.
  - by exists ""%string.
  - apply list_elem_of_fmap in Hin as (kv & -> & Hin).
    apply list_elem_of_fmap in Hin as ([s v] & -> & Hin). cbn. exists s.
    split; [done|]. by eapply store_fields_suffix.
Qed.

Lemma NoDup_store_entries name st : NoDup (store_entries i name st).*1.
Proof using Hi.
  assert ((store_entries i name st).*1 = store_key i <$> ((""%string :: (store_fields st).*1))) as ->.
  { unfold store_entries. cbn. f_equal. induction (store_fields st); cbn; congruence. }
  assert (∀ s, s ∈ ""%string :: (store_fields st).*1 → no_digit_first s = true) as Hok.
  { intros s [->|Hin]%list.elem_of_cons; [done|].
    apply list_elem_of_fmap in Hin as ([s' v] & -> & Hin). by eapply store_fields_suffix. }
  apply NoDup_fmap_2_strong.
  - intros s t Hs Ht H. apply store_key_inj in H as [_ ->]; auto.
  - constructor; [|apply NoDup_store_fields]. intros Hin.
    apply list_elem_of_fmap in Hin as ([s' v] & Heq & Hin). cbn in Heq. subst s'.
    by apply store_fields_suffix in Hin as [_ ?].
Qed.

(** Reading a variable of store [i] after its entries were written. *)
Lemma put_store_entries m name st s :
  no_digit_first s = true → jget (store_key i s) m = None →
  jget (store_key i s) (put_entries m (store_entries i name st)) =
  if str_eqb s "" then Some (ApiInline name) else jget s (store_fields st).
Proof using Hi.
  intros Hs Hm. destruct (str_eqb s "") eqn:E.
  - apply str_eqb_true in E. subst. apply put_entries_elem; [apply NoDup_store_entries|]. left.
  - destruct (jget s (store_fields st)) as [v|] eqn:Ev.
    + apply put_entries_elem; [apply NoDup_store_entries|]. right.
      apply list_elem_of_fmap. exists (s, v). split; [done|]. by apply elem_of_jget.
    + rewrite put_entries_other; [done|]. unfold store_entries. cbn.
      apply not_elem_of_cons. split.
      * intros H. apply store_key_inj in H as [_ ->]; done.
      * intros (kv & Hk & Hin)%list_elem_of_fmap.
        apply list_elem_of_fmap in Hin as ([s' v] & -> & Hin). cbn in Hk.
        apply store_key_inj in Hk as [_ ->]; [|done..|by eapply store_fields_suffix].
        apply jget_None in Ev. apply Ev, list_elem_of_fmap. by exists (s', v).
Qed.
End index.

(** *** All the stores *)

(** No variable of a store from [i] on is set. *)
Definition no_stores (i : nat) (m : btree ApiConfigValue) : Prop :=
  ∀ j s, i ≤ j → is_u64 (Z.of_nat j) → no_digit_first s = true → jget (store_key j s) m = None.

(** Store [i] is written in [m]. *)
Definition store_written (m : btree ApiConfigValue) (i : nat) (name : string) (st : ApiStorageSpec)
    : Prop :=
  ∀ s, no_digit_first s = true → jget (store_key i s) m =
    if str_eqb s "" then Some (ApiInline name) else jget s (store_fields st).

Lemma put_store_other i m name st j s :
  is_u64 (Z.of_nat i) → is_u64 (Z.of_nat j) → i ≠ j → no_digit_first s = true →
  jget (store_key j s) (put_entries m (store_entries i name st)) = jget (store_key j s) m.
Proof.
  intros Hi Hj Hne Hs. apply put_entries_other. intros (s' & Hk & Hs')%store_entries_keys.
  by apply store_key_inj in Hk as [-> _].
Qed.

Definition is_nat_u64 (n : nat) : Prop := (Z.of_nat n < u64_modulus)%Z.

Lemma container_stores_env id i acc stores :
  is_nat_u64 (i + length stores) → no_stores i acc.1.1 →
  let m := (container_stores id i acc stores).1.1 in
  (∀ n name st, stores !! n = Some (name, st) → store_written m (i + n) name st) ∧
  no_stores (i + length stores) m ∧
  (∀ k, (∀ j s, i ≤ j < i + length stores → no_digit_first s = true → k ≠ store_key j s) →
     jget k m = jget k acc.1.1).
Proof.
  unfold is_nat_u64. revert i acc. induction stores as [|[name st] stores IH]; intros i acc Hlen Hno.
  { cbn. rewrite Nat.add_0_r. done. }
  cbn [container_stores length] in *.
  assert (is_u64 (Z.of_nat i)) as Hi by (unfold is_u64; lia).
  destruct (IH (S i) (container_store id i acc (name, st))) as (H1 & H2 & H3); [lia| |].
  { intros j s Hj Hj' Hs. rewrite container_store_env, put_store_other; [|done..|lia|done].
    apply Hno; [lia|done..]. }
  rewrite container_store_env in H3. split; [|split].
  - intros [|n] name' st' Hn.
    + injection Hn as <- <-. rewrite Nat.add_0_r. intros s Hs. rewrite H3.
      * apply put_store_entries; [done..|]. by apply Hno.
      * intros j s' Hj Hs' Hk. apply store_key_inj in Hk as [-> _]; [lia|done| |done..].
        unfold is_u64. lia.
    + rewrite <-Nat.add_succ_comm. by apply H1.
  - by rewrite <-Nat.add_succ_comm.
  - intros k Hk. rewrite H3 by (intros j s Hj; apply Hk; lia).
    apply put_entries_other. intros (s & -> & Hs)%store_entries_keys.
    by apply (Hk i s); [lia|..].
Qed.

(** ** What the query host reads *)

(** The store the query host makes of a specification. *)
Definition host_store (secrets : string → string → option string) (st : ApiStorageSpec)
    : option IndexFactory.StorageSpec :=
  match st with
  | ApiMemory enable_archive => Some (IndexFactory.Memory enable_archive)
  | ApiRedis connection_string cache_size =>
      connection_string ← config_text secrets connection_string;
      Some (IndexFactory.Redis connection_string
        (size ← cache_size; if (size <? 1)%Z then None else Some size))
  | ApiRocksDb enable_archive _ direct_io =>
      Some (IndexFactory.RocksDb enable_archive direct_io)
  end.

(** The cache sizes fit in 32 bits. *)
Definition sizes_ok (st : ApiStorageSpec) : Prop :=
  match st with ApiRedis _ (Some size) => (0 ≤ size < 2 ^ 32)%Z | _ => True end.

Section host.
Context (secrets : string → string → option string).
Context (m : btree ApiConfigValue) (env : gmap string string).
Context (Henv : ∀ k, env !! k = jget k m ≫= config_text secrets).

Lemma store_var_key i s : IndexFactory.store_var (Z.of_nat i) s = store_key i s.
Proof. done. Qed.

Lemma read_written_store i name st :
  store_written m i name st → sizes_ok st →
  env !! IndexFactory.store_var (Z.of_nat i) "" = Some name ∧
  IndexFactory.read_store env (Z.of_nat i) = host_store secrets st.
Proof using Henv.
  intros Hw Hok. unfold IndexFactory.read_store, IndexFactory.env_flag. rewrite !store_var_key.
  split; [by rewrite Henv, Hw|].
  assert (∀ suf, no_digit_first suf = true → suf ≠ ""%string →
    env !! store_key i suf = jget suf (store_fields st) ≫= config_text secrets) as Hget.
  { intros suf Hs Hne. rewrite Henv, Hw by done.
    unfold str_eqb. by rewrite bool_decide_eq_false_2. }
  rewrite !Hget by done. destruct st as [a|c size|a cls d].
  - by destruct a.
  - change (jget "_CONNECTION_STRING" _) with (Some c). cbn [mbind option_bind].
    cbn [host_store]. destruct (config_text secrets c) as [conn|]; [|done].
    destruct size as [size|]; [|done].
    change (jget "_CACHE_SIZE" _) with (Some (ApiInline (show_unsigned size))).
    cbn [mbind option_bind config_text]. rewrite parse_show_unsigned; [done|].
    unfold is_u64, u64_modulus. cbn in Hok. lia.
  - by destruct a, d.
Qed.

Definition add_store (specs : btree IndexFactory.StorageSpec) (ns : string * ApiStorageSpec)
    : btree IndexFactory.StorageSpec :=
  match host_store secrets ns.2 with Some st => jset ns.1 st specs | None => specs end.

Lemma read_written_stores fuel i stores specs :
  (∀ n name st, stores !! n = Some (name, st) → store_written m (i + n) name st ∧ sizes_ok st) →
  env !! IndexFactory.store_var (Z.of_nat (i + length stores)) "" = None →
  length stores < fuel →
  IndexFactory.read_stores env fuel (Z.of_nat i) specs = Some (foldl add_store specs stores).
Proof using Henv.
  revert i stores specs. induction fuel as [|fuel IH]; intros i stores specs Hw Hend Hf; [lia|].
  destruct stores as [|[name st] stores].
  - cbn [IndexFactory.read_stores foldl length] in *. rewrite Nat.add_0_r in Hend. by rewrite Hend.
  - destruct (Hw 0 name st eq_refl) as [Hw0 Hok]. rewrite Nat.add_0_r in Hw0.
    destruct (read_written_store i name st Hw0 Hok) as [Hname Hread].
    cbn [IndexFactory.read_stores foldl length] in *. rewrite Hname, Hread.
    replace (Z.of_nat i + 1)%Z with (Z.of_nat (S i)) by lia. unfold add_store at 2. cbn [fst snd].
    assert (∀ specs, IndexFactory.read_stores env fuel (Z.of_nat (S i)) specs =
      Some (foldl add_store specs stores)) as H.
    { intros sp. apply IH; [|by rewrite Nat.add_succ_comm|lia].
      intros n name' st' Hn. rewrite Nat.add_succ_comm. by apply (Hw (S n)). }
    by destruct (host_store secrets st).
Qed.
End host.

Lemma foldl_add_store secrets stores specs name :
  NoDup stores.*1 → jget name (foldl (add_store secrets) specs stores) =
  match jget name stores with
  | Some st => match host_store secrets st with Some s => Some s | None => jget name specs end
  | None => jget name specs
  end.
Proof.
  revert specs. induction stores as [|[n st] stores IH]; intros specs Hnd; [done|].
  cbn in Hnd. apply list.NoDup_cons in Hnd as [Hni Hnd]. cbn [foldl jget]. rewrite IH by done.
  destruct (str_eqb name n) eqn:E.
  - apply str_eqb_true in E. subst. apply jget_None in Hni. rewrite Hni. unfold add_store. cbn.
    destruct (host_store secrets st); [apply jget_jset_eq | done].
  - apply bool_decide_eq_false in E. unfold add_store. cbn.
    destruct (host_store secrets st); [|done]. by rewrite jget_jset_ne by congruence.
Qed.

(** ** From the container's specification to the query host's stores *)

(** The variables of a specification's container. *)
Definition container_env (spec : KubernetesSpec) : list EnvVar :=
  match pt_spec (ds_template (k_deployment spec)) with
  | Some p => from_option (λ c, default [] (c_env c)) [] (head (ps_containers p))
  | None => []
  end.

Lemma pod_env_resolved secrets (m : btree ApiConfigValue) env k c :
  pod_env secrets (sort_env (map_env_vars m)) = Some env → (k, c) ∈ m →
  is_Some (config_text secrets c).
Proof.
  unfold pod_env. destruct (mapM _ _) as [l|] eqn:E; [|done]. intros _ Hin.
  assert (env_var_of k c ∈ sort_env (map_env_vars m)) as He.
  { rewrite sort_env_perm. apply list_elem_of_fmap. by exists (k, c). }
  apply mapM_Some in E. apply list_elem_of_lookup in He as [i Hi].
  destruct (Forall2_lookup_l _ _ _ _ _ E Hi) as (kv & _ & Hkv).
  unfold env_entry in Hkv. rewrite env_value_of in Hkv. by destruct (config_text secrets c).
Qed.

Lemma strip_prefix_app p s : strip_prefix p (p +:+ s) = Some s.
Proof.
  induction p as [|c p IH]; [done|]. change (String c p +:+ s) with (String c (p +:+ s)).
  cbn [strip_prefix]. by rewrite Ascii.eqb_refl.
Qed.

Lemma host_env_no_stores (hash_iter : ∀ A, gmap string A → list (string * A)) id spec :
  (∀ A (m : gmap string A), hash_iter A m ≡ₚ map_to_list m) →
  (∀ k, k ∈ dom (ac_results spec) → strip_prefix "STORE_" k = None) →
  no_stores 0 (host_env hash_iter id spec).
Proof.
  intros Hperm Hres j s _ _ _.
  assert (∀ k, strip_prefix "STORE_" k = None → k ≠ store_key j s) as Hne.
  { intros k Hk ->. unfold store_key in Hk. by rewrite strip_prefix_app in Hk. }
  unfold host_env. rewrite jget_jset_ne by (by apply Hne).
  change (jget (store_key j s) (put_entries [("QUERY_NODE_ID"%string, ApiInline id)]
    (hash_iter _ (ac_results spec))) = None).
  rewrite put_entries_other.
  - cbn. destruct (str_eqb _ _) eqn:E; [|done]. apply str_eqb_true in E. symmetry in E.
    exfalso. by eapply Hne; [|exact E].
  - rewrite Hperm. intros ([k v] & Heq & Hin%elem_of_map_to_list)%list_elem_of_fmap.
    cbn in Heq. subst. apply (Hne (store_key j s)); [|done]. apply Hres, elem_of_dom. by exists v.
Qed.

Lemma jget_perm {A} (l : list (string * A)) (m : gmap string A) k :
  l ≡ₚ map_to_list m → jget k l = m !! k.
Proof.
  intros Hp. assert (NoDup l.*1) as Hnd by (rewrite Hp; apply NoDup_fst_map_to_list).
  destruct (m !! k) as [v|] eqn:E.
  - apply jget_elem_of; [done|]. rewrite Hp. by apply elem_of_map_to_list.
  - apply jget_None. rewrite Hp. intros ([k' v] & Heq & Hin%elem_of_map_to_list)%list_elem_of_fmap.
    cbn in Heq. congruence.
Qed.

Lemma host_env_sorted hash_iter id spec : jsorted (host_env hash_iter id spec) = true.
Proof. unfold host_env. apply jset_sorted. by apply put_entries_sorted. Qed.

Lemma container_stores_sorted id i acc stores :
  jsorted acc.1.1 = true → jsorted (container_stores id i acc stores).1.1 = true.
Proof.
  revert i acc. induction stores as [|[name st] stores IH]; intros i acc H; [done|].
  cbn [container_stores]. apply IH. rewrite container_store_env. by apply put_entries_sorted.
Qed.

Section read.
Context (hash_iter : ∀ A, gmap string A → list (string * A)) (rc : RuntimeConfig).
Context (secrets : string → string → option string) (id : string) (spec : ApiQueryContainerSpec).
Context (env : gmap string string).
Context (Hperm : ∀ A (m : gmap string A), hash_iter A m ≡ₚ map_to_list m).
Context (Hres : ∀ k, k ∈ dom (ac_results spec) → strip_prefix "STORE_" k = None).
Context (Hsizes : map_Forall (λ _ st, sizes_ok st) (ac_storage spec)).
Context (Hlen : is_nat_u64 (S (size (ac_storage spec)))).
Context (Hpod : pod_env secrets (container_env (query_host_spec hash_iter rc id spec)) = Some env).

Notation stores := (hash_iter _ (ac_storage spec)).

Lemma stores_length : length stores = size (ac_storage spec).
Proof using Hperm. by rewrite Hperm, length_map_to_list. Qed.

Lemma stores_lookup name : jget name stores = ac_storage spec !! name.
Proof using Hperm. by apply jget_perm. Qed.

(** The variables of the query host, and what they read as. *)
Lemma host_variables : ∃ m,
  pod_env secrets (sort_env (map_env_vars m)) = Some env ∧
  (∀ k, env !! k = jget k m ≫= config_text secrets) ∧
  (∀ n name st, stores !! n = Some (name, st) → store_written m n name st) ∧
  jget (store_key (length stores) "") m = None ∧
  env !! "DEFAULT_STORE"%string = Some (ac_default_store spec).
Proof using Hperm Hres Hlen Hpod.
  set (acc := (host_env hash_iter id spec, [], []) : btree ApiConfigValue *
    btree PersistentVolumeClaim * btree string).
  set (m := (container_stores id 0 acc stores).1.1). exists m.
  assert (container_env (query_host_spec hash_iter rc id spec) = sort_env (map_env_vars m)) as Heq.
  { unfold query_host_spec. subst m. fold acc.
    by destruct (container_stores id 0 acc stores) as [[env' claims] volumes]. }
  rewrite Heq in Hpod.
  assert (jsorted m = true) as Hsorted by apply container_stores_sorted, host_env_sorted.
  pose proof (pod_env_lookup _ _ _ (jsorted_NoDup _ Hsorted) Hpod) as Henv.
  destruct (container_stores_env id 0 acc stores) as (Hw & Hend & Hother).
  { unfold is_nat_u64 in *. rewrite stores_length. lia. }
  { by apply host_env_no_stores. }
  split; [done|]. split; [done|]. split; [by apply Hw|]. split.
  - apply Hend; [done| |done]. rewrite stores_length. unfold is_u64, is_nat_u64 in *. lia.
  - rewrite Henv. fold m in Hother. rewrite Hother by done. unfold acc, host_env. cbn [fst].
    by rewrite jget_jset_eq.
Qed.

(** Every store of the container becomes one: its secrets were found. *)
Lemma stores_resolved name st : ac_storage spec !! name = Some st → is_Some (host_store secrets st).
Proof using Hperm Hres Hlen Hpod.
  intros Hst. destruct host_variables as (m & Hm & _ & Hw & _).
  rewrite <-stores_lookup in Hst. apply elem_of_jget, list_elem_of_lookup in Hst as [n Hn].
  specialize (Hw n name st Hn). destruct st as [|c size|]; [by eexists| |by eexists].
  specialize (Hw "_CONNECTION_STRING"%string eq_refl).
  change (jget (store_key n "_CONNECTION_STRING") m = Some c) in Hw.
  apply elem_of_jget in Hw.
  destruct (pod_env_resolved _ _ _ _ _ Hm Hw) as [v Hv]. cbn. rewrite Hv. by eexists.
Qed.

Lemma host_reads_stores :
  IndexFactory.read_stores env (S (size (ac_storage spec))) 0 [] =
  Some (foldl (add_store secrets) [] stores).
Proof using Hperm Hres Hsizes Hlen Hpod.
  destruct host_variables as (m & _ & Henv & Hw & Hend & _). rewrite <-stores_length.
  apply (read_written_stores secrets m env Henv _ 0).
  - intros n name st Hn. split; [by apply Hw|]. apply (Hsizes name).
    rewrite <-stores_lookup. apply jget_elem_of; [|by eapply list_elem_of_lookup_2].
    rewrite Hperm. apply NoDup_fst_map_to_list.
  - cbn [Nat.add]. by rewrite store_var_key, Henv, Hend.
  - lia.
Qed.

Lemma host_store_lookup name :
  jget name (foldl (add_store secrets) [] stores) = ac_storage spec !! name ≫= host_store secrets.
Proof using Hperm.
  rewrite foldl_add_store by (rewrite Hperm; apply NoDup_fst_map_to_list).
  rewrite stores_lookup. destruct (ac_storage spec !! name) as [st|]; [|done]. cbn.
  by destruct (host_store secrets st).
Qed.

(** C13: The stores a query container asks for are the stores its query host
    uses: when the pod starts with the variables the provider wrote, reading
    the configuration gives the same stores by name, with the secrets resolved,
    and the same default store; a container without stores gets one in memory. *)
Theorem stores_reach_query_host :
  ∃ f, IndexFactory.new env (S (size (ac_storage spec))) = Some f ∧
    IndexFactory.default_store f = ac_default_store spec ∧
    ∀ name, jget name (IndexFactory.storage_specs f) =
      if decide (ac_storage spec = ∅) then
        jget name [("memory"%string, IndexFactory.Memory false)]
      else ac_storage spec !! name ≫= host_store secrets.
Proof using Hperm Hres Hsizes Hlen Hpod.
  destruct host_variables as (m & _ & _ & _ & _ & Hdef).
  unfold IndexFactory.new. rewrite host_reads_stores. cbn [mbind option_bind].
  rewrite Hdef. cbn [mbind option_bind]. eexists. split; [done|]. split; [done|].
  intros name. cbn [IndexFactory.storage_specs]. rewrite <-host_store_lookup. case_decide as He.
  - assert (stores = []) as -> by (apply length_zero_iff_nil; by rewrite stores_length, He). done.
  - destruct (foldl (add_store secrets) [] stores) eqn:E; [|done].
    apply map_choose in He as (n & st & Hst). destruct (stores_resolved n st Hst) as [s Hs].
    pose proof (host_store_lookup n) as Hn. rewrite E, Hst in Hn. cbn in Hn. congruence.
Qed.
End read.

Definition example_container : ApiQueryContainerSpec :=
  mkApiContainer 1 {["VIEW_STORE_TYPE" := ApiInline "mongo"]}%string
    {["r" := ApiRedis (ApiSecret "s" "k") (Some 10%Z); "m" := ApiMemory true]}%string "r".

Definition example_secrets (name key : string) : option string := Some "redis://x"%string.

Definition example_pod_env : gmap string string :=
  default ∅ (pod_env example_secrets (container_env
    (query_host_spec (λ _, map_to_list) (runtime_config_default ∅) "c" example_container))).

Lemma stores_reach_query_host_witness :
  ∃ f, IndexFactory.new example_pod_env 3 = Some f ∧
    IndexFactory.default_store f = "r"%string ∧
    ∀ name, jget name (IndexFactory.storage_specs f) =
      if decide (ac_storage example_container = ∅) then
        jget name [("memory"%string, IndexFactory.Memory false)]
      else ac_storage example_container !! name ≫= host_store example_secrets.
Proof.
  apply (stores_reach_query_host (λ _, map_to_list) (runtime_config_default ∅) example_secrets "c"
    example_container).
  - done.
  - intros k [v Hv]%elem_of_dom. unfold example_container in Hv. cbn in Hv. by apply lookup_singleton_Some in Hv as [<- _].
  - intros k st. unfold example_container. cbn. intros [[_ <-]|[_ [_ <-]%lookup_singleton_Some]]%lookup_insert_Some; cbn; [lia | done].
  - vm_compute. reflexivity.
  - vm_compute. reflexivity.
Defined.
