(* ===== verification/KubeApi.v ===== *)
(** * KubeApi: the calls the provider makes to the Kubernetes API, and a cluster

    [kube] and the API server are libraries and services: a call is an effect.
    [cluster_step] is a working API server, used by the theorems about what a
    reconciliation achieves; it may fill in defaults ([as_stored]) and merges
    patches ([merge]), about which only the stated laws are used. *)
From S2P Require Import Prelude BTree RustText KubeModels Effects.

(** [kube::Error]: [Api] with its code, or anything else. *)
Inductive kube_error :=
| KubeApi (code : Z)
| KubeOther (e : string).

(** The kinds of objects reached through an [Api<K>]. *)
Inductive kind :=
| KComponent | KDeployment | KConfigMap | KPvc | KService | KIngress | KServiceAccount.

Definition obj (k : kind) : Type :=
  match k with
  | KComponent => Component
  | KDeployment => Deployment
  | KConfigMap => ConfigMap
  | KPvc => PersistentVolumeClaim
  | KService => KubeService
  | KIngress => Ingress
  | KServiceAccount => ServiceAccount
  end.

Definition meta_of {k : kind} : obj k → ObjectMeta :=
  match k with
  | KComponent => cm_meta
  | KDeployment => dep_metadata
  | KConfigMap => cm_metadata
  | KPvc => pvc_metadata
  | KService => ks_metadata
  | KIngress => ing_metadata
  | KServiceAccount => sa_metadata
  end.

Definition name_of {k} (o : obj k) : string := default EmptyString (om_name (meta_of o)).

#[export] Instance kind_eq_dec : EqDecision kind.
Proof. solve_decision. Defined.

(** Objects of the provider's default namespace unless said otherwise. A
    deletion answers the object it left ([Either::Left]) or only a status.
    [Api::entry] answers the object when there is one; [commit] writes an entry
    that was inserted or changed. *)
Inductive kube_call : Type → Type :=
| KGet (k : kind) (name : string) : kube_call (result (obj k) kube_error)
| KCreate (k : kind) (o : obj k) : kube_call (result (obj k) kube_error)
| KReplace (k : kind) (name : string) (o : obj k) : kube_call (result (obj k) kube_error)
| KPatch (k : kind) (name : string) (o : obj k) : kube_call (result (obj k) kube_error)
| KDelete (k : kind) (name : string) : kube_call (result (option (obj k)) kube_error)
| KEntry (k : kind) (name : string) : kube_call (result (option (obj k)) kube_error)
| KCommit (k : kind) (name : string) (o : obj k) (is_new : bool) : kube_call (result unit kube_error)
| KListPods (label_selector : string) : kube_call (result (list Pod) kube_error)
| KListIngresses (label_selector : string) : kube_call (result (list Ingress) kube_error)
| KGetServiceIn (namespace name : string) : kube_call (result KubeService kube_error).

Notation K := (prog kube_call).

(** Whether a call only reads. *)
Definition reads_only {X} (e : kube_call X) : bool :=
  match e with
  | KGet _ _ | KEntry _ _ | KCommit _ _ _ false | KListPods _ | KListIngresses _ | KGetServiceIn _ _ => true
  | _ => false
  end.

(** ** What an API server keeps of an object it is sent *)

(** A server fills in what is left out, and may add labels and annotations; what
    it was sent is still there.  It does not tell a text that is not there from an
    empty one, nor a flag from one that is off, and it may write a quantity
    another way. *)
Definition opt_kept {A} (R : relation A) (a b : option A) : Prop :=
  from_option (λ x, ∃ y, b = Some y ∧ R x y) True a.

Definition map_kept (m m' : btree string) : Prop := ∀ k v, jget k m = Some v → jget k m' = Some v.
Definition keys_kept (m m' : btree string) : Prop :=
  ∀ k, is_Some (jget k m) → is_Some (jget k m').

Definition meta_kept (m m' : ObjectMeta) : Prop :=
  opt_kept eq (om_name m) (om_name m') ∧ opt_kept map_kept (om_labels m) (om_labels m') ∧
  opt_kept map_kept (om_annotations m) (om_annotations m').

Definition env_kept (e e' : EnvVar) : Prop :=
  ev_name e = ev_name e' ∧ default EmptyString (ev_value e) = default EmptyString (ev_value e') ∧
  ev_value_from e = ev_value_from e'.
Definition mount_kept (v v' : VolumeMount) : Prop :=
  vmt_name v = vmt_name v' ∧ vmt_mount_path v = vmt_mount_path v' ∧
  default false (vmt_read_only v) = default false (vmt_read_only v').
Definition resources_kept (q q' : ResourceRequirements) : Prop :=
  opt_kept keys_kept (rq_limits q) (rq_limits q') ∧
  opt_kept keys_kept (rq_requests q) (rq_requests q').

Definition container_kept (c c' : Container) : Prop :=
  c_name c = c_name c' ∧ opt_kept eq (c_image c) (c_image c') ∧
  opt_kept eq (c_image_pull_policy c) (c_image_pull_policy c') ∧
  opt_kept eq (c_termination_message_policy c) (c_termination_message_policy c') ∧
  opt_kept (Forall2 env_kept) (c_env c) (c_env c') ∧
  opt_kept resources_kept (c_resources c) (c_resources c') ∧
  opt_kept eq (c_ports c) (c_ports c') ∧
  opt_kept (Forall2 mount_kept) (c_volume_mounts c) (c_volume_mounts c').
Definition pod_spec_kept (s s' : PodSpec) : Prop :=
  Forall2 container_kept (ps_containers s) (ps_containers s') ∧
  opt_kept eq (ps_volumes s) (ps_volumes s') ∧
  opt_kept eq (ps_service_account_name s) (ps_service_account_name s').
Definition template_kept (t t' : PodTemplateSpec) : Prop :=
  opt_kept meta_kept (pt_metadata t) (pt_metadata t') ∧
  opt_kept pod_spec_kept (pt_spec t) (pt_spec t').
Definition deployment_spec_kept (d d' : DeploymentSpec) : Prop :=
  opt_kept eq (ds_replicas d) (ds_replicas d') ∧
  opt_kept map_kept (ds_match_labels d) (ds_match_labels d') ∧
  opt_kept (opt_kept eq) (ds_strategy d) (ds_strategy d') ∧
  template_kept (ds_template d) (ds_template d').

Definition port_kept (p p' : ServicePort) : Prop :=
  opt_kept eq (sp_name p) (sp_name p') ∧ sp_port p = sp_port p' ∧
  opt_kept eq (sp_target_port p) (sp_target_port p').
Definition service_spec_kept (s s' : ServiceSpec) : Prop :=
  opt_kept eq (ss_type s) (ss_type s') ∧ opt_kept map_kept (ss_selector s) (ss_selector s') ∧
  opt_kept (Forall2 port_kept) (ss_ports s) (ss_ports s').

Definition claim_spec_kept (s s' : PersistentVolumeClaimSpec) : Prop :=
  opt_kept eq (pvs_access_modes s) (pvs_access_modes s') ∧
  opt_kept resources_kept (pvs_resources s) (pvs_resources s') ∧
  opt_kept eq (pvs_storage_class_name s) (pvs_storage_class_name s').

(** What each kind of object is made of besides its metadata.  The data of a
    config map, an ingress and a component are kept as they are. *)
Definition body_kept {k : kind} : obj k → obj k → Prop :=
  match k with
  | KComponent => λ o o', cm_spec o = cm_spec o'
  | KDeployment => λ o o', opt_kept deployment_spec_kept (dep_spec o) (dep_spec o')
  | KConfigMap => λ o o', cm_data o = cm_data o'
  | KPvc => λ o o', opt_kept claim_spec_kept (pvc_spec o) (pvc_spec o')
  | KService => λ o o', opt_kept service_spec_kept (ks_spec o) (ks_spec o')
  | KIngress => λ o o', ing_spec o = ing_spec o'
  | KServiceAccount => λ _ _, True
  end.

(** Everything that the first object says, the second one says. *)
Definition kept {k : kind} (o o' : obj k) : Prop :=
  meta_kept (meta_of o) (meta_of o') ∧ body_kept o o'.

#[export] Instance opt_kept_preorder {A} (R : relation A) : PreOrder R → PreOrder (opt_kept R).
Proof.
  intros HR. split.
  - intros [a|]; [by exists a | done].
  - intros [a|] b c; [|done]. intros (y & -> & Hy) (z & -> & Hz). exists z. split; [done | by etrans].
Qed.
#[export] Instance map_kept_preorder : PreOrder map_kept.
Proof. split; [by intros m k v|]. intros a b c H H' k v Hk. by apply H', H. Qed.
#[export] Instance keys_kept_preorder : PreOrder keys_kept.
Proof. split; [by intros m k|]. intros a b c H H' k Hk. by apply H', H. Qed.

(** A relation that is a conjunction of preorders on the fields. *)
Ltac fieldwise R :=
  split; [intros ?; unfold R; repeat split; reflexivity|];
  intros a b c; unfold R; intros H H'; destruct_and?;
  repeat match goal with |- _ ∧ _ => split end; by etrans.

#[export] Instance meta_kept_preorder : PreOrder meta_kept.
Proof. fieldwise meta_kept. Qed.
#[export] Instance env_kept_preorder : PreOrder env_kept.
Proof. fieldwise env_kept. Qed.
#[export] Instance mount_kept_preorder : PreOrder mount_kept.
Proof. fieldwise mount_kept. Qed.
#[export] Instance resources_kept_preorder : PreOrder resources_kept.
Proof. fieldwise resources_kept. Qed.
#[export] Instance container_kept_preorder : PreOrder container_kept.
Proof. fieldwise container_kept. Qed.
#[export] Instance pod_spec_kept_preorder : PreOrder pod_spec_kept.
Proof. fieldwise pod_spec_kept. Qed.
#[export] Instance template_kept_preorder : PreOrder template_kept.
Proof. fieldwise template_kept. Qed.
#[export] Instance deployment_spec_kept_preorder : PreOrder deployment_spec_kept.
Proof. fieldwise deployment_spec_kept. Qed.
#[export] Instance port_kept_preorder : PreOrder port_kept.
Proof. fieldwise port_kept. Qed.
#[export] Instance service_spec_kept_preorder : PreOrder service_spec_kept.
Proof. fieldwise service_spec_kept. Qed.
#[export] Instance claim_spec_kept_preorder : PreOrder claim_spec_kept.
Proof. fieldwise claim_spec_kept. Qed.
#[export] Instance body_kept_preorder k : PreOrder (@body_kept k).
Proof.
  split.
  - intros o. destruct k; cbn; try done; apply (opt_kept_preorder _ _).
  - intros a b c. destruct k; cbn; try congruence; try done; apply (opt_kept_preorder _ _).
Qed.
#[export] Instance kept_preorder k : PreOrder (@kept k).
Proof. split; [by intros o; split | intros a b c [] []; split; by etrans]. Qed.

(** ** A cluster *)

(** The objects by kind and name; the pods and the load balancers are what the
    cluster runs by itself. *)
Record cluster := mkCluster {
  cl_objects : ∀ k : kind, gmap string (obj k);
  cl_pods : string → list Pod;
  cl_ingresses : string → list Ingress;
  cl_other_services : string → gmap string KubeService;
}.

(** The object of a kind with a name. *)
Definition find (c : cluster) (k : kind) (name : string) : option (obj k) := cl_objects c k !! name.

Definition update_kind (k : kind) (m : gmap string (obj k)) (c : cluster) : cluster :=
  mkCluster
    (λ k', match decide (k = k') with
           | left e => eq_rect k (λ k, gmap string (obj k)) m k' e
           | right _ => cl_objects c k'
           end)
    (cl_pods c) (cl_ingresses c) (cl_other_services c).

Definition put_obj (k : kind) (name : string) (o : obj k) (c : cluster) : cluster :=
  update_kind k (<[name := o]> (cl_objects c k)) c.
Definition drop_obj (k : kind) (name : string) (c : cluster) : cluster :=
  update_kind k (delete name (cl_objects c k)) c.

Lemma lookup_update_kind_eq k m c : cl_objects (update_kind k m c) k = m.
Proof.
  simpl. destruct (decide (k = k)) as [e|]; [|done].
  by rewrite (Eqdep_dec.UIP_dec kind_eq_dec e eq_refl).
Qed.
Lemma lookup_update_kind_ne k k' m c :
  k ≠ k' → cl_objects (update_kind k m c) k' = cl_objects c k'.
Proof. intros H. simpl. by destruct (decide (k = k')). Qed.

#[global] Arguments find : simpl never.
#[global] Arguments put_obj : simpl never.
#[global] Arguments drop_obj : simpl never.

(** The kinds whose objects are replaced only by one that names the version it
    replaces: custom resources and service accounts. *)
Definition wants_version (k : kind) : bool :=
  match k with KComponent | KServiceAccount => true | _ => false end.

Section cluster.
Context (as_stored : ∀ k, obj k → obj k).
Context (merge : ∀ k, obj k → obj k → obj k).

(** An object that is not there is answered with 404, one that is there already
    with 409, one without a name with 422, and so is a replacement without a
    version where one is wanted: the provider's objects never name one. *)
Definition cluster_step (X : Type) (e : kube_call X) (c : cluster) : X * cluster :=
  match e in kube_call X return X * cluster with
  | KGet k name =>
      (match find c k name with Some o => Ok o | None => Err (KubeApi 404) end, c)
  | KCreate k o =>
      match om_name (meta_of o) with
      | None => (Err (KubeApi 422), c)
      | Some name =>
          match find c k name with
          | Some _ => (Err (KubeApi 409), c)
          | None => (Ok (as_stored k o), put_obj k name (as_stored k o) c)
          end
      end
  | KReplace k name o =>
      match find c k name with
      | Some _ =>
          if wants_version k then (Err (KubeApi 422), c)
          else (Ok (as_stored k o), put_obj k name (as_stored k o) c)
      | None => (Err (KubeApi 404), c)
      end
  | KPatch k name o =>
      match find c k name with
      | Some old =>
          (Ok (as_stored k (merge k old o)), put_obj k name (as_stored k (merge k old o)) c)
      | None => (Err (KubeApi 404), c)
      end
  | KDelete k name =>
      match find c k name with
      | Some o => (Ok None, drop_obj k name c)
      | None => (Err (KubeApi 404), c)
      end
  | KEntry k name => (Ok (find c k name), c)
  | KCommit k name o false => (Ok (), c)
  | KCommit k name o true =>
      match find c k name with
      | Some _ => (Err (KubeApi 409), c)
      | None => (Ok (), put_obj k name (as_stored k o) c)
      end
  | KListPods selector => (Ok (cl_pods c selector), c)
  | KListIngresses selector => (Ok (cl_ingresses c selector), c)
  | KGetServiceIn namespace name =>
      (match cl_other_services c namespace !! name with
       | Some s => Ok s
       | None => Err (KubeApi 404)
       end, c)
  end.

Lemma cluster_step_reads {X} (e : kube_call X) c :
  reads_only e = true → (cluster_step X e c).2 = c.
Proof. by destruct e as [| | | | | |? ? ? []| | |]. Qed.
End cluster.
