(* ===== verification/Reconciler.v ===== *)
(** * Reconciler: bringing the cluster to a specification
    ([kubernetes_provider/src/controller/reconciler.rs]) *)
From S2P Require Import Prelude BTree RustText KubeModels Effects KubeApi.
From Stdlib Require Import Ascii.

Inductive ReconcileStatus :=
| RsUnknown
| RsOffline (msg : string)
| RsOnline.

#[export] Instance ReconcileStatus_eq_dec : EqDecision ReconcileStatus.
Proof. solve_decision. Defined.

Record ResourceReconciler := mkReconciler {
  rr_kspec : KubernetesSpec;
  rr_runtime_config : RuntimeConfig;
  rr_deployment_hash : string;
  rr_service_account_hash : string;
  rr_labels : btree string;
  rr_status : ReconcileStatus;
}.

Definition set_status (status : ReconcileStatus) (r : ResourceReconciler) : ResourceReconciler :=
  mkReconciler (rr_kspec r) (rr_runtime_config r) (rr_deployment_hash r)
    (rr_service_account_hash r) (rr_labels r) status.

Definition mark_removed (k : KubernetesSpec) : KubernetesSpec :=
  mkKubernetesSpec (k_resource_type k) (k_resource_id k) (k_service_name k) (k_deployment k)
    (k_services k) (k_config_maps k) (k_volume_claims k) (k_ingresses k) (k_pub_sub k)
    (k_service_account k) true.

(** [self.spec.removed = true] *)
Definition set_removed (r : ResourceReconciler) : ResourceReconciler :=
  mkReconciler (mark_removed (rr_kspec r)) (rr_runtime_config r) (rr_deployment_hash r)
    (rr_service_account_hash r) (rr_labels r) (rr_status r).

Section hashes.
(** [SpookyHasher] on a sequence of byte vectors, and [serde_json::to_vec] of
    the hashed values. *)
Context (spooky : list string → Z).
Context (deployment_to_vec : DeploymentSpec → string).
Context (config_maps_to_vec : btree ConfigMap → string).
Context (account_to_vec : option ServiceAccount → string).

Definition calc_deployment_hash (spec : KubernetesSpec) : string :=
  show_02x (spooky [deployment_to_vec (k_deployment spec); config_maps_to_vec (k_config_maps spec)]).

Definition calc_service_account_hash (spec : KubernetesSpec) : string :=
  show_02x (spooky [account_to_vec (k_service_account spec)]).

(** [ResourceReconciler::new]; [client] is what making a client answers. [None]
    when it panics. *)
Definition reconciler_new (client : result unit string) (spec : KubernetesSpec)
    (runtime_config : RuntimeConfig) : option ResourceReconciler :=
  labels ← ds_match_labels (k_deployment spec);
  match client with
  | Err _ => None
  | Ok _ =>
      Some (mkReconciler spec runtime_config (calc_deployment_hash spec)
              (calc_service_account_hash spec) labels RsUnknown)
  end.
End hashes.

(** ** The status of a deployment *)

(** What a container's state says: terminated, waiting, or both. *)
Definition state_errors (name : string) (state : ContainerState) : list string :=
  match cs_terminated state with
  | Some t =>
      [name +:+ ": " +:+ default EmptyString (sr_reason t) +:+ " " +:+
       default "Terminated"%string (sr_message t)]
  | None => []
  end ++
  match cs_waiting state with
  | Some w =>
      [name +:+ ": waiting: " +:+ default EmptyString (sr_reason w) +:+ " " +:+
       default EmptyString (sr_message w)]
  | None => []
  end.

(** [last_state.or(state)] when some container of the pod is not ready. *)
Definition container_errors (not_ready : bool) (c : ContainerStatus) : list string :=
  let state :=
    if not_ready then match ct_last_state c with Some s => Some s | None => ct_state c end
    else ct_state c in
  match state with
  | Some state => state_errors (ct_name c) state
  | None => []
  end.

Definition pod_errors (p : Pod) : list string :=
  match om_deletion_timestamp (pod_metadata p) with
  | Some _ => []
  | None =>
      match pod_container_statuses p with
      | Some (Some container_statuses) =>
          let not_ready := existsb (λ c, negb (ct_ready c)) container_statuses in
          concat (map (container_errors not_ready) container_statuses)
      | _ => []
      end
  end.

Definition label_selector (labels : btree string) : string :=
  join "," (map (λ kv, kv.1 +:+ "=" +:+ kv.2) labels).

Definition newline : string := String (ascii_of_nat 10) EmptyString.

(** The status the deployment gives. *)
Definition update_deployment_status (deployment : Deployment) : K ReconcileStatus :=
  match dep_status deployment with
  | Some available_replicas =>
      if (default 0 available_replicas =? 0)%Z then
        match dep_spec deployment with
        | None => mret (RsOffline "-")
        | Some spec =>
            match ds_match_labels spec with
            | None => mret (RsOffline "-")
            | Some deployment_labels =>
                pod_list ← trigger (KListPods (label_selector deployment_labels));
                match pod_list with
                | Err _ => mret (RsOffline "-")
                | Ok items => mret (RsOffline (join newline (concat (map pod_errors items))))
                end
            end
        end
      else mret RsOnline
  | None => mret RsUnknown
  end.

(** ** Removal *)

(** The answer of a deletion: the object need not be there. *)
Definition deleted {A} (answer : result A kube_error) : result unit kube_error :=
  match answer with
  | Ok _ => Ok ()
  | Err (KubeApi code) => if (code =? 404)%Z then Ok () else Err (KubeApi code)
  | Err (KubeOther e) => Err (KubeOther e)
  end.

(** The deletions of one kind, up to the first that fails. *)
Fixpoint delete_all (k : kind) (names : list string) : K (result unit kube_error) :=
  match names with
  | [] => mret (Ok ())
  | name :: names =>
      answer ← trigger (KDelete k name);
      match deleted answer with
      | Ok _ => delete_all k names
      | Err e => mret (Err e)
      end
  end.

(** [{resource_id}-{service_name}]: the deployment's name. *)
Definition deployment_name (spec : KubernetesSpec) : string :=
  k_resource_id spec +:+ "-" +:+ k_service_name spec.

(** The next step of a function that returns at the first error. *)
Definition and_then (p : K (result unit kube_error)) (q : K (result unit kube_error))
    : K (result unit kube_error) :=
  r ← p;
  match r with Ok _ => q | Err e => mret (Err e) end.

Definition account_name (spec : KubernetesSpec) : list string :=
  match k_service_account spec with
  | Some service_account =>
      match om_name (sa_metadata service_account) with Some name => [name] | None => [] end
  | None => []
  end.

(** What is deleted after the deployment. *)
Definition deprovision_rest (spec : KubernetesSpec) : K (result unit kube_error) :=
  and_then (delete_all KService (map (service_object spec) (k_services spec).*1))
    (and_then (delete_all KConfigMap (k_config_maps spec).*1)
       (and_then
          (match k_ingresses spec with
           | Some ingresses => delete_all KIngress ingresses.*1
           | None => mret (Ok ())
           end)
          (delete_all KServiceAccount (account_name spec)))).

Definition deprovision (r : ResourceReconciler) : K (result unit kube_error * ResourceReconciler) :=
  let spec := rr_kspec r in
  answer ← trigger (KDelete KDeployment (deployment_name spec));
  match deleted answer with
  | Err e => mret (Err e, r)
  | Ok _ =>
      status ← match answer with
               | Ok (Some dep) => update_deployment_status dep
               | _ => mret (rr_status r)
               end;
      res ← deprovision_rest spec;
      mret (res, set_status status r)
  end.

(** ** Creating and updating *)

Definition is_not_found (e : kube_error) : bool :=
  match e with KubeApi code => (code =? 404)%Z | KubeOther _ => false end.

(** [e.await?; Ok(())] *)
Definition written {A} (e : kube_call (result A kube_error)) : K (result unit kube_error) :=
  r ← trigger e;
  match r with Ok _ => mret (Ok ()) | Err e => mret (Err e) end.

(** Get an object; update it, or create it when it is not there. *)
Definition get_or_create {k} (name : string) (found : obj k → K (result unit kube_error))
    (new : obj k) : K (result unit kube_error) :=
  r ← trigger (KGet k name);
  match r with
  | Ok current => found current
  | Err e => if is_not_found e then written (KCreate k new) else mret (Err e)
  end.

(** [for (name, o) in ...] up to the first error. *)
Fixpoint for_each {A} (f : string → A → K (result unit kube_error)) (l : btree A)
    : K (result unit kube_error) :=
  match l with
  | [] => mret (Ok ())
  | (name, a) :: l => and_then (f name a) (for_each f l)
  end.

(** [metadata.annotations.unwrap()["drasi/spechash"].clone()] *)
Definition spechash (m : ObjectMeta) : K string :=
  match om_annotations m with
  | None => Panic "called Option::unwrap() on a None value"
  | Some annotations =>
      match jget "drasi/spechash" annotations with
      | Some h => mret h
      | None => Panic "no entry found for key"
      end
  end.

Definition hash_annotation (h : string) : btree string := [("drasi/spechash"%string, h)].

Definition reconcile_components (r : ResourceReconciler) : K (result unit kube_error) :=
  match k_pub_sub (rr_kspec r) with
  | None => mret (Ok ())
  | Some pub_sub =>
      match om_name (cm_meta pub_sub) with
      | None => Panic "called Option::unwrap() on a None value"
      | Some name =>
          get_or_create (k:=KComponent) name (λ current,
            if decide (cm_spec current ≠ cm_spec pub_sub) then
              written (KReplace KComponent name pub_sub)
            else mret (Ok ())) pub_sub
      end
  end.

(** The deployment that should be there. *)
Definition desired_deployment (r : ResourceReconciler) : Deployment :=
  let d := k_deployment (rr_kspec r) in
  {| dep_metadata :=
       mkMeta (Some (deployment_name (rr_kspec r))) (Some (rr_labels r))
         (Some (hash_annotation (rr_deployment_hash r))) None;
     dep_spec :=
       Some (mkDeploymentSpec (ds_replicas d) (ds_match_labels d)
               (Some (Some "RollingUpdate"%string)) (ds_template d));
     dep_status := None |}.

(** A write whose answer gives the new status. *)
Definition write_deployment (e : kube_call (result Deployment kube_error))
    (r : ResourceReconciler) : K (result unit kube_error * ResourceReconciler) :=
  answer ← trigger e;
  match answer with
  | Ok dep => status ← update_deployment_status dep; mret (Ok (), set_status status r)
  | Err e => mret (Err e, r)
  end.

Definition reconcile_deployment (r : ResourceReconciler)
    : K (result unit kube_error * ResourceReconciler) :=
  let name := deployment_name (rr_kspec r) in
  let dep := desired_deployment r in
  answer ← trigger (KGet KDeployment name);
  match answer with
  | Ok current =>
      status ← update_deployment_status current;
      let r := set_status status r in
      current_hash ← spechash (dep_metadata current);
      if decide (current_hash ≠ rr_deployment_hash r) then
        write_deployment (KPatch KDeployment name dep) r
      else mret (Ok (), r)
  | Err e =>
      if is_not_found e then write_deployment (KCreate KDeployment dep) r
      else mret (Err e, r)
  end.

Definition reconcile_config_map (name : string) (cm : ConfigMap) : K (result unit kube_error) :=
  get_or_create (k:=KConfigMap) name (λ current,
    if decide (cm_data current ≠ cm_data cm) then written (KReplace KConfigMap name cm)
    else mret (Ok ())) cm.

Definition reconcile_config_maps (r : ResourceReconciler) : K (result unit kube_error) :=
  for_each reconcile_config_map (k_config_maps (rr_kspec r)).

(** The service is looked up by its bare name, and written with the prefix. *)
Definition reconcile_service (r : ResourceReconciler) (name : string) (svc_spec : ServiceSpec)
    : K (result unit kube_error) :=
  let svc :=
    mkKubeService (mkMeta (Some (service_object (rr_kspec r) name)) (Some (rr_labels r)) None None)
      (Some svc_spec) None in
  get_or_create (k:=KService) name (λ current,
    current_hash ← spechash (ks_metadata current);
    if decide (current_hash ≠ rr_deployment_hash r) then written (KReplace KService name svc)
    else mret (Ok ())) svc.

Definition reconcile_services (r : ResourceReconciler) : K (result unit kube_error) :=
  for_each (reconcile_service r) (k_services (rr_kspec r)).

Definition reconcile_claim (name : string) (pvc : PersistentVolumeClaim)
    : K (result unit kube_error) :=
  entry ← trigger (KEntry KPvc name);
  match entry with
  | Err e => mret (Err e)
  | Ok (Some existing) => trigger (KCommit KPvc name existing false)
  | Ok None => trigger (KCommit KPvc name pvc true)
  end.

Definition reconcile_persistent_volume_claims (r : ResourceReconciler)
    : K (result unit kube_error) :=
  for_each reconcile_claim (k_volume_claims (rr_kspec r)).

Definition annotate (h : string) (sa : ServiceAccount) : ServiceAccount :=
  let m := sa_metadata sa in
  mkServiceAccount (mkMeta (om_name m) (om_labels m)
    (Some (jset "drasi/spechash" h (default [] (om_annotations m)))) (om_deletion_timestamp m)).

Definition reconcile_service_account (r : ResourceReconciler) : K (result unit kube_error) :=
  match k_service_account (rr_kspec r) with
  | None => mret (Ok ())
  | Some service_account =>
      let new_service_account := annotate (rr_service_account_hash r) service_account in
      match om_name (sa_metadata service_account) with
      | None => Panic "called Option::unwrap() on a None value"
      | Some name =>
          get_or_create (k:=KServiceAccount) name (λ current,
            current_hash ← spechash (sa_metadata current);
            if decide (current_hash ≠ rr_service_account_hash r) then
              written (KReplace KServiceAccount name new_service_account)
            else mret (Ok ())) new_service_account
      end
  end.

(** ** Ingresses *)

Record IngressConfig := mkIngressConfig {
  ic_service : string;
  ic_namespace : string;
  ic_class_name : string;
  ic_ip : option string;
  ic_annotations : btree string;
}.

Definition runtime_ingress_config (rc : RuntimeConfig) : IngressConfig :=
  mkIngressConfig (rc_ingress_load_balancer_service rc) (rc_ingress_load_balancer_namespace rc)
    (rc_ingress_class_name rc) None [].

(** A setting of the config map, when there is one that is not empty. *)
Definition setting (data : btree string) (key : string) : option string :=
  match jget key data with
  | Some s => if str_eqb s "" then None else Some s
  | None => None
  end.

(** The runtime configuration overridden by the data of [drasi-config]. *)
Definition ingress_config_of (rc : RuntimeConfig) (data : btree string) : IngressConfig :=
  {| ic_service :=
       default (rc_ingress_load_balancer_service rc) (setting data "INGRESS_LOAD_BALANCER_SERVICE");
     ic_namespace :=
       default (rc_ingress_load_balancer_namespace rc)
         (setting data "INGRESS_LOAD_BALANCER_NAMESPACE");
     ic_class_name := default (rc_ingress_class_name rc) (setting data "INGRESS_CLASS_NAME");
     ic_ip := setting data "INGRESS_IP";
     ic_annotations :=
       match jget "INGRESS_ANNOTATIONS" data with
       | Some annotations_str =>
           foldl insert_annotation [] (split_on ","%char annotations_str)
       | None => []
       end |}.

Definition get_dynamic_ingress_config (r : ResourceReconciler) : K IngressConfig :=
  config_map ← trigger (KGet KConfigMap "drasi-config");
  match config_map with
  | Ok config_map =>
      match cm_data config_map with
      | Some data => mret (ingress_config_of (rr_runtime_config r) data)
      | None => mret (runtime_ingress_config (rr_runtime_config r))
      end
  | Err _ => mret (runtime_ingress_config (rr_runtime_config r))
  end.

(** The first address of a load balancer, by IP or by host name. *)
Fixpoint first_address (l : list LoadBalancerIngress) : option string :=
  match l with
  | [] => None
  | i :: l =>
      match lb_ip i with
      | Some ip => Some ip
      | None => match lb_hostname i with Some hostname => Some hostname | None => first_address l end
      end
  end.

Definition service_address (service : KubeService) : option string :=
  match ks_status service with
  | Some (Some (Some ingresses)) => first_address ingresses
  | _ => None
  end.

Definition get_ingress_external_ip (r : ResourceReconciler) : K (option string) :=
  config ← get_dynamic_ingress_config r;
  match ic_ip config with
  | Some ip => mret (Some ip)
  | None =>
      service ← trigger (KGetServiceIn (ic_namespace config) (ic_service config));
      match service with
      | Ok service => mret (service_address service)
      | Err _ => mret None
      end
  end.

Definition PLACEHOLDER : string := "PLACEHOLDER".

(** The placeholder of a rule's host filled in; every path is a prefix. *)
Definition resolve_rule (ip_suffix : string) (rule : IngressRule) : IngressRule :=
  let host :=
    match ir_host rule with
    | Some host =>
        if str_contains PLACEHOLDER host then
          if str_eqb ip_suffix "UNAVAILABLE" then None
          else Some (str_replace PLACEHOLDER ip_suffix host)
        else Some host
    | None => None
    end in
  mkIngressRule host
    (map (λ p, mkIngressPath (hp_backend p) (hp_path p) "Prefix") <$> ir_http rule).

(** The ingress to write, with the cluster's settings. *)
Definition resolve_ingress (ip_suffix : string) (config : IngressConfig) (ingress : Ingress)
    : Ingress :=
  let m := ing_metadata ingress in
  let annotations :=
    match ic_annotations config with
    | [] => om_annotations m
    | dynamic_annotations =>
        Some (foldl (λ a kv, jset kv.1 kv.2 a) (default [] (om_annotations m)) dynamic_annotations)
    end in
  {| ing_metadata := mkMeta (om_name m) (om_labels m) annotations (om_deletion_timestamp m);
     ing_spec :=
       (λ s, mkIngressSpec (Some (ic_class_name config))
               (map (resolve_rule ip_suffix) <$> is_rules s) (is_others s)) <$> ing_spec ingress;
     ing_status := ing_status ingress |}.

Definition reconcile_ingress (r : ResourceReconciler) (ip_suffix name : string) (ingress : Ingress)
    : K (result unit kube_error) :=
  config ← get_dynamic_ingress_config r;
  let ingress_spec := resolve_ingress ip_suffix config ingress in
  get_or_create (k:=KIngress) name (λ current,
    if decide (ing_spec current ≠ ing_spec ingress_spec) then
      written (KReplace KIngress name ingress_spec)
    else mret (Ok ())) ingress_spec.

Definition reconcile_ingresses (r : ResourceReconciler) : K (result unit kube_error) :=
  match k_ingresses (rr_kspec r) with
  | None => mret (Ok ())
  | Some ingresses =>
      ip ← get_ingress_external_ip r;
      let ip_suffix :=
        match ip with Some ip => ip +:+ ".nip.io" | None => "UNAVAILABLE"%string end in
      for_each (reconcile_ingress r ip_suffix) ingresses
  end.

(** ** The whole *)

(** Everything but the deployment before and after it; an error of one part is
    logged and the next part is done. *)
Definition reconcile (r : ResourceReconciler) : K ResourceReconciler :=
  if k_removed (rr_kspec r) then
    '(_, r) ← deprovision r;
    mret r
  else
    _ ← reconcile_config_maps r;
    _ ← reconcile_persistent_volume_claims r;
    _ ← reconcile_components r;
    _ ← reconcile_service_account r;
    '(_, r) ← reconcile_deployment r;
    _ ← reconcile_services r;
    _ ← reconcile_ingresses r;
    mret r.

Definition remove (r : ResourceReconciler) : K ResourceReconciler := reconcile (set_removed r).
