(* ===== verification/ReconcilerSpec.v ===== *)
(** * ReconcilerSpec: what a removal deletes, whatever the API answers *)
From S2P Require Import Prelude BTree RustText KubeModels Effects KubeApi Reconciler.

(** ** Deletions: what is asked for, and when it stops *)

(** The deletions among the calls made. *)
Definition deletion (c : call kube_call) : option (kind * string) :=
  match c with Call (KDelete k name) _ => Some (k, name) | _ => None end.
Definition deletions (t : list (call kube_call)) : list (kind * string) := omap deletion t.

(** The writes other than deletions. *)
Definition no_other_write (c : call kube_call) : Prop :=
  match c with Call e _ => reads_only e = true ∨ is_Some (deletion c) end.

Definition deprovision_targets (spec : KubernetesSpec) : list (kind * string) :=
  (KDeployment, deployment_name spec) ::
  map (pair KService) (map (service_object spec) (k_services spec).*1) ++
  map (pair KConfigMap) (k_config_maps spec).*1 ++
  map (pair KIngress) (from_option (λ l, l.*1) [] (k_ingresses spec)) ++
  map (pair KServiceAccount) (account_name spec).

(** The deletions made are the first of [targets]: all of them unless one
    failed for another reason than that the object is not there. *)
Definition deletes (targets : list (kind * string)) (t : list (call kube_call))
    (res : result unit kube_error) : Prop :=
  Forall no_other_write t ∧
  match res with
  | Ok _ => deletions t = targets
  | Err e =>
      deletions t `prefix_of` targets ∧ is_not_found e = false ∧
      ∃ k name, Call (KDelete k name) (Err e) ∈ t
  end.

Lemma deletes_nil : deletes [] [] (Ok ()).
Proof. by split. Qed.

(** A step that deletes [l1], then, unless it failed, one that deletes [l2]. *)
Lemma deletes_app l1 l2 t1 t2 res :
  deletes l1 t1 (Ok ()) → deletes l2 t2 res → deletes (l1 ++ l2) (t1 ++ t2) res.
Proof.
  unfold deletes, deletions. intros [Hf1 H1] [Hf2 H2]. split; [by apply Forall_app|].
  rewrite omap_app, H1. destruct res as [[]|e]; [by rewrite H2|].
  destruct H2 as (Hp & He & k & name & Hin). split; [by apply prefix_app|].
  split; [done|]. exists k, name. apply elem_of_app. by right.
Qed.

Lemma deletes_stop l1 l2 t e : deletes l1 t (Err e) → deletes (l1 ++ l2) t (Err e).
Proof. intros (Hf & Hp & He). split; [done|]. split; [by apply prefix_app_r | done]. Qed.

(** One deletion that fails. *)
Lemma failed_deletion k name (x : result (option (obj k)) kube_error) e l :
  deleted x = Err e → deletes ((k, name) :: l) [Call (KDelete k name) x] (Err e).
Proof.
  intros E. assert (x = Err e ∧ is_not_found e = false) as [-> He].
  { destruct x as [|[code|e']]; cbn in E; [done| |by injection E as <-].
    destruct (code =? 404)%Z eqn:Ec; [done|]. by injection E as <-. }
  split; [constructor; [right; by eexists | done]|].
  split; [by apply (prefix_app_r [_] [_])|]. split; [done|]. exists k, name. by left.
Qed.

Lemma under_and_then l1 l2 p q :
  always p (λ t o, ∃ res, o = Done res ∧ deletes l1 t res) →
  always q (λ t o, ∃ res, o = Done res ∧ deletes l2 t res) →
  always (and_then p q) (λ t o, ∃ res, o = Done res ∧ deletes (l1 ++ l2) t res).
Proof.
  intros Hp Hq. unfold and_then. eapply under_bind_intro; [exact Hp | naive_solver |].
  intros t [[]|e] (res & [= <-] & Hd).
  - eapply under_mono; [done| |exact Hq]. intros t' o (res & -> & Hd').
    exists res. split; [done|]. by apply deletes_app.
  - cbn. exists (Err e). split; [done|]. rewrite app_nil_r. by apply deletes_stop.
Qed.

Lemma delete_all_deletes k names :
  always (delete_all k names) (λ t o, ∃ res, o = Done res ∧ deletes (map (pair k) names) t res).
Proof.
  induction names as [|name names IH]; [exists (Ok ()); split; [done | apply deletes_nil]|].
  cbn [delete_all]. apply under_call. intros x _.
  destruct (deleted x) as [[]|e] eqn:E.
  - eapply under_mono; [done| |exact IH]. intros t o (res & -> & Hd). exists res. split; [done|].
    apply (deletes_app [(k, name)] _ [_] _); [|done]. split; [|done].
    constructor; [|done]. right. by eexists.
  - exists (Err e). split; [done|]. by apply failed_deletion.
Qed.

(** The status of a deployment is only read. *)
Lemma update_status_reads dep G :
  under G (update_deployment_status dep)
    (λ t o, (∃ s, o = Done s) ∧ Forall no_other_write t ∧ deletions t = []).
Proof.
  assert (∀ s, under G (mret s) (λ t o, (∃ s : ReconcileStatus, o = Done s) ∧
    Forall no_other_write t ∧ deletions t = [])) as Hret by (cbn; eauto).
  unfold update_deployment_status. destruct (dep_status dep); [|done].
  case_match; [|done]. destruct (dep_spec dep) as [s|]; [|done].
  destruct (ds_match_labels s); [|done].
  apply under_call. intros [items|e] _; cbn; (split; [by eauto|]); split; auto;
    constructor; auto; by left.
Qed.

Lemma deprovision_rest_deletes spec :
  always (deprovision_rest spec)
    (λ t o, ∃ res, o = Done res ∧ deletes (tail (deprovision_targets spec)) t res).
Proof.
  unfold deprovision_rest, deprovision_targets. cbn [tail].
  repeat apply under_and_then; try apply delete_all_deletes.
  destruct (k_ingresses spec); [apply delete_all_deletes|].
  exists (Ok ()). split; [done | apply deletes_nil].
Qed.

(** Neither the component nor the claims are among them. *)
Definition of_removed_kind (x : kind * string) : Prop := x.1 ≠ KComponent ∧ x.1 ≠ KPvc.

Lemma deprovision_targets_kinds spec : Forall of_removed_kind (deprovision_targets spec).
Proof.
  apply list.Forall_forall. intros x Hx. unfold deprovision_targets in Hx.
  rewrite list.elem_of_cons, !elem_of_app, !list_elem_of_fmap in Hx.
  split; naive_solver.
Qed.

Lemma deletes_kinds spec t res :
  deletes (deprovision_targets spec) t res → Forall of_removed_kind (deletions t).
Proof.
  intros [_ H]. pose proof (deprovision_targets_kinds spec) as Hk. destruct res as [|e].
  - by rewrite H.
  - destruct H as ([l Hl] & _). rewrite Hl in Hk. by apply Forall_app in Hk as [? _].
Qed.

Lemma under_deprovision r :
  always (deprovision r) (λ t o, ∃ res r',
    o = Done (res, r') ∧ deletes (deprovision_targets (rr_kspec r)) t res).
Proof.
  unfold deprovision. apply under_call. intros x _.
  destruct (deleted x) as [[]|e] eqn:E.
  - eapply under_bind_intro with (R := λ t o, (∃ s, o = Done s) ∧ Forall no_other_write t ∧
      deletions t = []).
    + destruct x as [[dep|]|]; try (cbn; by eauto). apply update_status_reads.
    + by intros t w [[? ?] _].
    + intros t s [_ [Hw Hd]]. eapply under_bind_intro; [apply deprovision_rest_deletes | naive_solver |].
      intros t' res (res' & [= <-] & Hdel). cbn. do 2 eexists. split; [done|].
      rewrite app_nil_r, app_comm_cons.
      apply (deletes_app [(KDeployment, deployment_name (rr_kspec r))] _); [|done].
      split; [|unfold deletions in *; cbn; by rewrite Hd]. constructor; [right; by eexists | done].
  - cbn. do 2 eexists. split; [done|]. by apply failed_deletion.
Qed.

(** C29: A removal deletes the deployment of its specification, then the services,
    config maps, ingresses and the service account, in this order, whatever the
    API answers, and writes nothing else.  All of them are asked for unless a
    deletion was answered with an error other than not-found; then it stops there
    with this error.  The publish-subscribe component and the volume claims, which
    a reconciliation makes too, are never deleted. *)
Theorem deprovision_deletes_in_order r :
  always (deprovision r) (λ t o, ∃ res r',
    o = Done (res, r') ∧ deletes (deprovision_targets (rr_kspec r)) t res ∧
    Forall (λ x, x.1 ≠ KComponent ∧ x.1 ≠ KPvc) (deletions t)).
Proof.
  eapply (under_mono anything); [done| |apply under_deprovision].
  intros t o (res & r' & -> & H). exists res, r'. split; [done|]. split; [done|].
  by eapply deletes_kinds.
Qed.
