(* ===== verification/Interleave.v ===== *)
(** * Interleave: tasks that run at the same time

    Tokio runs tasks concurrently: between two calls of one task, the calls of
    others may come.  [interleave] runs a list of programs on one environment
    under a schedule that says whose turn it is.  Programs that each rely on no
    more than the others guarantee all end, with what they promise. *)
From S2P Require Import Prelude Effects.

Section interleave.
Context {E : Type → Type} {S A : Type} (h : ∀ X, E X → S → X * S).
Implicit Types w : list (prog E A) * S.

(** The next call of a task that has not ended. *)
Definition advance (p : prog E A) (s : S) : prog E A * S :=
  match p with
  | Vis e k => let '(x, s) := h _ e s in (k x, s)
  | _ => (p, s)
  end.

(** A task's turn; nothing happens when there is no such task. *)
Definition turn w (i : nat) : list (prog E A) * S :=
  match w.1 !! i with
  | Some p => let '(p, s) := advance p w.2 in (<[i := p]> w.1, s)
  | None => w
  end.

Definition interleave (sched : list nat) w : list (prog E A) * S := foldl turn w sched.

(** How often it is a task's turn. *)
Definition turns (i : nat) (sched : list nat) : nat := length (filter (λ j, j = i) sched).

Lemma length_turn w j : length (turn w j).1 = length w.1.
Proof.
  unfold turn. destruct (w.1 !! j); [|done]. destruct (advance _ _). apply length_insert.
Qed.

Lemma length_interleave sched w : length (interleave sched w).1 = length w.1.
Proof.
  revert w. induction sched as [|j sched IH]; intros w; [done|].
  cbn [interleave foldl]. etrans; [apply IH | apply length_turn].
Qed.

End interleave.

(** ** Rely and guarantee *)

(** Tasks that do see one another: between two calls of a task the others change
    the state as [R] says, and its own calls change it as [G] says.
    [rg n p s Q]: from [s], the program ends after at most [n] calls, without a
    panic, with [Q]. *)
Section rely.
Context {E : Type → Type} {S : Type} (h : ∀ X, E X → S → X * S).
Context (R G : S → S → Prop) `{!PreOrder R}.

Fixpoint rg {A} (n : nat) (p : prog E A) (s : S) (Q : A → S → Prop) {struct p} : Prop :=
  match p with
  | Ret a => Q a s
  | Panic _ => False
  | Vis e k =>
      match n with
      | O => False
      | Datatypes.S n => ∀ s', R s s' →
          G s' (h _ e s').2 ∧ rg n (k (h _ e s').1) (h _ e s').2 Q
      end
  end.

Lemma rg_ret {A} n (a : A) s (Q : _ → _ → Prop) : Q a s → rg n (mret a) s Q.
Proof using Type. by destruct n. Qed.

Lemma rg_mono {A} n n' (p : prog E A) s (Q Q' : _ → _ → Prop) :
  n ≤ n' → (∀ a s', Q a s' → Q' a s') → rg n p s Q → rg n' p s Q'.
Proof using Type.
  intros Hn HQ. revert n n' Hn s. induction p as [a|w|X e k IH]; intros n n' Hn s.
  - destruct n, n'; apply HQ.
  - by destruct n.
  - destruct n as [|n]; [done|]. destruct n' as [|n']; [lia|]. cbn. intros H s' Hs.
    destruct (H s' Hs) as [Hg Hk]. split; [done|]. eapply IH; [|exact Hk]. lia.
Qed.

Lemma rg_bind {A B} n m (p : prog E A) (f : A → prog E B) s Q :
  rg n p s (λ a s', rg m (f a) s' Q) → rg (n + m) (p ≫= f) s Q.
Proof using Type.
  revert n s. induction p as [a|w|X e k IH]; intros n s.
  - intros H. eapply rg_mono; [|by intros ??|]; [|destruct n; exact H]. lia.
  - by destruct n.
  - destruct n as [|n]; [done|]. cbn. intros H s' Hs.
    destruct (H s' Hs) as [Hg Hk]. split; [done|]. by apply IH.
Qed.

Lemma rg_call {X A} n (e : E X) (k : X → prog E A) s Q :
  (∀ s', R s s' → G s' (h X e s').2 ∧ rg n (k (h X e s').1) (h X e s').2 Q) →
  rg (Datatypes.S n) (trigger e ≫= k) s Q.
Proof using Type. done. Qed.

(** Alone, the program runs to its end. *)
Lemma rg_run {A} n (p : prog E A) s Q :
  rg n p s Q → ∃ a s' t, run h p s = (Done a, s', t) ∧ Q a s'.
Proof using All.
  revert n s. induction p as [a|w|X e k IH]; intros n s H.
  - exists a, s, []. by destruct n.
  - by destruct n.
  - destruct n as [|n]; [done|]. destruct (H s (reflexivity s)) as [_ Hk]. cbn.
    destruct (h X e s) as [x s1]. destruct (IH x n s1 Hk) as (a & s2 & t & Hrun & HQ).
    cbn in Hrun. rewrite Hrun. by eexists _, _, _.
Qed.
End rely.

#[global] Arguments rg : simpl never.

Section rely_interleave.
Context {E : Type → Type} {S A : Type} (h : ∀ X, E X → S → X * S).
Context (R G : nat → S → S → Prop) (Q : nat → A → S → Prop).
Context (R_pre : ∀ i, PreOrder (R i)).
Context (G_R : ∀ i j s s', i ≠ j → G j s s' → R i s s').
Context (Q_stable : ∀ i a s s', R i s s' → Q i a s → Q i a s').
Implicit Types w : list (prog E A) * S.

(** Every task keeps what it can promise, with at most [left i] calls to come. *)
Definition promises (left : nat → nat) w : Prop :=
  ∀ i p, w.1 !! i = Some p → ∃ s, R i s w.2 ∧ rg h (R i) (G i) (left i) p s (Q i).

Lemma advance_promises i n p s s' :
  R i s s' → rg h (R i) (G i) n p s (Q i) →
  (∃ s1, R i s1 (advance h p s').2 ∧ rg h (R i) (G i) (pred n) (advance h p s').1 s1 (Q i)) ∧
  (∀ j, j ≠ i → R j s' (advance h p s').2).
Proof using R_pre G_R.
  intros Hs Hp. destruct p as [a|w|X e k].
  - split; [exists s; split; [done | by destruct n] | done].
  - by destruct n.
  - destruct n as [|n]; [done|]. destruct (Hp s' Hs) as [Hg Hk]. cbn.
    destruct (h X e s') as [x s1]. cbn in *. split; [by exists s1|].
    intros j Hne. by eapply G_R.
Qed.

Lemma turn_promises left w j :
  promises left w →
  promises (λ i, if decide (j = i) then pred (left i) else left i) (turn h w j).
Proof using R_pre G_R.
  intros Hw. unfold turn. destruct (w.1 !! j) as [pj|] eqn:Ej.
  2: { intros i p Hp. case_decide; [congruence|]. by apply Hw. }
  destruct (Hw j pj Ej) as (sj & Hsj & Hrj).
  destruct (advance_promises j _ pj sj w.2 Hsj Hrj) as [Hown Hother].
  destruct (advance h pj w.2) as [pj' s']. cbn [fst snd] in *.
  intros i p Hp. cbn [fst snd] in *. destruct (decide (j = i)) as [<-|Hne].
  - rewrite list_lookup_insert_eq in Hp by (by eapply lookup_lt_Some). by injection Hp as <-.
  - rewrite list_lookup_insert_ne in Hp by done. destruct (Hw i p Hp) as (s & Hs & Hr).
    exists s. split; [|done]. etrans; [exact Hs | by apply Hother].
Qed.

Lemma interleave_promises left sched w :
  promises left w → promises (λ i, left i - turns i sched) (interleave h sched w).
Proof using R_pre G_R.
  revert left w. induction sched as [|j sched IH]; intros left w Hw.
  - intros i p Hp. destruct (Hw i p Hp) as (s & Hs & Hr). exists s. split; [done|].
    eapply rg_mono; [|done|exact Hr]. cbn. lia.
  - cbn [interleave foldl]. intros i p Hp.
    destruct (IH _ _ (turn_promises left w j Hw) i p Hp) as (s & Hs & Hr).
    exists s. split; [done|]. eapply rg_mono; [|done|exact Hr].
    unfold turns. rewrite filter_cons. repeat case_decide; cbn; try done; lia.
Qed.

Lemma all_returned (ps : list (prog E A)) :
  (∀ i, i < length ps → ∃ a, ps !! i = Some (Ret a)) → ∃ res, ps = Ret <$> res.
Proof using Type.
  induction ps as [|p ps IH]; intros H; [by exists []|].
  destruct (H 0) as [a [= ->]]; [cbn; lia|].
  destruct IH as [res ->]; [|by exists (a :: res)].
  intros i Hi. apply (H (Datatypes.S i)). cbn. lia.
Qed.

(** Whatever the order in which the tasks' calls come, when each of them had
    enough turns all of them have ended, with [post]. *)
Definition all_end (ps : list (prog E A)) (s0 : S) (post : S → Prop) : Prop :=
  ∃ n, ∀ sched, (∀ i, i < length ps → n ≤ turns i sched) →
    ∃ res s', interleave h sched (ps, s0) = (Ret <$> res, s') ∧ post s'.

Lemma all_end_mono ps s0 (post post' : S → Prop) :
  (∀ s', post s' → post' s') → all_end ps s0 post → all_end ps s0 post'.
Proof using Type.
  intros H [n Hn]. exists n. intros sched Hs. destruct (Hn sched Hs) as (res & s' & ? & ?).
  exists res, s'. auto.
Qed.

Lemma all_end_nil s0 (post : S → Prop) : post s0 → all_end [] s0 post.
Proof using Type.
  intros Hpost. exists 0. intros sched _. exists [], s0. split; [|done].
  by induction sched.
Qed.

(** Tasks that have ended do not matter. *)
Definition others_turns (k : nat) (sched : list nat) : list nat :=
  omap (λ j, if decide (k ≤ j) then Some (j - k) else None) sched.

Lemma turns_others k i sched : turns i (others_turns k sched) = turns (k + i) sched.
Proof using Type.
  unfold turns. induction sched as [|j sched IH]; [done|]. cbn [others_turns omap list_omap].
  rewrite filter_cons. destruct (decide (k ≤ j)) as [Hj|Hj].
  - rewrite filter_cons. repeat case_decide; try lia; [exact (f_equal _ IH) | exact IH].
  - rewrite decide_False by lia. exact IH.
Qed.

Lemma turn_ended (ended : list A) ps s j :
  turn h ((Ret <$> ended) ++ ps, s) j =
    let w := if decide (length ended ≤ j) then turn h (ps, s) (j - length ended) else (ps, s) in
    ((Ret <$> ended) ++ w.1, w.2).
Proof using Type.
  unfold turn. cbn [fst snd]. case_decide as Hj.
  - rewrite lookup_app_r, length_fmap by (by rewrite length_fmap).
    destruct (ps !! (j - length ended)) as [p|]; [|done]. destruct (advance h p s) as [p' s'].
    rewrite insert_app_r_alt, length_fmap by (by rewrite length_fmap). done.
  - destruct (lookup_lt_is_Some_2 ended j) as [a Ha]; [lia|].
    assert (((Ret <$> ended) ++ ps) !! j = Some (Ret a : prog E A)) as E1.
    { rewrite lookup_app_l by (rewrite length_fmap; lia). by rewrite list_lookup_fmap, Ha. }
    rewrite E1. cbn. by rewrite list_insert_id.
Qed.

Lemma interleave_ended (ended : list A) sched ps s :
  interleave h sched ((Ret <$> ended) ++ ps, s) =
    let w := interleave h (others_turns (length ended) sched) (ps, s) in
    ((Ret <$> ended) ++ w.1, w.2).
Proof using Type.
  revert ps s. induction sched as [|j sched IH]; intros ps s; [done|].
  change (interleave h (j :: sched) ?w) with (interleave h sched (turn h w j)).
  rewrite turn_ended. cbn [others_turns omap list_omap]. case_decide; [|apply IH].
  change (interleave h (?j :: ?l) ?w) with (interleave h l (turn h w j)).
  destruct (turn h (ps, s) _) as [ps' s']. apply IH.
Qed.

Lemma all_end_ended (ended : list A) ps s0 post :
  all_end ps s0 post → all_end ((Ret <$> ended) ++ ps) s0 post.
Proof using Type.
  intros [n Hn]. exists n. intros sched Hs.
  destruct (Hn (others_turns (length ended) sched)) as (res & s' & Hrun & Hpost).
  { intros i Hi. rewrite turns_others. apply Hs. rewrite length_app, length_fmap. lia. }
  exists (ended ++ res), s'. split; [|done]. rewrite interleave_ended, Hrun. cbn. by rewrite fmap_app.
Qed.

Lemma bounded (P : nat → nat → Prop) k :
  (∀ i n m, n ≤ m → P i n → P i m) → (∀ i, i < k → ∃ n, P i n) → ∃ n, ∀ i, i < k → P i n.
Proof using Type.
  intros Hmono. induction k as [|k IH]; intros H; [exists 0; lia|].
  destruct IH as [n Hn]; [auto|]. destruct (H k) as [m Hm]; [lia|]. exists (n + m). intros i Hi.
  destruct (decide (i = k)) as [->|]; [eapply Hmono; [|exact Hm] | eapply Hmono; [|apply Hn]]; lia.
Qed.

(** Tasks that rely on no more than the others guarantee all end, with what they
    promise. *)
Lemma guaranteed_all_end (ps : list (prog E A)) s0 (post : S → Prop) :
  (∀ i p, ps !! i = Some p → ∃ n, rg h (R i) (G i) n p s0 (Q i)) →
  (∀ s', (∀ i, i < length ps → ∃ a, Q i a s') → post s') →
  all_end ps s0 post.
Proof using R_pre G_R Q_stable.
  intros Hps Hpost.
  destruct (bounded (λ i n, ∀ p, ps !! i = Some p → rg h (R i) (G i) n p s0 (Q i)) (length ps))
    as [n Hn].
  { intros i n m Hle Hp p Hi. eapply rg_mono; [exact Hle|done|by apply Hp]. }
  { intros i [p Hi]%lookup_lt_is_Some_2. destruct (Hps i p Hi) as [n Hn]. exists n.
    intros p' Hi'. by simplify_eq. }
  exists n. intros sched Hturns.
  assert (promises (λ _, n) (ps, s0)) as Hw.
  { intros i p Hp. exists s0. split; [done|]. apply Hn; [by eapply lookup_lt_Some | done]. }
  apply interleave_promises with (sched := sched) in Hw.
  pose proof (length_interleave h sched (ps, s0)) as Hlen.
  destruct (interleave h sched (ps, s0)) as [ps' s']. cbn [fst snd] in *.
  assert (∀ i, i < length ps → ∃ a, ps' !! i = Some (Ret a) ∧ Q i a s') as Hend.
  { intros i Hi. specialize (Hturns i Hi). rewrite <-Hlen in Hi.
    destruct (lookup_lt_is_Some_2 _ _ Hi) as [p Hp]. destruct (Hw i p Hp) as (s & Hs & Hr).
    cbn [fst snd] in *. replace (n - turns i sched) with 0 in Hr by lia.
    destruct p as [a|w|X e k]; [|done..]. exists a. split; [done|]. by eapply Q_stable. }
  destruct (all_returned ps') as [res ->].
  { intros i Hi. rewrite Hlen in Hi. destruct (Hend i Hi) as (a & Ha & _). by exists a. }
  exists res, s'. split; [done|]. apply Hpost. intros i Hi. destruct (Hend i Hi) as (a & _ & HQ).
  by exists a.
Qed.
End rely_interleave.
