(* ===== verification/Convergence.v ===== *)
(** * Convergence: reconciling on a working cluster

    On a cluster whose API answers every call, one reconciliation brings every
    object of a specification to its desired state, and the next one changes
    nothing.  Other tasks may write to the cluster in between, as the rely [R]
    says: objects that are the reconciliation's own stay as they are, and objects
    it shares stay as they are or become good.  [twp] is total correctness without
    others: the program ends without a panic in a state that satisfies the
    postcondition. *)
From S2P Require Import Prelude BTree RustText KubeModels SpecBuilder SpecBuilderSpec Effects KubeApi Reconciler Interleave.

Section convergence.
Context (as_stored : ∀ k, obj k → obj k).
Context (merge : ∀ k, obj k → obj k → obj k).

Notation step := (cluster_step as_stored merge).

Definition twp {A} (p : K A) (c : cluster) (Q : A → cluster → Prop) : Prop :=
  match run step p c with (Done a, c', _) => Q a c' | (Panicked _, _, _) => False end.

Lemma twp_ret {A} (a : A) c (Q : _ → _ → Prop) : Q a c → twp (mret a) c Q.
Proof. done. Qed.

Lemma twp_bind {A B} (p : K A) (f : A → K B) c Q :
  twp p c (λ a c', twp (f a) c' Q) → twp (p ≫= f) c Q.
Proof.
  unfold twp. rewrite run_bind. destruct (run step p c) as [[[a|w] c'] t]; [|done].
  by destruct (run step (f a) c') as [[[b|w] c''] t'].
Qed.

Lemma twp_call {X A} (e : kube_call X) (k : X → K A) c Q :
  twp (k (step X e c).1) (step X e c).2 Q → twp (trigger e ≫= k) c Q.
Proof. intros H. apply twp_bind. unfold twp at 1. cbn. by destruct (step X e c). Qed.

Lemma twp_run {A} (p : K A) c Q : twp p c Q →
  ∃ a c' t, run step p c = (Done a, c', t) ∧ Q a c'.
Proof. unfold twp. destruct (run step p c) as [[[a|w] c'] t]; [|done]. eauto 6. Qed.

(** ** What the API server does to an object it stores *)

(** It keeps what it is sent; a patched object says what the patch says. *)
Record server_laws : Prop := {
  sl_stored k (o : obj k) : kept o (as_stored k o);
  sl_merged (old new : Deployment) : kept (k:=KDeployment) new (merge KDeployment old new);
}.
Context (laws : server_laws).

(** ** Objects in place *)

Definition holds (k : kind) (name : string) (good : obj k → Prop) (c : cluster) : Prop :=
  ∃ o, find c k name = Some o ∧ good o.

Definition all_hold {A} (k : kind) (good : string → A → obj k → Prop) (l : btree A) (c : cluster)
    : Prop := ∀ name a, (name, a) ∈ l → holds k name (good name a) c.

Lemma find_put k name o k' name' c :
  (k, name) ≠ (k', name') → find (put_obj k name o c) k' name' = find c k' name'.
Proof.
  intros Hne. unfold find, put_obj. destruct (decide (k = k')) as [<-|Hk].
  - rewrite lookup_update_kind_eq. apply lookup_insert_ne. congruence.
  - by rewrite lookup_update_kind_ne.
Qed.

Lemma find_put_eq k name o c : find (put_obj k name o c) k name = Some o.
Proof. unfold find, put_obj. rewrite lookup_update_kind_eq. apply lookup_insert_eq. Qed.

Lemma holds_put k name (good : obj k → Prop) o c : good o → holds k name good (put_obj k name o c).
Proof. intros Ho. exists o. by rewrite find_put_eq. Qed.

(** ** What the others do, and what they must be spared *)

Section rely.
Context (R G : cluster → cluster → Prop) `{!PreOrder R}.
Context (G_refl : ∀ c, G c c).
Notation rg := (rg step R G).

(** Nobody else writes the object. *)
Definition alone (k : kind) (name : string) : Prop :=
  ∀ c c', R c c' → find c' k name = find c k name.

(** Who else writes the object makes it good. *)
Definition improved (k : kind) (name : string) (good : obj k → Prop) : Prop :=
  ∀ c c', R c c' → find c' k name = find c k name ∨ holds k name good c'.

Lemma alone_improved k name good : alone k name → improved k name good.
Proof using Type. intros H c c' Hc. left. by apply H. Qed.

(** The others can bear that a good object is written. *)
Definition may_put (k : kind) (name : string) (good : obj k → Prop) : Prop :=
  ∀ c o, good o → G c (put_obj k name o c).

(** From [c] to [c'] by what the others do and by writing objects of [own]. *)
Definition moved (own : kind * string → Prop) : relation cluster :=
  rtc (λ c c', R c c' ∨ ∃ k name o, own (k, name) ∧ c' = put_obj k name o c).

Lemma moved_rely own c c' : R c c' → moved own c c'.
Proof using Type. intros H. apply rtc_once. by left. Qed.

Lemma moved_put (own : _ → Prop) k name o c : own (k, name) → moved own c (put_obj k name o c).
Proof using Type. intros H. apply rtc_once. right. eauto. Qed.

Lemma moved_mono (own own' : _ → Prop) c c' :
  (∀ x, own x → own' x) → moved own c c' → moved own' c c'.
Proof using Type.
  intros H. apply rtc_subrel. intros c1 c2 [Hr|(k & name & o & Ho & ->)]; [by left|right]. eauto 7.
Qed.

Lemma moved_inv (P : cluster → Prop) (own : _ → Prop) c c' :
  (∀ c c', R c c' → P c → P c') → (∀ k name o c, own (k, name) → P c → P (put_obj k name o c)) →
  moved own c c' → P c → P c'.
Proof using Type.
  intros HR Hput. induction 1 as [|c1 c2 c3 [H|(k & name & o & Ho & ->)] _ IH]; [done|..]; eauto.
Qed.

Lemma moved_find (own : _ → Prop) k name c c' :
  alone k name → ¬ own (k, name) → moved own c c' → find c' k name = find c k name.
Proof using Type.
  intros Ha Hn Hm. apply (moved_inv (λ c', find c' k name = find c k name) own c c'); [| |done|done].
  - intros c1 c2 Hr <-. by apply Ha.
  - intros k' name' o c1 Ho <-. apply find_put. congruence.
Qed.

Lemma improved_holds k name good c c' :
  improved k name good → R c c' → holds k name good c → holds k name good c'.
Proof using Type.
  intros Ha Hr (o & Ho & Hg). destruct (Ha _ _ Hr) as [Hf|Hh]; [|done]. exists o. by rewrite Hf.
Qed.

Lemma moved_holds (own : _ → Prop) k name good c c' :
  improved k name good → ¬ own (k, name) → moved own c c' →
  holds k name good c → holds k name good c'.
Proof using Type.
  intros Ha Hn. apply moved_inv.
  - intros c1 c2. by apply improved_holds.
  - intros k' name' o c1 Ho (o' & Ho' & Hg). exists o'. rewrite find_put; [done | congruence].
Qed.

(** What every object of the name satisfies, when the good ones do. *)
Definition checked (k : kind) (name : string) (ok : obj k → Prop) (c : cluster) : Prop :=
  ∀ o, find c k name = Some o → ok o.

Lemma holds_checked k name (good ok : obj k → Prop) c :
  (∀ o, good o → ok o) → holds k name good c → checked k name ok c.
Proof using Type. intros Hok (o & Ho & Hg) o' Ho'. rewrite Ho in Ho'. injection Ho' as <-. by apply Hok. Qed.

Lemma improved_checked k name good ok c c' :
  improved k name good → (∀ o, good o → ok o) → R c c' → checked k name ok c → checked k name ok c'.
Proof using Type.
  intros Ha Hok Hr Hc o Ho. destruct (Ha _ _ Hr) as [Hf|(o' & Ho' & Hg)].
  - apply Hc. by rewrite <-Hf.
  - rewrite Ho in Ho'. injection Ho' as <-. by apply Hok.
Qed.

Lemma moved_checked (own : _ → Prop) k name good ok c c' :
  improved k name good → (∀ o, good o → ok o) → ¬ own (k, name) → moved own c c' →
  checked k name ok c → checked k name ok c'.
Proof using Type.
  intros Ha Hok Hn. apply moved_inv.
  - intros c1 c2. by apply improved_checked with good.
  - intros k' name' o c1 Ho Hc o' Ho'. apply Hc. by rewrite find_put in Ho' by congruence.
Qed.

(** ** One object brought to a good state *)

(** The object is good; others apart only it was written, and not when it was
    good before.  An error is possible only when somebody else made it. *)
Definition settled (k : kind) (name : string) (good : obj k → Prop) (c : cluster)
    (r : result unit kube_error) (c' : cluster) : Prop :=
  (alone k name → r = Ok ()) ∧ holds k name good c' ∧ moved (.= (k, name)) c c' ∧
  (holds k name good c → R c c').

Lemma settled_rely k name good c c1 r c' :
  improved k name good → R c c1 → settled k name good c1 r c' → settled k name good c r c'.
Proof using All.
  intros Ha Hr (Hok & Hh & Hm & Hidle). split; [done|]. split; [done|]. split.
  - etrans; [by apply moved_rely | done].
  - intros Hc. etrans; [exact Hr|]. apply Hidle. by eapply improved_holds.
Qed.

Lemma rg_keep n k name current (good : obj k → Prop) c :
  find c k name = Some current → good current → rg n (mret (Ok ())) c (settled k name good c).
Proof using All.
  intros Hf Hg. apply rg_ret. split; [done|]. split; [by exists current|]. done.
Qed.

(** Replacing an object that is there and is not good. *)
Lemma rg_replace n k name (new current : obj k) good c :
  wants_version k = false → improved k name good → may_put k name good →
  find c k name = Some current → ¬ good current → good (as_stored k new) →
  rg (S n) (written (KReplace k name new)) c (settled k name good c).
Proof using All.
  intros Hk Ha Hmay Hf Hbad Hgood. unfold written. apply rg_call. intros c1 Hr. cbn.
  assert (is_Some (find c1 k name)) as [o Ho].
  { destruct (Ha _ _ Hr) as [->|(o & Ho & _)]; [by rewrite Hf | by exists o]. }
  rewrite Ho, Hk. cbn. split; [by apply Hmay|]. apply rg_ret. split; [done|].
  split; [by apply holds_put|]. split.
  - etrans; [by apply moved_rely | by apply moved_put].
  - intros (o' & Ho' & Hg). congruence.
Qed.

(** [get_or_create] with an update that is made when the object is not good. *)
Lemma rg_get_or_create n k name found (new : obj k) good ok c :
  improved k name good → may_put k name good → (∀ o, good o → ok o) → checked k name ok c →
  om_name (meta_of new) = Some name → good (as_stored k new) →
  (∀ current c1, find c1 k name = Some current → ok current →
     rg (S n) (found current) c1 (settled k name good c1)) →
  rg (S (S n)) (get_or_create name found new) c (settled k name good c).
Proof using All.
  intros Ha Hmay Hok Hc Hname Hgood Hfound. unfold get_or_create. apply rg_call. intros c1 Hr.
  cbn. split; [done|]. pose proof (improved_checked _ _ _ _ _ _ Ha Hok Hr Hc) as Hc1.
  destruct (find c1 k name) as [current|] eqn:E.
  { eapply rg_mono; [done|intros r c'; by apply settled_rely|]. apply Hfound; [done | by apply Hc1]. }
  cbn. unfold written. apply rg_call. intros c2 Hr2. cbn. rewrite Hname.
  assert (¬ holds k name good c) as Hnot.
  { intros Hh. apply (improved_holds k name good c c1 Ha Hr) in Hh as (o & Ho & _). congruence. }
  destruct (find c2 k name) as [o|] eqn:E2.
  - split; [done|]. apply rg_ret. split; [|split; [|split]].
    + intros Halone. rewrite (Halone _ _ Hr2), E in E2. done.
    + destruct (Ha _ _ Hr2) as [Hf|Hh]; [congruence | done].
    + apply moved_rely. by etrans.
    + done.
  - cbn. split; [by apply Hmay|]. apply rg_ret. split; [done|]. split; [by apply holds_put|].
    split; [|done]. etrans; [apply moved_rely; etrans; [exact Hr | exact Hr2] | by apply moved_put].
Qed.

(** ** A loop that settles one object per entry *)

Lemma moved_one_other k name own c c' :
  alone k name → ¬ own (k, name) → moved own c c' → ∀ good, holds k name good c → holds k name good c'.
Proof using Type. intros Ha Hn Hm good. by eapply moved_holds; [apply alone_improved|..]. Qed.

Definition entries {A} (k : kind) (l : btree A) : kind * string → Prop :=
  λ x, x.1 = k ∧ x.2 ∈ l.*1.

Lemma rg_for_each {A} n k (f : string → A → K (result unit kube_error))
    (good : string → A → obj k → Prop) (l : btree A) c :
  NoDup l.*1 → (∀ name, name ∈ l.*1 → alone k name) →
  (∀ name a c1, (name, a) ∈ l → moved (λ x, entries k l x ∧ x ≠ (k, name)) c c1 →
     rg n (f name a) c1 (settled k name (good name a) c1)) →
  rg (n * length l) (for_each f l) c (λ r c', r = Ok () ∧ all_hold k good l c' ∧
    moved (entries k l) c c' ∧ (all_hold k good l c → R c c')).
Proof using All.
  revert c. induction l as [|[name a] l IH]; intros c Hnd Hal Hf.
  { apply rg_ret. split; [done|]. split; [by intros ?? ?%elem_of_nil|]. done. }
  rewrite fmap_cons in Hnd, Hal. cbn [fst] in *. apply list.NoDup_cons in Hnd as [Hni Hnd].
  assert (alone k name) as Ha by (apply Hal; left).
  cbn [for_each]. replace (n * length ((name, a) :: l)) with (n + n * length l) by (cbn; lia).
  unfold and_then. apply rg_bind.
  eapply rg_mono; [done| |apply Hf; [left | done]]. intros r c1 (Hok & Hh & Hm & Hidle).
  rewrite (Hok Ha).
  assert (∀ x : kind * string, entries k l x → entries k ((name, a) :: l) x) as Hsub.
  { intros x [??]. split; [done | by right]. }
  eapply rg_mono; [done| |apply IH; [done|intros; apply Hal; by right|]].
  2: { intros name' a' c2 Hin Hm2. apply Hf; [by right|].
    etrans; (eapply moved_mono; [|eassumption]).
    - intros x ->. split; [split; [done | by left]|]. intros [= ->]. by apply Hni, (list_elem_of_fmap_2 fst _ (name', a')).
    - intros x [Hx Hne]. auto. }
  intros r' c2 (-> & Hall & Hm2 & Hidle2). split; [done|]. split; [|split].
  - intros n' a' [[= -> ->]|Hin]%list.elem_of_cons; [|by apply Hall].
    eapply moved_one_other; [exact Ha | | exact Hm2 | exact Hh]. by intros [_ ?].
  - etrans; (eapply moved_mono; [|eassumption]); [|done]. intros x ->. split; [done | by left].
  - intros Hc. assert (R c c1) as Hr1 by (apply Hidle, Hc; left). etrans; [exact Hr1|].
    apply Hidle2. intros n' a' Hin. eapply improved_holds; [|exact Hr1|apply Hc; by right].
    apply alone_improved, Hal. right. by apply (list_elem_of_fmap_2 fst _ (n', a')).
Qed.

(** ** The parts of a reconciliation *)

Definition annotated (m : ObjectMeta) : Prop :=
  ∃ a h, om_annotations m = Some a ∧ jget "drasi/spechash" a = Some h.
Definition hashed (h : string) (m : ObjectMeta) : Prop :=
  ∃ a, om_annotations m = Some a ∧ jget "drasi/spechash" a = Some h.

Lemma hashed_annotated h m : hashed h m → annotated m.
Proof using Type. intros (a & ? & ?). by exists a, h. Qed.

Lemma kept_hashed h {k} (o o' : obj k) :
  kept o o' → hashed h (meta_of o) → hashed h (meta_of o').
Proof using Type.
  intros ((_ & _ & Ha) & _) (a & Ho & Hh). rewrite Ho in Ha. destruct Ha as (a' & Ho' & Hk).
  exists a'. split; [done | by apply Hk].
Qed.

(** *** What a specification asks for *)

(** The deployment: the specification's, updated by rolling, under the hash. *)
Definition asked_deployment (r : ResourceReconciler) : Deployment :=
  let spec := rr_kspec r in
  let d := k_deployment spec in
  mkDeployment
    (mkMeta (Some (k_resource_id spec +:+ "-" +:+ k_service_name spec)) (Some (rr_labels r))
       (Some [("drasi/spechash"%string, rr_deployment_hash r)]) None)
    (Some (mkDeploymentSpec (ds_replicas d) (ds_match_labels d) (Some (Some "RollingUpdate"%string))
       (ds_template d))) None.

(** The Kubernetes service of one of its services. *)
Definition asked_service (r : ResourceReconciler) (name : string) (spec : ServiceSpec) : KubeService :=
  mkKubeService
    (mkMeta (Some (k_resource_id (rr_kspec r) +:+ "-" +:+ name)) (Some (rr_labels r)) None None)
    (Some spec) None.

(** The service account, under its hash. *)
Definition asked_account (h : string) (sa : ServiceAccount) : ServiceAccount :=
  let m := sa_metadata sa in
  mkServiceAccount (mkMeta (om_name m) (om_labels m)
    (Some (jset "drasi/spechash" h (default [] (om_annotations m)))) None).

(** What is in the cluster says what was asked for. *)
Definition good_deployment (r : ResourceReconciler) (o : Deployment) : Prop :=
  kept (k:=KDeployment) (asked_deployment r) o.
Definition good_service (r : ResourceReconciler) (name : string) (spec : ServiceSpec)
    (o : KubeService) : Prop := kept (k:=KService) (asked_service r name spec) o.
Definition good_account (r : ResourceReconciler) (sa o : ServiceAccount) : Prop :=
  kept (k:=KServiceAccount) (asked_account (rr_service_account_hash r) sa) o.
Definition good_component (p o : Component) : Prop := cm_spec o = cm_spec p.
Definition good_data (name : string) (cm o : ConfigMap) : Prop := cm_data o = cm_data cm.
Definition good_claim (name : string) (pvc o : PersistentVolumeClaim) : Prop :=
  kept (k:=KPvc) pvc o.
Definition good_ingress (suffix : string) (config : IngressConfig) (name : string) (i o : Ingress)
    : Prop := ing_spec o = ing_spec (resolve_ingress suffix config i).

Lemma good_deployment_hashed r o :
  good_deployment r o → hashed (rr_deployment_hash r) (dep_metadata o).
Proof using Type. intros H. apply (kept_hashed (k:=KDeployment) _ _ o H). by eexists. Qed.

Lemma good_account_hashed r sa o :
  good_account r sa o → hashed (rr_service_account_hash r) (sa_metadata o).
Proof using Type.
  intros H. apply (kept_hashed (k:=KServiceAccount) _ _ o H). eexists. split; [done|]. apply jget_jset_eq.
Qed.

(** The settings of the ingresses, as the cluster has them. *)
Definition cluster_config (r : ResourceReconciler) (c : cluster) : IngressConfig :=
  match find c KConfigMap "drasi-config"%string with
  | Some cm =>
      match cm_data cm with
      | Some data => ingress_config_of (rr_runtime_config r) data
      | None => runtime_ingress_config (rr_runtime_config r)
      end
  | None => runtime_ingress_config (rr_runtime_config r)
  end.
Definition cluster_address (r : ResourceReconciler) (c : cluster) : option string :=
  let config := cluster_config r c in
  match ic_ip config with
  | Some ip => Some ip
  | None => cl_other_services c (ic_namespace config) !! ic_service config ≫= service_address
  end.
Definition cluster_suffix (r : ResourceReconciler) (c : cluster) : string :=
  match cluster_address r c with Some ip => ip +:+ ".nip.io" | None => "UNAVAILABLE"%string end.

(** The settings stay as they are, and so does where the load balancer is. *)
Definition settings_kept : Prop :=
  alone KConfigMap "drasi-config" ∧ ∀ c c', R c c' → cl_other_services c' = cl_other_services c.

Lemma moved_settings own r c c' :
  settings_kept → (∀ name, ¬ own (KConfigMap, name)) → moved own c c' →
  cluster_config r c' = cluster_config r c ∧ cluster_suffix r c' = cluster_suffix r c.
Proof using Type.
  intros [Ha Hsvc] Hn Hm.
  assert (cluster_config r c' = cluster_config r c) as Hc
    by (unfold cluster_config; by rewrite (moved_find own KConfigMap "drasi-config"%string c c')).
  assert (cl_other_services c' = cl_other_services c) as Ho.
  { apply (moved_inv (λ c', cl_other_services c' = cl_other_services c) own c c'); [| |done|done].
    - intros c1 c2 Hr <-. by apply Hsvc.
    - by intros k name o c1 _ <-. }
  split; [done|]. unfold cluster_suffix, cluster_address. by rewrite Hc, Ho.
Qed.

Lemma rely_settings r c c' : settings_kept → R c c' →
  cluster_config r c' = cluster_config r c ∧ cluster_suffix r c' = cluster_suffix r c.
Proof using Type.
  intros Hs Hr. apply (moved_settings (λ _, False)); [done | by intros ? [] | by apply moved_rely].
Qed.

Lemma rg_get_dynamic_ingress_config r c : settings_kept →
  rg 1 (get_dynamic_ingress_config r) c (λ config c', config = cluster_config r c ∧ R c c').
Proof using G_refl.
  intros Hs. apply rg_call. intros c1 Hr. cbn. split; [done|].
  destruct (rely_settings r c c1 Hs Hr) as [<- _]. unfold cluster_config.
  destruct (find c1 KConfigMap "drasi-config"%string) as [cm|]; [|by apply rg_ret].
  by destruct (cm_data cm); apply rg_ret.
Qed.

Lemma rg_get_ingress_external_ip r c : settings_kept →
  rg 2 (get_ingress_external_ip r) c (λ ip c', ip = cluster_address r c ∧ R c c').
Proof using All.
  intros Hs. apply (rg_bind step R G 1 1).
  eapply rg_mono; [done| |by apply rg_get_dynamic_ingress_config]. intros config c1 [-> Hr1].
  unfold cluster_address. destruct (ic_ip (cluster_config r c)) as [ip|]; [by apply rg_ret|].
  apply rg_call. intros c2 Hr2. cbn. split; [done|].
  rewrite (proj2 Hs _ _ Hr2), (proj2 Hs _ _ Hr1).
  destruct (cl_other_services c _ !! _); (apply rg_ret; split; [done | by etrans]).
Qed.

Lemma rg_update_status dep c : rg 1 (update_deployment_status dep) c (λ _ c', R c c').
Proof using All.
  assert (∀ n s, rg n (mret s) c (λ (_ : ReconcileStatus) c', R c c')) as Hret
    by (intros; by apply rg_ret).
  unfold update_deployment_status. destruct (dep_status dep); [|done].
  case_match; [|done]. destruct (dep_spec dep) as [s|]; [|done].
  destruct (ds_match_labels s); [|done]. apply rg_call. intros c1 Hr. cbn.
  split; [done|]. by apply rg_ret.
Qed.

Lemma rg_spechash {A} n m (f : string → K A) c Q :
  annotated m → (∀ h, hashed h m → rg n (f h) c Q) → rg n (spechash m ≫= f) c Q.
Proof using Type.
  intros (a & h & Ha & Hh) H. unfold spechash. rewrite Ha, Hh. apply H. by exists a.
Qed.

Lemma hashed_inj h h' m : hashed h m → hashed h' m → h = h'.
Proof using Type. intros (a & Ha & Hh) (a' & Ha' & Hh'). congruence. Qed.

(** An object compared as a whole: it is replaced when it differs. *)
Lemma rg_compared k name (new : obj k) (good : obj k → Prop) (bad : obj k → Prop)
    `{∀ o, Decision (bad o)} c :
  wants_version k = false → improved k name good → may_put k name good →
  om_name (meta_of new) = Some name → good (as_stored k new) →
  (∀ o, bad o ↔ ¬ good o) → (∀ o, ¬ bad o → good o) →
  rg 2 (get_or_create name (λ current,
    if decide (bad current) then written (KReplace k name new) else mret (Ok ())) new) c
    (settled k name good c).
Proof using All.
  intros Hk Ha Hmay Hname Hgood Hbad Hnot.
  apply (rg_get_or_create 0 k name _ new good (λ _, True)); try done.
  intros current c1 Hf _. case_decide as Hd.
  - apply (rg_replace 0 k name new current); try done. by apply Hbad.
  - apply (rg_keep 1 k name current); auto.
Qed.

Lemma rg_config_map name cm c :
  improved KConfigMap name (good_data name cm) → may_put KConfigMap name (good_data name cm) →
  om_name (cm_metadata cm) = Some name →
  rg 2 (reconcile_config_map name cm) c (settled KConfigMap name (good_data name cm) c).
Proof using All.
  intros. apply (rg_compared KConfigMap name cm (good_data name cm) (λ o, cm_data o ≠ cm_data cm));
    try done; [exact (eq_sym (proj2 (sl_stored laws KConfigMap cm))) |
      intros o Hd; by destruct (decide (cm_data o = cm_data cm))].
Qed.

(** The component is left when it is as wanted; it could not be replaced. *)
Lemma rg_component r p name c :
  k_pub_sub (rr_kspec r) = Some p → om_name (cm_meta p) = Some name →
  improved KComponent name (good_component p) → may_put KComponent name (good_component p) →
  checked KComponent name (good_component p) c →
  rg 2 (reconcile_components r) c (settled KComponent name (good_component p) c).
Proof using All.
  intros Hp Hn Ha Hmay Hc. unfold reconcile_components. rewrite Hp, Hn.
  apply (rg_get_or_create 0 KComponent name _ p _ (good_component p)); try done.
  - exact (eq_sym (proj2 (sl_stored laws KComponent p))).
  - intros current c1 Hf Hg. rewrite decide_False by by intros [].
    by apply (rg_keep 1 KComponent name current).
Qed.

Lemma rg_ingress r suffix name i c c0 :
  settings_kept → cluster_config r c = cluster_config r c0 →
  improved KIngress name (good_ingress suffix (cluster_config r c0) name i) →
  may_put KIngress name (good_ingress suffix (cluster_config r c0) name i) →
  om_name (ing_metadata i) = Some name →
  rg 3 (reconcile_ingress r suffix name i) c
    (settled KIngress name (good_ingress suffix (cluster_config r c0) name i) c).
Proof using All.
  intros Hs Hc Ha Hmay Hn. unfold reconcile_ingress. apply (rg_bind step R G 1 2).
  eapply rg_mono; [done| |by apply rg_get_dynamic_ingress_config]. intros config c1 [-> Hr].
  rewrite Hc. eapply rg_mono; [done|intros res c'; by apply (settled_rely KIngress name)|].
  set (new := resolve_ingress _ _ _).
  apply (rg_compared KIngress name new _ (λ o, ing_spec o ≠ ing_spec new));
    try done; [exact (eq_sym (proj2 (sl_stored laws KIngress new))) |
      intros o Hd; by destruct (decide (ing_spec o = ing_spec new))].
Qed.

Lemma rg_claim name pvc c :
  alone KPvc name → may_put KPvc name (good_claim name pvc) →
  checked KPvc name (good_claim name pvc) c →
  rg 2 (reconcile_claim name pvc) c (settled KPvc name (good_claim name pvc) c).
Proof using All.
  intros Ha Hmay Hc. unfold reconcile_claim. apply rg_call. intros c1 Hr. cbn. split; [done|].
  eapply rg_mono; [done|intros res c'; apply (settled_rely KPvc name); [by apply alone_improved | exact Hr]|].
  destruct (find c1 KPvc name) as [o|] eqn:E.
  - change (trigger ?e) with (trigger e ≫= mret). apply (rg_call step R G 0). intros c2 Hr2. cbn.
    split; [done|]. apply rg_ret. split; [done|]. split.
    { exists o. rewrite (Ha _ _ Hr2). split; [done|]. apply Hc. by rewrite <-(Ha _ _ Hr). }
    split; [by apply moved_rely | done].
  - change (trigger ?e) with (trigger e ≫= mret). apply (rg_call step R G 0). intros c2 Hr2. cbn.
    assert (good_claim name pvc (as_stored KPvc pvc)) by apply (sl_stored laws KPvc).
    rewrite (Ha _ _ Hr2), E. cbn. split; [by apply Hmay|]. apply rg_ret. split; [done|].
    split; [by apply holds_put|]. split.
    + etrans; [by apply moved_rely | by apply moved_put].
    + intros (o & Ho & _). congruence.
Qed.

Lemma rg_service_account r sa name c :
  k_service_account (rr_kspec r) = Some sa → om_name (sa_metadata sa) = Some name →
  improved KServiceAccount name (good_account r sa) →
  may_put KServiceAccount name (good_account r sa) →
  checked KServiceAccount name (good_account r sa) c →
  rg 2 (reconcile_service_account r) c (settled KServiceAccount name (good_account r sa) c).
Proof using All.
  intros Hp Hn Ha Hmay Hc. unfold reconcile_service_account. rewrite Hp, Hn.
  apply (rg_get_or_create 0 KServiceAccount name _ _ (good_account r sa) (good_account r sa));
    try done; [exact (sl_stored laws KServiceAccount (annotate _ sa))|].
  intros current c1 Hf Hg. pose proof (good_account_hashed r sa current Hg) as Hh.
  apply rg_spechash; [by eapply hashed_annotated|]. intros h Hh'.
  rewrite decide_False by (intros []; by eapply hashed_inj).
  by apply (rg_keep 1 KServiceAccount name current).
Qed.

(** A write of the deployment, and its status. *)
Lemma rg_write_deployment r e c (Q : _ → cluster → Prop) :
  (∀ c', R c c' → ∃ dep, (step _ e c').1 = Ok dep ∧ G c' (step _ e c').2 ∧
    ∀ s c'', R (step _ e c').2 c'' → Q (Ok (), set_status s r) c'') →
  rg 2 (write_deployment e r) c Q.
Proof using All.
  intros He. apply rg_call. intros c1 Hr. destruct (He c1 Hr) as (dep & -> & Hg & HQ).
  split; [done|]. apply (rg_bind step R G 1 0). eapply rg_mono; [done| |apply rg_update_status].
  intros s c2 Hr2. apply rg_ret. by apply HQ.
Qed.

Lemma settled_put k name good o c c1 c2 :
  alone k name → good o → R c c1 → R (put_obj k name o c1) c2 → ¬ holds k name good c →
  settled k name good c (Ok ()) c2.
Proof using All.
  intros Ha Ho Hr Hr2 Hnot. split; [done|].
  split; [exists o; by rewrite (Ha _ _ Hr2), find_put_eq|]. split; [|done].
  etrans; [by apply moved_rely|]. etrans; [by apply moved_put | by apply moved_rely].
Qed.

(** A deployment that a reconciler wrote: it carries a hash, and what it says is
    what was hashed. *)
Definition hash_tells (r : ResourceReconciler) (o : Deployment) : Prop :=
  annotated (dep_metadata o) ∧
  (hashed (rr_deployment_hash r) (dep_metadata o) → good_deployment r o).

Lemma good_hash_tells r o : good_deployment r o → hash_tells r o.
Proof using Type. intros H. split; [by eapply hashed_annotated, good_deployment_hashed | done]. Qed.

Lemma rg_deployment r c :
  let name := deployment_name (rr_kspec r) in
  let good := good_deployment r in
  alone KDeployment name → may_put KDeployment name good →
  checked KDeployment name (hash_tells r) c →
  rg 4 (reconcile_deployment r) c (λ res c',
    (∃ s, res = (Ok (), set_status s r)) ∧ settled KDeployment name good c (Ok ()) c').
Proof using All.
  intros name good Ha Hmay Hc.
  unfold reconcile_deployment. fold name. apply rg_call. intros c1 Hr. cbn. split; [done|].
  destruct (find c1 KDeployment name) as [current|] eqn:E.
  - assert (hash_tells r current) as [Han Htells] by (apply Hc; by rewrite <-(Ha _ _ Hr)).
    apply (rg_bind step R G 1 2). eapply rg_mono; [done| |apply rg_update_status]. intros s c2 Hr2.
    apply rg_spechash; [done|]. intros h Hh. cbn [rr_deployment_hash set_status]. case_decide as Hd.
    + apply rg_write_deployment. intros c3 Hr3. cbn.
      assert (find c3 KDeployment name = Some current) as -> by (by rewrite (Ha _ _ Hr3), (Ha _ _ Hr2)).
      cbn. eexists. split; [done|].
      assert (good (as_stored KDeployment (merge KDeployment current (desired_deployment r)))) as Hg.
      { unfold good, good_deployment.
        etrans; [apply (sl_merged laws current (desired_deployment r)) | apply (sl_stored laws KDeployment)]. }
      split; [by apply Hmay|]. intros s' c4 Hr4. split; [by exists s'|].
      eapply (settled_put KDeployment); [done | exact Hg | | exact Hr4 |].
      { etrans; [exact Hr | etrans; [exact Hr2 | exact Hr3]]. }
      intros (o & Ho & Hgo). rewrite <-(Ha _ _ Hr), E in Ho. injection Ho as <-.
      apply Hd. eapply hashed_inj; [exact Hh | by apply good_deployment_hashed].
    + apply rg_ret. split; [by eexists|]. split; [done|].
      split; [exists current; split; [by rewrite (Ha _ _ Hr2)|] | split; [|]].
      * apply Htells. destruct (decide (h = rr_deployment_hash r)) as [->|]; [done|]. by destruct Hd.
      * apply moved_rely. by etrans.
      * intros _. by etrans.
  - cbn. eapply rg_mono; [|intros ?? H; exact H|apply rg_write_deployment with (Q := λ res c',
      (∃ s, res = (Ok (), set_status s r)) ∧ settled KDeployment name good c (Ok ()) c')]; [lia|].
    intros c2 Hr2. cbn. fold name. rewrite (Ha _ _ Hr2), E. cbn. eexists. split; [done|].
    assert (good (as_stored KDeployment (desired_deployment r))) as Hg
      by exact (sl_stored laws KDeployment (desired_deployment r)).
    split; [by apply Hmay|]. intros s' c3 Hr3. split; [by exists s'|].
    eapply (settled_put KDeployment); [done | exact Hg | etrans; [exact Hr | exact Hr2] | exact Hr3 |].
    intros (o & Ho & _). rewrite <-(Ha _ _ Hr) in Ho. congruence.
Qed.

(** *** Services *)

(** Nobody else writes the object, and the others can bear what is put there. *)
Definition mine (k : kind) (name : string) : Prop := alone k name ∧ may_put k name (λ _, True).

Lemma mine_put k name good : mine k name → may_put k name good.
Proof using Type. intros [_ H] c o _. by apply H. Qed.

Lemma mine_improved k name good : mine k name → improved k name good.
Proof using Type. intros [H _]. by apply alone_improved. Qed.

Definition service_there (r : ResourceReconciler) (c : cluster) (name : string) (spec : ServiceSpec)
    : Prop := holds KService (service_object (rr_kspec r) name) (good_service r name spec) c.

Definition no_service (r : ResourceReconciler) (c : cluster) (name : string) : Prop :=
  find c KService (service_object (rr_kspec r) name) = None.

Lemma service_object_inj k : Inj (=) (=) (service_object k).
Proof using Type.
  intros a b H. unfold service_object in H. apply str_app_inj in H. by injection H.
Qed.

Definition made (r : ResourceReconciler) (l : btree ServiceSpec) : kind * string → Prop :=
  λ x, ∃ n, n ∈ l.*1 ∧ x = (KService, service_object (rr_kspec r) n).

(** None of the services is there: all of them are made. *)
Lemma rg_services_absent r l c :
  (∀ n, n ∈ l.*1 → alone KService n ∧ mine KService (service_object (rr_kspec r) n)) →
  (∀ a b, a ∈ l.*1 → b ∈ l.*1 → a ≠ service_object (rr_kspec r) b) → NoDup l.*1 →
  (∀ n, n ∈ l.*1 → find c KService n = None ∧ no_service r c n) →
  rg (2 * length l) (for_each (reconcile_service r) l) c (λ _ c', moved (made r l) c c' ∧
    ∀ n s, (n, s) ∈ l → service_there r c' n s).
Proof using All.
  revert c. induction l as [|[n a] l IH]; intros c Hmine Hne Hnd Habs.
  { apply rg_ret. split; [done|]. by intros n s ?%elem_of_nil. }
  rewrite fmap_cons in *. cbn [fst] in *. apply list.NoDup_cons in Hnd as [Hni Hnd].
  destruct (Habs n) as [Hbare Hobj]; [left|]. unfold no_service in Hobj.
  destruct (Hmine n) as (Halone & Ha & Hput); [left|].
  cbn [for_each]. replace (2 * length ((n, a) :: l)) with (S (S (2 * length l))) by (cbn; lia).
  apply rg_call. intros c1 Hr1. cbn. split; [done|]. rewrite (Halone _ _ Hr1), Hbare. cbn.
  apply rg_call. intros c2 Hr2. cbn. rewrite (Ha _ _ Hr2), (Ha _ _ Hr1), Hobj. cbn.
  split; [by apply Hput|]. set (o := as_stored KService _).
  assert (good_service r n a o) as Hgood by exact (sl_stored laws KService (asked_service r n a)).
  set (c3 := put_obj KService (service_object (rr_kspec r) n) o c2).
  assert (moved (made r ((n, a) :: l)) c c3) as Hm.
  { etrans; [apply moved_rely; etrans; [exact Hr1 | exact Hr2]|]. apply moved_put. exists n.
    split; [left | done]. }
  assert (∀ c1 c2, moved (made r l) c1 c2 → moved (made r ((n, a) :: l)) c1 c2) as Hsub.
  { intros ??. apply moved_mono. intros x (m & Hin & ->). exists m. split; [by right | done]. }
  eapply rg_mono; [done| |apply IH].
  - intros _ c' (Hm' & Hthere). split; [etrans; [exact Hm | by apply Hsub]|].
    intros m s [[= -> ->]|Hin]%list.elem_of_cons; [|by apply Hthere].
    eapply moved_holds; [by apply alone_improved | | exact Hm' | by apply holds_put].
    intros (m' & Hin & [= Heq%service_object_inj]). by subst.
  - intros m Hin. apply Hmine. by right.
  - intros m m' Hin Hin'. apply Hne; by right.
  - done.
  - intros m Hin. destruct (Habs m) as [Hb Ho]; [by right|].
    destruct (Hmine m) as (Halone' & Ha' & _); [by right|]. unfold no_service in *.
    unfold c3. rewrite !find_put.
    + by rewrite !(Halone' _ _ Hr2), !(Halone' _ _ Hr1), !(Ha' _ _ Hr2), !(Ha' _ _ Hr1).
    + intros [= Heq%service_object_inj]. by subst.
    + intros [= Heq]. symmetry in Heq. revert Heq. apply Hne; [by right | left].
Qed.

(** All of them are there: the first is not found and cannot be made. *)
Lemma rg_services_there r l c :
  (∀ n, n ∈ l.*1 → alone KService n ∧ mine KService (service_object (rr_kspec r) n)) →
  (∀ n s, (n, s) ∈ l → find c KService n = None ∧ service_there r c n s) →
  rg (2 * length l) (for_each (reconcile_service r) l) c (λ _ c', R c c').
Proof using All.
  destruct l as [|[n a] l]; intros Hmine H; [by apply rg_ret|].
  destruct (H n a) as [Hbare (o & Ho & _)]; [left|].
  destruct (Hmine n) as (Halone & Ha & _); [left|].
  cbn [for_each]. replace (2 * length ((n, a) :: l)) with (S (S (2 * length l))) by (cbn; lia).
  apply rg_call. intros c1 Hr1. cbn. split; [done|]. rewrite (Halone _ _ Hr1), Hbare. cbn.
  apply rg_call. intros c2 Hr2. cbn. rewrite (Ha _ _ Hr2), (Ha _ _ Hr1), Ho. split; [done|].
  apply rg_ret. by etrans.
Qed.

(** *** The parts, with what each one leaves of the others' *)

Definition moved_kind (k : kind) : relation cluster := moved (λ x, x.1 = k).

Lemma entries_kind {A} k (l : btree A) c c' : moved (entries k l) c c' → moved_kind k c c'.
Proof using Type. apply moved_mono. by intros x [? _]. Qed.

Lemma one_kind k name c c' : moved (.= (k, name)) c c' → moved_kind k c c'.
Proof using Type. apply moved_mono. by intros x ->. Qed.

(** What is made from the deployment on. *)
Definition late (k : kind) : bool :=
  match k with KDeployment | KService | KIngress => true | _ => false end.

(** What is made before the deployment. *)
Definition set_up (r : ResourceReconciler) (c : cluster) : Prop :=
  let spec := rr_kspec r in
  all_hold KConfigMap good_data (k_config_maps spec) c ∧
  all_hold KPvc good_claim (k_volume_claims spec) c ∧
  (∀ p name, k_pub_sub spec = Some p → om_name (cm_meta p) = Some name →
     holds KComponent name (good_component p) c) ∧
  (∀ sa name, k_service_account spec = Some sa → om_name (sa_metadata sa) = Some name →
     holds KServiceAccount name (good_account r sa) c).

(** The cluster has what the specification asks for. *)
Definition in_sync (r : ResourceReconciler) (c : cluster) : Prop :=
  let spec := rr_kspec r in
  set_up r c ∧
  holds KDeployment (deployment_name spec) (good_deployment r) c ∧
  (∀ n s, (n, s) ∈ k_services spec → service_there r c n s) ∧
  (∀ l, k_ingresses spec = Some l →
     all_hold KIngress (good_ingress (cluster_suffix r c) (cluster_config r c)) l c).

(** What is there of the specification was made by a reconciler of this or of
    another version of it, and not edited under its hash: a deployment of
    another version has another hash.  What a reconciliation does not change any
    more, a claim, the component and the account, is as asked for. *)
Definition unedited (r : ResourceReconciler) (c : cluster) : Prop :=
  let spec := rr_kspec r in
  checked KDeployment (deployment_name spec) (hash_tells r) c ∧
  (∀ name pvc, (name, pvc) ∈ k_volume_claims spec → checked KPvc name (good_claim name pvc) c) ∧
  (∀ p name, k_pub_sub spec = Some p → om_name (cm_meta p) = Some name →
     checked KComponent name (good_component p) c) ∧
  (∀ sa name, k_service_account spec = Some sa → om_name (sa_metadata sa) = Some name →
     checked KServiceAccount name (good_account r sa) c).

(** What the cluster may hold before: besides, the services are all there as
    asked for or none is, and no service has the bare name of one of them. *)
Definition managed (r : ResourceReconciler) (c : cluster) : Prop :=
  let spec := rr_kspec r in
  unedited r c ∧
  (∀ n, n ∈ (k_services spec).*1 → find c KService n = None) ∧
  ((∀ n s, (n, s) ∈ k_services spec → service_there r c n s) ∨
   (∀ n, n ∈ (k_services spec).*1 → no_service r c n)).

(** Which objects of a specification are its reconciler's own, and which ones
    others may write too, as long as they agree on what is good. *)
Record undisturbed (r : ResourceReconciler) : Prop := {
  un_config_maps name cm : (name, cm) ∈ k_config_maps (rr_kspec r) → mine KConfigMap name;
  un_claims name pvc : (name, pvc) ∈ k_volume_claims (rr_kspec r) → mine KPvc name;
  un_component p name : k_pub_sub (rr_kspec r) = Some p → om_name (cm_meta p) = Some name →
    improved KComponent name (good_component p) ∧ may_put KComponent name (good_component p);
  un_account sa name : k_service_account (rr_kspec r) = Some sa →
    om_name (sa_metadata sa) = Some name →
    improved KServiceAccount name (good_account r sa) ∧
    may_put KServiceAccount name (good_account r sa);
  un_deployment : mine KDeployment (deployment_name (rr_kspec r));
  un_services n : n ∈ (k_services (rr_kspec r)).*1 →
    alone KService n ∧ mine KService (service_object (rr_kspec r) n);
  un_ingresses l name i : k_ingresses (rr_kspec r) = Some l → (name, i) ∈ l → mine KIngress name;
  un_settings l : k_ingresses (rr_kspec r) = Some l → settings_kept;
}.

Section parts.
Context (r : ResourceReconciler).
Context (Hwn : well_named (rr_kspec r)) (Hun : undisturbed r).

Lemma rg_config_maps_part c :
  rg (2 * length (k_config_maps (rr_kspec r))) (reconcile_config_maps r) c (λ _ c',
    all_hold KConfigMap good_data (k_config_maps (rr_kspec r)) c' ∧ moved_kind KConfigMap c c' ∧
    (all_hold KConfigMap good_data (k_config_maps (rr_kspec r)) c → R c c')).
Proof using All.
  destruct (wn_config_maps _ Hwn) as [Hnd Hn].
  eapply rg_mono; [done| |apply (rg_for_each 2 KConfigMap _ good_data)]; [|done|..].
  - intros _ c' (_ & ? & Hm & ?). split; [done|]. by split; [eapply entries_kind|].
  - intros name ([n cm] & -> & Hin)%list_elem_of_fmap. by eapply (un_config_maps r).
  - intros name cm c1 Hin _. pose proof (un_config_maps r Hun name cm Hin) as Hm.
    apply rg_config_map; [by apply mine_improved | by apply mine_put | by apply Hn].
Qed.

Lemma rg_claims_part c :
  (∀ name pvc, (name, pvc) ∈ k_volume_claims (rr_kspec r) →
     checked KPvc name (good_claim name pvc) c) →
  rg (2 * length (k_volume_claims (rr_kspec r))) (reconcile_persistent_volume_claims r) c (λ _ c',
    all_hold KPvc good_claim (k_volume_claims (rr_kspec r)) c' ∧ moved_kind KPvc c c' ∧
    (all_hold KPvc good_claim (k_volume_claims (rr_kspec r)) c → R c c')).
Proof using All.
  intros Hc. pose proof (wn_volume_claims _ Hwn) as Hnd.
  eapply rg_mono; [done| |apply (rg_for_each 2 KPvc _ good_claim)]; [|done|..].
  - intros _ c' (_ & ? & Hm & ?). split; [done|]. by split; [eapply entries_kind|].
  - intros name ([n pvc] & -> & Hin)%list_elem_of_fmap. by eapply (un_claims r).
  - intros name pvc c1 Hin Hm1. pose proof (un_claims r Hun name pvc Hin) as Hm.
    apply rg_claim; [apply Hm | by apply mine_put|].
    eapply moved_checked; [by apply (mine_improved KPvc _ (good_claim name pvc)) | done | | exact Hm1 | by apply Hc].
    by intros [].
Qed.

(** A part that is made when the specification has the object. *)
Lemma rg_component_part c :
  (∀ p name, k_pub_sub (rr_kspec r) = Some p → om_name (cm_meta p) = Some name →
     checked KComponent name (good_component p) c) →
  rg 2 (reconcile_components r) c (λ _ c',
    (∀ p name, k_pub_sub (rr_kspec r) = Some p → om_name (cm_meta p) = Some name →
       holds KComponent name (good_component p) c') ∧
    moved_kind KComponent c c' ∧
    ((∀ p name, k_pub_sub (rr_kspec r) = Some p → om_name (cm_meta p) = Some name →
       holds KComponent name (good_component p) c) → R c c')).
Proof using All.
  intros Hc. destruct (k_pub_sub (rr_kspec r)) as [p|] eqn:Hp.
  - destruct (wn_component _ Hwn p Hp) as [name Hn].
    destruct (un_component r Hun p name Hp Hn) as [Ha Hput].
    eapply rg_mono; [done| |apply (rg_component r p name); auto]. intros res c' (_ & Hh & Hm & Hi).
    split; [|split; [by eapply one_kind|]].
    + intros p' n' [= <-] Hn'. rewrite Hn in Hn'. by injection Hn' as <-.
    + intros H. by apply Hi, (H p name).
  - unfold reconcile_components. rewrite Hp. by apply rg_ret.
Qed.

Lemma rg_account_part c :
  (∀ sa name, k_service_account (rr_kspec r) = Some sa → om_name (sa_metadata sa) = Some name →
     checked KServiceAccount name (good_account r sa) c) →
  rg 2 (reconcile_service_account r) c (λ _ c',
    (∀ sa name, k_service_account (rr_kspec r) = Some sa → om_name (sa_metadata sa) = Some name →
       holds KServiceAccount name (good_account r sa) c') ∧
    moved_kind KServiceAccount c c' ∧
    ((∀ sa name, k_service_account (rr_kspec r) = Some sa → om_name (sa_metadata sa) = Some name →
       holds KServiceAccount name (good_account r sa) c) → R c c')).
Proof using All.
  intros Hc. destruct (k_service_account (rr_kspec r)) as [sa|] eqn:Hp.
  - destruct (wn_account _ Hwn sa Hp) as [name Hn].
    destruct (un_account r Hun sa name Hp Hn) as [Ha Hput].
    eapply rg_mono; [done| |apply (rg_service_account r sa name); auto].
    intros res c' (_ & Hh & Hm & Hi). split; [|split; [by eapply one_kind|]].
    + intros p' n' [= <-] Hn'. rewrite Hn in Hn'. by injection Hn' as <-.
    + intros H. by apply Hi, (H sa name).
  - unfold reconcile_service_account. rewrite Hp. by apply rg_ret.
Qed.

Lemma rg_services_part c :
  services_apart (rr_kspec r) →
  (∀ n, n ∈ (k_services (rr_kspec r)).*1 → find c KService n = None) →
  ((∀ n s, (n, s) ∈ k_services (rr_kspec r) → service_there r c n s) ∨
   (∀ n, n ∈ (k_services (rr_kspec r)).*1 → no_service r c n)) →
  rg (2 * length (k_services (rr_kspec r))) (reconcile_services r) c (λ _ c',
    ((∀ n s, (n, s) ∈ k_services (rr_kspec r) → service_there r c' n s) ∧
     (∀ n, n ∈ (k_services (rr_kspec r)).*1 → find c' KService n = None)) ∧
    moved_kind KService c c' ∧
    ((∀ n s, (n, s) ∈ k_services (rr_kspec r) → service_there r c n s) → R c c')).
Proof using All.
  intros Hne Hbare Hall. pose proof (wn_services _ Hwn) as Hnd. pose proof (un_services r Hun) as Hs.
  destruct (decide (k_services (rr_kspec r) = [])) as [E|E].
  { unfold reconcile_services. rewrite E. apply rg_ret.
    split; [split; [by intros n s ?%elem_of_nil | by intros n ?%elem_of_nil] | done]. }
  destruct Hall as [Hp|Ha].
  - eapply rg_mono; [done| |apply rg_services_there; [exact Hs | ]].
    2: { intros n s Hn. split; [by eapply Hbare, (list_elem_of_fmap_2 fst _ (n, s)) | by apply Hp]. }
    intros res c' Hr. split; [|by split; [apply moved_rely|]]. split.
    + intros n s Hn. destruct (Hs n) as (_ & Hm & _); [by apply (list_elem_of_fmap_2 fst _ (n, s))|].
      eapply improved_holds; [by apply alone_improved | exact Hr | by apply Hp].
    + intros n Hn. destruct (Hs n Hn) as (Hb & _). rewrite (Hb _ _ Hr). by apply Hbare.
  - eapply rg_mono; [done| |apply rg_services_absent; auto]. intros res c' (Hm & Hmade).
    split; [split; [done|]|split; [eapply moved_mono; [|exact Hm]; by intros x (n & _ & ->)|]].
    + intros n Hn. destruct (Hs n Hn) as (Hb & _).
      rewrite (moved_find _ _ _ _ _ Hb) with (2 := Hm); [by apply Hbare|].
      intros (m & Hin & [= Heq]). by apply (Hne n m).
    + intros H. destruct (k_services (rr_kspec r)) as [|[n0 a0] l]; [done|].
      exfalso. destruct (H n0 a0) as (o & Ho & _); [left|]. unfold no_service in Ha.
      rewrite Ha in Ho; [done | left].
Qed.
End parts.

Lemma moved_other k k' c c' : k' ≠ k → moved_kind k' c c' → moved (λ x, x.1 ≠ k) c c'.
Proof using Type. intros Hk. apply moved_mono. by intros x ->. Qed.

(** An object is kept by what writes objects of other kinds only. *)
Lemma holds_kept k name good c c' :
  improved k name good → moved (λ x, x.1 ≠ k) c c' → holds k name good c → holds k name good c'.
Proof using Type. intros Ha. apply moved_holds; [done | by intros []]. Qed.

Lemma checked_kept k name good c c' :
  improved k name good → moved (λ x, x.1 ≠ k) c c' → checked k name good c → checked k name good c'.
Proof using Type. intros Ha. by apply moved_checked with good; [| |intros []]. Qed.

Lemma find_kept k name c c' :
  alone k name → moved (λ x, x.1 ≠ k) c c' → find c' k name = find c k name.
Proof using Type. intros Ha. by apply moved_find; [|intros []]. Qed.

Lemma all_hold_kept {A} k good (l : btree A) c c' :
  (∀ name a, (name, a) ∈ l → improved k name (good name a)) → moved (λ x, x.1 ≠ k) c c' →
  all_hold k good l c → all_hold k good l c'.
Proof using Type. intros Ha Hm H name a Hin. eapply holds_kept; [by apply Ha | done | by apply H]. Qed.

Section whole.
Context (r : ResourceReconciler).
Context (Hwn : well_named (rr_kspec r)) (Hun : undisturbed r).

Lemma rg_ingresses_part c :
  rg (2 + 3 * length (default [] (k_ingresses (rr_kspec r)))) (reconcile_ingresses r) c (λ _ c',
    (∀ l, k_ingresses (rr_kspec r) = Some l →
       all_hold KIngress (good_ingress (cluster_suffix r c') (cluster_config r c')) l c') ∧
    moved_kind KIngress c c' ∧
    ((∀ l, k_ingresses (rr_kspec r) = Some l →
       all_hold KIngress (good_ingress (cluster_suffix r c) (cluster_config r c)) l c) → R c c')).
Proof using All.
  unfold reconcile_ingresses. destruct (k_ingresses (rr_kspec r)) as [l|] eqn:E; [|by apply rg_ret].
  destruct (wn_ingresses _ Hwn l E) as [Hnd Hn]. pose proof (un_settings r Hun l E) as Hs.
  pose proof (λ name i, un_ingresses r Hun l name i E) as Hown.
  apply rg_bind. eapply rg_mono; [done| |by apply rg_get_ingress_external_ip].
  intros ip c1 [-> Hr1]. change (match cluster_address r c with Some ip => _ | None => _ end)
    with (cluster_suffix r c).
  eapply rg_mono; [done| |apply (rg_for_each 3 KIngress _
    (good_ingress (cluster_suffix r c) (cluster_config r c)))]; [|done|..].
  - intros res c' (_ & Hall & Hm & Hi). apply entries_kind in Hm.
    assert (moved_kind KIngress c c') as Hm' by (etrans; [by apply moved_rely | done]).
    destruct (moved_settings (λ x, x.1 = KIngress) r c c' Hs) as [-> ->]; [done..|].
    split; [by intros l' [= <-]|]. split; [done|].
    intros H. etrans; [exact Hr1|]. apply Hi. intros name i Hin.
    eapply improved_holds; [by eapply mine_improved, Hown | exact Hr1 | exact (H l eq_refl name i Hin)].
  - intros name ([n i] & -> & Hin)%list_elem_of_fmap. by eapply Hown.
  - intros name i c2 Hin Hm. apply rg_ingress; [done|..].
    + eapply (moved_settings (λ x, entries KIngress l x ∧ x ≠ (KIngress, name))); [done | by intros ? [[] _] |].
      etrans; [by apply moved_rely | done].
    + by eapply mine_improved, Hown.
    + by eapply mine_put, Hown.
    + by eapply Hn.
Qed.

(** Neither what the others do nor the later parts undo it. *)
Lemma set_up_kept c c' :
  moved (λ x, late x.1 = true) c c' → set_up r c → set_up r c'.
Proof using Hun PreOrder0.
  intros Hm (A1 & A2 & A3 & A4).
  assert (∀ k, late k = false → moved (λ x, x.1 ≠ k) c c') as Hk.
  { intros k Hk. eapply moved_mono; [|exact Hm]. intros x Hx <-. congruence. }
  split; [|split; [|split]].
  - eapply all_hold_kept; [|by apply Hk|exact A1]. intros. by eapply mine_improved, un_config_maps.
  - eapply all_hold_kept; [|by apply Hk|exact A2]. intros. by eapply mine_improved, un_claims.
  - intros p name Hp Hn. eapply holds_kept; [by eapply un_component | by apply Hk | by apply A3].
  - intros sa name Hp Hn. eapply holds_kept; [by eapply un_account | by apply Hk | by apply (A4 sa)].
Qed.

Lemma in_sync_rely c c' : R c c' → in_sync r c → in_sync r c'.
Proof using Hun PreOrder0.
  intros Hr (A & A5 & A6 & A7). split; [|split; [|split]].
  - eapply set_up_kept; [by apply moved_rely | done].
  - eapply improved_holds; [|exact Hr|exact A5]. apply mine_improved, (un_deployment r Hun).
  - intros n s Hn. destruct (un_services r Hun n) as (_ & Ha & _).
    { by apply (list_elem_of_fmap_2 fst _ (n, s)). }
    eapply improved_holds; [by apply alone_improved | exact Hr | by apply A6].
  - intros l Hl. destruct (rely_settings r c c' (un_settings r Hun l Hl) Hr) as [-> ->].
    eapply all_hold_kept; [|by apply moved_rely|by apply A7]. intros. by eapply mine_improved, un_ingresses.
Qed.

(** What a reconciliation leaves can be reconciled again. *)
Lemma in_sync_managed c :
  in_sync r c → (∀ n, n ∈ (k_services (rr_kspec r)).*1 → find c KService n = None) → managed r c.
Proof using Type.
  intros ((_ & Hpvc & Hcomp & Hacc) & Hdep & Hsvc & _) Hbare.
  split; [|split; [done | by left]]. split; [|split; [|split]].
  - eapply holds_checked; [apply good_hash_tells | exact Hdep].
  - intros name pvc Hin. eapply holds_checked; [done | by apply Hpvc].
  - intros p name Hp Hn. eapply holds_checked; [done | by apply Hcomp].
  - intros sa name Hp Hn. eapply holds_checked; [done | by apply Hacc].
Qed.

(** The most calls a reconciliation makes. *)
Definition cost : nat :=
  let spec := rr_kspec r in
  2 * length (k_config_maps spec) + (2 * length (k_volume_claims spec) + (2 + (2 + (4 +
    (2 * length (k_services spec) + ((2 + 3 * length (default [] (k_ingresses spec))) + 0)))))).

Ltac next_part L := apply rg_bind; eapply rg_mono; [done| |eapply L; try done].
Ltac moved_on := repeat (etrans; [eapply moved_other; [|eassumption]; done|]); reflexivity.

(** The parts before the deployment. *)
Lemma rg_set_up {A} n (p : K A) c Q :
  unedited r c →
  (∀ c', set_up r c' → moved (λ x, late x.1 = false) c c' →
     (set_up r c → R c c') → rg n p c' Q) →
  rg (2 * length (k_config_maps (rr_kspec r)) + (2 * length (k_volume_claims (rr_kspec r)) + (2 + (2 + n))))
    (reconcile_config_maps r ≫= λ _, reconcile_persistent_volume_claims r ≫= λ _,
     reconcile_components r ≫= λ _, reconcile_service_account r ≫= λ _, p) c Q.
Proof using All.
  intros (_ & Hpvc & Hcomp & Hacc) Hp.
  next_part (rg_config_maps_part r Hwn Hun). intros _ c1 (S1 & F1 & I1).
  next_part (rg_claims_part r Hwn Hun).
  2: { intros name pvc Hin. eapply checked_kept; [| |by apply Hpvc]; [|moved_on].
       by eapply mine_improved, un_claims. }
  intros _ c2 (S2 & F2 & I2).
  next_part (rg_component_part r Hwn Hun).
  2: { intros p' name Hp' Hn. eapply checked_kept; [| |by apply Hcomp]; [|moved_on].
       by apply (un_component r Hun p' name Hp' Hn). }
  intros _ c3 (S3 & F3 & I3).
  next_part (rg_account_part r Hwn Hun).
  2: { intros sa name Hp' Hn. eapply checked_kept; [| |by apply (Hacc sa)]; [|moved_on].
       by apply (un_account r Hun sa name Hp' Hn). }
  intros _ c4 (S4 & F4 & I4). apply Hp.
  - split; [|split; [|split]].
    + eapply all_hold_kept; [| |exact S1]; [by intros; eapply mine_improved, un_config_maps | moved_on].
    + eapply all_hold_kept; [| |exact S2]; [by intros; eapply mine_improved, un_claims | moved_on].
    + intros p' name Hp' Hn. eapply holds_kept; [by eapply un_component | | by apply S3]. moved_on.
    + exact S4.
  - assert (∀ k c c', late k = false → moved_kind k c c' →
      moved (λ x, late x.1 = false) c c') as Hk.
    { intros k c' c'' Hk. apply moved_mono. by intros x ->. }
    repeat (etrans; [eapply Hk; [|eassumption]; done|]). reflexivity.
  - intros Hc. assert (∀ c', R c c' → set_up r c') as Hlater
      by (intros; eapply set_up_kept; [by apply moved_rely | done]).
    assert (R c c1) as R1 by (apply I1, Hc).
    assert (R c c2) as R2 by (etrans; [exact R1 | apply I2, (Hlater c1 R1)]).
    assert (R c c3) as R3 by (etrans; [exact R2 | apply I3, (Hlater c2 R2)]).
    etrans; [exact R3 | apply I4, (Hlater c3 R3)].
Qed.

(** After the last part everything is in place. *)
Lemma finished (idle : Prop) c4 c5 c6 c7 :
  set_up r c4 →
  holds KDeployment (deployment_name (rr_kspec r)) (good_deployment r) c5 →
  (∀ n s, (n, s) ∈ k_services (rr_kspec r) → service_there r c6 n s) →
  (∀ n, n ∈ (k_services (rr_kspec r)).*1 → find c6 KService n = None) →
  (∀ l, k_ingresses (rr_kspec r) = Some l →
     all_hold KIngress (good_ingress (cluster_suffix r c7) (cluster_config r c7)) l c7) →
  moved_kind KDeployment c4 c5 → moved_kind KService c5 c6 → moved_kind KIngress c6 c7 → idle →
  in_sync r c7 ∧ managed r c7 ∧ idle.
Proof using All.
  intros S4 S5 S6 B6 S7 F5 F6 F7 Hidle.
  assert (in_sync r c7) as Hin.
  { assert (∀ k c c', late k = true → moved_kind k c c' →
      moved (λ x, late x.1 = true) c c') as Hk.
    { intros k c' c'' Hk. apply moved_mono. by intros x ->. }
    split; [|split; [|split; [|exact S7]]].
    - eapply set_up_kept; [|exact S4]. repeat (etrans; [eapply Hk; [|eassumption]; done|]).
      reflexivity.
    - eapply holds_kept; [by apply mine_improved, un_deployment | | exact S5]. moved_on.
    - intros n s Hn. destruct (un_services r Hun n) as (_ & Ha & _).
      { by apply (list_elem_of_fmap_2 fst _ (n, s)). }
      eapply holds_kept; [by apply alone_improved | | by apply S6]. moved_on. }
  split; [done|]. split; [|done]. apply in_sync_managed; [done|]. intros n Hn.
  destruct (un_services r Hun n Hn) as (Hb & _). rewrite (find_kept _ _ c6 c7 Hb) by moved_on.
  by apply B6.
Qed.

(** The services are as they were before the parts that do not write services. *)
Lemma services_kept c c' :
  moved (λ x, x.1 ≠ KService) c c' →
  (∀ n, n ∈ (k_services (rr_kspec r)).*1 → find c' KService n = find c KService n) ∧
  ((∀ n s, (n, s) ∈ k_services (rr_kspec r) → service_there r c' n s) ↔
   (∀ n s, (n, s) ∈ k_services (rr_kspec r) → service_there r c n s)) ∧
  ((∀ n, n ∈ (k_services (rr_kspec r)).*1 → no_service r c' n) ↔
   (∀ n, n ∈ (k_services (rr_kspec r)).*1 → no_service r c n)).
Proof using Hun.
  intros F.
  assert (∀ n, n ∈ (k_services (rr_kspec r)).*1 →
    find c' KService (service_object (rr_kspec r) n) = find c KService (service_object (rr_kspec r) n)) as E.
  { intros n Hn. destruct (un_services r Hun n Hn) as (_ & Hm & _). by apply find_kept. }
  split; [|split; split; intros H n].
  - intros n Hn. destruct (un_services r Hun n Hn) as (Hb & _). by apply find_kept.
  - intros s Hn. destruct (H n s Hn) as (o & Ho & Hg). exists o. split; [|done].
    by rewrite <-E by by apply (list_elem_of_fmap_2 fst _ (n, s)).
  - intros s Hn. destruct (H n s Hn) as (o & Ho & Hg). exists o. split; [|done].
    by rewrite E by by apply (list_elem_of_fmap_2 fst _ (n, s)).
  - intros Hn. unfold no_service. rewrite <-E by done. by apply H.
  - intros Hn. unfold no_service. rewrite E by done. by apply H.
Qed.

Lemma rg_reconcile c :
  services_apart (rr_kspec r) → k_removed (rr_kspec r) = false → managed r c →
  rg cost (reconcile r) c (λ r' c', (∃ s, r' = set_status s r) ∧ in_sync r c' ∧ managed r c' ∧
    (in_sync r c → R c c')).
Proof using All.
  intros Hne Hrm (Hun' & Mbare & Mall). unfold reconcile, cost. rewrite Hrm.
  apply rg_set_up; [exact Hun'|]. intros c4 S4 F4 I4.
  assert (∀ k, late k = true → moved (λ x, x.1 ≠ k) c c4) as F4'.
  { intros k Hk. eapply moved_mono; [|exact F4]. intros x Hx <-. congruence. }
  destruct (un_deployment r Hun) as [Hdep Hdput].
  next_part rg_deployment; [|by apply mine_put|].
  2: { intros o. rewrite (find_kept _ _ c c4 Hdep) by (by apply F4'). apply Hun'. }
  intros [res r'] c5 [[s [= -> ->]] (_ & S5 & F5 & I5)]. apply one_kind in F5.
  destruct (services_kept c c5) as (Ebare & Ethere & Enone).
  { etrans; [by apply F4' | moved_on]. }
  apply rg_bind. eapply rg_mono; [done| |apply (rg_services_part r Hwn Hun); [done|..]].
  2: { intros n Hn. rewrite (Ebare n Hn). by apply Mbare. }
  2: { destruct Mall as [Hall|Hall]; [left; by apply Ethere | right; by apply Enone]. }
  intros _ c6 ((S6 & B6) & F6 & I6).
  apply rg_bind. eapply rg_mono; [done| |apply rg_ingresses_part]. intros _ c7 (S7 & F7 & I7).
  apply rg_ret. split; [by eexists|]. apply finished with c4 c5 c6; try done.
  intros Hc. assert (∀ c', R c c' → in_sync r c') as Hlater by (intros; by eapply in_sync_rely).
  assert (R c c4) as R4 by (apply I4, Hc).
  assert (R c c5) as R5 by (etrans; [exact R4 | apply I5, (Hlater c4 R4)]).
  assert (R c c6) as R6 by (etrans; [exact R5 | apply I6, (Hlater c5 R5)]).
  etrans; [exact R6 | apply I7, (Hlater c6 R6)].
Qed.
End whole.
End rely.

(** ** Without others *)

Lemma undisturbed_alone r : undisturbed eq (λ _ _, True) r.
Proof using Type.
  assert (∀ k name, alone eq k name) as Ha by (by intros k name c c' ->).
  assert (∀ k name, mine eq (λ _ _, True) k name) as Hm by done.
  constructor; try done; intros; (split; [by apply alone_improved|done]) || (split; [|by intros c c' ->]; done).
Qed.

Lemma twp_reconcile r c :
  well_named (rr_kspec r) → services_apart (rr_kspec r) → k_removed (rr_kspec r) = false →
  managed r c →
  twp (reconcile r) c (λ r' c', (∃ s, r' = set_status s r) ∧ in_sync r c' ∧ managed r c' ∧
    (in_sync r c → c' = c)).
Proof using laws.
  intros Hwn Hne Hrm Hm.
  destruct (rg_run step eq (λ _ _, True) _ _ _ _ (rg_reconcile eq (λ _ _, True) (λ _, I) r Hwn
    (undisturbed_alone r) c Hne Hrm Hm)) as (a & c' & t & Hrun & Hs & Hin & Hm' & Hidle).
  unfold twp. rewrite Hrun. split; [done|]. split; [done|]. split; [done|].
  intros Hc. symmetry. by apply Hidle.
Qed.

(** A service that is missing stays missing when the first one is there: making
    the first one again is refused, and the loop stops. *)
Theorem missing_services_not_made r n a l c :
  k_services (rr_kspec r) = (n, a) :: l → find c KService n = None → ¬ no_service r c n →
  twp (reconcile_services r) c (λ res c', res = Err (KubeApi 409) ∧ c' = c).
Proof.
  intros Hl Hbare [o Ho]%not_eq_None_Some. unfold reconcile_services. rewrite Hl. cbn [for_each]. unfold and_then.
  apply twp_bind. unfold reconcile_service, get_or_create. apply twp_call. cbn. rewrite Hbare. cbn.
  unfold written. apply twp_call. cbn. rewrite Ho. by apply twp_ret.
Qed.

(** A component that is there with another specification stays as it is: the
    replacement names no version and is refused. *)
Theorem changed_component_stays r p name o c :
  k_pub_sub (rr_kspec r) = Some p → om_name (cm_meta p) = Some name →
  find c KComponent name = Some o → ¬ good_component p o →
  twp (reconcile_components r) c (λ res c', res = Err (KubeApi 422) ∧ c' = c).
Proof.
  intros Hp Hn Ho Hbad. unfold reconcile_components. rewrite Hp, Hn.
  apply twp_bind. unfold get_or_create. apply twp_call. cbn. rewrite Ho. cbn.
  rewrite decide_True by done. unfold written. apply twp_call. cbn. rewrite Ho. by apply twp_ret.
Qed.

(** On a cluster whose API answers every call, reconciling a specification that
    is not removed ends without a panic with every object as desired, and
    reconciling again leaves the cluster as it is. *)
Theorem reconcile_converges r c :
  well_named (rr_kspec r) → services_apart (rr_kspec r) → k_removed (rr_kspec r) = false →
  managed r c →
  ∃ r' c' t, run step (reconcile r) c = (Done r', c', t) ∧ in_sync r c' ∧
    ∃ r'' t', run step (reconcile r') c' = (Done r'', c', t').
Proof using laws.
  intros Hwn Hne Hrm Hm.
  destruct (twp_run _ _ _ (twp_reconcile r c Hwn Hne Hrm Hm)) as (r' & c' & t & Hrun & [s ->] & Hin & Hm' & _).
  do 3 eexists. split; [exact Hrun|]. split; [done|].
  destruct (twp_run _ _ _ (twp_reconcile (set_status s r) c' Hwn Hne Hrm Hm'))
    as (r'' & c'' & t' & Hrun' & _ & _ & _ & Hidle).
  exists r'', t'. rewrite Hrun'. by rewrite (Hidle Hin).
Qed.
End convergence.

(** ** An example: the service of a reaction on an empty cluster *)

Definition example_service_spec : option KubernetesSpec :=
  reaction_service_spec (λ _, map_to_list) (runtime_config_default ∅) example_reaction []
    ("api"%string, Mappings.mkApiService None "reaction-debug" None
       (Some {["gw"%string := Mappings.mkApiEndpoint MgmtModels.External "8080"]}) None None).

Definition example_reconciler : ResourceReconciler :=
  let k := default (kubernetes_spec_new RtReaction "" "" (mkDeploymentSpec None None None
             (mkTemplate None None))) example_service_spec in
  mkReconciler k (runtime_config_default ∅) "0a" "0b"
    (default [] (ds_match_labels (k_deployment k))) RsUnknown.

Definition empty_cluster : cluster := mkCluster (λ _, ∅) (λ _, []) (λ _, []) (λ _, ∅).

Lemma reconcile_converges_witness :
  k_service_name (rr_kspec example_reconciler) = "api"%string ∧
  ∃ r' c' t,
    run (cluster_step (λ _ o, o) (λ _ _ new, new)) (reconcile example_reconciler) empty_cluster =
      (Done r', c', t) ∧ in_sync example_reconciler c' ∧
    ∃ r'' t', run (cluster_step (λ _ o, o) (λ _ _ new, new)) (reconcile r') c' = (Done r'', c', t').
Proof.
  split; [by vm_compute|]. apply reconcile_converges.
  - by constructor.
  - assert (example_service_spec = Some (rr_kspec example_reconciler)) as H by (vm_compute; reflexivity).
    exact (proj1 (reaction_service_well_formed _ _ _ _ _ _ H)).
  - intros a b Ha Hb. vm_compute in Ha, Hb. apply list_elem_of_singleton in Ha as ->.
    apply list_elem_of_singleton in Hb as ->. by vm_compute.
  - by vm_compute.
  - split; [by split; [|split; [|split]]; intros; intros o Ho; vm_compute in Ho|].
    split; [done|]. by right.
Defined.
