(* ===== verification/KubeController.v ===== *)
(** * KubeController: the task that reconciles one service of a resource
    ([kubernetes_provider/src/controller/mod.rs]) *)
From S2P Require Import Prelude BTree KubeModels Effects KubeApi Reconciler ReconcilerSpec.

Inductive Command := CmdReconcile | CmdDeprovision | CmdTerminate.

(** One command: the reconciler after it, [None] when the loop ends.  The status
    is sent on the watch channel, then the sender is answered. *)
Definition handle_command (cmd : Command) (r : ResourceReconciler)
    : K (option ResourceReconciler) :=
  match cmd with
  | CmdReconcile => r ← reconcile r; mret (Some r)
  | CmdDeprovision => r ← remove r; mret (Some r)
  | CmdTerminate => mret None
  end.

(** The worker on the commands it receives before the channel closes; the
    statuses it sends, in order. *)
Fixpoint controller_run (cmds : list Command) (r : ResourceReconciler)
    : K (list ReconcileStatus) :=
  match cmds with
  | [] => mret []
  | cmd :: cmds =>
      next ← handle_command cmd r;
      match next with
      | Some r =>
          statuses ← controller_run cmds r;
          mret (rr_status r :: statuses)
      | None => mret []
      end
  end.

(** The value of the watch channel after some statuses were sent. *)
Definition watched (sent : list ReconcileStatus) : ReconcileStatus :=
  default RsUnknown (list.last sent).

(** ** Removal is final *)

(** A removed reconciler only deletes and reads, and stays removed. *)
Lemma removed_only_deletes r :
  k_removed (rr_kspec r) = true →
  always (reconcile r) (λ t o, Forall no_other_write t ∧
    ∃ r', o = Done r' ∧ k_removed (rr_kspec r') = true).
Proof.
  intros Hr. unfold reconcile. rewrite Hr. unfold deprovision.
  apply under_bind_intro with (R := λ t o, Forall no_other_write t ∧
    ∃ res r', o = Done (res, r') ∧ k_removed (rr_kspec r') = true).
  - apply under_call. intros x _. assert (∀ t, Forall no_other_write t →
      Forall no_other_write (Call (KDelete KDeployment (deployment_name (rr_kspec r))) x :: t)) as Hd.
    { constructor; [right; by eexists | done]. }
    destruct (deleted x) as [[]|e]; [|cbn; split; [by apply Hd | by do 2 eexists]].
    eapply under_bind_intro with (R := λ t o, (∃ s, o = Done s) ∧ Forall no_other_write t).
    + destruct x as [[dep|]|]; try (cbn; by eauto).
      eapply under_mono; [done| |apply update_status_reads]. naive_solver.
    + by intros t w [[? ?] _].
    + intros t s [_ Hw]. eapply under_bind_intro; [apply deprovision_rest_deletes | naive_solver |].
      intros t' res (res' & _ & Hw' & _). cbn. rewrite app_nil_r.
      split; [apply Hd; by apply Forall_app | by do 2 eexists].
  - naive_solver.
  - intros t [res r'] (Hw & res' & r'' & [= <- <-] & Hr'). cbn. rewrite app_nil_r. eauto.
Qed.

(** The command leaves a removed reconciler, when it leaves one. *)
Definition only_deletes (t : list (call kube_call)) (o : outcome (option ResourceReconciler)) : Prop :=
  Forall no_other_write t ∧ ∀ r', o = Done (Some r') → k_removed (rr_kspec r') = true.

Lemma command_removed cmd r :
  cmd = CmdDeprovision ∨ k_removed (rr_kspec r) = true →
  always (handle_command cmd r) only_deletes.
Proof.
  assert (∀ r, k_removed (rr_kspec r) = true → always (r ← reconcile r; mret (Some r)) only_deletes)
    as Hr.
  { intros r' Hr'. eapply under_bind_intro; [by apply removed_only_deletes| |].
    - by intros t w [? (? & ? & ?)].
    - intros t r1 (Hw & r2 & [= <-] & Hr2). cbn. rewrite app_nil_r. split; [done|]. naive_solver. }
  intros H. destruct cmd; cbn [handle_command].
  - apply Hr. by destruct H.
  - by apply Hr.
  - split; [constructor | done].
Qed.

Lemma run_step cmd cmds r :
  cmd = CmdDeprovision ∨ k_removed (rr_kspec r) = true →
  (∀ r', k_removed (rr_kspec r') = true →
     always (controller_run cmds r') (λ t _, Forall no_other_write t)) →
  always (controller_run (cmd :: cmds) r) (λ t _, Forall no_other_write t).
Proof.
  intros Hc Hrest. cbn [controller_run]. eapply under_bind_intro; [by apply command_removed| |].
  - by intros t w [? _].
  - intros t [r'|] [Hw Hn]; [|cbn; by rewrite app_nil_r].
    eapply under_bind_intro; [by apply Hrest, Hn| |].
    + intros t' w Ht'. by apply Forall_app.
    + intros t' l Ht'. cbn. rewrite app_nil_r. by apply Forall_app.
Qed.

(** Once a controller was told to deprovision, no later command makes it
    create or change an object: whatever the API answers, it only reads and
    deletes. *)
Theorem deprovisioned_not_recreated cmds r :
  always (controller_run (CmdDeprovision :: cmds) r) (λ t o, Forall no_other_write t).
Proof.
  apply run_step; [by left|]. induction cmds as [|cmd cmds IH]; intros r' Hr'; [constructor|].
  apply run_step; auto.
Qed.
