(* ===== verification/Sharing.v ===== *)
(** * Sharing: controllers that write some of the same objects

    The services of one resource may have an object in common: the services of
    a reaction share its publish-subscribe component, and the services of a
    resource with an identity its service account.  Their controllers run at the
    same time.  They do not undo one another's work when they agree on what such
    an object is to be; what is not shared is each one's own.  Each controller
    relies on what the others guarantee: that they put only objects it would put
    itself. *)
From S2P Require Import Prelude BTree RustText KubeModels SpecBuilder SpecBuilderSpec Effects KubeApi Reconciler KubeController Interleave Convergence.

(** ** The objects a reconciliation reads and writes *)

(** An object of the cluster. *)
Notation key := (kind * string)%type.

Definition component_name (spec : KubernetesSpec) : list string :=
  match k_pub_sub spec with
  | Some p => match om_name (cm_meta p) with Some name => [name] | None => [] end
  | None => []
  end.

(** What a reconciliation may write: the objects of the specification, and a
    service that has the bare name of one of its services, which it takes for
    its own. *)
Definition owned (spec : KubernetesSpec) : list key :=
  map (pair KConfigMap) (k_config_maps spec).*1 ++ map (pair KPvc) (k_volume_claims spec).*1 ++
  map (pair KComponent) (component_name spec) ++ map (pair KServiceAccount) (account_name spec) ++
  [(KDeployment, deployment_name spec)] ++
  map (pair KService) (k_services spec).*1 ++
  map (λ n, (KService, service_object spec n)) (k_services spec).*1 ++
  map (pair KIngress) (default [] (k_ingresses spec)).*1.

(** The settings of the ingresses are looked up besides. *)
Definition seen (spec : KubernetesSpec) : list key :=
  owned spec ++ match k_ingresses spec with Some _ => [(KConfigMap, "drasi-config"%string)] | None => [] end.

Lemma elem_of_owned spec x :
  x ∈ owned spec ↔
  (∃ n, x = (KConfigMap, n) ∧ n ∈ (k_config_maps spec).*1) ∨
  (∃ n, x = (KPvc, n) ∧ n ∈ (k_volume_claims spec).*1) ∨
  (∃ n, x = (KComponent, n) ∧ n ∈ component_name spec) ∨
  (∃ n, x = (KServiceAccount, n) ∧ n ∈ account_name spec) ∨
  x = (KDeployment, deployment_name spec) ∨
  (∃ n, x = (KService, n) ∧ n ∈ (k_services spec).*1) ∨
  (∃ n, x = (KService, service_object spec n) ∧ n ∈ (k_services spec).*1) ∨
  (∃ n, x = (KIngress, n) ∧ n ∈ (default [] (k_ingresses spec)).*1).
Proof.
  unfold owned. rewrite !elem_of_app, list_elem_of_singleton.
  repeat setoid_rewrite list_elem_of_fmap. done.
Qed.

Section footprint.
Context (spec : KubernetesSpec).

Lemma seen_owned x : x ∈ owned spec → x ∈ seen spec.
Proof. intros. by apply elem_of_app; left. Qed.

(** Reading or writing an object of the specification. *)
Lemma fst_elem {A} name (a : A) (l : btree A) : (name, a) ∈ l → name ∈ l.*1.
Proof. intros H. apply list_elem_of_fmap. by exists (name, a). Qed.

Ltac solve_owned := intros; rewrite elem_of_owned; naive_solver eauto using fst_elem.

Lemma config_map_owned name cm : (name, cm) ∈ k_config_maps spec → (KConfigMap, name) ∈ owned spec.
Proof using Type. solve_owned. Qed.

Lemma claim_owned name pvc : (name, pvc) ∈ k_volume_claims spec → (KPvc, name) ∈ owned spec.
Proof using Type. solve_owned. Qed.

Lemma component_owned p name :
  k_pub_sub spec = Some p → om_name (cm_meta p) = Some name → (KComponent, name) ∈ owned spec.
Proof using Type.
  intros Hp Hn. assert (name ∈ component_name spec); [|solve_owned].
  unfold component_name. rewrite Hp, Hn. by left.
Qed.

Lemma account_owned sa name :
  k_service_account spec = Some sa → om_name (sa_metadata sa) = Some name →
  (KServiceAccount, name) ∈ owned spec.
Proof using Type.
  intros Hp Hn. assert (name ∈ account_name spec); [|solve_owned].
  unfold account_name. rewrite Hp, Hn. by left.
Qed.

Lemma deployment_owned : (KDeployment, deployment_name spec) ∈ owned spec.
Proof using Type. solve_owned. Qed.

Lemma service_owned n :
  n ∈ (k_services spec).*1 →
  (KService, service_object spec n) ∈ owned spec ∧ (KService, n) ∈ owned spec.
Proof using Type. split; solve_owned. Qed.

Lemma ingress_owned l name i :
  k_ingresses spec = Some l → (name, i) ∈ l → (KIngress, name) ∈ owned spec.
Proof using Type.
  intros Hl H%fst_elem. rewrite elem_of_owned, Hl. naive_solver.
Qed.

Lemma config_seen l : k_ingresses spec = Some l → (KConfigMap, "drasi-config"%string) ∈ seen spec.
Proof using Type. intros Hl. unfold seen. rewrite Hl. apply elem_of_app. right. by left. Qed.
End footprint.

(** No controller writes what another one sees. *)
Definition apart (specs : list KubernetesSpec) : Prop :=
  ∀ i j a b, i ≠ j → specs !! i = Some a → specs !! j = Some b →
    ∀ x, x ∈ owned a → x ∉ seen b.

(** ** Agreement *)

(** What two reconcilers want of an object both write. *)
Definition agree_on (r r' : ResourceReconciler) (x : key) : Prop :=
  match x.1 with
  | KComponent => cm_spec <$> k_pub_sub (rr_kspec r) = cm_spec <$> k_pub_sub (rr_kspec r')
  | KServiceAccount => rr_service_account_hash r = rr_service_account_hash r' ∧
      k_service_account (rr_kspec r) = k_service_account (rr_kspec r')
  | _ => False
  end.

(** What one writes and another one sees is wanted by both. *)
Definition compatible (rs : list ResourceReconciler) : Prop :=
  ∀ i j r r', i ≠ j → rs !! i = Some r → rs !! j = Some r' →
    ∀ x, x ∈ owned (rr_kspec r) → x ∈ seen (rr_kspec r') → agree_on r r' x.

Lemma apart_compatible rs : apart (rr_kspec <$> rs) → compatible rs.
Proof.
  intros Hap i j r r' Hne Hi Hj x Hx Hx'. destruct (Hap i j (rr_kspec r) (rr_kspec r') Hne)
    with (x := x); rewrite ?list_lookup_fmap, ?Hi, ?Hj; done.
Qed.

(** The objects a reconciler puts. *)
Definition wanted (r : ResourceReconciler) (k : kind) : obj k → Prop :=
  match k with
  | KComponent => λ o, ∀ p, k_pub_sub (rr_kspec r) = Some p → good_component p o
  | KServiceAccount => λ o, ∀ sa, k_service_account (rr_kspec r) = Some sa → good_account r sa o
  | _ => λ _, True
  end.

(** What a controller guarantees: it leaves the cluster as it is, or puts an
    object of its own. *)
Definition guarantee (r : ResourceReconciler) (c c' : cluster) : Prop :=
  c' = c ∨ ∃ k name o, (k, name) ∈ owned (rr_kspec r) ∧ wanted r k o ∧ c' = put_obj k name o c.

Section sharing.
Context (rs : list ResourceReconciler) (Hcomp : compatible rs).

Definition guaranteed (i : nat) (c c' : cluster) : Prop :=
  ∃ r, rs !! i = Some r ∧ guarantee r c c'.

(** What a controller relies on: whatever the others guarantee. *)
Definition relied (i : nat) : relation cluster := rtc (λ c c', ∃ j, i ≠ j ∧ guaranteed j c c').

Lemma relied_inv i (P : cluster → Prop) c c' :
  (∀ j r c, i ≠ j → rs !! j = Some r → P c → ∀ k name o, (k, name) ∈ owned (rr_kspec r) →
     wanted r k o → P (put_obj k name o c)) →
  relied i c c' → P c → P c'.
Proof using Type.
  intros HP. induction 1 as [|c1 c2 c3 (j & Hne & r & Hr & [->|(k & name & o & Hk & Hw & ->)]) _ IH]; eauto.
Qed.

Section one.
Context (i : nat) (r : ResourceReconciler) (Hi : rs !! i = Some r).

Lemma unshared_alone k name :
  (k, name) ∈ seen (rr_kspec r) → k ≠ KComponent → k ≠ KServiceAccount → alone (relied i) k name.
Proof using All.
  intros Hs H1 H2 c c' Hr. apply (relied_inv i (λ c', find c' k name = find c k name) c c'); [|done..].
  intros j r' c1 Hne Hj Hf k' name' o Ho _. rewrite find_put; [done|]. intros [= -> ->].
  pose proof (Hcomp j i r' r (not_eq_sym Hne) Hj Hi (k, name) Ho Hs) as Ha. by destruct k.
Qed.

Lemma unshared_mine k name :
  (k, name) ∈ owned (rr_kspec r) → k ≠ KComponent → k ≠ KServiceAccount →
  mine (relied i) (guaranteed i) k name.
Proof using All.
  intros Ho H1 H2. split; [apply unshared_alone; [by apply seen_owned|done..]|].
  intros c o _. exists r. split; [done|]. right. exists k, name, o. split; [done|]. split; [by destruct k | done].
Qed.

Lemma shared_improved k name good :
  (k, name) ∈ seen (rr_kspec r) →
  (∀ j r', j ≠ i → rs !! j = Some r' → (k, name) ∈ owned (rr_kspec r') → agree_on r' r (k, name) →
     ∀ o, wanted r' k o → good o) →
  improved (relied i) k name good.
Proof using All.
  intros Hs Hgood c c' Hr.
  apply (relied_inv i (λ c', find c' k name = find c k name ∨ holds k name good c') c c'); [|done|by left].
  intros j r' c1 Hne Hj Hc k' name' o Ho Hw. destruct (decide ((k', name') = (k, name))) as [[= -> ->]|Hk].
  - right. apply holds_put. apply (Hgood j r'); auto. by apply (Hcomp j i).
  - destruct Hc as [Hf|(o' & Hf & Hg)]; [left|right; exists o'; split; [|done]]; by rewrite find_put.
Qed.

Lemma put_guaranteed k name (good : obj k → Prop) :
  (k, name) ∈ owned (rr_kspec r) → (∀ o, good o → wanted r k o) → may_put (guaranteed i) k name good.
Proof using Hi.
  intros Ho Hw c o Hg. exists r. split; [done|]. right. exists k, name, o. auto.
Qed.

(** Compatible reconcilers do not disturb one another. *)
Lemma compatible_undisturbed : undisturbed (relied i) (guaranteed i) r.
Proof using All.
  constructor.
  - intros name cm Hin. apply unshared_mine; [by eapply config_map_owned|done..].
  - intros name pvc Hin. apply unshared_mine; [by eapply claim_owned|done..].
  - intros p name Hp Hn. pose proof (component_owned _ p name Hp Hn) as Ho. split.
    + apply (shared_improved KComponent); [by apply seen_owned|].
      intros j r' Hne Hj Ho' Ha o Hw. unfold agree_on in Ha. cbn in Ha. rewrite Hp in Ha.
      destruct (k_pub_sub (rr_kspec r')) as [p'|] eqn:Hp'; [|done]. injection Ha as Ha.
      unfold good_component. rewrite <-Ha. by apply Hw.
    + apply (put_guaranteed KComponent); [done|]. intros o Hg p' Hp'. by rewrite Hp in Hp'; injection Hp' as <-.
  - intros sa name Hp Hn. pose proof (account_owned _ sa name Hp Hn) as Ho. split.
    + apply (shared_improved KServiceAccount); [by apply seen_owned|].
      intros j r' Hne Hj Ho' [Ha Hsa] o Hw. unfold good_account. rewrite <-Ha. apply Hw. by rewrite Hsa.
    + apply (put_guaranteed KServiceAccount); [done|]. intros o Hg sa' Hsa'.
      by rewrite Hp in Hsa'; injection Hsa' as <-.
  - apply unshared_mine; [apply deployment_owned|done..].
  - intros n Hn. destruct (service_owned _ n Hn) as [Ho Hc].
    split; [by apply unshared_alone; [apply seen_owned|..] | by apply unshared_mine].
  - intros l name i0 Hl Hin. apply unshared_mine; [by eapply ingress_owned|done..].
  - intros l Hl. split; [apply unshared_alone; [by eapply config_seen|done..]|].
    intros c c' Hr. apply (relied_inv i (λ c', cl_other_services c' = cl_other_services c) c c'); done.
Qed.

Lemma undisturbed_status s : undisturbed (relied i) (guaranteed i) (set_status s r).
Proof using All. destruct compatible_undisturbed. by constructor. Qed.
End one.

(** ** The controllers at the same time *)

(** What a controller needs to make its specification's objects. *)
Definition ready (c : cluster) (r : ResourceReconciler) : Prop :=
  well_named (rr_kspec r) ∧ services_apart (rr_kspec r) ∧ k_removed (rr_kspec r) = false ∧
  managed r c.

Section controllers.
Context (as_stored : ∀ k, obj k → obj k).
Context (merge : ∀ k, obj k → obj k → obj k).
Context (laws : server_laws as_stored merge).
Notation step := (cluster_step as_stored merge).

#[local] Instance relied_preorder i : PreOrder (relied i).
Proof. unfold relied. apply _. Qed.

Lemma guaranteed_refl i r c : rs !! i = Some r → guaranteed i c c.
Proof using Type. intros Hi. exists r. split; [done | by left]. Qed.

Section one_controller.
Context (i : nat) (r : ResourceReconciler) (Hi : rs !! i = Some r).
Notation rg := (rg step (relied i) (guaranteed i)).
Notation run n s := (controller_run (replicate n CmdReconcile) (set_status s r)).

Lemma rg_command n s c N :
  well_named (rr_kspec r) → services_apart (rr_kspec r) → k_removed (rr_kspec r) = false →
  managed r c →
  (∀ s' c', in_sync r c' → managed r c' → rg N (run n s') c' (λ _, in_sync r)) →
  rg (cost r + N) (run (S n) s) c (λ _, in_sync r).
Proof using All.
  intros Hwn Hne Hrm Hm Hmore. cbn [replicate controller_run handle_command].
  change (cost r) with (cost (set_status s r)).
  rewrite <-(Nat.add_0_r (cost _)) at 1. apply rg_bind, rg_bind. eapply rg_mono; [done| |
    apply (rg_reconcile as_stored merge laws (relied i) (guaranteed i)
      (λ c, guaranteed_refl i r c Hi) (set_status s r) Hwn (undisturbed_status i r Hi s) c Hne Hrm Hm)].
  intros r' c' ([s' ->] & Hin & Hm' & _). apply rg_ret. rewrite <-(Nat.add_0_r N). apply rg_bind.
  eapply rg_mono; [done| |by apply (Hmore s')]. intros sts c'' Hin'. by apply rg_ret.
Qed.

Lemma rg_controller m s c :
  ready c r → rg (S m * cost r) (run (S m) s) c (λ _, in_sync r).
Proof using All.
  intros (Hwn & Hne & Hrm & Hm).
  assert (∀ n s c, in_sync r c → managed r c → rg (n * cost r) (run n s) c (λ _, in_sync r)) as Hmore.
  { induction n as [|n IH]; intros s' c' Hin Hm'; [by apply rg_ret|].
    apply rg_command; auto. }
  apply rg_command; auto.
Qed.
End one_controller.

(** Told to reconcile, all of them end with every object of every specification
    as desired. *)
Lemma controllers_share m c :
  Forall (ready c) rs →
  all_end step (map (controller_run (replicate (S m) CmdReconcile)) rs) c
    (λ c', Forall (λ r, in_sync r c') rs).
Proof using All.
  intros Hready. apply (guaranteed_all_end step relied guaranteed
    (λ i _ c', ∀ r, rs !! i = Some r → in_sync r c')).
  - apply relied_preorder.
  - intros i j c1 c2 Hne Hg. apply rtc_once. by exists j.
  - intros i _ c1 c2 Hr Hin r Hi.
    exact (in_sync_rely _ _ r (compatible_undisturbed i r Hi) c1 c2 Hr (Hin r Hi)).
  - intros i p Hp. rewrite list_lookup_fmap in Hp. destruct (rs !! i) as [r|] eqn:Hi; [|done].
    injection Hp as <-. pose proof (Forall_lookup_1 _ _ _ _ Hready Hi) as Hr.
    apply (rg_controller i r Hi m (rr_status r)) in Hr.
    replace (set_status (rr_status r) r) with r in Hr by (by destruct r).
    eexists. eapply rg_mono; [done| |exact Hr]. by intros a c' Hin r' [= <-].
  - intros c' Hpost. apply Forall_lookup. intros i r Hi.
    destruct (Hpost i) as [_ Hin]; [rewrite length_map; by eapply lookup_lt_Some | by apply Hin].
Qed.
End controllers.
End sharing.
