(* ===== verification/Removal.v ===== *)
(** * Removal: deprovisioning on a working cluster

    On a cluster whose API answers, a removed specification's objects are gone
    when its controller has ended, also when other controllers delete objects at
    the same time: it relies on nothing being done but deleting what is to be
    removed, and guarantees it.  Everything else is as it was. *)
From S2P Require Import Prelude BTree RustText KubeModels Effects KubeApi Reconciler ReconcilerSpec KubeController Interleave.

Section removal.
Context (as_stored : ∀ k, obj k → obj k).
Context (merge : ∀ k, obj k → obj k → obj k).
Notation step := (cluster_step as_stored merge).

(** None of the objects is there. *)
Definition absent (l : list (kind * string)) (c : cluster) : Prop := ∀ k name, (k, name) ∈ l → find c k name = None.

(** Nothing happens but that some of the objects go. *)
Definition takes (targets : list (kind * string)) (c c' : cluster) : Prop :=
  ∀ k name, find c' k name = find c k name ∨ ((k, name) ∈ targets ∧ find c' k name = None).

#[export] Instance takes_preorder targets : PreOrder (takes targets).
Proof.
  split; [by left|]. intros c1 c2 c3 H H' k name.
  destruct (H' k name) as [->|]; [by apply H | by right].
Qed.

Lemma takes_absent targets l c c' : takes targets c c' → absent l c → absent l c'.
Proof. intros H Ha k name Hin. destruct (H k name) as [->|[_ ?]]; [by apply Ha | done]. Qed.

Lemma absent_app l l' c : absent l c → absent l' c → absent (l ++ l') c.
Proof. intros H H' k name [Hin|Hin]%elem_of_app; [by apply H | by apply H']. Qed.

Lemma find_drop k name k' name' c :
  find (drop_obj k name c) k' name' =
    if decide ((k, name) = (k', name')) then None else find c k' name'.
Proof.
  unfold find, drop_obj. case_decide as Hd.
  - injection Hd as -> ->. rewrite lookup_update_kind_eq. apply lookup_delete_eq.
  - destruct (decide (k = k')) as [<-|Hk].
    + rewrite lookup_update_kind_eq. apply lookup_delete_ne. congruence.
    + by rewrite lookup_update_kind_ne.
Qed.

(** One deletion: it is answered, with a status only, and the object is gone. *)
Lemma delete_step k name c :
  let '(x, c') := step _ (KDelete k name) c in
  deleted x = Ok () ∧ (∀ o, x ≠ Ok (Some o)) ∧ absent [(k, name)] c' ∧ takes [(k, name)] c c'.
Proof.
  cbn. destruct (find c k name) as [o|] eqn:E; (split; [done|]); (split; [done|]).
  - split.
    + intros k' name' [= -> ->]%list_elem_of_singleton. rewrite find_drop. by case_decide.
    + intros k' name'. rewrite find_drop. case_decide as Hd; [|by left].
      right. split; [by rewrite <-Hd; left | done].
  - split; [|reflexivity]. by intros k' name' [= -> ->]%list_elem_of_singleton.
Qed.

Section targets.
Context (targets : list (kind * string)).
Notation rg := (rg step (takes targets) (takes targets)).

Definition cleared (l : list (kind * string)) (res : result unit kube_error) (c : cluster) : Prop :=
  res = Ok () ∧ absent l c.

(** The program ends with the objects gone, after some number of calls. *)
Definition clears (p : K (result unit kube_error)) (l : list (kind * string)) : Prop :=
  l ⊆ targets → ∃ n, ∀ c, rg n p c (cleared l).

Lemma clears_nothing : clears (mret (Ok ())) [].
Proof using Type. intros _. exists 0. intros c. apply rg_ret. split; [done|]. by intros ?? ?%elem_of_nil. Qed.

(** One deletion, whose answer is looked at. *)
Lemma rg_delete {A} k name n (f : _ → K A) Q c :
  (k, name) ∈ targets →
  (∀ x c', deleted x = Ok () → (∀ o, x ≠ Ok (Some o)) → absent [(k, name)] c' → rg n (f x) c' Q) →
  rg (S n) (trigger (KDelete k name) ≫= f) c Q.
Proof using Type.
  intros Hin H. apply rg_call. intros c1 _. pose proof (delete_step k name c1) as Hd.
  destruct (step _ (KDelete k name) c1) as [x c2]. destruct Hd as (Hx & Hno & Ha & Hs).
  cbn [fst snd]. split; [|auto]. intros k' name'. destruct (Hs k' name') as [->|[Heq%list_elem_of_singleton Hn]]; [by left|].
  right. by rewrite Heq.
Qed.

(** What is gone stays away while the program goes on. *)
Lemma rg_absent {A} l n (p : K A) c (Q : A → cluster → Prop) :
  absent l c → rg n p c Q → rg n p c (λ a c', absent l c' ∧ Q a c').
Proof using Type.
  revert n c. induction p as [a|w|X e k IH]; intros n c Hl Hp.
  - apply rg_ret. destruct n; by split.
  - by destruct n.
  - destruct n as [|n]; [done|]. intros c' Hc'. destruct (Hp c' Hc') as [Hg Hk]. split; [done|].
    apply IH; [|done]. by eapply takes_absent, takes_absent.
Qed.

(** All in all nothing happens but that some of the targets go. *)
Lemma rg_takes {A} n (p : K A) c0 c (Q : A → cluster → Prop) :
  takes targets c0 c → rg n p c Q → rg n p c (λ a c', takes targets c0 c' ∧ Q a c').
Proof using Type.
  revert n c. induction p as [a|w|X e k IH]; intros n c Hl Hp.
  - apply rg_ret. destruct n; by split.
  - by destruct n.
  - destruct n as [|n]; [done|]. intros c' Hc'. destruct (Hp c' Hc') as [Hg Hk]. split; [done|].
    apply IH; [|done]. etrans; [exact Hl | etrans; [exact Hc' | exact Hg]].
Qed.

Lemma clears_then p q l l' : clears p l → clears q l' → clears (and_then p q) (l ++ l').
Proof using Type.
  intros Hp Hq Hsub. destruct Hp as [n Hp]; [set_solver|]. destruct Hq as [m Hq]; [set_solver|].
  exists (n + m). intros c. apply rg_bind.
  eapply rg_mono; [done| |apply Hp]. intros res c1 [-> Ha].
  eapply rg_mono; [done| |by apply rg_absent, Hq]. intros res c2 (Ha' & -> & Hb).
  split; [done|]. by apply absent_app.
Qed.

Lemma clears_delete_all k names : clears (delete_all k names) (map (pair k) names).
Proof using Type.
  induction names as [|name names IH]; [apply clears_nothing|]. intros Hsub.
  destruct IH as [n IH]; [intros x Hx; apply Hsub; by right|].
  exists (S n). intros c. cbn [delete_all]. apply rg_delete; [apply Hsub; by left|]. intros x c' -> _ Ha.
  eapply rg_mono; [done| |by apply rg_absent, IH]. intros res c2 (Ha' & -> & Hb).
  split; [done|]. by apply (absent_app [(k, name)]).
Qed.

Lemma clears_rest spec : clears (deprovision_rest spec) (tail (deprovision_targets spec)).
Proof using Type.
  unfold deprovision_rest. cbn [tail deprovision_targets].
  repeat (apply clears_then; [try apply clears_delete_all|]); [|apply clears_delete_all].
  destruct (k_ingresses spec); [apply clears_delete_all | apply clears_nothing].
Qed.

(** The specification's objects that a removal deletes are gone. *)
Definition gone (r : ResourceReconciler) : cluster → Prop := absent (deprovision_targets (rr_kspec r)).

Lemma rg_deprovision r :
  deprovision_targets (rr_kspec r) ⊆ targets →
  ∃ n, ∀ c, rg n (deprovision r) c (λ a c', a = (Ok (), r) ∧ gone r c').
Proof using Type.
  intros Hsub. destruct (clears_rest (rr_kspec r)) as [n Hn]; [intros x Hx; apply Hsub; by right|].
  exists (S (0 + (n + 0))). intros c. unfold deprovision. apply rg_delete; [apply Hsub; by left|].
  intros x c1 Hx Hno Ha. change (@deleted (option Deployment) x = Ok ()) in Hx.
  rewrite Hx. destruct x as [[dep|]|]; [by destruct (Hno dep) | |];
    (apply rg_bind, rg_ret, rg_bind; eapply rg_mono; [done| |by apply rg_absent, Hn]);
    (intros res c2 (Ha' & -> & Hb); apply rg_ret; split; [by destruct r|]);
    by apply (absent_app [_]).
Qed.

Lemma rg_told_once cmd r r' :
  handle_command cmd r = (r ← reconcile r'; mret (Some r)) → k_removed (rr_kspec r') = true →
  deprovision_targets (rr_kspec r') ⊆ targets →
  ∃ n, ∀ c, rg n (controller_run [cmd] r) c (λ _, gone r').
Proof using Type.
  intros Hcmd Hr' Hsub. destruct (rg_deprovision r' Hsub) as [n Hn]. exists (n + 0 + 0 + 0). intros c.
  cbn [controller_run]. rewrite Hcmd. unfold reconcile. rewrite Hr'.
  do 3 apply rg_bind. eapply rg_mono; [done| |apply Hn]. intros a c' (-> & Hgone).
  do 2 apply rg_ret. by apply rg_ret.
Qed.

(** A controller that is told to deprovision, or that was started with a removed
    specification and is told to reconcile. *)
Lemma rg_removal cmd r :
  cmd = CmdDeprovision ∨ (cmd = CmdReconcile ∧ k_removed (rr_kspec r) = true) →
  deprovision_targets (rr_kspec r) ⊆ targets →
  ∃ n, ∀ c, rg n (controller_run [cmd] r) c (λ _, gone r).
Proof using Type.
  intros [->|[-> Hr]]; [by apply (rg_told_once _ r (set_removed r)) | by apply (rg_told_once _ r r)].
Qed.
End targets.

(** What the removal of all of them deletes. *)
Definition all_targets (specs : list KubernetesSpec) : list (kind * string) :=
  specs ≫= deprovision_targets.

Lemma elem_of_all_targets specs x :
  x ∈ all_targets specs ↔ ∃ spec, spec ∈ specs ∧ x ∈ deprovision_targets spec.
Proof. unfold all_targets. rewrite list_elem_of_bind. naive_solver. Qed.

(** The controllers at the same time: the targets are gone, and everything else
    is as it was. *)
Lemma controllers_removed rs cmd c :
  (cmd = CmdDeprovision ∨ (cmd = CmdReconcile ∧ Forall (λ r, k_removed (rr_kspec r) = true) rs)) →
  all_end step (map (controller_run [cmd]) rs) c
    (λ c', Forall (λ r, gone r c') rs ∧ takes (all_targets (rr_kspec <$> rs)) c c').
Proof.
  intros Hcmd. destruct (decide (rs = [])) as [->|Hrs]; [by apply all_end_nil|]. set (T := all_targets (rr_kspec <$> rs)).
  apply (guaranteed_all_end step (λ _, takes T) (λ _, takes T)
    (λ i _ c', takes T c c' ∧ ∀ r, rs !! i = Some r → gone r c')); [apply _ | done | | |].
  - intros i _ c1 c2 Hs [Ht Hg]. split; [by etrans|]. intros r Hi.
    eapply takes_absent; [exact Hs | by apply Hg].
  - intros i p Hp. rewrite list_lookup_fmap in Hp. destruct (rs !! i) as [r|] eqn:Hi; [|done].
    injection Hp as <-. destruct (rg_removal T cmd r) as [n Hn].
    { destruct Hcmd as [->|[-> Hrm]]; [by left|right]. split; [done|]. exact (Forall_lookup_1 _ _ _ _ Hrm Hi). }
    { intros x Hx. apply elem_of_all_targets. exists (rr_kspec r). split; [|done].
      by eapply list_elem_of_fmap_2, list_elem_of_lookup_2. }
    exists n. eapply rg_mono; [done| |apply rg_takes, Hn; reflexivity].
    intros a c' [Ht Hg]. split; [done|]. by intros r' [= <-].
  - intros c' Hpost. split.
    + apply Forall_lookup. intros i r Hi.
      destruct (Hpost i) as (_ & _ & Hg); [rewrite length_map; by eapply lookup_lt_Some | by apply Hg].
    + destruct (Hpost 0) as (_ & Ht & _); [|done]. destruct rs; [done|]. cbn. lia.
Qed.
End removal.
