(* ===== verification/ResourceActor.v ===== *)
(** * ResourceActor: the actor of a source, a reaction or a query container
    ([kubernetes_provider/src/actors])

    The actor keeps one controller per service; the controllers run as tasks of
    their own and are reached by calls, as are the state store and the
    Kubernetes API. *)
From S2P Require Import Prelude BTree RustText MgmtModels Mappings KubeModels SpecBuilder Effects Dapr KubeApi Reconciler KubeController.

(** A started controller, by the number of its start. *)
Definition controller := nat.

(** Starting a controller panics when the reconciler cannot be made: [None]. *)
Inductive resource_call : Type → Type :=
| RaGetState (key : string) : resource_call (result string string)
| RaTransaction (ops : list state_op) : resource_call (result unit string)
| RaUuid : resource_call string
| RaStart (spec : KubernetesSpec) : resource_call (option controller)
| RaSend (c : controller) (cmd : Command) : resource_call unit
| RaAwait (c : controller) : resource_call unit
| RaStatus (c : controller) : resource_call ReconcileStatus
| RaClient : resource_call (result unit string)
| RaListIngresses (label_selector : string) : resource_call (result (list Ingress) kube_error).

Notation R := (prog resource_call).

(** The interface a resource type gives its specification builder; [None] when
    the conversion panics. *)
Class SpecBuilder (TSpec : Type) :=
  build_specs : ResourceRequest TSpec → RuntimeConfig → string → option (list KubernetesSpec).

Record ResourceActor := mkResourceActor {
  ra_actor_type : string;
  ra_id : string;
  ra_resource_type : string;
  ra_runtime_config : RuntimeConfig;
  ra_controllers : btree controller;
}.

Definition resource_actor_new (resource_type : ResourceType) (actor_type id : string)
    (rc : RuntimeConfig) : ResourceActor :=
  mkResourceActor actor_type id (resource_type_to_string resource_type) rc [].

Definition set_controllers (cs : btree controller) (a : ResourceActor) : ResourceActor :=
  mkResourceActor (ra_actor_type a) (ra_id a) (ra_resource_type a) (ra_runtime_config a) cs.

(** The answer of an actor's method. *)
Inductive reply := ReplyOk | ReplyError (e : ActorError).

Section actor.
Context {TSpec : Type} `{SpecBuilder TSpec}.
(** [serde_json] on the stored specifications. *)
Context (specs_to_vec : list KubernetesSpec → string).
Context (specs_from_slice : string → result (list KubernetesSpec) string).

(** ** The stored state *)

Definition specs_key (a : ResourceActor) : string := ra_resource_type a +:+ "-platform-specs".
Definition instance_key (a : ResourceActor) : string := ra_resource_type a +:+ "-instance-id".

Definition transaction (ops : list state_op) : R (result unit ActorError) :=
  r ← trigger (RaTransaction ops);
  match r with Ok _ => mret (Ok ()) | Err e => mret (Err (MethodError e)) end.

Definition write_specs (a : ResourceActor) (specs : list KubernetesSpec)
    : R (result unit ActorError) :=
  transaction [Upsert (specs_key a) (specs_to_vec specs)].

Definition read_specs (a : ResourceActor) : R (result (list KubernetesSpec) ActorError) :=
  r ← trigger (RaGetState (specs_key a));
  match r with
  | Ok data =>
      if str_eqb data "" then mret (Ok [])
      else match specs_from_slice data with
           | Ok specs => mret (Ok specs)
           | Err e => mret (Err (MethodError e))
           end
  | Err e => mret (Err (MethodError e))
  end.

Definition read_instance_id (a : ResourceActor) : R (result (option string) ActorError) :=
  r ← trigger (RaGetState (instance_key a));
  match r with
  | Ok data =>
      if str_eqb data "" then mret (Ok None)
      else match from_utf8 data with
           | Some instance_id => mret (Ok (Some instance_id))
           | None => mret (Err (MethodError "invalid utf-8"))
           end
  | Err e => mret (Err (MethodError e))
  end.

Definition write_instance_id (a : ResourceActor) (instance_id : string)
    : R (result unit ActorError) := transaction [Upsert (instance_key a) instance_id].

Definition delete_instance_id (a : ResourceActor) : R (result unit ActorError) :=
  transaction [DeleteKey (instance_key a)].

(** ** The controllers *)

(** The controllers of the specifications, in order; a later one with the same
    service name takes the place of an earlier one. *)
Fixpoint start_controllers (specs : list KubernetesSpec) (cs : btree controller)
    : R (btree controller) :=
  match specs with
  | [] => mret cs
  | spec :: specs =>
      c ← trigger (RaStart spec);
      match c with
      | Some c => start_controllers specs (jset (k_service_name spec) c cs)
      | None => Panic "ResourceReconciler::new"
      end
  end.

(** The old controllers are dropped: their channels close, and they end after
    the commands that were sent. *)
Definition load_controllers (specs : list KubernetesSpec) (a : ResourceActor) : R ResourceActor :=
  cs ← start_controllers specs [];
  mret (set_controllers cs a).

Fixpoint send_all (cmd : Command) (cs : btree controller) : R unit :=
  match cs with
  | [] => mret ()
  | (_, c) :: cs => _ ← trigger (RaSend c cmd); send_all cmd cs
  end.

Fixpoint await_all (cs : btree controller) : R unit :=
  match cs with
  | [] => mret ()
  | (_, c) :: cs => _ ← trigger (RaAwait c); await_all cs
  end.

(** The answers are not waited for. *)
Definition reconcile_internal (a : ResourceActor) : R unit :=
  send_all CmdReconcile (ra_controllers a).

Definition reconcile_internal_async (a : ResourceActor) : R unit :=
  _ ← send_all CmdReconcile (ra_controllers a);
  await_all (ra_controllers a).

(** ** The methods *)

(** The stored instance id; a new one when none can be read. *)
Definition obtain_instance_id (a : ResourceActor) : R (result string ActorError) :=
  r ← read_instance_id a;
  match r with
  | Ok (Some instance_id) => mret (Ok instance_id)
  | Ok None | Err _ =>
      instance_id ← trigger RaUuid;
      w ← write_instance_id a instance_id;
      match w with
      | Ok _ => mret (Ok instance_id)
      | Err e => mret (Err e)
      end
  end.

Definition configure (spec : ResourceRequest TSpec) (a : ResourceActor)
    : R (reply * ResourceActor) :=
  id ← obtain_instance_id a;
  match id with
  | Err e => mret (ReplyError e, a)
  | Ok instance_id =>
      match build_specs spec (ra_runtime_config a) instance_id with
      | None => Panic "SpecBuilder::build"
      | Some platform_specs =>
          w ← write_specs a platform_specs;
          match w with
          | Err e => mret (ReplyError e, a)
          | Ok _ =>
              a ← load_controllers platform_specs a;
              _ ← reconcile_internal a;
              mret (ReplyOk, a)
          end
      end
  end.

Definition actor_reconcile (a : ResourceActor) : R reply :=
  _ ← reconcile_internal a;
  mret ReplyOk.

Definition actor_deprovision (a : ResourceActor) : R reply :=
  r ← read_specs a;
  match r with
  | Err e => mret (ReplyError e)
  | Ok specs =>
      w ← write_specs a (map mark_removed specs);
      match w with
      | Err e => mret (ReplyError e)
      | Ok _ =>
          _ ← send_all CmdDeprovision (ra_controllers a);
          _ ← delete_instance_id a;
          mret ReplyOk
      end
  end.

Definition on_activate (a : ResourceActor) : R (result unit ActorError * ResourceActor) :=
  r ← read_specs a;
  match r with
  | Err e => mret (Err e, a)
  | Ok specs =>
      a ← load_controllers specs a;
      _ ← reconcile_internal_async a;
      mret (Ok (), a)
  end.

(** ** The status *)

Record actor_status := mkActorStatus {
  st_available : bool;
  st_messages : btree string;
  st_ingress_url : option string;
}.

(** [all]: stops at the first that is not online. *)
Fixpoint all_online (cs : btree controller) : R bool :=
  match cs with
  | [] => mret true
  | (_, c) :: cs =>
      s ← trigger (RaStatus c);
      if decide (s = RsOnline) then all_online cs else mret false
  end.

Fixpoint status_messages (cs : btree controller) (messages : btree string) : R (btree string) :=
  match cs with
  | [] => mret messages
  | (name, c) :: cs =>
      s ← trigger (RaStatus c);
      match s with
      | RsUnknown => status_messages cs (jset name "Unknown"%string messages)
      | RsOffline msg => status_messages cs (jset name msg messages)
      | RsOnline => status_messages cs messages
      end
  end.

(** The address of the first ingress of a rule without a host. *)
Definition ingress_address (ingress : Ingress) : option string :=
  match ing_status ingress with
  | Some (Some (Some (i :: _))) =>
      match lb_ip i with
      | Some ip => Some ("http://" +:+ ip)
      | None => match lb_hostname i with Some hostname => Some ("http://" +:+ hostname) | None => None end
      end
  | _ => None
  end.

Definition ingress_url_of (items : list Ingress) : option string :=
  match items with
  | [] => None
  | ingress :: _ =>
      spec ← ing_spec ingress;
      rules ← is_rules spec;
      match rules with
      | [] => None
      | rule :: _ =>
          match ir_host rule with
          | Some host =>
              if negb (str_eqb host "") && negb (str_eqb host "*") then Some ("http://" +:+ host)
              else if str_eqb host "*" then ingress_address ingress
              else None
          | None => ingress_address ingress
          end
      end
  end.

(** [SourceActor] and [ReactionActor]. *)
Definition get_ingress_url (a : ResourceActor) : R (option string) :=
  client ← trigger RaClient;
  match client with
  | Err _ => mret None
  | Ok _ =>
      items ← trigger (RaListIngresses ("drasi/resource=" +:+ ra_id a));
      match items with
      | Ok items => mret (ingress_url_of items)
      | Err _ => mret None
      end
  end.

(** [with_ingress] is false for [QueryContainerActor]. *)
Definition get_status (with_ingress : bool) (a : ResourceActor) : R actor_status :=
  available ← all_online (ra_controllers a);
  messages ← status_messages (ra_controllers a) [];
  ingress_url ← (if with_ingress then get_ingress_url a else mret None);
  mret (mkActorStatus available messages ingress_url).
End actor.

(** ** The three resource types *)

Section instances.
Context (hash_iter : ∀ A, gmap string A → list (string * A)).
Context (spooky : list string → Z) (reaction_to_vec : ApiReactionSpec → string).

Definition source_builder : SpecBuilder ApiSourceSpec :=
  λ spec rc instance_id, source_build hash_iter rc spec instance_id.
Definition reaction_builder : SpecBuilder ApiReactionSpec :=
  λ spec rc instance_id, reaction_build hash_iter rc spooky reaction_to_vec spec instance_id.
Definition container_builder : SpecBuilder ApiQueryContainerSpec :=
  λ spec rc instance_id, container_build hash_iter rc spec instance_id.
End instances.
