(* ===== verification/ResourceActorSpec.v ===== *)
(** * ResourceActorSpec: what a resource's actor keeps and starts *)
From S2P Require Import Prelude BTree RustText MgmtModels Mappings KubeModels SpecBuilder SpecBuilderSpec Effects Dapr KubeApi Reconciler KubeController ResourceActor.

(** A specification builder whose deployments have selector labels, so that
    every controller can be started. *)
Class BuilderLaws (TSpec : Type) `{SpecBuilder TSpec} :=
  build_labelled : ∀ spec rc iid specs, build_specs spec rc iid = Some specs →
    Forall (λ k, is_Some (ds_match_labels (k_deployment k))) specs.

Lemma well_formed_labelled specs :
  Forall well_formed specs → Forall (λ k, is_Some (ds_match_labels (k_deployment k))) specs.
Proof.
  apply Forall_impl. intros k (_ & Hf & _). destruct (ft_deployment _ Hf) as (m & _ & Hm & _).
  by exists m.
Qed.

Section instances.
Context (hash_iter : ∀ A, gmap string A → list (string * A)).
Context (spooky : list string → Z) (reaction_to_vec : ApiReactionSpec → string).

Definition source_builder_laws :
  @BuilderLaws _ (source_builder hash_iter).
Proof. intros spec rc iid specs H. eapply well_formed_labelled, source_build_well_formed, H. Qed.
Definition reaction_builder_laws :
  @BuilderLaws _ (reaction_builder hash_iter spooky reaction_to_vec).
Proof. intros spec rc iid specs H. eapply well_formed_labelled, reaction_build_well_formed, H. Qed.
Definition container_builder_laws :
  @BuilderLaws _ (container_builder hash_iter).
Proof. intros spec rc iid specs H. eapply well_formed_labelled, container_build_well_formed, H. Qed.
End instances.

(** ** Configuring: what was saved before anything is started *)

Definition started_spec (c : call resource_call) : option KubernetesSpec :=
  match c with Call (RaStart spec) _ => Some spec | _ => None end.
Definition started (t : list (call resource_call)) : list KubernetesSpec := omap started_spec t.

Definition sent_command (c : call resource_call) : option (controller * Command) :=
  match c with Call (RaSend c cmd) _ => Some (c, cmd) | _ => None end.
Definition sent (t : list (call resource_call)) : list (controller * Command) :=
  omap sent_command t.

Section configure.
Context {TSpec : Type} `{SpecBuilder TSpec}.
Context (specs_to_vec : list KubernetesSpec → string).

(** The instance id was read, or a new one was written. *)
Definition known_instance (a : ResourceActor) (t : list (call resource_call)) (iid : string) : Prop :=
  Call (RaGetState (instance_key a)) (Ok iid) ∈ t ∨
  Call (RaTransaction [Upsert (instance_key a) iid]) (Ok ()) ∈ t.

Definition saved (a : ResourceActor) (t : list (call resource_call)) (specs : list KubernetesSpec)
    : Prop := Call (RaTransaction [Upsert (specs_key a) (specs_to_vec specs)]) (Ok ()) ∈ t.

(** Nothing started and no command sent. *)
Definition quiet (t : list (call resource_call)) : Prop := started t = [] ∧ sent t = [].

Lemma quiet_app t t' : quiet t → quiet t' → quiet (t ++ t').
Proof. unfold quiet, started, sent. rewrite !omap_app. intros [-> ->] [-> ->]. done. Qed.

Lemma known_instance_app a t t' iid :
  known_instance a t iid ∨ known_instance a t' iid → known_instance a (t ++ t') iid.
Proof. unfold known_instance. rewrite !elem_of_app. naive_solver. Qed.

Definition instance_outcome (a : ResourceActor) (t : list (call resource_call))
    (o : outcome (result string ActorError)) : Prop :=
  quiet t ∧ ∃ r, o = Done r ∧ ∀ iid, r = Ok iid → known_instance a t iid.

Lemma new_instance_spec a :
  always (instance_id ← trigger RaUuid; w ← write_instance_id a instance_id;
    match w with Ok _ => mret (Ok instance_id) | Err e => mret (Err e) end) (instance_outcome a).
Proof.
  apply under_call. intros iid _. apply under_call. intros [[]|e] _; (split; [done|]);
    eexists; (split; [done|]); intros iid' Heq; [|done].
  injection Heq as <-. right. right. by left.
Qed.

Lemma obtain_instance_spec a : always (obtain_instance_id a) (instance_outcome a).
Proof.
  unfold obtain_instance_id, read_instance_id. apply under_bind_intro with
    (R := λ t o, quiet t ∧ ∃ r, o = Done r ∧ ∀ iid, r = Ok (Some iid) → known_instance a t iid).
  - apply under_call. intros [data|e] _; [|cbn; split; [done|]; by eexists].
    cbn. destruct (str_eqb data ""); [split; [done|]; by eexists|].
    unfold from_utf8. destruct (valid_utf8 data); cbn; (split; [done|]); eexists; (split; [done|]);
      intros iid Heq; [|done].
    injection Heq as <-. left. by left.
  - naive_solver.
  - intros t r (Hq & r' & [= <-] & Hr). destruct r as [[iid|]|e].
    + cbn. rewrite app_nil_r. split; [done|]. eexists. split; [done|].
      intros iid' [= <-]. by apply Hr.
    + eapply (under_mono anything); [done| |apply new_instance_spec].
      intros t' o (Hq' & r & -> & Hk). split; [by apply quiet_app|]. eexists. split; [done|].
      intros iid Hi. apply known_instance_app. right. by apply Hk.
    + eapply (under_mono anything); [done| |apply new_instance_spec].
      intros t' o (Hq' & r & -> & Hk). split; [by apply quiet_app|]. eexists. split; [done|].
      intros iid Hi. apply known_instance_app. right. by apply Hk.
Qed.

(** Starting controllers: those of the specifications in order, unless one
    cannot be made. *)
Lemma start_controllers_spec specs cs :
  always (start_controllers specs cs) (λ t o, sent t = [] ∧ started t `prefix_of` specs ∧
    ∀ cs', o = Done cs' → started t = specs).
Proof.
  revert cs. induction specs as [|spec specs IH]; intros cs; [done|]. cbn [start_controllers].
  apply under_call. intros [c|] _; [|split; [done|]; split; [by apply (prefix_app_r [_] [_]) | done]].
  eapply (under_mono anything); [done| |apply IH]. intros t o (Hs & Hp & Hd). split; [done|].
  split; [by apply prefix_cons|]. intros cs' Ho. cbn. f_equal. by eapply Hd.
Qed.

Lemma send_all_spec cmd cs :
  always (send_all cmd cs) (λ t o, o = Done () ∧ started t = [] ∧
    sent t = map (λ kv, (kv.2, cmd)) cs).
Proof.
  induction cs as [|[name c] cs IH]; [done|]. cbn [send_all]. apply under_call. intros [] _.
  eapply (under_mono anything); [done| |apply IH]. intros t o (-> & Hst & Hse). split; [done|].
  split; [done|]. cbn. f_equal. exact Hse.
Qed.

Lemma load_and_reconcile_spec specs a :
  always (a ← load_controllers specs a; _ ← reconcile_internal a; mret (ReplyOk, a))
    (λ t o, started t `prefix_of` specs ∧ ∀ r a', o = Done (r, a') →
       r = ReplyOk ∧ started t = specs ∧
       sent t = map (λ kv, (kv.2, CmdReconcile)) (ra_controllers a')).
Proof.
  unfold load_controllers, reconcile_internal. apply under_bind_intro with (R := λ t o,
    sent t = [] ∧ started t `prefix_of` specs ∧ ∀ a', o = Done a' → started t = specs).
  - eapply under_bind_intro; [apply start_controllers_spec|naive_solver|].
    intros t cs (Hs & Hp & Hd). cbn. rewrite app_nil_r. eauto.
  - naive_solver.
  - intros t a1 (Hs & Hp & Hd). eapply under_bind_intro; [apply send_all_spec|naive_solver|].
    intros t' u (_ & Hst & Hse). cbn. rewrite app_nil_r. unfold started, sent in *.
    rewrite !omap_app, Hs, Hst, Hse, app_nil_r. split; [done|]. intros r a' [= <- <-].
    split; [done|]. split; [by eapply Hd | done].
Qed.

(** Configuring a resource, whatever the services answer: controllers are
    started only for specifications that were built for the new configuration
    with an instance id that is stored, and that were themselves stored before;
    they are all started exactly when the answer is a success, and each is then
    told to reconcile, while after an error nothing was started. *)
Theorem configure_saves_first spec a :
  always (configure specs_to_vec spec a) (λ t o,
    (quiet t ∨ ∃ t1 t2 iid specs, t = t1 ++ t2 ∧ quiet t1 ∧ known_instance a t1 iid ∧
       build_specs spec (ra_runtime_config a) iid = Some specs ∧ saved a t1 specs ∧
       started t2 `prefix_of` specs ∧
       (∀ a', o = Done (ReplyOk, a') → started t2 = specs ∧
          sent t2 = map (λ kv, (kv.2, CmdReconcile)) (ra_controllers a'))) ∧
    ∀ e a', o = Done (ReplyError e, a') → quiet t ∧ a' = a).
Proof.
  unfold configure. eapply under_bind_intro; [apply obtain_instance_spec|by intros t w (? & ? & ? & ?)|].
  intros t [iid|e] (Hq & r & [= <-] & Hr); [|cbn; rewrite app_nil_r; naive_solver].
  destruct (build_specs _ _ _) as [specs|] eqn:Hb; [|cbn; rewrite app_nil_r; split; [by left | done]].
  unfold write_specs, transaction. apply under_bind. apply under_call. intros [[]|e] _.
  2: { cbn. assert (quiet (t ++ [Call (RaTransaction [Upsert (specs_key a) (specs_to_vec specs)])
         (Err e)])) by (by apply quiet_app). split; [by left|]. naive_solver. }
  cbn [mret prog_ret under]. set (w := Call _ (Ok ())). specialize (Hr iid eq_refl).
  assert (quiet (t ++ [w])) as Hqw by (by apply quiet_app).
  assert (known_instance a (t ++ [w]) iid) as Hk by (apply known_instance_app; by left).
  assert (saved a (t ++ [w]) specs) as Hs by (apply elem_of_app; right; by left).
  eapply (under_mono anything); [done| |apply (load_and_reconcile_spec specs a)].
  intros t' o [Hp Hd].
  assert (t ++ w :: t' = (t ++ [w]) ++ t') as Heq by (by rewrite <-app_assoc).
  cbn [app]. rewrite Heq. split.
  - right. exists (t ++ [w]), t', iid, specs. do 6 (split; [done|]). intros a' Ho.
    by destruct (Hd _ _ Ho) as (_ & ? & ?).
  - intros e a' Ho. by destruct (Hd _ _ Ho).
Qed.
End configure.

(** ** On a working sidecar: what is kept across restarts *)

(** The state store, the identifiers that will be given out, and what was
    started and sent so far. *)
Record provider := mkProvider {
  pv_kv : gmap string string;
  pv_uuids : nat → string;
  pv_next : nat;
  pv_started : list KubernetesSpec;
  pv_sent : list (controller * Command);
}.

Definition provider_step (X : Type) (e : resource_call X) (p : provider) : X * provider :=
  match e in resource_call X return X * provider with
  | RaGetState key => (Ok (stored_value (pv_kv p) key), p)
  | RaTransaction ops =>
      (Ok (), mkProvider (foldl apply_op (pv_kv p) ops) (pv_uuids p) (pv_next p) (pv_started p)
                (pv_sent p))
  | RaUuid =>
      (pv_uuids p (pv_next p),
       mkProvider (pv_kv p) (pv_uuids p) (S (pv_next p)) (pv_started p) (pv_sent p))
  | RaStart spec =>
      match ds_match_labels (k_deployment spec) with
      | Some _ =>
          (Some (length (pv_started p)),
           mkProvider (pv_kv p) (pv_uuids p) (pv_next p) (pv_started p ++ [spec]) (pv_sent p))
      | None => (None, p)
      end
  | RaSend c cmd =>
      ((), mkProvider (pv_kv p) (pv_uuids p) (pv_next p) (pv_started p) (pv_sent p ++ [(c, cmd)]))
  | RaAwait c => ((), p)
  | RaStatus c => (RsUnknown, p)
  | RaClient => (Ok (), p)
  | RaListIngresses _ => (Ok [], p)
  end.

(** What a resource is: its instance, when it has one, and its services. *)
Record resource_state := mkResourceState {
  rs_instance : option string;
  rs_specs : list KubernetesSpec;
}.

Inductive resource_op (TSpec : Type) :=
| OpConfigure (spec : ResourceRequest TSpec)
| OpDeprovision
| OpRestart.
Arguments OpConfigure {TSpec} spec.
Arguments OpDeprovision {TSpec}.
Arguments OpRestart {TSpec}.

Section refinement.
Context {TSpec : Type} `{HB : SpecBuilder TSpec} {laws : BuilderLaws TSpec}.
Context (specs_to_vec : list KubernetesSpec → string).
Context (specs_from_slice : string → result (list KubernetesSpec) string).
Context (rt : ResourceType) (actor_type id : string) (rc : RuntimeConfig).

(** What the operations mean; [fresh] is the next new identifier.  [None] when
    the specification cannot be built. *)
Definition spec_op (op : resource_op TSpec) (fresh : string) (st : resource_state)
    : option resource_state :=
  match op with
  | OpConfigure spec =>
      let instance := default fresh (rs_instance st) in
      specs ← build_specs spec rc instance;
      Some (mkResourceState (Some instance) specs)
  | OpDeprovision => Some (mkResourceState None (map mark_removed (rs_specs st)))
  | OpRestart => Some st
  end.

(** The controllers an operation starts. *)
Definition spec_starts (op : resource_op TSpec) (st' : resource_state) : list KubernetesSpec :=
  match op with OpDeprovision => [] | _ => rs_specs st' end.

(** The operation as the code does it: a restart is a new actor's activation. *)
Definition run_op (op : resource_op TSpec) (a : ResourceActor) : R (bool * ResourceActor) :=
  match op with
  | OpConfigure spec =>
      '(r, a) ← configure specs_to_vec spec a;
      mret (match r with ReplyOk => true | ReplyError _ => false end, a)
  | OpDeprovision =>
      r ← actor_deprovision specs_to_vec specs_from_slice a;
      mret (match r with ReplyOk => true | ReplyError _ => false end, a)
  | OpRestart =>
      '(r, a) ← on_activate specs_from_slice (resource_actor_new rt actor_type id rc);
      mret (is_ok r, a)
  end.

Definition labelled (specs : list KubernetesSpec) : Prop :=
  Forall (λ k, is_Some (ds_match_labels (k_deployment k))) specs.

(** The store holds the resource. *)
Definition represents (kv : gmap string string) (st : resource_state) : Prop :=
  let a := resource_actor_new rt actor_type id rc in
  match rs_instance st with
  | Some i => stored_value kv (instance_key a) = i ∧ i ≠ ""%string ∧ valid_utf8 i = true
  | None => stored_value kv (instance_key a) = ""%string
  end ∧
  ((stored_value kv (specs_key a) = ""%string ∧ rs_specs st = []) ∨
   (stored_value kv (specs_key a) ≠ ""%string ∧
    specs_from_slice (stored_value kv (specs_key a)) = Ok (rs_specs st))) ∧
  labelled (rs_specs st).

(** The actor is one of this resource. *)
Definition actor_of (a : ResourceActor) : Prop :=
  ra_resource_type a = resource_type_to_string rt ∧ ra_runtime_config a = rc.

(** Documented behaviour of [serde_json] on specifications: what is written is
    not empty and is read back. *)
Definition storable (specs : list KubernetesSpec) : Prop :=
  specs_to_vec specs ≠ ""%string ∧ specs_from_slice (specs_to_vec specs) = Ok specs.

Lemma key_ne : instance_key (resource_actor_new rt actor_type id rc) ≠
  specs_key (resource_actor_new rt actor_type id rc).
Proof using Type. by destruct rt. Qed.

Lemma stored_upsert_ne kv k k' v :
  k ≠ k' → stored_value (apply_op kv (Upsert k v)) k' = stored_value kv k'.
Proof using Type. intros. unfold stored_value. cbn. by rewrite lookup_insert_ne. Qed.

Lemma stored_delete kv k : stored_value (apply_op kv (DeleteKey k)) k = ""%string.
Proof using Type. unfold stored_value. cbn. by rewrite lookup_delete_eq. Qed.

Lemma stored_delete_ne kv k k' :
  k ≠ k' → stored_value (apply_op kv (DeleteKey k)) k' = stored_value kv k'.
Proof using Type. intros. unfold stored_value. cbn. by rewrite lookup_delete_ne. Qed.

(** *** The helpers on a working sidecar *)

Notation rrun := (run provider_step).

(** The controllers that are started, by their services' names. *)
Fixpoint numbered (next : nat) (specs : list KubernetesSpec) (cs : btree controller)
    : btree controller :=
  match specs with
  | [] => cs
  | spec :: specs => numbered (S next) specs (jset (k_service_name spec) next cs)
  end.

Lemma run_start_controllers specs cs p : labelled specs →
  ∃ t, rrun (start_controllers specs cs) p =
    (Done (numbered (length (pv_started p)) specs cs), mkProvider (pv_kv p) (pv_uuids p) (pv_next p) (pv_started p ++ specs) (pv_sent p), t).
Proof using Type.
  unfold labelled. revert cs p. induction specs as [|spec specs IH]; intros cs p Hl.
  { eexists. cbn. rewrite app_nil_r. by destruct p. }
  apply list.Forall_cons in Hl as [[ls Hls] Hl]. cbn [start_controllers]. rewrite run_bind. cbn.
  rewrite Hls. cbn.
  edestruct IH as (t & ->); [done|]. cbn. rewrite length_app, Nat.add_comm. cbn.
  eexists. by rewrite <-app_assoc.
Qed.

Lemma run_send_all cmd cs p :
  ∃ t, rrun (send_all cmd cs) p =
    (Done (), mkProvider (pv_kv p) (pv_uuids p) (pv_next p) (pv_started p)
       (pv_sent p ++ map (λ kv, (kv.2, cmd)) cs), t).
Proof using Type.
  revert p. induction cs as [|[name c] cs IH]; intros p.
  { eexists. cbn. rewrite app_nil_r. by destruct p. }
  cbn [send_all]. rewrite run_bind. cbn. edestruct IH as (t & ->). cbn. eexists.
  by rewrite <-app_assoc.
Qed.

Lemma run_await_all cs p : ∃ t, rrun (await_all cs) p = (Done (), p, t).
Proof using Type.
  induction cs as [|[name c] cs [t IH]]; [by eexists|]. cbn [await_all]. rewrite run_bind. cbn.
  rewrite IH. by eexists.
Qed.

Definition ends {A} (q : R A) (p : provider) (a : A) (p' : provider) : Prop :=
  ∃ t, rrun q p = (Done a, p', t).

Lemma ends_ret {A} (a : A) p : ends (mret a) p a p.
Proof using Type. by eexists. Qed.

Lemma ends_call {X} (e : resource_call X) p :
  ends (trigger e) p (provider_step X e p).1 (provider_step X e p).2.
Proof using Type. unfold ends. cbn. destruct (provider_step X e p). by eexists. Qed.

Lemma ends_bind {A B} (q : R A) (f : A → R B) p a p1 b p2 :
  ends q p a p1 → ends (f a) p1 b p2 → ends (q ≫= f) p b p2.
Proof using Type.
  intros [t Hq] [t' Hf]. unfold ends. rewrite run_bind, Hq, Hf. by eexists.
Qed.

Definition with_kv (kv : gmap string string) (p : provider) : provider :=
  mkProvider kv (pv_uuids p) (pv_next p) (pv_started p) (pv_sent p).

Lemma ends_transaction ops p :
  ends (transaction ops) p (Ok ()) (with_kv (foldl apply_op (pv_kv p) ops) p).
Proof using Type. eapply ends_bind; [apply ends_call | apply ends_ret]. Qed.

Lemma actor_keys a : actor_of a →
  instance_key a = instance_key (resource_actor_new rt actor_type id rc) ∧
  specs_key a = specs_key (resource_actor_new rt actor_type id rc).
Proof using Type. intros [Hr _]. unfold instance_key, specs_key. by rewrite Hr. Qed.

Lemma ends_read_specs a p st : actor_of a → represents (pv_kv p) st →
  ends (read_specs specs_from_slice a) p (Ok (rs_specs st)) p.
Proof using Type.
  intros [_ Hk]%actor_keys (_ & Hs & _). eapply ends_bind; [apply ends_call|]. cbn. rewrite Hk.
  destruct Hs as [[-> ->]|[Hne Hok]]; [apply ends_ret|].
  unfold str_eqb. rewrite bool_decide_eq_false_2 by done. rewrite Hok. apply ends_ret.
Qed.

(** The instance is the stored one, or a new one that is stored. *)
Lemma ends_obtain_instance a p st :
  actor_of a → represents (pv_kv p) st →
  pv_uuids p (pv_next p) ≠ ""%string → valid_utf8 (pv_uuids p (pv_next p)) = true →
  let iid := default (pv_uuids p (pv_next p)) (rs_instance st) in
  ∃ p', ends (obtain_instance_id a) p (Ok iid) p' ∧
    represents (pv_kv p') (mkResourceState (Some iid) (rs_specs st)) ∧
    pv_started p' = pv_started p ∧ pv_sent p' = pv_sent p.
Proof using Type.
  intros Ha Hrep Hne Hvalid. pose proof Hrep as (Hi & Hs & Hl). destruct (actor_keys a Ha) as [Hk _].
  unfold obtain_instance_id, read_instance_id.
  destruct (rs_instance st) as [i|] eqn:Ei; cbn [from_option Datatypes.id].
  - exists p. destruct Hi as (Hi & Hne' & Hv). split; [|by repeat split].
    eapply ends_bind; [eapply ends_bind; [apply ends_call|]|].
    + cbn. rewrite Hk, Hi. unfold str_eqb. rewrite bool_decide_eq_false_2 by done.
      unfold from_utf8. rewrite Hv. apply ends_ret.
    + apply ends_ret.
  - eexists. split.
    + eapply ends_bind; [eapply ends_bind; [apply ends_call|]|].
      * cbn. rewrite Hk, Hi. apply ends_ret.
      * cbn beta iota. eapply ends_bind; [apply ends_call|].
        eapply ends_bind; [apply ends_transaction | apply ends_ret].
    + cbn. rewrite Hk. split; [|done]. split; [|split; [|done]].
      * split; [apply stored_value_upsert | done].
      * change (apply_op ?kv ?o) with (apply_op kv o).
        pose proof (stored_upsert_ne (pv_kv p) _ _ (pv_uuids p (pv_next p)) key_ne) as Hst.
        cbn [apply_op] in Hst. by rewrite Hst.
Qed.

Lemma ends_load specs a p : labelled specs →
  ends (load_controllers specs a) p
    (set_controllers (numbered (length (pv_started p)) specs []) a)
    (mkProvider (pv_kv p) (pv_uuids p) (pv_next p) (pv_started p ++ specs) (pv_sent p)).
Proof using Type.
  intros Hl. destruct (run_start_controllers specs [] p Hl) as (t & Hrun).
  eapply ends_bind; [by exists t | apply ends_ret].
Qed.

Lemma represents_saved kv st specs : represents kv st → labelled specs → storable specs →
  represents (apply_op kv (Upsert (specs_key (resource_actor_new rt actor_type id rc))
    (specs_to_vec specs))) (mkResourceState (rs_instance st) specs).
Proof using Type.
  intros (Hi & _ & _) Hl Hst. split; [|split; [|done]].
  - cbn [rs_instance]. rewrite (stored_upsert_ne kv) by (apply not_eq_sym, key_ne). exact Hi.
  - right. by rewrite stored_value_upsert.
Qed.

(** What an operation leaves: success, the new state stored, and the
    controllers started and told what to do. *)
Definition op_done (op : resource_op TSpec) (a : ResourceActor) (p : provider) (st' : resource_state)
    : Prop :=
  ∃ a' p', ends (run_op op a) p (true, a') p' ∧ represents (pv_kv p') st' ∧ actor_of a' ∧
    pv_started p' = pv_started p ++ spec_starts op st' ∧
    ra_controllers a' =
      match op with
      | OpDeprovision => ra_controllers a
      | _ => numbered (length (pv_started p)) (rs_specs st') []
      end ∧
    pv_sent p' = pv_sent p ++
      map (λ kv, (kv.2, match op with OpDeprovision => CmdDeprovision | _ => CmdReconcile end))
        (ra_controllers a').

Lemma ends_send_all cmd cs p :
  ends (send_all cmd cs) p () (mkProvider (pv_kv p) (pv_uuids p) (pv_next p) (pv_started p)
    (pv_sent p ++ map (λ kv, (kv.2, cmd)) cs)).
Proof using Type. destruct (run_send_all cmd cs p) as [t Ht]. by exists t. Qed.

Lemma configure_refines spec a p st specs :
  represents (pv_kv p) st → actor_of a →
  pv_uuids p (pv_next p) ≠ ""%string → valid_utf8 (pv_uuids p (pv_next p)) = true →
  build_specs spec rc (default (pv_uuids p (pv_next p)) (rs_instance st)) = Some specs →
  storable specs →
  op_done (OpConfigure spec) a p
    (mkResourceState (Some (default (pv_uuids p (pv_next p)) (rs_instance st))) specs).
Proof using laws.
  intros Hrep Ha Hne Hv Hb Hst.
  destruct (ends_obtain_instance a p st Ha Hrep Hne Hv) as (p1 & He1 & Hr1 & Hs1 & Hc1).
  pose proof (ends_load specs a (with_kv (apply_op (pv_kv p1) (Upsert (specs_key a)
    (specs_to_vec specs))) p1) (build_labelled _ _ _ _ Hb)) as He2.
  do 2 eexists. split; [|split; [|split; [|split; [|split]]]].
  - cbn [run_op]. eapply ends_bind.
    + unfold configure. eapply ends_bind; [exact He1|]. cbn beta iota. rewrite (proj2 Ha), Hb.
      eapply ends_bind; [apply ends_transaction|]. eapply ends_bind; [exact He2|].
      eapply ends_bind; [apply ends_send_all | apply ends_ret].
    + apply ends_ret.
  - cbn [pv_kv]. rewrite (proj2 (actor_keys a Ha)). apply (represents_saved _ _ _ Hr1); [|done].
    exact (build_labelled _ _ _ _ Hb).
  - done.
  - cbn. by rewrite Hs1.
  - cbn. by rewrite Hs1.
  - cbn. by rewrite Hc1.
Qed.

Lemma deprovision_refines a p st :
  represents (pv_kv p) st → actor_of a → storable (map mark_removed (rs_specs st)) →
  op_done OpDeprovision a p (mkResourceState None (map mark_removed (rs_specs st))).
Proof using Type.
  intros Hrep Ha Hst. assert (labelled (map mark_removed (rs_specs st))) as Hl.
  { destruct Hrep as (_ & _ & Hl). apply List.Forall_map. exact Hl. }
  do 2 eexists. split; [|split; [|split; [|split; [|split]]]].
  - cbn [run_op]. eapply ends_bind; [unfold actor_deprovision|].
    + eapply ends_bind; [by apply ends_read_specs|]. cbn beta iota.
      eapply ends_bind; [apply ends_transaction|]. cbn beta iota.
      eapply ends_bind; [apply ends_send_all|].
      eapply ends_bind; [apply ends_transaction | apply ends_ret].
    + apply ends_ret.
  - destruct (actor_keys a Ha) as [-> ->].
    destruct (represents_saved _ _ _ Hrep Hl Hst) as (_ & Hs & _). split; [|split; [|done]].
    + apply stored_delete.
    + cbn [rs_specs pv_kv with_kv foldl] in *. rewrite !stored_delete_ne by apply key_ne. exact Hs.
  - done.
  - cbn. by rewrite app_nil_r.
  - done.
  - done.
Qed.

Lemma restart_refines a p st : represents (pv_kv p) st → op_done OpRestart a p st.
Proof using Type.
  intros Hrep. pose proof Hrep as (_ & _ & Hl).
  pose proof (ends_load (rs_specs st) (resource_actor_new rt actor_type id rc) p Hl) as He2.
  set (cs := numbered (length (pv_started p)) (rs_specs st) []) in He2.
  destruct (run_await_all cs (mkProvider (pv_kv p) (pv_uuids p) (pv_next p)
    (pv_started p ++ rs_specs st) (pv_sent p ++ map (λ kv, (kv.2, CmdReconcile)) cs))) as (t & Ht).
  do 2 eexists. split; [|split; [|split; [|split; [|split]]]].
  - cbn [run_op]. eapply ends_bind; [unfold on_activate|].
    + eapply ends_bind; [by apply ends_read_specs|]. cbn beta iota.
      eapply ends_bind; [exact He2|]. eapply ends_bind; [|apply ends_ret].
      eapply ends_bind; [apply ends_send_all | exists t; exact Ht].
    + apply ends_ret.
  - done.
  - done.
  - done.
  - done.
  - done.
Qed.

(** C14: On a sidecar that answers, the actor does what its operations mean,
    across restarts: configuring keeps the instance identifier of an earlier
    configuration, stores and starts exactly the services built with it, and
    tells the controller of each service to reconcile; a restart does so for
    exactly the stored services; deprovisioning marks every stored service as
    removed, tells every controller, and forgets the instance. *)
Theorem resource_refines_spec op a p st st' :
  represents (pv_kv p) st → actor_of a →
  pv_uuids p (pv_next p) ≠ ""%string → valid_utf8 (pv_uuids p (pv_next p)) = true →
  spec_op op (pv_uuids p (pv_next p)) st = Some st' → storable (rs_specs st') →
  op_done op a p st'.
Proof using laws.
  intros Hrep Ha Hne Hv Hop Hst. destruct op as [spec| |].
  - cbn in Hop. destruct (build_specs _ _ _) as [specs|] eqn:Hb; [|done]. injection Hop as <-.
    by apply configure_refines.
  - injection Hop as <-. by apply deprovision_refines.
  - injection Hop as <-. by apply restart_refines.
Qed.
End refinement.

(** ** An example: a query container is configured *)

Definition example_container_request : ResourceRequest ApiQueryContainerSpec :=
  mkResourceRequest "default" (mkApiContainer 1 ∅ {["m"%string := ApiMemory false]} "m").
Definition example_container_builder := container_builder (λ _, map_to_list).
Definition example_container_specs : list KubernetesSpec :=
  default [] (container_build (λ _, map_to_list) (runtime_config_default ∅)
    example_container_request "id-0").
Definition example_provider : provider := mkProvider ∅ (λ _, "id-0"%string) 0 [] [].
Definition example_actor : ResourceActor :=
  resource_actor_new RtQueryContainer "QueryContainerResource" "default" (runtime_config_default ∅).

Lemma resource_refines_spec_witness :
  length example_container_specs = 3 ∧
  @op_done _ example_container_builder (λ _, "[..]"%string) (λ _, Ok example_container_specs)
    RtQueryContainer "QueryContainerResource" "default" (runtime_config_default ∅)
    (OpConfigure example_container_request) example_actor example_provider
    (mkResourceState (Some "id-0"%string) example_container_specs).
Proof.
  split; [by vm_compute|].
  apply (@resource_refines_spec _ example_container_builder (container_builder_laws _))
    with (st := mkResourceState None []).
  - split; [done|]. split; [by left | constructor].
  - done.
  - done.
  - done.
  - vm_compute. reflexivity.
  - done.
Defined.
