(* ===== verification/Provisioning.v ===== *)
(** * Provisioning: from a configured resource to its objects in the cluster

    The actor of a resource stores the built specifications and starts one
    controller per specification; the controllers run at the same time and reach
    one cluster.  The parts are composed: what the actor starts and sends is
    what the tasks run. *)
From S2P Require Import Prelude BTree RustText MgmtModels Mappings KubeModels SpecBuilder SpecBuilderSpec Effects Dapr KubeApi Reconciler ReconcilerSpec KubeController Convergence Interleave Sharing Removal ResourceActor ResourceActorSpec.

(** ** The commands each controller gets *)

Definition commands_of (c : controller) (sent : list (controller * Command)) : list Command :=
  map snd (filter (λ m, m.1 = c) sent).

Lemma jset_new_values {A} k (v : A) (m : btree A) :
  k ∉ m.*1 → (jset k v m).*2 ≡ₚ v :: m.*2.
Proof.
  induction m as [|[k' v'] m IH]; intros Hk; [done|]. cbn in *.
  destruct (String.compare k k') eqn:E.
  - apply compare_eq_iff in E. set_solver.
  - done.
  - cbn. rewrite IH by set_solver. constructor.
Qed.

Lemma numbered_values next specs cs :
  NoDup (k_service_name <$> specs) → (∀ s, s ∈ specs → k_service_name s ∉ cs.*1) →
  (numbered next specs cs).*2 ≡ₚ cs.*2 ++ seq next (length specs).
Proof.
  revert next cs. induction specs as [|s specs IH]; intros next cs Hnd Hcs; cbn.
  { by rewrite app_nil_r. }
  rewrite fmap_cons in Hnd. apply list.NoDup_cons in Hnd as [Hs Hnd].
  rewrite IH; [|done|].
  - rewrite jset_new_values by (apply Hcs; left). cbn. by rewrite Permutation_middle.
  - intros s' Hs'. rewrite elem_of_jset_fst. intros [Heq|Hin].
    + apply Hs. rewrite <-Heq. by apply list_elem_of_fmap_2.
    + by apply (Hcs s'); [right|].
Qed.

(** A message per entry: each controller gets its own. *)
Lemma commands_of_entries (cs : btree controller) cmd i :
  commands_of i (map (λ kv, (kv.2, cmd)) cs) = map (λ _, cmd) (filter (λ c, c = i) cs.*2).
Proof.
  induction cs as [|[name c] cs IH]; [done|]. unfold commands_of in *. cbn [map fmap list_fmap snd].
  rewrite !filter_cons. cbn [fst]. case_decide; cbn; by rewrite IH.
Qed.

Lemma filter_seq_none a n i : ¬ (a ≤ i < a + n) → filter (λ c, c = i) (seq a n) = [].
Proof.
  revert a. induction n as [|n IH]; intros a Hi; [done|]. cbn [seq].
  rewrite filter_cons, decide_False by lia. apply IH. lia.
Qed.

Lemma filter_seq_eq a n i : a ≤ i < a + n → filter (λ c, c = i) (seq a n) = [i].
Proof.
  revert a. induction n as [|n IH]; intros a Hi; [lia|]. cbn [seq]. rewrite filter_cons.
  case_decide as Ha; [subst; rewrite filter_seq_none by lia; done|]. apply IH. lia.
Qed.

(** The messages when every controller of [cs] is told each of [cmds] in turn. *)
Definition told (cs : btree controller) (cmds : list Command) : list (controller * Command) :=
  concat (map (λ cmd, map (λ kv, (kv.2, cmd)) cs) cmds).

Lemma commands_of_app i l l' : commands_of i (l ++ l') = commands_of i l ++ commands_of i l'.
Proof. unfold commands_of. by rewrite list.filter_app, map_app. Qed.

Lemma told_entries cs cmds i :
  commands_of i (told cs cmds) =
    concat (map (λ cmd, map (λ _, cmd) (filter (λ c, c = i) cs.*2)) cmds).
Proof.
  induction cmds as [|cmd cmds IH]; [done|].
  change (told ?cs (cmd :: cmds)) with (map (λ kv, (kv.2, cmd)) cs ++ told cs cmds).
  by rewrite commands_of_app, IH, commands_of_entries.
Qed.

Lemma numbered_filter next specs i :
  NoDup (k_service_name <$> specs) →
  filter (λ c, c = i) (numbered next specs []).*2 =
    filter (λ c, c = i) (seq next (length specs)).
Proof.
  intros Hnd. pose proof (numbered_values next specs [] Hnd (λ _ _, not_elem_of_nil _)) as Hp.
  cbn [fmap list_fmap app] in Hp. apply (filter_Permutation (λ c, c = i)) in Hp.
  destruct (decide (next ≤ i < next + length specs)) as [Hi|Hi].
  - rewrite filter_seq_eq in * by done. by apply Permutation_singleton_r in Hp.
  - rewrite filter_seq_none in * by done. by apply Permutation_nil_r in Hp.
Qed.

(** Then every controller gets all of them, once, and no other one gets any. *)
Lemma each_told next specs i cmds :
  NoDup (k_service_name <$> specs) → i < length specs →
  commands_of (next + i) (told (numbered next specs []) cmds) = cmds.
Proof.
  intros Hnd Hi. rewrite told_entries, numbered_filter, filter_seq_eq by (done || lia).
  induction cmds as [|cmd cmds IH]; [done|]. cbn. by f_equal.
Qed.

Lemma none_told next specs i cmds :
  NoDup (k_service_name <$> specs) → i < next →
  commands_of i (told (numbered next specs []) cmds) = [].
Proof.
  intros Hnd Hi. rewrite told_entries, numbered_filter, filter_seq_none by (done || lia).
  by induction cmds.
Qed.

(** ** The actor's controllers on a cluster *)

Section provisioning.
Context (spooky : list string → Z).
Context (deployment_to_vec : DeploymentSpec → string).
Context (config_maps_to_vec : btree ConfigMap → string).
Context (account_to_vec : option ServiceAccount → string).
Context (rc : RuntimeConfig).

Definition reconciler_of (spec : KubernetesSpec) : option ResourceReconciler :=
  reconciler_new spooky deployment_to_vec config_maps_to_vec account_to_vec (Ok ()) spec rc.

(** The task of each controller the provider started, on the commands it was
    sent. *)
Definition tasks (p : provider) : option (list (K (list ReconcileStatus))) :=
  mapM (λ m, r ← reconciler_of m.2; Some (controller_run (commands_of m.1 (pv_sent p)) r))
    (imap pair (pv_started p)).

Lemma reconcilers_of specs : labelled specs → ∃ rs, mapM reconciler_of specs = Some rs.
Proof.
  intros Hl. induction Hl as [|spec specs [labels Hs] _ [rs IH]]; [by eexists|].
  cbn. rewrite IH. unfold reconciler_of, reconciler_new. rewrite Hs. by eexists.
Qed.

Lemma reconciler_spec spec r : reconciler_of spec = Some r → rr_kspec r = spec.
Proof.
  unfold reconciler_of, reconciler_new. destruct (ds_match_labels _); [|done]. by intros [= <-].
Qed.

Lemma reconcilers_specs specs rs : mapM reconciler_of specs = Some rs → rr_kspec <$> rs = specs.
Proof.
  intros H%mapM_Some. induction H as [|spec r specs rs Hr H IH]; [done|].
  cbn. by rewrite (reconciler_spec _ _ Hr), IH.
Qed.

(** Each task runs what its controller was told; earlier ones have nothing to
    do. *)
Lemma tasks_told p old specs rs cmds :
  labelled old → mapM reconciler_of specs = Some rs → NoDup (k_service_name <$> specs) →
  pv_started p = old ++ specs → pv_sent p = told (numbered (length old) specs []) cmds →
  tasks p = Some ((Ret <$> replicate (length old) []) ++ map (controller_run cmds) rs).
Proof.
  intros [rs0 Hold]%reconcilers_of Hrs Hnd Hstart Hsent. unfold tasks. apply mapM_Some.
  apply mapM_Some in Hrs, Hold. pose proof (Forall2_length Hold) as Hlen.
  pose proof (Forall2_length Hrs) as Hlen'. rewrite Hstart, Hsent, imap_app. apply Forall2_app.
  - apply Forall2_same_length_lookup_2; [by rewrite length_imap, length_fmap, length_replicate|].
    intros i [j spec] t Hi Ht. rewrite list_lookup_imap in Hi.
    destruct (old !! i) as [spec'|] eqn:Es; [|done]. injection Hi as <- <-.
    pose proof (lookup_lt_Some _ _ _ Es) as Hlt.
    rewrite list_lookup_fmap, lookup_replicate_2 in Ht by done. injection Ht as <-.
    destruct (Forall2_lookup_l _ _ _ _ _ Hold Es) as (r & _ & Hr). cbn. rewrite Hr. cbn.
    by rewrite none_told.
  - apply Forall2_same_length_lookup_2; [by rewrite length_imap, length_map|].
    intros i [j spec] t Hi Ht. rewrite list_lookup_imap in Hi.
    destruct (specs !! i) as [spec'|] eqn:Es; [|done]. injection Hi as <- <-.
    rewrite list_lookup_fmap in Ht. destruct (rs !! i) as [r|] eqn:Er; [|done]. injection Ht as <-.
    pose proof (Forall2_lookup_lr _ _ _ _ _ _ Hrs Es Er) as Hr. cbn. rewrite Hr. cbn.
    by rewrite each_told by (done || by eapply lookup_lt_Some).
Qed.

Context (as_stored : ∀ k, obj k → obj k).
Context (merge : ∀ k, obj k → obj k → obj k).
Notation all_end := (all_end (cluster_step as_stored merge)).

(** The provider's process starts again: what is left is the state store. *)
Definition restarted (p : provider) : provider :=
  mkProvider (pv_kv p) (pv_uuids p) (pv_next p) [] [].

(** What a removal does: the deployments, services, config maps, ingresses and
    accounts of the services are gone, and every other object is as it was. *)
Definition removed (specs : list KubernetesSpec) (c c' : cluster) : Prop :=
  absent (all_targets specs) c' ∧
  ∀ k name, (k, name) ∉ all_targets specs → find c' k name = find c k name.

(** In particular the publish-subscribe component and the volume claims stay. *)
Lemma removed_leaves specs c c' k name :
  k = KComponent ∨ k = KPvc → removed specs c c' → find c' k name = find c k name.
Proof using Type.
  intros Hk [_ H]. apply H. rewrite elem_of_all_targets. intros (spec & _ & Hx).
  unfold deprovision_targets in Hx.
  rewrite list.elem_of_cons, !elem_of_app, !list_elem_of_fmap in Hx. naive_solver.
Qed.

Lemma removed_names specs : k_service_name <$> map mark_removed specs = k_service_name <$> specs.
Proof using Type. induction specs as [|s specs IH]; [done|]. cbn. by f_equal. Qed.

Lemma removed_targets specs : all_targets (map mark_removed specs) = all_targets specs.
Proof using Type.
  induction specs as [|s specs IH]; [done|]. exact (f_equal (app (deprovision_targets s)) IH).
Qed.

(** Controllers told to deprovision; or started with the removed services and
    told to reconcile. *)
Lemma controllers_disappear specs rs cmd c :
  (cmd = CmdDeprovision ∧ rr_kspec <$> rs = specs ∨
   cmd = CmdReconcile ∧ rr_kspec <$> rs = map mark_removed specs) →
  all_end (map (controller_run [cmd]) rs) c (removed specs c).
Proof using Type.
  intros Hcmd. assert (all_targets (rr_kspec <$> rs) = all_targets specs) as HT.
  { destruct Hcmd as [[_ ->]|[_ ->]]; [done|]. apply removed_targets. }
  eapply all_end_mono; [|apply controllers_removed].
  - rewrite HT. intros c' [Hg Ht]. rewrite list.Forall_forall in Hg. split.
    + intros k name Hx. rewrite <-HT, elem_of_all_targets in Hx. destruct Hx as (spec & Hs & Hx).
      apply list_elem_of_fmap in Hs as (r & -> & Hr). by apply (Hg r).
    + intros k name Hx. by destruct (Ht k name) as [|[? _]].
  - destruct Hcmd as [[-> _]|[-> Hs]]; [by left|right]. split; [done|].
    apply list.Forall_forall. intros r Hr. apply (list_elem_of_fmap_2 rr_kspec) in Hr.
    rewrite Hs in Hr. by apply list_elem_of_fmap in Hr as (spec & -> & _).
Qed.

Section actor.
Context {TSpec : Type} `{HB : SpecBuilder TSpec} {blaws : BuilderLaws TSpec}.
Context (specs_to_vec : list KubernetesSpec → string).
Context (specs_from_slice : string → result (list KubernetesSpec) string).
Context (rt : ResourceType) (actor_type id : string).
Notation run_op := (run_op specs_to_vec specs_from_slice rt actor_type id rc).
Notation op_done := (op_done specs_to_vec specs_from_slice rt actor_type id rc).

Notation represents := (represents specs_from_slice rt actor_type id rc).

(** An operation that succeeds, after which the controllers' tasks, run at the
    same time on a cluster with [pre], all end, having brought it to what [post]
    says. *)
Definition leads (op : resource_op TSpec) (a : ResourceActor) (p : provider) (a' : ResourceActor)
    (p' : provider) (pre : cluster → Prop) (post : relation cluster) : Prop :=
  ends (run_op op a) p (true, a') p' ∧
  ∃ ps, tasks p' = Some ps ∧ ∀ c, pre c → all_end ps c (post c).

(** A configuration, or a restart, of a process whose earlier controllers have
    done what they were told: each stored service has a new one, told to
    reconcile. *)
Lemma started_leads op a p st' rs pre post :
  op ≠ OpDeprovision → op_done op a p st' → labelled (pv_started p) → pv_sent p = [] →
  mapM reconciler_of (rs_specs st') = Some rs → NoDup (k_service_name <$> rs_specs st') →
  (∀ c, pre c → all_end (map (controller_run [CmdReconcile]) rs) c (post c)) →
  ∃ a' p', leads op a p a' p' pre post ∧ represents (pv_kv p') st'.
Proof using Type.
  intros Hop (a' & p' & Hends & Hrep & Ha' & Hstart & Hctl & Hsent) Hl Hm0 Hrs Hnd Hend.
  exists a', p'. split; [|exact Hrep]. split; [exact Hends|]. eexists. split.
  - apply (tasks_told _ _ _ _ [CmdReconcile] Hl Hrs Hnd); [rewrite Hstart; by destruct op |].
    rewrite Hsent, Hm0, Hctl. unfold told. destruct op; [|done|]; cbn; by rewrite app_nil_r.
  - intros c Hc. by apply all_end_ended, Hend.
Qed.

(** Deprovisioning: each controller is told so. *)
Lemma deprovisioned_leads a p st' old specs rs pre post :
  op_done OpDeprovision a p st' → labelled old → pv_started p = old ++ specs → pv_sent p = [] →
  ra_controllers a = numbered (length old) specs [] →
  mapM reconciler_of specs = Some rs → NoDup (k_service_name <$> specs) →
  (∀ c, pre c → all_end (map (controller_run [CmdDeprovision]) rs) c (post c)) →
  ∃ a' p', leads OpDeprovision a p a' p' pre post ∧
    represents (pv_kv p') st' ∧ actor_of rt rc a'.
Proof using Type.
  intros (a' & p' & Hends & Hrep & Ha' & Hstart & Hctl & Hsent) Hl Hs0 Hm0 Hc0 Hrs Hnd Hend.
  exists a', p'. split; [|done]. split; [exact Hends|]. eexists. split.
  - apply (tasks_told _ _ _ _ [CmdDeprovision] Hl Hrs Hnd); [rewrite Hstart, Hs0; cbn; by rewrite app_nil_r |].
    rewrite Hsent, Hctl, Hm0, Hc0. unfold told. cbn. by rewrite app_nil_r.
  - intros c Hc. by apply all_end_ended, Hend.
Qed.

Lemma restart_not_removed : @OpRestart TSpec ≠ OpDeprovision.
Proof using Type. done. Qed.

Lemma restarted_labelled p : labelled (pv_started (restarted p)).
Proof using Type. constructor. Qed.

(** A resource that is configured, and the provider restarted. *)
Lemma configured_leads (req : ResourceRequest TSpec) a p st specs rs pre post :
  represents (pv_kv p) st → actor_of rt rc a →
  pv_uuids p (pv_next p) ≠ ""%string → valid_utf8 (pv_uuids p (pv_next p)) = true →
  build_specs req rc (default (pv_uuids p (pv_next p)) (rs_instance st)) = Some specs →
  storable specs_to_vec specs_from_slice specs →
  labelled (pv_started p) → pv_sent p = [] →
  mapM reconciler_of specs = Some rs → NoDup (k_service_name <$> specs) →
  (∀ c, pre c → all_end (map (controller_run [CmdReconcile]) rs) c (post c)) →
  ∃ a' p' a'' p'',
    leads (OpConfigure req) a p a' p' pre post ∧ leads OpRestart a (restarted p') a'' p'' pre post.
Proof using blaws.
  intros Hrep Ha Hne Hv Hb Hst Hs0 Hm0 Hrs Hnd Hend.
  pose proof (configure_refines specs_to_vec specs_from_slice rt actor_type id rc req a p
    st specs Hrep Ha Hne Hv Hb Hst) as Hconf.
  destruct (started_leads (OpConfigure req) a p _ rs pre post ltac:(done) Hconf Hs0 Hm0 Hrs Hnd Hend)
    as (a' & p' & Hp & Hrep').
  pose proof (restart_refines specs_to_vec specs_from_slice rt actor_type id rc a (restarted p') _ Hrep')
    as Hre.
  destruct (started_leads OpRestart a (restarted p') _ rs pre post restart_not_removed Hre
    (restarted_labelled p') eq_refl Hrs Hnd Hend) as (a'' & p'' & Hp' & _).
  by exists a', p', a'', p''.
Qed.

(** C11: A resource that is deprovisioned is removed: the actor tells every
    controller, and when they run at the same time on one cluster, in whatever
    state that is, all of them end without a panic with the deployments,
    services, config maps, ingresses and account of the resource gone, also when
    several of its services have some of them in common, and with every other
    object as it was.  So the publish-subscribe component of a source or a
    reaction and the volume claims of a container stay ([removed_leaves]).
    Controllers of earlier configurations have done what they were told.  The
    same holds when the provider stops before its controllers did anything: after
    the restart the stored services are removed. *)
Theorem resource_removed a p st old :
  represents (pv_kv p) st → actor_of rt rc a → NoDup (k_service_name <$> rs_specs st) →
  storable specs_to_vec specs_from_slice (map mark_removed (rs_specs st)) →
  labelled old → pv_started p = old ++ rs_specs st → pv_sent p = [] →
  ra_controllers a = numbered (length old) (rs_specs st) [] →
  ∃ a' p' a'' p'',
    leads OpDeprovision a p a' p' (λ _, True) (removed (rs_specs st)) ∧
    leads OpRestart a' (restarted p') a'' p'' (λ _, True) (removed (rs_specs st)).
Proof using Type.
  intros Hrep Ha Hnd Hst Hold Hs0 Hm0 Hc0. pose proof Hrep as (_ & _ & Hl).
  destruct (reconcilers_of _ Hl) as [rs Hrs].
  pose proof (deprovision_refines specs_to_vec specs_from_slice rt actor_type id rc a p
    st Hrep Ha Hst) as Hdep.
  destruct (deprovisioned_leads a p _ old _ rs (λ _, True) (removed (rs_specs st)) Hdep Hold Hs0 Hm0 Hc0
    Hrs Hnd)
    as (a' & p' & Hp & Hrep' & Ha').
  { intros c _. apply controllers_disappear. left. split; [done | by apply reconcilers_specs]. }
  pose proof Hrep' as (_ & _ & Hl'). cbn [rs_specs] in Hl'.
  destruct (reconcilers_of _ Hl') as [rs' Hrs'].
  pose proof (restart_refines specs_to_vec specs_from_slice rt actor_type id rc a'
    (restarted p') _ Hrep') as Hre.
  destruct (started_leads OpRestart a' (restarted p') _ rs' (λ _, True) (removed (rs_specs st))
    restart_not_removed Hre (restarted_labelled p') eq_refl Hrs') as (a'' & p'' & Hp' & _).
  { cbn [rs_specs]. by rewrite removed_names. }
  { intros c _. apply controllers_disappear. right. split; [done|]. by apply reconcilers_specs. }
  by exists a', p', a'', p''.
Qed.
End actor.

(** ** Query containers *)

Section container.
Context (laws : server_laws as_stored merge).
Context (hash_iter : ∀ A, gmap string A → list (string * A)).
Notation id req := (rr_id ApiQueryContainerSpec req).

(** Where the objects of a container's service are. *)
Definition container_slot (id : string) (spec : KubernetesSpec) (x : key) : Prop :=
  match x.1 with
  | KDeployment => x.2 = id +:+ "-" +:+ k_service_name spec
  | KPvc => k_service_name spec = "query-host"%string
  | KService => k_service_name spec = "view-svc"%string
  | _ => False
  end.

Lemma plain_footprint rt id sn d services claims x :
  x ∈ owned (plain_spec rt id sn d services claims) ∨
  x ∈ seen (plain_spec rt id sn d services claims) →
  x = (KDeployment, id +:+ "-" +:+ sn) ∨ (x.1 = KPvc ∧ claims ≠ []) ∨ (x.1 = KService ∧ services ≠ []).
Proof using Type.
  intros H. assert (x ∈ owned (plain_spec rt id sn d services claims)) as Hx.
  { destruct H as [H|H]; [done|]. unfold seen in H. cbn [k_ingresses plain_spec] in H.
    by rewrite app_nil_r in H. }
  clear H. apply elem_of_owned in Hx. cbn in Hx. unfold component_name, account_name in Hx. cbn in Hx.
  destruct Hx as [(n & -> & H)|[(n & -> & H)|[(n & -> & H)|[(n & -> & H)|[->|[(n & -> & H)|
    [(n & -> & H)|(n & -> & H)]]]]]]]; try by apply elem_of_nil in H.
  - right. left. split; [done|]. intros ->. by apply elem_of_nil in H.
  - by left.
  - right. right. split; [done|]. intros ->. by apply elem_of_nil in H.
  - right. right. split; [done|]. intros ->. by apply elem_of_nil in H.
Qed.

Lemma container_spec_shape req iid specs spec :
  container_build hash_iter rc req iid = Some specs → spec ∈ specs →
  ∃ sn d services claims,
    spec = plain_spec RtQueryContainer (id req) sn d services claims ∧
    (claims ≠ [] → sn = "query-host"%string) ∧
    (services.*1 = [] ∨ (services.*1 = ["view-svc"] ∧ sn = "view-svc")%string).
Proof using Type.
  intros [= <-] Hin.
  apply list.elem_of_cons in Hin as [->|Hin]; [by do 4 eexists; split; [|split; [|left]]|].
  apply list.elem_of_cons in Hin as [->|Hin%list_elem_of_singleton]; [|subst spec].
  - unfold query_host_spec. destruct (container_stores _ _ _ _) as [[env claims] volumes].
    by do 4 eexists; split; [|split; [|left]].
  - by do 4 eexists; split; [|split; [|right]].
Qed.

Lemma container_footprint req iid specs spec x :
  container_build hash_iter rc req iid = Some specs → spec ∈ specs →
  x ∈ owned spec ∨ x ∈ seen spec → container_slot (id req) spec x.
Proof using Type.
  intros Hb Hin Hx.
  destruct (container_spec_shape _ _ _ _ Hb Hin) as (sn & d & services & claims & -> & Hc & Hs).
  apply plain_footprint in Hx as [->|[[Hx Hne]|[Hx Hne]]]; [done|..];
    unfold container_slot; rewrite Hx; cbn; [by apply Hc|].
  destruct Hs as [Hs|[_ Hs]]; [|done]. by apply fmap_nil_inv in Hs.
Qed.

Lemma container_names req iid specs :
  container_build hash_iter rc req iid = Some specs →
  k_service_name <$> specs = ["publish-api"; "query-host"; "view-svc"]%string.
Proof using Type.
  intros [= <-]. cbn. unfold query_host_spec.
  by destruct (container_stores _ _ _ _) as [[env claims] volumes].
Qed.

Lemma container_names_nodup req iid specs :
  container_build hash_iter rc req iid = Some specs → NoDup (k_service_name <$> specs).
Proof using Type.
  intros ->%container_names. rewrite !list.NoDup_cons, !not_elem_of_cons.
  repeat split; try done; try apply not_elem_of_nil. constructor.
Qed.

(** The services of a container do not share an object. *)
Lemma container_apart req iid specs :
  container_build hash_iter rc req iid = Some specs → apart specs.
Proof using Type.
  intros Hb i j a b Hne Ha Hb' x Hxa Hxb.
  assert (k_service_name a = k_service_name b) as Heq.
  { pose proof (container_footprint _ _ _ _ x Hb (list_elem_of_lookup_2 _ _ _ Ha) (or_introl Hxa)) as Ca.
    pose proof (container_footprint _ _ _ _ x Hb (list_elem_of_lookup_2 _ _ _ Hb') (or_intror Hxb)) as Cb.
    unfold container_slot in Ca, Cb. destruct x as [[] n]; cbn in Ca, Cb; try done; try congruence.
    subst n. apply str_app_inj in Cb. by injection Cb. }
  apply Hne. eapply NoDup_lookup; [by eapply container_names_nodup|..];
    rewrite list_lookup_fmap; [by rewrite Ha | by rewrite Hb', Heq].
Qed.

Lemma view_service_apart id : "view-svc"%string ≠ id +:+ "-" +:+ "view-svc".
Proof using Type.
  intros H. apply (f_equal String.length) in H.
  rewrite !str_length_app in H. cbn in H. lia.
Qed.

Lemma container_ready req iid specs spec r c :
  container_build hash_iter rc req iid = Some specs → spec ∈ specs → rr_kspec r = spec →
  managed r c → ready c r.
Proof using Type.
  intros Hb Hin Hr Hm.
  pose proof (container_build_well_formed hash_iter rc _ _ _ Hb) as Hwf.
  rewrite list.Forall_forall in Hwf. destruct (Hwf _ Hin) as (Hwn & _ & Hrm).
  destruct (container_spec_shape _ _ _ _ Hb Hin) as (sn & d & services & claims & Hspec & _ & Hs).
  assert (∀ n, n ∈ (k_services spec).*1 → n = "view-svc"%string) as Hn.
  { intros n Hn. rewrite Hspec in Hn. cbn [k_services plain_spec] in Hn.
    destruct Hs as [Hs|[Hs ->]]; rewrite Hs in Hn; [by apply elem_of_nil in Hn|].
    by apply list_elem_of_singleton in Hn. }
  unfold ready. rewrite Hr. split; [done|]. split; [|done].
  intros a b ->%Hn ->%Hn. unfold service_object. rewrite Hspec. apply view_service_apart.
Qed.

Context (specs_to_vec : list KubernetesSpec → string).
Context (specs_from_slice : string → result (list KubernetesSpec) string).
Context (actor_type id : string).
#[local] Instance builder : SpecBuilder ApiQueryContainerSpec := container_builder hash_iter.
#[local] Instance builder_laws : BuilderLaws ApiQueryContainerSpec := container_builder_laws hash_iter.

Notation leads := (leads specs_to_vec specs_from_slice RtQueryContainer actor_type id).
Notation represents := (represents specs_from_slice RtQueryContainer actor_type id rc).

Lemma container_reconcilers req iid specs :
  container_build hash_iter rc req iid = Some specs →
  ∃ rs, mapM reconciler_of specs = Some rs ∧ length rs = 3 ∧ rr_kspec <$> rs = specs.
Proof using Type.
  intros Hb. destruct (reconcilers_of specs) as [rs Hrs]; [exact (build_labelled _ _ _ _ Hb)|].
  pose proof (reconcilers_specs _ _ Hrs) as Hspecs. exists rs. split; [done|]. split; [|done].
  rewrite <-(length_fmap rr_kspec rs), Hspecs.
  by rewrite <-(length_fmap k_service_name specs), (container_names _ _ _ Hb).
Qed.

(** The controllers of a container, told to reconcile. *)
Lemma container_converges req iid specs rs m c :
  container_build hash_iter rc req iid = Some specs → rr_kspec <$> rs = specs →
  Forall (λ r, managed r c) rs →
  all_end (map (controller_run (replicate (S m) CmdReconcile)) rs) c
    (λ c', Forall (λ r, in_sync r c') rs).
Proof using laws.
  intros Hb Hspecs Hc.
  apply controllers_share; [apply apart_compatible; rewrite Hspecs; by eapply container_apart | exact laws |].
  rewrite list.Forall_forall in Hc. apply list.Forall_forall. intros r Hr.
  eapply container_ready; [exact Hb | | done | by apply Hc].
  rewrite <-Hspecs. by apply list_elem_of_fmap_2.
Qed.

(** C9: A query container that is configured comes to be in place: the actor
    starts a controller for each service and tells it to reconcile, and when the
    controllers run at the same time on one cluster, their calls interleaved in
    any order, all of them end without a panic with every object of every
    service in the cluster, saying what the specification asks for ([in_sync]):
    the deployment with its containers, the Kubernetes service, the volume
    claims.  Before, the cluster may hold none of them, or deployments of another
    version of the specification; what is there was not edited under its hash,
    and the view service and the claims, which are never changed, are as asked
    for ([managed]).  Controllers of earlier configurations have done what they
    were told.  The same holds when the provider is restarted, from what the
    configuration stored. *)
Theorem container_provisioned req a p st specs :
  represents (pv_kv p) st → actor_of RtQueryContainer rc a →
  pv_uuids p (pv_next p) ≠ ""%string → valid_utf8 (pv_uuids p (pv_next p)) = true →
  container_build hash_iter rc req (default (pv_uuids p (pv_next p)) (rs_instance st)) = Some specs →
  storable specs_to_vec specs_from_slice specs →
  labelled (pv_started p) → pv_sent p = [] →
  ∃ rs a' p' a'' p'', length rs = 3 ∧ rr_kspec <$> rs = specs ∧
    leads (OpConfigure req) a p a' p' (λ c, Forall (λ r, managed r c) rs)
      (λ _ c, Forall (λ r, in_sync r c) rs) ∧
    leads OpRestart a (restarted p') a'' p'' (λ c, Forall (λ r, managed r c) rs)
      (λ _ c, Forall (λ r, in_sync r c) rs).
Proof using laws.
  intros Hrep Ha Hne Hv Hb Hst Hs0 Hm0.
  destruct (container_reconcilers _ _ _ Hb) as (rs & Hrs & Hlen & Hspecs).
  destruct (configured_leads specs_to_vec specs_from_slice RtQueryContainer actor_type id req a p st
    specs rs (λ c, Forall (λ r, managed r c) rs) (λ _ c, Forall (λ r, in_sync r c) rs) Hrep Ha Hne Hv Hb
    Hst Hs0 Hm0 Hrs (container_names_nodup _ _ _ Hb)
    (λ c, container_converges _ _ _ rs 0 c Hb Hspecs)) as (a' & p' & a'' & p'' & Hp & Hp').
  by exists rs, a', p', a'', p''.
Qed.
End container.
End provisioning.

(** ** An example: the default container, on an empty cluster *)

(** The three controllers take turns; the deployments and the service are made. *)
Example container_in_turns :
  let rs := omap (reconciler_of (λ _, 255%Z) (λ _, "d"%string) (λ _, "m"%string) (λ _, "a"%string)
    (runtime_config_default ∅)) example_container_specs in
  let c := (interleave (cluster_step (λ _ o, o) (λ _ _ new, new)) (concat (replicate 6 [0; 1; 2]))
    (map (controller_run [CmdReconcile]) rs, empty_cluster)).2 in
  (map (λ n, bool_decide (is_Some (find c KDeployment ("default-" +:+ n))))
     ["publish-api"; "query-host"; "view-svc"]%string,
   bool_decide (is_Some (find c KService "default-view-svc"))) = ([true; true; true], true).
Proof. vm_compute. reflexivity. Qed.

Notation example_leads := (@leads (λ _, 255%Z) (λ _, "d"%string) (λ _, "m"%string) (λ _, "a"%string)
  (runtime_config_default ∅) (λ _ o, o) (λ _ _ new, new) _ example_container_builder).

Lemma example_laws : server_laws (λ _ o, o) (λ _ _ new, new).
Proof. by constructor. Qed.

(** An empty cluster may be reconciled. *)
Lemma empty_managed r : managed r empty_cluster.
Proof.
  split; [by split; [|split; [|split]]; intros; intros o Ho|]. split; [done|]. by right.
Qed.

Lemma container_provisioned_witness :
  (∀ r, managed r empty_cluster) ∧
  ∃ rs a' p' a'' p'', length rs = 3 ∧ rr_kspec <$> rs = example_container_specs ∧
    example_leads (λ _, "[..]"%string) (λ _, Ok example_container_specs) RtQueryContainer "QueryContainerResource" "default"
      (OpConfigure example_container_request) example_actor example_provider a' p'
      (λ c, Forall (λ r, managed r c) rs) (λ _ c, Forall (λ r, in_sync r c) rs) ∧
    example_leads (λ _, "[..]"%string) (λ _, Ok example_container_specs) RtQueryContainer "QueryContainerResource" "default"
      OpRestart example_actor (restarted p') a'' p''
      (λ c, Forall (λ r, managed r c) rs) (λ _ c, Forall (λ r, in_sync r c) rs).
Proof.
  split; [exact empty_managed|].
  apply (container_provisioned (λ _, 255%Z) (λ _, "d"%string) (λ _, "m"%string) (λ _, "a"%string)
    (runtime_config_default ∅) (λ _ o, o) (λ _ _ new, new) example_laws)
    with (st := mkResourceState None []).
  - split; [done|]. split; [by left | constructor].
  - done.
  - done.
  - done.
  - vm_compute. reflexivity.
  - done.
  - constructor.
  - done.
Defined.

(** The provider when the container was configured and is in place. *)
Definition example_running : provider :=
  mkProvider {["query-container-platform-specs"%string := "[..]"%string]} (λ _, "id-0"%string) 1
    example_container_specs [].

Definition example_removed_slice (data : string) : result (list KubernetesSpec) string :=
  if str_eqb data "[..]" then Ok example_container_specs
  else Ok (map mark_removed example_container_specs).

Lemma resource_removed_witness :
  ∃ a' p' a'' p'',
    example_leads (λ _, "[-]"%string) example_removed_slice
      RtQueryContainer "QueryContainerResource" "default" OpDeprovision
      (set_controllers (numbered 0 example_container_specs []) example_actor) example_running a' p'
      (λ _, True) (removed example_container_specs) ∧
    example_leads (λ _, "[-]"%string) example_removed_slice
      RtQueryContainer "QueryContainerResource" "default" OpRestart a' (restarted p') a'' p''
      (λ _, True) (removed example_container_specs).
Proof.
  apply (resource_removed (λ _, 255%Z) (λ _, "d"%string) (λ _, "m"%string) (λ _, "a"%string)
    (runtime_config_default ∅) (λ _ o, o) (λ _ _ new, new))
    with (st := mkResourceState None example_container_specs) (old := []).
  - split; [done|]. split; [right; by split|]. repeat (constructor; [by eexists|]). constructor.
  - done.
  - apply (bool_decide_unpack _). vm_compute. exact I.
  - done.
  - constructor.
  - done.
  - done.
  - done.
Defined.
