(* ===== verification/Resources.v ===== *)
(** * Resources: sources, reactions and containers come to be in place

    The services of one resource have some objects in common: the services of a
    reaction its publish-subscribe component, the services of a source or a
    reaction with an identity its service account.  [Agreeing] is what a
    specification builder promises about them, so that the controllers of the
    services do not undo one another's work. *)
From S2P Require Import Prelude BTree RustText MgmtModels Mappings KubeModels SpecBuilder SpecBuilderSpec Effects Dapr KubeApi Reconciler KubeController Convergence Interleave Sharing ResourceActor ResourceActorSpec Provisioning.

(** ** Specifications that agree *)

Record agreeing (specs : list KubernetesSpec) : Prop := {
  ag_ids a b : a ∈ specs → b ∈ specs → k_resource_id a = k_resource_id b;
  ag_components a b p q : a ∈ specs → b ∈ specs →
    k_pub_sub a = Some p → k_pub_sub b = Some q → cm_spec p = cm_spec q;
  ag_accounts a b sa sb : a ∈ specs → b ∈ specs →
    k_service_account a = Some sa → k_service_account b = Some sb → sa = sb;
  ag_volumes i j a b k n : i ≠ j → specs !! i = Some a → specs !! j = Some b →
    k = KConfigMap ∨ k = KPvc → (k, n) ∈ owned a → (k, n) ∉ seen b;
}.

(** A builder whose specifications agree, and are well-formed. *)
Class Agreeing (TSpec : Type) `{SpecBuilder TSpec} : Prop := {
  build_well_formed req rc iid specs :
    build_specs req rc iid = Some specs → Forall well_formed specs;
  build_agreeing req rc iid specs :
    build_specs req rc iid = Some specs → NoDup (k_service_name <$> specs) → agreeing specs;
}.

(** The Kubernetes services and the ingresses of the endpoints do not collide. *)
Definition endpoints_apart (specs : list KubernetesSpec) : Prop :=
  ∀ i j a b k n, i ≠ j → specs !! i = Some a → specs !! j = Some b →
    k = KService ∨ k = KIngress → (k, n) ∈ owned a → (k, n) ∉ owned b.

Lemma owned_deployment spec n : (KDeployment, n) ∈ owned spec → n = deployment_name spec.
Proof. rewrite elem_of_owned. naive_solver. Qed.

Lemma owned_component spec n : (KComponent, n) ∈ owned spec → ∃ p, k_pub_sub spec = Some p.
Proof.
  rewrite elem_of_owned. unfold component_name.
  destruct (k_pub_sub spec) as [p|]; [by exists p|]. intros H. exfalso.
  repeat destruct H as [H|H]; try (destruct H as (m & [=] & Hm)); [|done].
  by apply elem_of_nil in Hm.
Qed.

Lemma owned_account spec n : (KServiceAccount, n) ∈ owned spec → ∃ sa, k_service_account spec = Some sa.
Proof.
  rewrite elem_of_owned. unfold account_name.
  destruct (k_service_account spec) as [sa|]; [by exists sa|]. intros H. exfalso.
  repeat destruct H as [H|H]; try (destruct H as (m & [=] & Hm)); [|done].
  by apply elem_of_nil in Hm.
Qed.

(** Besides what it owns a reconciliation sees a config map only. *)
Lemma seen_not_owned spec k n : k ≠ KConfigMap → (k, n) ∈ seen spec → (k, n) ∈ owned spec.
Proof.
  intros Hk. unfold seen. rewrite elem_of_app. intros [H|H]; [done|].
  destruct (k_ingresses spec); [|by apply elem_of_nil in H].
  apply list_elem_of_singleton in H. congruence.
Qed.

Section agreeing.
Context (spooky : list string → Z).
Context (deployment_to_vec : DeploymentSpec → string).
Context (config_maps_to_vec : btree ConfigMap → string).
Context (account_to_vec : option ServiceAccount → string).
Context (rc : RuntimeConfig).
Notation reconciler_of := (reconciler_of spooky deployment_to_vec config_maps_to_vec account_to_vec rc).

Lemma reconciler_account_hash spec r :
  reconciler_of spec = Some r →
  rr_service_account_hash r = calc_service_account_hash spooky account_to_vec spec.
Proof using Type.
  unfold Provisioning.reconciler_of, reconciler_new. destruct (ds_match_labels _); [|done].
  by intros [= <-].
Qed.

(** Their reconcilers do not disturb one another. *)
Lemma agreeing_compatible specs rs :
  NoDup (k_service_name <$> specs) → agreeing specs → endpoints_apart specs →
  mapM reconciler_of specs = Some rs → compatible rs.
Proof using Type.
  intros Hnd Hag Hends Hrs. pose proof (reconcilers_specs _ _ _ _ _ _ _ Hrs) as Hspecs.
  apply mapM_Some in Hrs. intros i j r r' Hne Hi Hj [k n] Ho Hs.
  assert (specs !! i = Some (rr_kspec r)) as Ei by (by rewrite <-Hspecs, list_lookup_fmap, Hi).
  assert (specs !! j = Some (rr_kspec r')) as Ej by (by rewrite <-Hspecs, list_lookup_fmap, Hj).
  pose proof (list_elem_of_lookup_2 _ _ _ Ei) as Hin. pose proof (list_elem_of_lookup_2 _ _ _ Ej) as Hin'.
  destruct (decide (k = KConfigMap ∨ k = KPvc)) as [Hk|Hk].
  { by destruct (ag_volumes _ Hag i j _ _ k n Hne Ei Ej Hk Ho). }
  apply seen_not_owned in Hs; [|by intros ->; apply Hk; left].
  destruct (decide (k = KService ∨ k = KIngress)) as [Hk'|Hk'].
  { by destruct (Hends i j _ _ k n Hne Ei Ej Hk' Ho). }
  destruct k; try (by destruct Hk; auto); try (by destruct Hk'; auto); cbn.
  - destruct (owned_component _ _ Ho) as [p Hp], (owned_component _ _ Hs) as [q Hq].
    rewrite Hp, Hq. cbn. f_equal. by apply (ag_components _ Hag (rr_kspec r) (rr_kspec r')).
  - apply owned_deployment in Ho, Hs. exfalso. apply Hne. eapply NoDup_lookup; [exact Hnd|..];
      rewrite list_lookup_fmap; [by rewrite Ei|]. rewrite Ej. cbn. f_equal.
    rewrite Ho in Hs. unfold deployment_name in Hs.
    rewrite (ag_ids _ Hag (rr_kspec r) (rr_kspec r') Hin Hin') in Hs.
    apply str_app_inj in Hs. by injection Hs.
  - destruct (owned_account _ _ Ho) as [sa Hsa], (owned_account _ _ Hs) as [sb Hsb].
    assert (k_service_account (rr_kspec r) = k_service_account (rr_kspec r')) as Heq.
    { rewrite Hsa, Hsb. f_equal. by apply (ag_accounts _ Hag (rr_kspec r) (rr_kspec r')). }
    split; [|exact Heq].
    rewrite (reconciler_account_hash (rr_kspec r) r), (reconciler_account_hash (rr_kspec r') r').
    + unfold calc_service_account_hash. by rewrite Heq.
    + exact (Forall2_lookup_lr _ _ _ _ _ _ Hrs Ej Hj).
    + exact (Forall2_lookup_lr _ _ _ _ _ _ Hrs Ei Hi).
Qed.
End agreeing.

(** ** In place *)

Lemma agreeing_labelled {TSpec} `{SpecBuilder TSpec} : Agreeing TSpec → BuilderLaws TSpec.
Proof. intros HA req rc iid specs Hb. by eapply well_formed_labelled, build_well_formed. Qed.

Section provisioned.
Context (spooky : list string → Z).
Context (deployment_to_vec : DeploymentSpec → string).
Context (config_maps_to_vec : btree ConfigMap → string).
Context (account_to_vec : option ServiceAccount → string).
Context (rc : RuntimeConfig).
Context (as_stored : ∀ k, obj k → obj k).
Context (merge : ∀ k, obj k → obj k → obj k) (laws : server_laws as_stored merge).
Context {TSpec : Type} `{HB : SpecBuilder TSpec} {agrees : Agreeing TSpec}.
Context (specs_to_vec : list KubernetesSpec → string).
Context (specs_from_slice : string → result (list KubernetesSpec) string).
Context (rt : ResourceType) (actor_type id : string).

Notation reconciler_of := (reconciler_of spooky deployment_to_vec config_maps_to_vec account_to_vec rc).
Notation leads := (leads spooky deployment_to_vec config_maps_to_vec account_to_vec rc as_stored merge
  specs_to_vec specs_from_slice rt actor_type id).

End provisioned.

(** ** The builders *)

Lemma with_account_owned d sa spec k n :
  k ≠ KServiceAccount → (k, n) ∈ owned (with_account d sa spec) → (k, n) ∈ owned spec.
Proof.
  intros Hk. rewrite !elem_of_owned. intros [H|[H|[H|[(m & [= -> ->] & _)|H]]]]; [| | |done|].
  - by left.
  - right. by left.
  - do 2 right. by left.
  - do 4 right. exact H.
Qed.

(** What an identity changes: the deployment and the account. *)
Lemma identity_keeps identity spec out :
  apply_identity_opt identity spec = Some out →
  k_resource_id out = k_resource_id spec ∧ k_pub_sub out = k_pub_sub spec ∧
  k_service_name out = k_service_name spec ∧
  ∀ k n, k ≠ KServiceAccount → (k, n) ∈ owned out → (k, n) ∈ owned spec.
Proof.
  destruct identity as [identity|]; [|by intros [= <-]]. cbn. unfold apply_identity.
  destruct (ensure_account spec) as [spec' sa] eqn:E.
  destruct (identity_parts _ _ _) as [[[[ty env] sa'] d]|]; [|done]. intros [= <-].
  unfold ensure_account in E.
  destruct (k_service_account spec); injection E as <- <-; (split; [done|]); (split; [done|]);
    (split; [done|]); intros k n Hk Ho; by repeat (apply with_account_owned in Ho; [|done]).
Qed.

(** The account depends on the resource and the identity only. *)
Lemma identity_account identity spec spec' out out' :
  k_resource_type spec = k_resource_type spec' → k_resource_id spec = k_resource_id spec' →
  k_service_account spec = None → k_service_account spec' = None →
  apply_identity_opt identity spec = Some out → apply_identity_opt identity spec' = Some out' →
  k_service_account out = k_service_account out'.
Proof.
  intros Ht Hi Hn Hn' H H'. destruct identity as [identity|]; cbn in H, H'; [|congruence].
  unfold apply_identity, ensure_account in H, H'. rewrite Hn in H. rewrite Hn' in H'.
  destruct identity as [| | | |[]|]; try done; injection H as <-; injection H' as <-; cbn; by rewrite ?Ht, ?Hi.
Qed.

(** A service of a source or a reaction: before its identity was applied it had
    no account, no claims, this component and config maps of these names. *)
Definition built_on (rt : ResourceType) (id : string) (maps : string → list string)
    (component : option ComponentSpec) (identity : option ApiServiceIdentity)
    (spec : KubernetesSpec) : Prop :=
  ∃ base, apply_identity_opt identity base = Some spec ∧
    k_resource_type base = rt ∧ k_resource_id base = id ∧ k_service_account base = None ∧
    k_volume_claims base = [] ∧ cm_spec <$> k_pub_sub base = component ∧
    (k_config_maps base).*1 = maps (k_service_name base).

Section built_on.
Context {rt : ResourceType} {id : string} {maps : string → list string}.
Context {component : option ComponentSpec} {identity : option ApiServiceIdentity}.
Notation built := (built_on rt id maps component).

Lemma built_volumes i spec k n :
  built i spec → k = KConfigMap ∨ k = KPvc → (k, n) ∈ owned spec →
  k = KConfigMap ∧ n ∈ maps (k_service_name spec).
Proof using Type.
  intros (base & Hi & _ & _ & _ & Hc & _ & Hm) Hk Ho.
  destruct (identity_keeps _ _ _ Hi) as (_ & _ & -> & Hsub).
  apply Hsub in Ho; [|by destruct Hk as [-> | ->]]. rewrite <-Hm.
  apply elem_of_owned in Ho. rewrite Hc in Ho. destruct Hk as [-> | ->].
  - split; [done|]. destruct Ho as [(m & [= ->] & Hn)|Ho]; [done|]. exfalso. naive_solver.
  - exfalso. destruct Ho as [?|[(m & _ & Hn)|Ho]]; [naive_solver | by apply elem_of_nil in Hn | naive_solver].
Qed.

Lemma built_agreeing specs :
  (∀ s s' n, n ∈ maps s → n ∈ maps s' → s = s') → (∀ s, "drasi-config"%string ∉ maps s) →
  NoDup (k_service_name <$> specs) →
  Forall (λ spec, built identity spec ∨ built None spec) specs → agreeing specs.
Proof using Type.
  intros Hinj Hconf Hnd Hall.
  assert (∀ a, a ∈ specs → ∃ i, (i = identity ∨ i = None) ∧ built i a) as Hb.
  { intros a Ha. rewrite list.Forall_forall in Hall. destruct (Hall a Ha) as [H|H]; eauto. }
  constructor.
  - intros a b (i & _ & base & Hi & _ & Hida & _)%Hb (j & _ & base' & Hj & _ & Hidb & _)%Hb.
    destruct (identity_keeps _ _ _ Hi) as (-> & _), (identity_keeps _ _ _ Hj) as (-> & _). congruence.
  - intros a b p q (i & _ & base & Hi & _ & _ & _ & _ & Hca & _)%Hb
      (j & _ & base' & Hj & _ & _ & _ & _ & Hcb & _)%Hb.
    destruct (identity_keeps _ _ _ Hi) as (_ & -> & _), (identity_keeps _ _ _ Hj) as (_ & -> & _).
    intros Hp Hq. rewrite Hp in Hca. rewrite Hq in Hcb. cbn in *. congruence.
  - intros a b sa sb (i & Hi & base & Ha & Hta & Hida & Hna & _)%Hb
      (j & Hj & base' & Hb' & Htb & Hidb & Hnb & _)%Hb Hsa Hsb.
    destruct Hi as [->| ->]; [|injection Ha as ->; congruence].
    destruct Hj as [->| ->]; [|injection Hb' as ->; congruence].
    rewrite (identity_account identity base base' a b) in Hsa; congruence.
  - intros i j a b k n Hne Ei Ej Hk Ho Hs.
    destruct (Hb a) as (ia & _ & Ha); [by eapply list_elem_of_lookup_2|].
    destruct (Hb b) as (ib & _ & Hb'); [by eapply list_elem_of_lookup_2|].
    destruct (built_volumes _ _ _ _ Ha Hk Ho) as [-> Hn].
    unfold seen in Hs. apply elem_of_app in Hs as [Hs|Hs].
    + destruct (built_volumes _ _ _ _ Hb' Hk Hs) as [_ Hn'].
      apply Hne. eapply NoDup_lookup; [exact Hnd|..]; rewrite list_lookup_fmap; [by rewrite Ei|].
      rewrite Ej. cbn. f_equal. by eapply Hinj.
    + destruct (k_ingresses b); [|by apply elem_of_nil in Hs].
      apply list_elem_of_singleton in Hs as [= ->]. by eapply Hconf.
Qed.
End built_on.

Section builders.
Context (hash_iter : ∀ A, gmap string A → list (string * A)).
Context (spooky : list string → Z) (reaction_to_vec : ApiReactionSpec → string).

Definition query_maps (id sn : string) : list string := [id +:+ "-" +:+ sn +:+ "-" +:+ "queries"].

Lemma reaction_service_built rc reaction env svc spec :
  reaction_service_spec hash_iter rc reaction env svc = Some spec →
  built_on RtReaction (rr_id _ reaction) (query_maps (rr_id _ reaction))
    (Some (cm_spec (reaction_component rc (rr_id _ reaction) []))) (ar_identity (rr_spec _ reaction)) spec.
Proof using Type.
  destruct svc as [sn s]. unfold reaction_service_spec.
  destruct (dapr_app_port s) as [port|]; [|done]. cbn [mbind option_bind].
  destruct (match as_endpoints s with Some _ => _ | None => _ end)
    as [[[services ings] ports]|]; [|done].
  cbn [mbind option_bind]. destruct (parse_i32 _) as [n|]; [|done]. cbn [mbind option_bind].
  intros H. eexists. split; [exact H|]. done.
Qed.

Lemma source_service_built rc id iid identity env svc spec :
  source_service_spec hash_iter rc id iid identity env svc = Some spec →
  built_on RtSource id (λ _, []) None identity spec.
Proof using Type.
  destruct svc as [sn s]. unfold source_service_spec.
  destruct (dapr_app_port s) as [port|]; [|done]. cbn [mbind option_bind].
  destruct (match as_endpoints s with Some _ => _ | None => _ end) as [[services ings]|]; [|done].
  cbn [mbind option_bind]. intros H. eexists. split; [exact H|].
  by destruct (str_eqb sn "proxy").
Qed.

(** Sources. *)
#[export] Instance source_agreeing : @Agreeing _ (source_builder hash_iter).
Proof using Type.
  split; intros req rc iid specs Hb; [by eapply source_build_well_formed|].
  intros Hnd. eapply (built_agreeing (rt := RtSource) (maps := λ _, []) (component := None)
    (identity := as_identity (rr_spec _ req)) (id := rr_id _ req)); [|by intros ? ?%elem_of_nil|done|].
  { by intros ??? ?%elem_of_nil. }
  unfold build_specs, source_builder, source_build in Hb. destruct (mapM _ _) as [l|] eqn:E; [|done].
  injection Hb as <-. do 3 (constructor; [right; eexists; by split|]).
  eapply mapM_Forall; [|exact E]. intros svc spec H. left. by eapply source_service_built.
Qed.

(** Reactions. *)
#[export] Instance reaction_agreeing : @Agreeing _ (reaction_builder hash_iter spooky reaction_to_vec).
Proof using Type.
  split; intros req rc iid specs Hb; [by eapply reaction_build_well_formed|].
  intros Hnd. eapply (built_agreeing (rt := RtReaction) (maps := query_maps (rr_id _ req))
    (identity := ar_identity (rr_spec _ req)) (id := rr_id _ req)); [| |done|].
  - intros s s' n ->%list_elem_of_singleton Hn%list_elem_of_singleton.
    apply str_app_inj in Hn. injection Hn as Hn.
    by destruct (str_app_inj_length s s' ("-" +:+ "queries") _ eq_refl Hn) as [-> _].
  - intros s Hn%list_elem_of_singleton.
    assert (("drasi" +:+ "-config")%string = (rr_id _ req +:+ "-" +:+ s +:+ "-") +:+ "queries") as H.
    { rewrite !str_app_app. exact Hn. }
    by destruct (str_app_inj_length _ _ "-config" "queries" eq_refl H) as [_ ?].
  - eapply mapM_Forall; [|exact Hb]. intros svc spec H. left. by eapply reaction_service_built.
Qed.

(** Query containers. *)
#[export] Instance container_agreeing : @Agreeing _ (container_builder hash_iter).
Proof using Type.
  split; intros req rc iid specs Hb; [by eapply container_build_well_formed|].
  intros Hnd. constructor.
  - intros a b Ha Hb'. pose proof (container_spec_shape _ _ _ _ _ _ Hb Ha) as (? & ? & ? & ? & -> & _).
    by pose proof (container_spec_shape _ _ _ _ _ _ Hb Hb') as (? & ? & ? & ? & -> & _).
  - intros a b p q Ha _. by pose proof (container_spec_shape _ _ _ _ _ _ Hb Ha) as (? & ? & ? & ? & -> & _).
  - intros a b p q Ha _. by pose proof (container_spec_shape _ _ _ _ _ _ Hb Ha) as (? & ? & ? & ? & -> & _).
  - intros i j a b k n Hne Ei Ej _. by apply (container_apart _ _ _ _ _ Hb i j a b Hne Ei Ej).
Qed.
End builders.

(** ** An example: a reaction of two services with an identity *)

Definition example_pair_request : ResourceRequest ApiReactionSpec :=
  mkResourceRequest "alerts" (mkApiReaction "Alerts" None
    (Some {["mailer"%string := mkApiService None "mailer" None
              (Some {["gw"%string := mkApiEndpoint External "8080"]}) None None;
            "logger"%string := mkApiService None "logger" None
              (Some {["log"%string := mkApiEndpoint Internal "9090"]}) None None]})
    None {["q1" := ""]}%string (Some (ApiMicrosoftEntraWorkloadID "client"))).

Definition example_pair_builder := reaction_builder (λ _, map_to_list) (λ _, 255%Z) (λ _, ""%string).
Definition example_pair_specs : list KubernetesSpec :=
  default [] (@build_specs _ example_pair_builder example_pair_request (runtime_config_default ∅) "id-0").
Definition example_pair_actor : ResourceActor :=
  resource_actor_new RtReaction "ReactionResource" "alerts" (runtime_config_default ∅).

(** The two controllers take turns: each makes its own deployment, and one of
    them makes the component and the account for both. *)
Example pair_in_turns :
  let rs := omap (reconciler_of (λ _, 255%Z) (λ _, "d"%string) (λ _, "m"%string) (λ _, "a"%string)
    (runtime_config_default ∅)) example_pair_specs in
  let c := (interleave (cluster_step (λ _ o, o) (λ _ _ new, new)) (concat (replicate 20 [0; 1]))
    (map (controller_run [CmdReconcile]) rs, empty_cluster)).2 in
  (length rs, map (λ n, bool_decide (is_Some (find c KDeployment ("alerts-" +:+ n))))
     ["mailer"; "logger"]%string,
   bool_decide (is_Some (find c KComponent "drasi-pubsub-alerts"))) = (2, [true; true], true).
Proof. vm_compute. reflexivity. Qed.

Lemma endpoints_apart_pair a b :
  Forall (λ x, x.1 = KService ∨ x.1 = KIngress → x ∉ owned b) (owned a) → endpoints_apart [a; b].
Proof.
  rewrite list.Forall_forall. intros H i j a' b' k n Hne Hi Hj Hk Ha Hb.
  destruct i as [|[|i]], j as [|[|j]]; try done; injection Hi as <-; injection Hj as <-.
  - by apply (H (k, n)).
  - by apply (H (k, n)).
Qed.

Lemma services_apart_forall k :
  Forall (λ a, Forall (λ b, a ≠ service_object k b) (k_services k).*1) (k_services k).*1 →
  services_apart k.
Proof.
  intros H a b Ha Hb. rewrite list.Forall_forall in H. specialize (H a Ha).
  rewrite list.Forall_forall in H. by apply H.
Qed.

Notation example_leads := (@leads (λ _, 255%Z) (λ _, "d"%string) (λ _, "m"%string) (λ _, "a"%string)
  (runtime_config_default ∅) (λ _ o, o) (λ _ _ new, new) _ example_pair_builder
  (λ _, "[..]"%string) (λ _, Ok example_pair_specs) RtReaction "ReactionResource" "alerts").


(** ** A controller that was replaced *)

(** The image a deployment runs, and the one a cluster runs for a service. *)
Definition image_of (d : DeploymentSpec) : string :=
  default "" (s ← pt_spec (ds_template d); c ← head (ps_containers s); c_image c).
Definition running_image (name : string) (c : cluster) : option string :=
  image_of <$> (find c KDeployment name ≫= dep_spec).

Definition example_image_request (image : string) : ResourceRequest ApiReactionSpec :=
  mkResourceRequest "alerts" (mkApiReaction "Alerts" None
    (Some {["mailer"%string := mkApiService None image None None None None]})
    None {["q1" := ""]}%string None).

(** Configuring a resource anew drops its controllers without ending them
    ([load_controllers] clears the map; the worker task still handles the
    commands that were sent).  When the one of the first configuration gets to
    its command after the one of the second, both end with the first image
    running, although the second is what the actor stored. *)
Example replaced_controller_undoes :
  let length_hash l := Z.of_nat (list_sum (map String.length l)) in
  let configure_both :=
    r ← run_op (HB := example_pair_builder) (λ _, "[..]"%string) (λ _, Ok [])
          RtReaction "ReactionResource" "alerts" (runtime_config_default ∅)
          (OpConfigure (example_image_request "mailer-v1")) example_pair_actor;
    run_op (HB := example_pair_builder) (λ _, "[..]"%string) (λ _, Ok [])
      RtReaction "ReactionResource" "alerts" (runtime_config_default ∅)
      (OpConfigure (example_image_request "mailer-v10")) r.2 in
  let p := (run provider_step configure_both example_provider).1.2 in
  let ps := default [] (tasks length_hash image_of (λ _, ""%string) (λ _, ""%string)
    (runtime_config_default ∅) p) in
  let after sched := interleave (cluster_step (λ _ o, o) (λ _ _ new, new)) sched (ps, empty_cluster) in
  let ended w := forallb (λ t, match t with Ret _ => true | _ => false end) w.1 in
  let first_then_second := after (replicate 30 0 ++ replicate 30 1) in
  let second_then_first := after (replicate 30 1 ++ replicate 30 0) in
  (length ps, ended first_then_second, ended second_then_first) = (2, true, true) ∧
  running_image "alerts-mailer" first_then_second.2 =
    Some (rc_image_prefix (runtime_config_default ∅) +:+ "mailer-v10" +:+ ":" +:+
          rc_image_tag (runtime_config_default ∅)) ∧
  running_image "alerts-mailer" second_then_first.2 =
    Some (rc_image_prefix (runtime_config_default ∅) +:+ "mailer-v1" +:+ ":" +:+
          rc_image_tag (runtime_config_default ∅)).
Proof. vm_compute. done. Qed.
