(* ===== verification/KubeMonitor.v ===== *)
(** * KubeMonitor: pods that change make their resource reconcile
    ([kubernetes_provider/src/monitor/mod.rs])

    The watcher turns every touched pod into an event; the handler invokes the
    actor of the event's resource, and holds repeated events back until the next
    drain. *)
From S2P Require Import Prelude BTree KubeModels Effects.

Notation actor_key := (string * string)%type.

(** ** The watcher *)

Definition watch_labels : string :=
  "drasi/type in (" +:+ resource_type_to_string RtSource +:+ "," +:+
  resource_type_to_string RtQueryContainer +:+ "," +:+ resource_type_to_string RtReaction +:+ ")".

Definition actor_type_of (t : ResourceType) : string :=
  match t with
  | RtSource => "SourceResource"
  | RtQueryContainer => "QueryContainerResource"
  | RtReaction => "ReactionResource"
  end.

(** The event of a touched pod. *)
Definition pod_event (p : Pod) : option actor_key :=
  let labels := default [] (om_labels (pod_metadata p)) in
  let resource_id := default EmptyString (jget "drasi/resource" labels) in
  let resource_type := default EmptyString (jget "drasi/type" labels) in
  t ← parse_resource_type resource_type;
  Some (actor_type_of t, resource_id).

(** What the watcher's task does: it waits, opens a watch on the pods with some
    labels, takes what the watch yields next ([None] at its end), and sends an
    event to the handler; a send to a handler that is gone is ignored. *)
Inductive watch_call : Type → Type :=
| WSleep (secs : Z) : watch_call unit
| WWatch (labels : string) : watch_call unit
| WNext : watch_call (option (result Pod string))
| WSend (evt : actor_key) : watch_call unit.

Notation W := (prog watch_call).

(** One item of the watch: whether it goes on.  An error ends it. *)
Definition watch_item (item : option (result Pod string)) : W bool :=
  match item with
  | Some (Ok p) =>
      match pod_event p with
      | Some evt => _ ← trigger (WSend evt); mret true
      | None => mret true
      end
  | Some (Err _) => mret false
  | None => mret false
  end.

(** The task's loops: [watching] says whether a watch is open. *)
Fixpoint watcher_run (rounds : nat) (watching : bool) : W unit :=
  match rounds with
  | O => mret ()
  | S rounds =>
      if watching then
        item ← trigger WNext;
        go ← watch_item item;
        watcher_run rounds go
      else
        _ ← trigger (WSleep 5);
        _ ← trigger (WWatch watch_labels);
        watcher_run rounds true
  end.

(** *** Every touched pod is reported *)

Definition yielded (c : call watch_call) : option Pod :=
  match c with Call WNext (Some (Ok p)) => Some p | _ => None end.
Definition reported (c : call watch_call) : option actor_key :=
  match c with Call (WSend evt) _ => Some evt | _ => None end.

(** The events sent are those of the pods the watches yielded, in order,
    across watches that end or fail. *)
Lemma watcher_reports_all rounds watching :
  always (watcher_run rounds watching)
    (λ t o, o = Done () ∧ omap reported t = omap pod_event (omap yielded t)).
Proof.
  revert watching. induction rounds as [|rounds IH]; intros watching; [done|].
  cbn [watcher_run]. destruct watching.
  - apply under_call. intros item _. destruct item as [[p|e]|]; cbn [watch_item].
    + destruct (pod_event p) as [evt|] eqn:Ev.
      * intros x _. eapply (under_mono anything); [done| |apply IH].
        intros t o [-> Ht]. cbn. rewrite Ev. cbn. by rewrite Ht.
      * eapply (under_mono anything); [done| |apply IH]. intros t o [-> Ht]. cbn. by rewrite Ev.
    + eapply (under_mono anything); [done| |apply IH]. by intros t o [-> Ht].
    + eapply (under_mono anything); [done| |apply IH]. by intros t o [-> Ht].
  - intros [] _ [] _. eapply (under_mono anything); [done| |apply IH]. by intros t o [-> Ht].
Qed.

(** ** The handler *)

(** How [select!] ends. *)
Inductive wake :=
| Slept
| Received (evt : actor_key)
| ChannelClosed.

(** A round of the loop: the time since the last drain, in milliseconds, and
    how the wait ends. *)
Record round := mkRound { rd_elapsed : Z; rd_wake : wake }.

Inductive monitor_call : Type → Type :=
| MInvoke (actor_type resource_id method : string) : monitor_call (result unit string).

Notation M := (prog monitor_call).

Section handler.
(** The order in which [HashSet::drain] gives its elements. *)
Context (drain : gset actor_key → list actor_key).

Definition invoke_reconcile (k : actor_key) : M unit :=
  _ ← trigger (MInvoke k.1 k.2 "reconcile");
  mret ().

Fixpoint invoke_all (ks : list actor_key) : M unit :=
  match ks with
  | [] => mret ()
  | k :: ks => _ ← invoke_reconcile k; invoke_all ks
  end.

Definition drain_interval : Z := 1500.

(** The start of a round: the set after it. *)
Definition drain_debounced (elapsed : Z) (debounce_set : gset actor_key) : M (gset actor_key) :=
  if (drain_interval <? elapsed)%Z then
    _ ← invoke_all (drain debounce_set);
    mret ∅
  else mret debounce_set.

(** The rest of a round: the set after it, [None] when the loop ends. *)
Definition handle_wake (w : wake) (debounce_set : gset actor_key) : M (option (gset actor_key)) :=
  match w with
  | Slept => mret (Some debounce_set)
  | Received evt =>
      if decide (evt ∈ debounce_set) then mret (Some debounce_set)
      else
        _ ← invoke_reconcile evt;
        mret (Some ({[evt]} ∪ debounce_set))
  | ChannelClosed => mret None
  end.

Fixpoint handler_run (rounds : list round) (debounce_set : gset actor_key) : M unit :=
  match rounds with
  | [] => mret ()
  | rd :: rounds =>
      debounce_set ← drain_debounced (rd_elapsed rd) debounce_set;
      next ← handle_wake (rd_wake rd) debounce_set;
      match next with
      | Some debounce_set => handler_run rounds debounce_set
      | None => mret ()
      end
  end.

(** ** No event is lost *)

Definition invoked (c : call monitor_call) : actor_key :=
  match c with Call (MInvoke t i _) _ => (t, i) end.

Context (drain_all : ∀ s, drain s ≡ₚ elements s).

Lemma invoke_reconcile_spec k :
  always (invoke_reconcile k) (λ t o, o = Done () ∧ map invoked t = [k]).
Proof using Type. intros x _. cbn. by destruct k. Qed.

Lemma invoke_all_spec ks : always (invoke_all ks) (λ t o, o = Done () ∧ map invoked t = ks).
Proof using Type.
  induction ks as [|k ks IH]; [done|]. cbn [invoke_all].
  eapply under_bind_intro; [apply invoke_reconcile_spec|by intros ?? [??]|]. intros t u [_ Ht].
  eapply (under_mono anything); [done| |apply IH]. intros t' o [-> <-]. by rewrite map_app, Ht.
Qed.

(** What a round does to the set, with the invocations it makes. *)
Definition after_drain (elapsed : Z) (s : gset actor_key) : gset actor_key :=
  if (drain_interval <? elapsed)%Z then ∅ else s.

Lemma drain_spec elapsed s :
  always (drain_debounced elapsed s) (λ t o, o = Done (after_drain elapsed s) ∧
    map invoked t ≡ₚ if (drain_interval <? elapsed)%Z then elements s else []).
Proof using drain_all.
  unfold drain_debounced, after_drain. destruct (drain_interval <? elapsed)%Z; [|done].
  eapply under_bind_intro; [apply invoke_all_spec|by intros ?? [??]|].
  intros t u [_ Ht]. cbn. rewrite app_nil_r, Ht. by rewrite drain_all.
Qed.

Definition next_set (w : wake) (s : gset actor_key) : option (gset actor_key) :=
  match w with
  | Slept => Some s
  | Received e => Some ({[e]} ∪ s)
  | ChannelClosed => None
  end.

Lemma wake_spec w s :
  always (handle_wake w s) (λ t o, o = Done (next_set w s) ∧
    map invoked t = match w with Received e => if decide (e ∈ s) then [] else [e] | _ => [] end).
Proof using Type.
  clear drain_all drain. destruct w as [|e|]; [done| |done]. cbn. case_decide as He.
  - cbn. split; [|done]. do 2 f_equal. set_solver.
  - intros x _. cbn. by destruct e.
Qed.

(** The invocations of a whole run. *)
Fixpoint expected (rounds : list round) (s : gset actor_key) : list (list actor_key) :=
  match rounds with
  | [] => []
  | rd :: rounds =>
      let s' := after_drain (rd_elapsed rd) s in
      ((if (drain_interval <? rd_elapsed rd)%Z then elements s else []) ++
       match rd_wake rd with Received e => if decide (e ∈ s') then [] else [e] | _ => [] end) ::
      match next_set (rd_wake rd) s' with Some s'' => expected rounds s'' | None => [] end
  end.

Lemma run_spec rounds s :
  always (handler_run rounds s) (λ t o, o = Done () ∧ map invoked t ≡ₚ concat (expected rounds s)).
Proof using drain_all.
  revert s. induction rounds as [|rd rounds IH]; intros s; [done|]. cbn [handler_run expected].
  eapply under_bind_intro; [apply drain_spec|by intros ?? [??]|]. intros t s' [[= <-] Ht].
  eapply under_bind_intro; [apply wake_spec|by intros ?? [??]|]. intros t' n [[= ->] Ht'].
  cbn [concat]. destruct (next_set _ _) as [s''|] eqn:E.
  - eapply (under_mono anything); [done| |apply IH]. intros t'' o [-> Ht'']. split; [done|].
    rewrite !map_app, Ht, Ht', Ht''. by rewrite app_assoc.
  - cbn. split; [done|]. rewrite !app_nil_r, map_app, Ht, Ht'. done.
Qed.

(** An event in the set is invoked at the next drain. *)
Lemma expected_drained e rounds1 rd rounds2 s :
  e ∈ s → (drain_interval < rd_elapsed rd)%Z →
  Forall (λ r, rd_wake r ≠ ChannelClosed) rounds1 →
  e ∈ concat (expected (rounds1 ++ rd :: rounds2) s).
Proof using Type.
  clear drain_all drain. intros He Hd Hc. revert s He.
  induction Hc as [|r rounds1 Hr Hc IH]; intros s He; cbn [app expected concat].
  - apply Z.ltb_lt in Hd. rewrite Hd, !elem_of_app. left. left. by apply elem_of_elements.
  - unfold after_drain. destruct (drain_interval <? rd_elapsed r)%Z eqn:E.
    + rewrite !elem_of_app. left. left. by apply elem_of_elements.
    + rewrite elem_of_app. right. destruct (rd_wake r) as [|e'|]; cbn [next_set]; [| |done].
      * by apply IH.
      * apply IH. set_solver.
Qed.

(** An event received before a round that drains is invoked: at once, unless the
    resource is held back, and then by that drain. *)
Lemma received_invoked e rounds1 rd rounds2 s :
  Received e ∈ map rd_wake rounds1 → (drain_interval < rd_elapsed rd)%Z →
  Forall (λ r, rd_wake r ≠ ChannelClosed) rounds1 →
  e ∈ concat (expected (rounds1 ++ rd :: rounds2) s).
Proof using Type.
  clear drain_all drain. intros Hin Hd Hc. revert s.
  induction Hc as [|r rounds1 Hr Hc IH]; intros s; [by apply elem_of_nil in Hin|].
  cbn [app expected concat]. set (s' := after_drain _ s).
  apply list.elem_of_cons in Hin as [He|Hin].
  - rewrite <-He. case_decide as Hs'.
    + rewrite elem_of_app. right. cbn [next_set]. apply expected_drained; [set_solver | done..].
    + rewrite !elem_of_app. left. right. by left.
  - rewrite elem_of_app. right. destruct (rd_wake r) as [|e'|]; cbn [next_set]; [| |done]; by apply IH.
Qed.

(** No change of a resource's pods is lost: when an event has been received
    in a round without a drain, its actor is invoked by the time of the next
    drain, whatever the other rounds and the invocations' answers are, unless
    the channel closes before. *)
Theorem events_reconciled e elapsed rounds1 rd rounds2 s :
  (elapsed ≤ drain_interval)%Z → (drain_interval < rd_elapsed rd)%Z →
  Forall (λ r, rd_wake r ≠ ChannelClosed) rounds1 →
  always (handler_run (mkRound elapsed (Received e) :: rounds1 ++ rd :: rounds2) s)
    (λ t o, o = Done () ∧ e ∈ map invoked t).
Proof using drain_all.
  intros Hl Hd Hc. eapply (under_mono anything); [done| |apply run_spec].
  intros t o [-> ->]. split; [done|]. cbn [expected rd_elapsed rd_wake next_set concat].
  rewrite elem_of_app. right. apply expected_drained; [|done..]. set_solver.
Qed.

(** Held back: as long as the set is not drained, a resource is invoked at
    most once, and not at all when it was invoked before. *)
Theorem debounce_bounds_invocations rounds s :
  Forall (λ r, (rd_elapsed r ≤ drain_interval)%Z) rounds →
  always (handler_run rounds s)
    (λ t o, o = Done () ∧ NoDup (map invoked t) ∧ ∀ e, e ∈ map invoked t → e ∉ s).
Proof using drain_all.
  intros Hl. eapply (under_mono anything); [done| |apply run_spec]. intros t o [-> Ht].
  setoid_rewrite Ht. split; [done|]. clear t Ht drain_all drain. revert s.
  induction Hl as [|r rounds Hr Hl IH]; intros s; cbn [expected concat].
  { split; [constructor|]. by intros e ?%elem_of_nil. }
  apply Z.ltb_ge in Hr. unfold after_drain. rewrite Hr. cbn [app].
  destruct (rd_wake r) as [|e|]; cbn [next_set concat app].
  - apply IH.
  - destruct (IH ({[e]} ∪ s)) as [Hnd Hni]. case_decide as He; cbn [app].
    + split; [done|]. intros e' Hin%Hni. set_solver.
    + split; [constructor; [intros Hin%Hni; set_solver | done]|].
      intros e' [->|Hin%Hni]%list.elem_of_cons; set_solver.
  - split; [constructor|]. by intros e ?%elem_of_nil.
Qed.
End handler.

Definition example_event : actor_key := ("SourceResource", "s")%string.

Lemma events_reconciled_witness :
  always (handler_run elements (mkRound 0 (Received example_event) ::
      [mkRound 500 (Received example_event)] ++ mkRound 2000 Slept :: []) {[example_event]})
    (λ t o, o = Done () ∧ example_event ∈ map invoked t).
Proof.
  apply (events_reconciled elements (λ s, reflexivity _)); [done | done |]. by repeat constructor.
Defined.

Lemma debounce_bounds_invocations_witness :
  always (handler_run elements [mkRound 0 (Received example_event);
      mkRound 500 (Received example_event)] ∅)
    (λ t o, o = Done () ∧ NoDup (map invoked t) ∧ ∀ e, e ∈ map invoked t → e ∉ (∅ : gset actor_key)).
Proof. apply debounce_bounds_invocations; [done | by repeat constructor]. Defined.
