(* ===== verification/Repair.v ===== *)
(** * Repair: a change of a pod brings its container back in place

    The watcher reports every pod of a resource that changes, the handler makes
    the resource's actor reconcile, the actor tells its controllers, and these
    bring the cluster back.  The tasks of the monitor, the actor and the
    controllers are put together. *)
From S2P Require Import Prelude BTree RustText MgmtModels Mappings KubeModels SpecBuilder SpecBuilderSpec Effects KubeApi Reconciler KubeController Convergence Interleave Sharing Removal ResourceActor ResourceActorSpec Provisioning KubeMonitor.

(** ** The pods of a container *)

(** The pod carries the labels of the deployment's pods. *)
Definition pod_of (spec : KubernetesSpec) (p : Pod) : Prop :=
  ∃ labels, pod_labels (k_deployment spec) = Some labels ∧
    sub_labels labels (default [] (om_labels (pod_metadata p))).

Lemma container_pods hash_iter rc req iid specs spec :
  container_build hash_iter rc req iid = Some specs → spec ∈ specs →
  ∃ sn, pod_labels (k_deployment spec) =
    Some (service_labels RtQueryContainer (rr_id ApiQueryContainerSpec req) sn).
Proof.
  intros [= <-] Hin.
  apply list.elem_of_cons in Hin as [->|Hin]; [by eexists|].
  apply list.elem_of_cons in Hin as [->|Hin%list_elem_of_singleton]; [|subst spec; by eexists].
  unfold query_host_spec. destruct (container_stores _ _ _ _) as [[env claims] volumes]. by eexists.
Qed.

(** What the monitor makes of such a pod: an event for the container's actor. *)
Lemma container_pod_event rt id sn p :
  sub_labels (service_labels rt id sn) (default [] (om_labels (pod_metadata p))) →
  pod_event p = Some (actor_type_of rt, id).
Proof.
  intros Hsub. unfold pod_event.
  rewrite (Hsub "drasi/resource"%string id) by by destruct rt.
  rewrite (Hsub "drasi/type"%string (resource_type_to_string rt)) by by destruct rt.
  cbn. by rewrite parse_resource_type_display.
Qed.

(** ** The actor, invoked *)

(** An invocation of the actor [a]; others are not known here. *)
Definition actor_server (a : ResourceActor) (X : Type) (e : monitor_call X) (p : provider)
    : X * provider :=
  match e in monitor_call X return X * provider with
  | MInvoke actor_type resource_id method =>
      if decide (actor_type = ra_actor_type a ∧ resource_id = ra_id a ∧ method = "reconcile"%string)
      then (Ok (), (run provider_step (actor_reconcile a) p).1.2)
      else (Err "no such actor"%string, p)
  end.

Definition tell (a : ResourceActor) (m : nat) (p : provider) : provider :=
  mkProvider (pv_kv p) (pv_uuids p) (pv_next p) (pv_started p)
    (pv_sent p ++ told (ra_controllers a) (replicate m CmdReconcile)).

Lemma tell_0 a p : tell a 0 p = p.
Proof. unfold tell, told. cbn. rewrite app_nil_r. by destruct p. Qed.

Lemma tell_add a m m' p : tell a m' (tell a m p) = tell a (m + m') p.
Proof.
  unfold tell, told. cbn. by rewrite replicate_add, map_app, concat_app, app_assoc.
Qed.

Lemma run_actor_reconcile a p : (run provider_step (actor_reconcile a) p).1.2 = tell a 1 p.
Proof.
  unfold actor_reconcile, reconcile_internal. rewrite run_bind.
  destruct (run_send_all CmdReconcile (ra_controllers a) p) as [t ->]. cbn.
  unfold tell, told. cbn. by rewrite app_nil_r.
Qed.

(** How often the calls make the actor reconcile. *)
Definition reconciles (a : ResourceActor) (c : call monitor_call) : bool :=
  match c with
  | Call (MInvoke t i m) _ => bool_decide (t = ra_actor_type a ∧ i = ra_id a ∧ m = "reconcile"%string)
  end.

Lemma run_invocations {A} a (q : prog monitor_call A) p :
  let '(o, p', t) := run (actor_server a) q p in
  p' = tell a (length (filter (λ c, reconciles a c = true) t)) p.
Proof.
  revert p. induction q as [x|w|X e k IH]; intros p; cbn [run]; [by rewrite tell_0..|].
  specialize (IH (actor_server a X e p).1 (actor_server a X e p).2).
  destruct (actor_server a X e p) as [x p1] eqn:E. cbn [fst snd] in IH.
  destruct (run (actor_server a) (k x) p1) as [[o p2] t]. subst p2.
  rewrite filter_cons. destruct e as [ty i m]. cbn in E |- *.
  case_decide as Hd; injection E as <- <-.
  - rewrite decide_True by by apply bool_decide_eq_true. rewrite run_actor_reconcile. cbn [length].
    by rewrite tell_add.
  - rewrite decide_False; [done|]. by rewrite bool_decide_eq_true.
Qed.

(** ** The handler *)

Definition asks_reconcile (X : Type) (e : monitor_call X) : Prop :=
  match e with MInvoke _ _ m => m = "reconcile"%string end.

Lemma handler_asks drain rounds s : confined asks_reconcile (handler_run drain rounds s).
Proof.
  assert (∀ k, confined asks_reconcile (invoke_reconcile k)) as Hk by done.
  revert s. induction rounds as [|rd rounds IH]; intros s; [done|]. cbn [handler_run].
  apply confined_bind; [|intros s'; apply confined_bind].
  - unfold drain_debounced. case_match; [|done]. apply confined_bind; [|done].
    generalize (drain s). intros ks. induction ks as [|k ks IHk]; [done|].
    by apply confined_bind; [|intros _].
  - unfold handle_wake. case_match; [done| |done]. by case_decide.
  - by intros [s''|].
Qed.

(** The events of the rounds' wakes. *)
Definition received (rd : round) : option actor_key :=
  match rd_wake rd with Received e => Some e | _ => None end.

Section handler.
Context (drain : gset actor_key → list actor_key) (drain_all : ∀ s, drain s ≡ₚ elements s).

(** An event of the actor, received before a drain: its controllers are told to
    reconcile, at least once. *)
Lemma event_tells a e rounds1 rd rounds2 s p :
  e = (ra_actor_type a, ra_id a) → e ∈ omap received rounds1 →
  (drain_interval < rd_elapsed rd)%Z → Forall (λ r, rd_wake r ≠ ChannelClosed) rounds1 →
  ∃ m t, run (actor_server a) (handler_run drain (rounds1 ++ rd :: rounds2) s) p =
    (Done (), tell a (S m) p, t).
Proof using drain_all.
  intros He Hin Hd Hc.
  pose proof (run_invocations a (handler_run drain (rounds1 ++ rd :: rounds2) s) p) as Hinv.
  pose proof (always_run (actor_server a) _ _ p (run_spec drain drain_all (rounds1 ++ rd :: rounds2) s))
    as Hspec.
  pose proof (always_run (actor_server a) _ _ p
    (confined_always _ _ (handler_asks drain (rounds1 ++ rd :: rounds2) s))) as Hasks.
  destruct (run (actor_server a) _ p) as [[o p'] t]. destruct Hspec as [-> Hperm]. subst p'.
  assert (e ∈ map invoked t) as Hcall.
  { rewrite Hperm. apply received_invoked; [|done..]. apply list_elem_of_omap in Hin as (r & Hr & Hw).
    unfold received in Hw. apply list_elem_of_fmap. exists r. split; [|done].
    destruct (rd_wake r); [done| |done]. by injection Hw as ->. }
  apply list_elem_of_fmap in Hcall as (c & Hinvoked & Hc').
  assert (c ∈ filter (λ c, reconciles a c = true) t) as Hf.
  { apply list_elem_of_filter. split; [|done]. rewrite list.Forall_forall in Hasks.
    specialize (Hasks _ Hc'). destruct c as [X [ty i m] x]. cbn in *. subst m e.
    injection Hinvoked as -> ->. by apply bool_decide_eq_true. }
  destruct (filter _ t) as [|c' l]; [by apply elem_of_nil in Hf|]. by exists (length l), t.
Qed.
End handler.

(** ** What may be lost *)

(** Whatever objects other than the Kubernetes services are lost, the rest can be
    reconciled again. *)
Lemma managed_lost r k name c :
  k ≠ KService → managed r c → managed r (drop_obj k name c).
Proof.
  intros Hk ((Hdep & Hpvc & Hcomp & Hacc) & Hbare & Hall).
  assert (∀ k' n good, checked k' n good c → checked k' n good (drop_obj k name c)) as Hc.
  { intros k' n good H o. rewrite find_drop. case_decide; [done | apply H]. }
  assert (∀ n, find (drop_obj k name c) KService n = find c KService n) as Hs.
  { intros n. rewrite find_drop. case_decide; congruence. }
  split; [|split].
  - split; [by apply Hc|]. split; [|split]; intros; apply Hc; eauto.
  - intros n Hn. rewrite Hs. by apply Hbare.
  - destruct Hall as [Hall|Hall]; [left|right].
    + intros n s Hn. destruct (Hall n s Hn) as (o & Ho & Hg). exists o. by rewrite Hs.
    + intros n Hn. unfold no_service. rewrite Hs. by apply Hall.
Qed.

(** ** The whole *)

Section repair.
Context (spooky : list string → Z).
Context (deployment_to_vec : DeploymentSpec → string).
Context (config_maps_to_vec : btree ConfigMap → string).
Context (account_to_vec : option ServiceAccount → string).
Context (rc : RuntimeConfig).
Context (as_stored : ∀ k, obj k → obj k).
Context (merge : ∀ k, obj k → obj k → obj k).
Context (laws : server_laws as_stored merge).
Context (hash_iter : ∀ A, gmap string A → list (string * A)).
Context (drain : gset actor_key → list actor_key) (drain_all : ∀ s, drain s ≡ₚ elements s).

Notation tasks := (tasks spooky deployment_to_vec config_maps_to_vec account_to_vec rc).

(** C10: A container is repaired when one of its pods changes.  Whatever watches
    end or fail, a pod that is touched is reported; when the handler has received
    what was reported and reaches its next drain, whatever it held back before,
    the container's actor has told each of its controllers to reconcile; and
    these, run at the same time on a cluster from which objects of the container
    were lost ([managed_lost]), or which still has its deployments as another
    version of the specification asked, all end with every object there again, saying what the specification
    asks for.  What was edited with its hash left is not noticed ([managed]
    excludes it). *)
Theorem container_repaired req iid specs old spec a p pod rounds watching :
  container_build hash_iter rc req iid = Some specs → spec ∈ specs → pod_of spec pod →
  ra_actor_type a = "QueryContainerResource"%string → ra_id a = rr_id _ req →
  labelled old → ra_controllers a = numbered (length old) specs [] → pv_started p = old ++ specs →
  pv_sent p = [] →
  always (watcher_run rounds watching) (λ t _, pod ∈ omap yielded t →
    ∀ rounds1 rd rounds2 held, omap received rounds1 = omap reported t →
      (drain_interval < rd_elapsed rd)%Z → Forall (λ r, rd_wake r ≠ ChannelClosed) rounds1 →
      ∃ p' t' ps rs,
        run (actor_server a) (handler_run drain (rounds1 ++ rd :: rounds2) held) p = (Done (), p', t') ∧
        tasks p' = Some ps ∧ rr_kspec <$> rs = specs ∧
        ∀ c, Forall (λ r, managed r c) rs →
          all_end (cluster_step as_stored merge) ps c (λ c', Forall (λ r, in_sync r c') rs)).
Proof using laws drain_all.
  intros Hb Hin (labels & Hlabels & Hsub) Hty Hid Hold Hctl Hstart Hsent.
  destruct (container_pods _ _ _ _ _ _ Hb Hin) as [sn Hsn]. rewrite Hlabels in Hsn. injection Hsn as ->.
  pose proof (container_pod_event _ _ _ _ Hsub) as Hev.
  eapply (under_mono anything); [done| |apply watcher_reports_all].
  intros t o [_ Hrep] Hpod rounds1 rd rounds2 held Hrec Hd Hc.
  destruct (event_tells drain drain_all a (ra_actor_type a, ra_id a) rounds1 rd rounds2 held p)
    as (m & t' & Hrun); [done| |done|done|].
  { rewrite Hrec, Hrep, Hty, Hid. apply list_elem_of_omap. by exists pod. }
  destruct (container_reconcilers spooky deployment_to_vec config_maps_to_vec account_to_vec rc
    hash_iter _ _ _ Hb) as (rs & Hrs & _ & Hspecs).
  exists (tell a (S m) p), t', ((Ret <$> replicate (length old) []) ++
    map (controller_run (replicate (S m) CmdReconcile)) rs), rs.
  split; [exact Hrun|]. split; [|split; [done|]].
  - apply (tasks_told _ _ _ _ _ _ _ specs); [done | exact Hrs | by eapply container_names_nodup | exact Hstart |].
    cbn [pv_sent tell]. by rewrite Hsent, Hctl.
  - intros c Hfree. by eapply all_end_ended, container_converges.
Qed.
End repair.

(** ** An example: a pod of the default container's query host *)

Definition example_pod : Pod :=
  mkPod (mkMeta (Some "default-query-host-7d9"%string)
    (Some (jset "pod-template-hash" "7d9" (service_labels RtQueryContainer "default" "query-host")))
    None None) None.

(** A watch that yields the pods of a list. *)
Definition watch_env (X : Type) (e : watch_call X) (pods : list Pod) : X * list Pod :=
  match e in watch_call X return X * list Pod with
  | WSleep _ => ((), pods)
  | WWatch _ => ((), pods)
  | WNext => match pods with p :: pods => (Some (Ok p), pods) | [] => (None, []) end
  | WSend _ => ((), pods)
  end.

Definition example_key : actor_key := ("QueryContainerResource", "default")%string.
Definition example_host_actor : ResourceActor :=
  set_controllers (numbered 0 example_container_specs []) example_actor.

Lemma container_repaired_witness :
  let '(_, _, t) := run watch_env (watcher_run 2 false) [example_pod] in
  example_pod ∈ omap yielded t ∧
  ∃ p' t' ps rs,
    run (actor_server example_host_actor)
      (handler_run elements ([mkRound 0 (Received example_key)] ++ mkRound 2000 Slept :: [])
         {[example_key]}) example_running = (Done (), p', t') ∧
    tasks (λ _, 255%Z) (λ _, "d"%string) (λ _, "m"%string) (λ _, "a"%string)
      (runtime_config_default ∅) p' = Some ps ∧ rr_kspec <$> rs = example_container_specs ∧
    ∀ c, Forall (λ r, managed r c) rs →
      all_end (cluster_step (λ _ o, o) (λ _ _ new, new)) ps c (λ c', Forall (λ r, in_sync r c') rs).
Proof.
  assert (∃ spec, spec ∈ example_container_specs ∧ pod_of spec example_pod) as (spec & Hin & Hpod).
  { exists (query_host_spec (λ _, map_to_list) (runtime_config_default ∅) "default"
      (rr_spec _ example_container_request)). split; [right; left|].
    exists (service_labels RtQueryContainer "default" "query-host"). split; [vm_compute; reflexivity|].
    apply (sub_labels_jset _ _ "pod-template-hash" "7d9"); [by intros k v Hk | reflexivity]. }
  assert (container_build (λ _, map_to_list) (runtime_config_default ∅) example_container_request
    "id-0" = Some example_container_specs) as Hb by (vm_compute; reflexivity).
  pose proof (container_repaired (λ _, 255%Z) (λ _, "d"%string)
    (λ _, "m"%string) (λ _, "a"%string) (runtime_config_default ∅) (λ _ o, o) (λ _ _ new, new)
    example_laws (λ _, map_to_list) elements (λ s, reflexivity _) example_container_request "id-0"
    example_container_specs [] spec example_host_actor example_running example_pod 2 false Hb Hin Hpod
    eq_refl eq_refl ltac:(constructor) eq_refl eq_refl eq_refl) as H.
  apply (always_run watch_env _ _ [example_pod]) in H.
  assert (run watch_env (watcher_run 2 false) [example_pod] = (Done (), [],
    [Call (WSleep 5) (); Call (WWatch watch_labels) (); Call WNext (Some (Ok example_pod));
     Call (WSend example_key) ()])) as E by (vm_compute; reflexivity).
  rewrite E in H |- *. split; [left|]. apply H; [left | done | done |].
  by constructor; [|constructor].
Defined.
