(* ===== verification/Wiring.v ===== *)
(** * Wiring: how the deployed services find each other

    What each service reads from its environment when it starts (the [main.rs] and
    configuration files of the services), against the environments, ports and
    names that the provider's deployments give them ([spec_builder]). *)
From S2P Require Import Prelude BTree Json RustText Effects MgmtModels Mappings KubeModels SpecBuilder.
From S2P Require Import StorageConfig.
From S2P Require Comms ChangeRouter ChangeDispatcher QueryApi SourceSdk SourceClient.
From S2P Require Core HostApi QueryWorker MgmtServices ViewApi ViewWorker ChangeStream ResultStream.
From S2P Require ChangeDispatcherSpec.
From S2P Require Import SdkPipeline.

(** ** The services' configurations *)

(** [ChangeRouterConfig::from_env] *)
Definition router_from_env (env : Env) : outcome ChangeRouter.ChangeRouterConfig :=
  match env !! "SOURCE_ID"%string with
  | None => Panicked "SOURCE_ID must be set"
  | Some source_id =>
      Done (ChangeRouter.mkConfig source_id (env_var_or env "SUBSCRIBER_STORE" "drasi-state")
        (env_var_or env "PUBSUB_NAME" "drasi-pubsub")
        (env_var_or env "OTEL_ENDPOINT" "http://otel-collector:4318")
        (env_var_or env "DAPR_HTTP_PORT" "3000") (env_var_or env "APP_PORT" "3000"))
  end.

Record ChangeDispatcherConfig := mkDispatcherConfig {
  cd_source_id : string;
  cd_subscriber_store : string;
  cd_pubsub_name : string;
  cd_dapr_http_port : string;
  cd_app_port : string;
}.

(** [ChangeDispatcherConfig::new] *)
Definition dispatcher_new (env : Env) : ChangeDispatcherConfig :=
  mkDispatcherConfig (env_var_or env "SOURCE_ID" "source_id")
    (env_var_or env "SUBSCRIBER_STORE" "subscriber_store") (env_var_or env "PUBSUB_NAME" "drasi-pubsub")
    (env_var_or env "DAPR_HTTP_PORT" "3500") (env_var_or env "APP_PORT" "3000").

(** The dispatcher's [main], up to its server: the invoker and the port. *)
Definition dispatcher_main (env : Env) : outcome (Comms.DaprHttpInvoker * string) :=
  let config := dispatcher_new env in
  match parse_u16 (cd_dapr_http_port config) with
  | Some dapr_http_port => Done (Comms.mkDaprInvoker "127.0.0.1" dapr_http_port, cd_app_port config)
  | None => Panicked ("Invalid DAPR_HTTP_PORT: " +:+ cd_dapr_http_port config)
  end.

(** The subscription it announces reads the environment again. *)
Definition dispatcher_subscribe (env : Env) : value :=
  let config := dispatcher_new env in
  ChangeDispatcher.subscribe (cd_pubsub_name config) (cd_source_id config).

Record QueryApiConfig := mkQueryApiConfig {
  qac_pubsub_name : string;
  qac_app_port : string;
  qac_source_id : string;
  qac_dapr_port : string;
}.

(** [QueryApiConfig::new] *)
Definition query_api_new (env : Env) : result QueryApiConfig string :=
  match env !! "SOURCE_ID"%string with
  | None => Err "Missing SOURCE_ID environment variable"%string
  | Some source_id =>
      Ok (mkQueryApiConfig (env_var_or env "PUBSUB_NAME" "drasi-pubsub") (env_var_or env "APP_PORT" "80")
            source_id (env_var_or env "DAPR_HTTP_PORT" "3500"))
  end.

(** The query API's [main], up to its server: publisher, invoker and port. *)
Definition query_api_main (env : Env)
    : outcome (Comms.DaprHttpPublisher * Comms.DaprHttpInvoker * string) :=
  match query_api_new env with
  | Err e => Panicked ("Error parsing the configuration: " +:+ e)
  | Ok config =>
      match parse_u16 (qac_dapr_port config) with
      | None => Panicked "Error parsing the Dapr port"
      | Some dapr_port =>
          Done (Comms.mkDaprPublisher "127.0.0.1" dapr_port (qac_pubsub_name config)
                  (qac_source_id config +:+ "-change"),
                Comms.mkDaprInvoker "127.0.0.1" dapr_port, qac_app_port config)
      end
  end.

(** The publish API's [main], up to its server: the broker, the stream's topic
    and the port; a missing identifier ends the process. *)
Definition publish_api_main (env : Env) : option (string * string * Z) :=
  query_container_id ← env !! "QUERY_NODE_ID"%string;
  let redis_url := env_var_or env "REDIS_BROKER" "redis://drasi-redis:6379" in
  let topic := query_container_id +:+ "-publish" in
  Some (redis_url, topic, default 4000%Z (parse_u16 (env_var_or env "PORT" "4000"))).

(** The middleware factories a query host offers its queries. *)
Inductive MiddlewareFactory :=
| MapFactory
| UnwindFactory
| RelabelMiddlewareFactory
| DecoderFactory
| ParseJsonFactory
| PromoteMiddlewareFactory.

Record QueryHostConfig := mkQueryHostConfig {
  qh_query_container_id : string;
  qh_dapr_host : string;
  qh_dapr_http_port : Z;
  qh_pubsub : string;
  qh_redis_url : string;
  qh_buffer_size : Z;
  qh_fetch_batch_size : Z;
  qh_actor_name : string;
  qh_middleware : list MiddlewareFactory;
  qh_methods : list string;
  qh_listen : Z;
}.

(** The query host's [main], up to its server. *)
Definition query_host_main (env : Env) : outcome QueryHostConfig :=
  match env !! "QUERY_NODE_ID"%string with
  | None => Panicked "QUERY_NODE_ID must be set"
  | Some query_container_id =>
      match match env !! "DAPR_HTTP_PORT"%string with
            | Some val => parse_u16 val
            | None => Some 3500%Z
            end with
      | None => Panicked "called `Result::unwrap()` on an `Err` value"
      | Some dapr_http_port =>
          Done (mkQueryHostConfig query_container_id "127.0.0.1" dapr_http_port
            (env_var_or env "PUBSUB" "drasi-pubsub")
            (env_var_or env "REDIS_BROKER" "redis://drasi-redis:6379") 20 5
            (query_container_id +:+ ".ContinuousQuery")
            [MapFactory; UnwindFactory; RelabelMiddlewareFactory; DecoderFactory; ParseJsonFactory;
             PromoteMiddlewareFactory]
            ["configure"; "getStatus"; "deprovision"; "reconcile"] 3000)%string
      end
  end.

(** [view_store_factory::from_env]: the database of the store it connects to, where
    [todo!()] panics; [connect] is the driver's error, if it cannot connect. *)
Definition view_store_from_env (connect : string → string → option string) (env : Env)
    : outcome (result (string * string) ViewApi.ViewError) :=
  let store_type := env_var_or env "VIEW_STORE_TYPE" "mongo" in
  if str_eqb store_type "redis" then Panicked "not yet implemented"
  else if str_eqb store_type "mongo" then
    let mongo_uri := env_var_or env "MONGO_URI" "mongodb://drasi-mongo:27017" in
    let db_name := env_var_or env "MONGO_DB" "drasi-results" in
    match connect mongo_uri db_name with
    | Some e => Done (Err (ViewApi.StoreError e))
    | None => Done (Ok (mongo_uri, db_name))
    end
  else Done (Err (ViewApi.ViewOther ("Unknown view store type " +:+ store_type))).

Record ViewServiceConfig := mkViewServiceConfig {
  vsc_redis_url : string;
  vsc_buffer_size : Z;
  vsc_fetch_batch_size : Z;
  vsc_actor_name : string;
  vsc_methods : list string;
  vsc_database : string * string;
  vsc_view_port : Z;
  vsc_listen : Z;
}.

(** The view service's [main], up to its server. *)
Definition view_svc_main (connect : string → string → option string) (env : Env)
    : outcome (result ViewServiceConfig ViewApi.ViewError) :=
  match env !! "QUERY_NODE_ID"%string with
  | None => Panicked "QUERY_NODE_ID must be set"
  | Some query_container_id =>
      match view_store_from_env connect env with
      | Panicked why => Panicked why
      | Done (Err e) => Done (Err e)
      | Done (Ok database) =>
          Done (Ok (mkViewServiceConfig (env_var_or env "REDIS_BROKER" "redis://drasi-redis:6379") 20 5
            (query_container_id +:+ ".View") ["configure"; "deprovision"]%string database 80 8080))
      end
  end.

(** *** The management API *)

Inductive ApiResource :=
| ApiSources
| ApiQueryContainers
| ApiReactions
| ApiContinuousQueries
| ApiSourceProviders
| ApiReactionProviders.

Inductive ApiHandler :=
| PutResource (r : ApiResource) (id : string)
| GetResource (r : ApiResource) (id : string)
| DeleteResource (r : ApiResource) (id : string)
| ListResources (r : ApiResource)
| ReadyWait (r : ApiResource) (id : string)
| WatchQuery (id : string)
| DebugQuery.

(** The scopes below [/v1]. *)
Definition api_scope (name : string) : option ApiResource :=
  jget name (jobject
    [("sources", ApiSources); ("queryContainers", ApiQueryContainers); ("reactions", ApiReactions);
     ("continuousQueries", ApiContinuousQueries); ("sourceProviders", ApiSourceProviders);
     ("reactionProviders", ApiReactionProviders)]%string).

Definition is_provider (r : ApiResource) : bool :=
  match r with ApiSourceProviders | ApiReactionProviders => true | _ => false end.

Definition is_queries (r : ApiResource) : bool :=
  match r with ApiContinuousQueries => true | _ => false end.

(** The [configure] functions: the handler of a method and the segments of a path
    that is not empty between its slashes. *)
Definition api_route (method : string) (path : list string) : option ApiHandler :=
  match path with
  | ["v1"; "debug"]%string => if str_eqb method "GET" then Some DebugQuery else None
  | [v; scope] =>
      if str_eqb v "v1" && str_eqb method "GET" then ListResources <$> api_scope scope else None
  | [v; scope; id] =>
      if str_eqb v "v1" then
        r ← api_scope scope;
        if str_eqb method "PUT" then Some (PutResource r id)
        else if str_eqb method "GET" then Some (GetResource r id)
        else if str_eqb method "DELETE" then Some (DeleteResource r id)
        else None
      else None
  | [v; scope; id; what] =>
      if str_eqb v "v1" && str_eqb method "GET" then
        r ← api_scope scope;
        if str_eqb what "ready-wait" && negb (is_provider r) then Some (ReadyWait r id)
        else if str_eqb what "watch" && is_queries r then Some (WatchQuery id)
        else None
      else None
  | _ => None
  end.

Record MgmtApiConfig := mkMgmtApiConfig {
  ma_mongo_uri : string;
  ma_mongo_db : string;
  ma_invoker : Comms.DaprHttpInvoker;
  ma_source_schemas : string;
  ma_reaction_schemas : string;
  ma_results : ResultStream.ChangeStreamConfig;
  ma_listen : Z;
}.

(** How its result service follows streams. *)
Definition mgmt_results_config (redis_url : string) : ResultStream.ChangeStreamConfig :=
  ResultStream.mkStreamConfig redis_url 100 10.

(** The management API's [main], up to its server. *)
Definition mgmt_api_main (env : Env) : outcome MgmtApiConfig :=
  let mongo_uri := env_var_or env "MONGO_URI" "mongodb://drasi-mongo:27017" in
  let mongo_db := env_var_or env "MONGO_DB" "api" in
  let redis_url := env_var_or env "REDIS_URL" "redis://drasi-redis:6379" in
  match parse_u16 (env_var_or env "DAPR_HTTP_PORT" "3500") with
  | None => Panicked "called `Result::unwrap()` on an `Err` value"
  | Some dapr_http_port =>
      Done (mkMgmtApiConfig mongo_uri mongo_db (Comms.mkDaprInvoker "127.0.0.1" dapr_http_port)
        "source_schemas" "reaction_schemas" (mgmt_results_config redis_url) 8080)
  end.

(** The actor types the Kubernetes provider's [main] registers, and the methods
    of each. *)
Definition provider_actors : list (string * list string) :=
  map (λ t, (t, ["configure"; "getStatus"; "deprovision"; "reconcile"]))
    ["SourceResource"; "QueryContainerResource"; "ReactionResource"]%string.

(** ** What a deployment gives its service *)

Section deployed.
Context (secrets : string → string → option string).
(** The variables that the Dapr injector adds to the container. *)
Context (injected : Env).

Definition service_env (spec : KubernetesSpec) : option Env :=
  env ← pod_env secrets (container_env spec);
  Some (env ∪ injected).

Definition pod_annotation (d : DeploymentSpec) (k : string) : option string :=
  m ← pt_metadata (ds_template d);
  annotations ← om_annotations m;
  jget k annotations.

Definition app_id (spec : KubernetesSpec) : option string :=
  pod_annotation (k_deployment spec) "dapr.io/app-id".
Definition app_port_of (spec : KubernetesSpec) : option string :=
  pod_annotation (k_deployment spec) "dapr.io/app-port".

(** Dapr tells a container its own ports, and nothing the services also read. *)
Definition sidecar_env (dapr_port : Z) : Prop :=
  (∀ k, is_Some (injected !! k) → k = "DAPR_HTTP_PORT"%string ∨ k = "DAPR_GRPC_PORT"%string) ∧
  ∃ p, injected !! "DAPR_HTTP_PORT"%string = Some p ∧ parse_u16 p = Some dapr_port.

(** *** Reading the environment of a deployment *)

Context (runtime_config : RuntimeConfig).
Notation deployment := (build_deployment_spec runtime_config).

Lemma app_id_of rt rid sn image ext rep port vars eps cv pv proto svcs claims :
  app_id (plain_spec rt rid sn (deployment rt rid sn image ext rep port vars eps cv pv proto)
    svcs claims) = Some (rid +:+ "-" +:+ sn).
Proof. by destruct port, proto. Qed.

Lemma app_port_of_some rt rid sn image ext rep port vars eps cv pv proto svcs claims :
  app_port_of (plain_spec rt rid sn (deployment rt rid sn image ext rep (Some port) vars eps cv pv
    proto) svcs claims) = Some (show_unsigned port).
Proof. by destruct proto. Qed.

Lemma container_env_of rt rid sn image ext rep port vars eps cv pv proto svcs claims :
  container_env (plain_spec rt rid sn (deployment rt rid sn image ext rep port vars eps cv pv proto)
    svcs claims) = sort_env (map_env_vars vars).
Proof. done. Qed.

Context (dapr_port : Z) (Hsidecar : sidecar_env dapr_port).

Definition own_key (k : string) : Prop := k ≠ "DAPR_HTTP_PORT"%string ∧ k ≠ "DAPR_GRPC_PORT"%string.

(** A variable the deployment may set. *)
Lemma service_env_own vars e k :
  jsorted vars = true → pod_env secrets (sort_env (map_env_vars vars)) = Some e → own_key k →
  (e ∪ injected) !! k = jget k vars ≫= config_text secrets.
Proof using Hsidecar.
  intros Hs He [H1 H2]. destruct Hsidecar as [Hi _].
  assert (Hn : injected !! k = None).
  { destruct (injected !! k) eqn:E; [|done]. by destruct (Hi k) as [?|?]; [eexists|..]. }
  rewrite lookup_union_l by done.
  rewrite (pod_env_lookup _ _ _ (jsorted_NoDup _ Hs) He). done.
Qed.

Lemma service_env_dapr vars e :
  jsorted vars = true → pod_env secrets (sort_env (map_env_vars vars)) = Some e →
  jget "DAPR_HTTP_PORT" vars = None →
  ∃ p, (e ∪ injected) !! "DAPR_HTTP_PORT"%string = Some p ∧ parse_u16 p = Some dapr_port.
Proof using Hsidecar.
  intros Hs He Hj. destruct Hsidecar as (_ & p & Hp & Hn). exists p. split; [|done].
  rewrite lookup_union_r; [done|].
  rewrite (pod_env_lookup _ _ _ (jsorted_NoDup _ Hs) He). by rewrite Hj.
Qed.

(** The environment of a service of a source. *)
Lemma source_service_env source_id instance_id sn image port eps svcs claims :
  ∃ e p, service_env (plain_spec RtSource source_id sn (deployment RtSource source_id sn image false 1
      port (source_env source_id instance_id) eps None None None) svcs claims) = Some e ∧
    e !! "SOURCE_ID"%string = Some source_id ∧
    e !! "DAPR_HTTP_PORT"%string = Some p ∧ parse_u16 p = Some dapr_port ∧
    ∀ k, k ∈ ["APP_PORT"; "PUBSUB_NAME"; "PUBSUB"; "SUBSCRIBER_STORE"; "OTEL_ENDPOINT"]%string →
      e !! k = None.
Proof using Hsidecar.
  assert (jsorted (source_env source_id instance_id) = true) as Hs by apply jobject_sorted.
  destruct (pod_env secrets (sort_env (map_env_vars (source_env source_id instance_id))))
    as [e|] eqn:He; [|done].
  destruct (service_env_dapr _ _ Hs He) as (p & Hp & Hn); [done|].
  exists (e ∪ injected), p. split_and!; [|by rewrite (service_env_own _ _ _ Hs He)|done..|].
  - unfold service_env. rewrite container_env_of. by rewrite He.
  - intros k Hk. rewrite (service_env_own _ _ _ Hs He).
    + repeat (apply list.elem_of_cons in Hk as [->|Hk]; [done|]). by apply elem_of_nil in Hk.
    + repeat (apply list.elem_of_cons in Hk as [->|Hk]; [done|]). by apply elem_of_nil in Hk.
Qed.
End deployed.

(** ** The services of a source *)

Section meet.
Context (secrets : string → string → option string) (injected : Env).
Context (runtime_config : RuntimeConfig).
Context (dapr_port : Z).
Notation env_of := (service_env secrets injected).
Notation router := (change_router_spec runtime_config).
Notation dispatcher := (change_dispatcher_spec runtime_config).
Notation query_api := (query_api_spec runtime_config).

(** C21: The three services the provider deploys for a source find each other and
    are found.  In the environments their deployments give them, whatever ports
    Dapr tells them, all three start and listen on the port their sidecars are
    told; the router subscribes to exactly the topic on which the source's
    reactivators publish changes and the query API its control events, the
    dispatcher to the one on which the router publishes; and the application a
    query host subscribes at for that source is the deployed query API. *)
Theorem source_services_meet (text : value → string) (json_parse : string → result value string)
    source_id instance_id :
  sidecar_env injected dapr_port →
  ∃ er ed eq router_config invoker dispatcher_port api_publisher api_invoker api_port,
    env_of (router source_id instance_id) = Some er ∧
    env_of (dispatcher source_id instance_id) = Some ed ∧
    env_of (query_api source_id instance_id) = Some eq ∧
    router_from_env er = Done router_config ∧
    ChangeRouter.parse_u16 (ChangeRouter.cr_dapr_port router_config) = Some dapr_port ∧
    dispatcher_main ed = Done (invoker, dispatcher_port) ∧
    query_api_main eq = Done (api_publisher, api_invoker, api_port) ∧
    app_port_of (router source_id instance_id) = Some (ChangeRouter.cr_app_port router_config) ∧
    app_port_of (dispatcher source_id instance_id) = Some dispatcher_port ∧
    app_port_of (query_api source_id instance_id) = Some api_port ∧
    (∀ env sdk, env !! "SOURCE_ID"%string = Some source_id → env !! "PUBSUB"%string = None →
      SourceSdk.sdk_publisher_new env = Done sdk →
      ∃ topic, subscribed (ChangeRouter.subscribe router_config) =
          (VString (SourceSdk.sp_pubsub sdk), VString topic) ∧
        SourceSdk.sdk_publish_url sdk = Comms.publish_url (Comms.mkDaprPublisher
          (SourceSdk.sp_host sdk) (SourceSdk.sp_port sdk) (SourceSdk.sp_pubsub sdk) topic)) ∧
    subscribed (ChangeRouter.subscribe router_config) =
      (VString (Comms.dp_pubsub api_publisher), VString (Comms.dp_topic api_publisher)) ∧
    always (ChangeRouter.start text json_parse router_config) (λ _ o, ∀ subscribers publisher manager,
      o = Done (Ok (subscribers, publisher, manager)) →
      subscribed (dispatcher_subscribe ed) =
        (VString (Comms.dp_pubsub publisher), VString (Comms.dp_topic publisher))) ∧
    (∀ container query (s : Core.CoreQuerySubscription), Core.cs_id s = source_id →
      always (SourceClient.subscribe container query s) (λ t _, ∃ app body reply,
        t = [Call (SourceClient.PostSubscription app body) reply] ∧
        app_id (query_api source_id instance_id) = Some app)).
Proof.
  intros Hsc.
  destruct (source_service_env secrets injected runtime_config dapr_port Hsc source_id instance_id
    "change-router" "source-change-router" (Some 3000%Z) None [] [])
    as (er & pr & Er & Sr & Pr & Nr & Or).
  destruct (source_service_env secrets injected runtime_config dapr_port Hsc source_id instance_id
    "change-dispatcher" "source-change-dispatcher" (Some 3000%Z) None [] [])
    as (ed & pd & Ed & Sd & Pd & Nd & Od).
  destruct (source_service_env secrets injected runtime_config dapr_port Hsc source_id instance_id
    "query-api" "source-query-api" (Some 80%Z) (Some [("api"%string, 80%Z)])
    [("query-api"%string, cluster_ip (service_labels RtSource source_id "query-api") None 80
        (IOSString "api"))] []) as (eq & pq & Eq & Sq & Pq & Nq & Oq).
  exists er, ed, eq.
  unfold router_from_env, dispatcher_main, query_api_main, query_api_new, dispatcher_subscribe,
    dispatcher_new. rewrite Sr, Sq. cbn [cd_dapr_http_port cd_app_port cd_pubsub_name cd_source_id
    qac_dapr_port qac_pubsub_name qac_source_id qac_app_port].
  rewrite (env_var_or_some ed _ _ _ Pd), (env_var_or_some eq _ _ _ Pq), (env_var_or_some er _ _ _ Pr), Nd, Nq.
  rewrite (env_var_or_some ed "SOURCE_ID" _ _ Sd).
  rewrite !(env_var_or_none er) by (apply Or; set_solver).
  rewrite !(env_var_or_none ed) by (apply Od; set_solver).
  rewrite !(env_var_or_none eq) by (apply Oq; set_solver).
  eexists _, _, _, _, _, _. split_and!; [exact Er|exact Ed|exact Eq|done|exact Nr|done|done|done|done
    |done| |done| |].
  - intros env sdk Hs Hp. unfold SourceSdk.sdk_publisher_new. rewrite Hs, (env_var_or_none env "PUBSUB") by done.
    destruct (parse_u16 (env_var_or env _ _)) as [n|]; intros Hd; [|done]. injection Hd as <-. by eexists.
  - unfold ChangeRouter.start. cbn [ChangeRouter.cr_dapr_port].
    destruct (ChangeRouter.parse_u16 pr); [|by intros ? ? ? [= ]].
    apply under_bind. eapply under_mono; [done| |apply under_true]. intros t [[[]|e]|w] _; [|done..].
    apply under_bind. eapply under_mono; [done| |apply under_true]. intros t' [r|w] _; [|done].
    intros subs p sm [= <- <- <-]. done.
  - intros container query s Hs reply. rewrite Hs. destruct reply; by eexists _, _, _.
Qed.

(** ** The services of a query container *)

(** The view store's driver: its error, if it cannot connect. *)
Context (connect : string → string → option string).
Context (hash_iter : ∀ A, gmap string A → list (string * A)).
Context (iter_ok : ∀ A (m : gmap string A), hash_iter A m ≡ₚ map_to_list m).

Notation publish_api := (publish_api_spec runtime_config).
Notation query_host := (query_host_spec hash_iter runtime_config).
Notation view_svc := (view_svc_spec runtime_config).

(** The settings a container's [results] would take over from the platform. *)
Definition reserved_keys : list string :=
  ["QUERY_NODE_ID"; "DAPR_HTTP_PORT"; "DAPR_GRPC_PORT"; "PUBSUB"; "REDIS_BROKER"]%string.

(** A variable of the query host that no store, and not the default store, sets. *)
Lemma host_variable id spec env k :
  (∀ k, k ∈ reserved_keys → ac_results spec !! k = None) → is_nat_u64 (S (size (ac_storage spec))) →
  (∀ k, k ∈ dom (ac_results spec) → strip_prefix "STORE_" k = None) →
  pod_env secrets (container_env (query_host id spec)) = Some env → k ∈ reserved_keys →
  env !! k = if decide (k = "QUERY_NODE_ID"%string) then Some id else None.
Proof using iter_ok.
  intros Hres Hlen Hnames Hpod Hk.
  set (acc := (host_env hash_iter id spec, [], []) : btree ApiConfigValue *
    btree PersistentVolumeClaim * btree string).
  set (stores := hash_iter _ (ac_storage spec)).
  set (m := (container_stores id 0 acc stores).1.1).
  assert (container_env (query_host id spec) = sort_env (map_env_vars m)) as Heq.
  { unfold query_host_spec. subst m. fold acc stores.
    by destruct (container_stores id 0 acc stores) as [[env' claims] volumes]. }
  rewrite Heq in Hpod.
  assert (jsorted m = true) as Hsorted by apply container_stores_sorted, host_env_sorted.
  rewrite (pod_env_lookup _ _ _ (jsorted_NoDup _ Hsorted) Hpod).
  destruct (container_stores_env id 0 acc stores) as (_ & _ & Hother).
  { unfold is_nat_u64 in *. subst stores. rewrite iter_ok, length_map_to_list. lia. }
  { by apply host_env_no_stores. }
  assert (strip_prefix "STORE_" k = None ∧ k ≠ "DEFAULT_STORE"%string) as [Hns Hnd].
  { unfold reserved_keys in Hk. clear -Hk.
    repeat (apply list.elem_of_cons in Hk as [->|Hk]; [done|]). by apply elem_of_nil in Hk. }
  fold m in Hother. rewrite Hother.
  2:{ intros j s _ _ ->. unfold store_key in Hns. by rewrite strip_prefix_app in Hns. }
  unfold acc, host_env. cbn [fst]. rewrite jget_jset_ne by done.
  change (jget k (put_entries [("QUERY_NODE_ID"%string, ApiInline id)] (hash_iter _ (ac_results spec)))
    ≫= config_text secrets = if decide (k = "QUERY_NODE_ID"%string) then Some id else None).
  rewrite put_entries_other.
  - cbn. unfold str_eqb. case_decide as Hd; [by rewrite bool_decide_eq_true_2|].
    by rewrite bool_decide_eq_false_2.
  - rewrite iter_ok. intros ([k' v] & Heq' & Hin%elem_of_map_to_list)%list_elem_of_fmap.
    cbn in Heq'. subst k'. by rewrite Hres in Hin.
Qed.

(** The environments of the two services without stores. *)
Lemma container_service_env id vars sn image port eps svcs claims :
  jsorted vars = true → sidecar_env injected dapr_port →
  (∃ e, pod_env secrets (sort_env (map_env_vars vars)) = Some e) →
  ∃ e, env_of (plain_spec RtQueryContainer id sn (build_deployment_spec runtime_config
      RtQueryContainer id sn image false 1 port vars eps None None None) svcs claims) = Some e ∧
    ∀ k, own_key k → e !! k = jget k vars ≫= config_text secrets.
Proof.
  intros Hs Hsc [e He]. exists (e ∪ injected). split.
  - unfold service_env. rewrite container_env_of. by rewrite He.
  - intros k Hk. by eapply service_env_own.
Qed.

(** The requests of a dispatcher to a container go to one application. *)
Lemma dispatch_to_app show_status header_name header_value invoker traceparent n subs ev :
  always (ChangeDispatcher.dispatch_to show_status header_name header_value invoker traceparent
    n subs ev) (λ t _, Forall (λ p : string * Comms.payload * bool,
      p.1.1 = Comms.invoke_url invoker (n +:+ "-publish-api") "change")
      (observe ChangeDispatcherSpec.disp_posted t)).
Proof.
  unfold ChangeDispatcher.dispatch_to. destruct (jset_path _ _ _) as [ev1|]; [|constructor].
  intros end_ _. cbn [translate mbind prog_bind].
  destruct (jset_path _ _ _) as [ev2|]; [|constructor].
  apply under_bind, under_translate.
  eapply under_mono; [| |apply (Comms.dapr_invoke_posts show_status)]; [done|].
  intros t o (r & -> & Ht).
  assert (Hp : ∀ x, Forall (λ p : string * Comms.payload * bool,
      p.1.1 = Comms.invoke_url invoker (n +:+ "-publish-api") "change")
    (observe ChangeDispatcherSpec.disp_posted (Call ChangeDispatcher.DNowNanos x ::
      map (translate_call (λ X c, ChangeDispatcher.DHttp c)) t))).
  { intros x. rewrite ChangeDispatcherSpec.disp_posted_skip,
      ChangeDispatcherSpec.disp_posted_http by done.
    destruct Ht as [(-> & _)|(ok & -> & _)]; repeat constructor. }
  destruct r as [b|e]; cbn [under mret prog_ret]; rewrite app_nil_r; exact (Hp end_).
Qed.

(** A container's services start in these environments. *)
Definition container_services_start id spec instance_id hc vc redis topic port : Prop :=
  ∃ ep eh ev, env_of (publish_api id instance_id) = Some ep ∧
    env_of (query_host id spec) = Some eh ∧ env_of (view_svc id instance_id) = Some ev ∧
    publish_api_main ep = Some (redis, topic, port) ∧ query_host_main eh = Done hc ∧
    view_svc_main connect ev = Done (Ok vc).

Lemma container_services_started id spec instance_id eh :
  sidecar_env injected dapr_port →
  (∀ k, k ∈ reserved_keys → ac_results spec !! k = None) →
  is_nat_u64 (S (size (ac_storage spec))) →
  (∀ k, k ∈ dom (ac_results spec) → strip_prefix "STORE_" k = None) →
  connect "mongodb://drasi-mongo:27017"%string "drasi-results"%string = None →
  env_of (query_host id spec) = Some eh →
  container_services_start id spec instance_id
    (mkQueryHostConfig id "127.0.0.1" dapr_port "drasi-pubsub" "redis://drasi-redis:6379" 20 5
       (id +:+ ".ContinuousQuery") [MapFactory; UnwindFactory; RelabelMiddlewareFactory;
         DecoderFactory; ParseJsonFactory; PromoteMiddlewareFactory] ["configure"; "getStatus"; "deprovision"; "reconcile"]%string 3000)
    (mkViewServiceConfig "redis://drasi-redis:6379" 20 5 (id +:+ ".View")
       ["configure"; "deprovision"]%string ("mongodb://drasi-mongo:27017", "drasi-results")%string
       80 8080)
    "redis://drasi-redis:6379" (id +:+ "-publish") 4000.
Proof using iter_ok.
  intros Hsc Hres Hlen Hnames Hmongo Heh.
  destruct (container_service_env id (jobject [("QUERY_NODE_ID", ApiInline id);
      ("INSTANCE_ID", ApiInline instance_id)]%string) "publish-api" "query-container-publish-api"
    (Some 4000%Z) None [] [] (jobject_sorted _) Hsc (ex_intro _ _ eq_refl)) as (ep & Hep & Op).
  destruct (container_service_env id (jobject [("QUERY_NODE_ID", ApiInline id);
      ("VIEW_STORE_TYPE", ApiInline "mongo"); ("INSTANCE_ID", ApiInline instance_id)]%string)
    "view-svc" "query-container-view-svc" (Some 8080%Z) (Some [("api"%string, 80%Z)])
    [("view-svc"%string, cluster_ip (service_labels RtQueryContainer id "view-svc") None 80
       (IOSString "api"))] [] (jobject_sorted _) Hsc (ex_intro _ _ eq_refl)) as (ev & Hev & Ov).
  exists ep, eh, ev. split_and!; [done|done|done|..].
  - unfold publish_api_main, env_var_or. rewrite !Op by done. reflexivity.
  - unfold service_env in Heh. destruct (pod_env secrets _) as [e|] eqn:Hpod; [|done].
    injection Heh as <-. destruct Hsc as (Hi & p & Hp & Hn).
    assert (Hown : ∀ k, k ∈ reserved_keys → k ≠ "DAPR_HTTP_PORT"%string →
      k ≠ "DAPR_GRPC_PORT"%string →
      (e ∪ injected) !! k = if decide (k = "QUERY_NODE_ID"%string) then Some id else None).
    { intros k Hk H1 H2. rewrite lookup_union_l; [by eapply host_variable|].
      destruct (injected !! k) eqn:E; [|done]. by destruct (Hi k) as [?|?]; [eexists|..]. }
    assert (HmQ : "QUERY_NODE_ID"%string ∈ reserved_keys ∧ "REDIS_BROKER"%string ∈ reserved_keys ∧
      "PUBSUB"%string ∈ reserved_keys ∧ "DAPR_HTTP_PORT"%string ∈ reserved_keys)
      by (unfold reserved_keys; rewrite !list.elem_of_cons; tauto).
    destruct HmQ as (HmQ & HmB & HmS & HmD).
    assert (HQ := Hown "QUERY_NODE_ID"%string HmQ ltac:(done) ltac:(done)).
    assert (HB := Hown "REDIS_BROKER"%string HmB ltac:(done) ltac:(done)).
    assert (HS := Hown "PUBSUB"%string HmS ltac:(done) ltac:(done)).
    assert (HD := host_variable id spec e "DAPR_HTTP_PORT" Hres Hlen Hnames Hpod HmD).
    rewrite decide_True in HQ by done. rewrite decide_False in HB by done.
    rewrite decide_False in HS by done. rewrite decide_False in HD by done.
    unfold query_host_main, env_var_or. rewrite HQ, HB, HS, lookup_union_r by exact HD.
    by rewrite Hp, Hn.
  - assert (HvQ : ev !! "QUERY_NODE_ID"%string = Some id) by by rewrite Ov.
    assert (HvB : ev !! "REDIS_BROKER"%string = None) by by rewrite Ov.
    assert (HvT : ev !! "VIEW_STORE_TYPE"%string = Some "mongo"%string) by by rewrite Ov.
    assert (HvU : ev !! "MONGO_URI"%string = None) by by rewrite Ov.
    assert (HvD : ev !! "MONGO_DB"%string = None) by by rewrite Ov.
    unfold view_svc_main, view_store_from_env, env_var_or. rewrite HvQ, HvB, HvT, HvU, HvD.
    cbn. by rewrite Hmongo.
Qed.

(** C20: The services the provider deploys for a query container find each other
    and are found, unless the container's [results] take over a setting of the
    platform.  When the query host's secrets exist and the view
    store's database answers, all three start and listen on
    the ports their sidecars are told; every dispatcher's requests to the container
    go to its publish API, which appends to the very stream, on the same broker,
    that the host's workers open; the management API's queries and debugging
    sessions for the container invoke the actors this host serves; its workers
    configure the actors the view service serves; the view service, and a management
    API that is not told another broker, follow results on that broker; and the
    management API's
    snapshots ask the Kubernetes service that leads to the view service's own
    port. *)
Theorem container_services_meet id spec instance_id eh :
  sidecar_env injected dapr_port →
  (∀ k, k ∈ reserved_keys → ac_results spec !! k = None) →
  is_nat_u64 (S (size (ac_storage spec))) →
  (∀ k, k ∈ dom (ac_results spec) → strip_prefix "STORE_" k = None) →
  connect "mongodb://drasi-mongo:27017"%string "drasi-results"%string = None →
  env_of (query_host id spec) = Some eh →
  ∃ hc vc redis topic port,
    container_services_start id spec instance_id hc vc redis topic port ∧
    app_port_of (publish_api id instance_id) = Some (show_unsigned port) ∧
    app_port_of (query_host id spec) = Some (show_unsigned (qh_listen hc)) ∧
    app_port_of (view_svc id instance_id) = Some (show_unsigned (vsc_listen vc)) ∧
    (∀ show_status header_name header_value invoker traceparent subs ev,
      ∃ app, app_id (publish_api id instance_id) = Some app ∧
      always (ChangeDispatcher.dispatch_to show_status header_name header_value invoker traceparent
        id subs ev) (λ t _, Forall (λ p : string * Comms.payload * bool,
          p.1.1 = Comms.invoke_url invoker app "change")
          (observe ChangeDispatcherSpec.disp_posted t))) ∧
    (∀ {C : Core.DrasiCore} parse rounds query config view_spec start sm, ∃ k,
      QueryWorker.worker_stream parse (qh_redis_url hc) (qh_buffer_size hc) (qh_fetch_batch_size hc)
        rounds (qh_query_container_id hc) query config view_spec start sm =
      translate (λ X c, QueryWorker.WOpen c) (ChangeStream.new_stream redis topic query
        (qh_buffer_size hc) (qh_fetch_batch_size hc) start) ≫= k) ∧
    (∀ q : QuerySpec, q_container q = id → MgmtServices.query_actor q = qh_actor_name hc) ∧
    MgmtServices.qas_actor id = qh_actor_name hc ∧
    (∀ {C : Core.DrasiCore} query method arg view_spec,
      always (QueryWorker.invoke_view (qh_query_container_id hc) query method arg view_spec)
        (λ t _, ∀ c, c ∈ t → ∃ r, c =
          Call (QueryWorker.InvokeViewActor (vsc_actor_name vc) query method arg) r)) ∧
    (∀ {D} {C : ViewWorker.CloudEvents} from_value streams rounds query consumer, ∃ k,
      ResultStream.snapshot_stream_from_now (D := D) from_value streams rounds id query consumer =
      trigger (ResultStream.GetView ("http://" +:+
        service_object (view_svc id instance_id) "view-svc" +:+ "/" +:+ query)) ≫= k) ∧
    (∀ env mc, env !! "REDIS_URL"%string = None → mgmt_api_main env = Done mc →
      ResultStream.cs_redis_url (ma_results mc) = redis ∧ vsc_redis_url vc = redis) ∧
    (∃ labels target p c, jget "view-svc" (k_services (view_svc id instance_id)) =
        Some (cluster_ip labels None 80 (IOSString target)) ∧
      pt_spec (ds_template (k_deployment (view_svc id instance_id))) = Some p ∧
      ps_containers p = [c] ∧
      c_ports c = Some [mkContainerPort (Some target) (vsc_view_port vc)]).
Proof using iter_ok.
  intros Hsc Hres Hlen Hnames Hmongo Heh.
  pose proof (container_services_started id spec instance_id eh Hsc Hres Hlen Hnames Hmongo Heh) as Hst.
  eexists _, _, _, _, _. split; [exact Hst|]. split_and!.
  - done.
  - unfold query_host_spec. by destruct (container_stores _ _ _ _) as [[env claims] volumes].
  - done.
  - intros. eexists. split; [done|]. apply dispatch_to_app.
  - intros. by eexists.
  - intros q <-. done.
  - done.
  - intros C query method arg view_spec. unfold QueryWorker.invoke_view.
    destruct (negb _); [by intros c ?%elem_of_nil|]. intros [[]|e] _ c Hc;
      apply list_elem_of_singleton in Hc as ->; by eexists.
  - intros. eexists. unfold ResultStream.snapshot_stream_from_now, service_object. cbn [k_resource_id
      view_svc_spec plain_spec]. by rewrite !str_app_app.
  - intros env mc Hr. unfold mgmt_api_main. rewrite (env_var_or_none env "REDIS_URL") by done.
    destruct (parse_u16 _) as [n|]; [|done]. by intros [= <-].
  - by eexists _, _, _, _.
Qed.
End meet.

(** *** A source and a container, with the port Dapr usually tells *)

Definition example_injected : gmap string string := {["DAPR_HTTP_PORT"%string := "3500"%string]}.

(** Started with its defaults, the router waits for its sidecar on the port it
    serves on itself; the dispatcher does not. *)
Lemma router_default_ports_equal source_id :
  ∃ config, router_from_env {["SOURCE_ID"%string := source_id]} = Done config ∧
    ChangeRouter.cr_dapr_port config = ChangeRouter.cr_app_port config ∧
    cd_dapr_http_port (dispatcher_new ∅) ≠ cd_app_port (dispatcher_new ∅).
Proof. eexists. split; [reflexivity|]. by split; vm_compute. Qed.

Lemma example_sidecar : sidecar_env example_injected 3500.
Proof.
  split; [|by exists "3500"%string].
  intros k [v Hv]. unfold example_injected in Hv. apply lookup_singleton_Some in Hv as [<- _]. by left.
Qed.

Lemma source_services_meet_witness :
  sidecar_env example_injected 3500 ∧
  ∃ er router_config,
    service_env example_secrets example_injected
      (change_router_spec (runtime_config_default ∅) "hr" "i") = Some er ∧
    router_from_env er = Done router_config ∧
    app_port_of (change_router_spec (runtime_config_default ∅) "hr" "i")
      = Some (ChangeRouter.cr_app_port router_config).
Proof.
  split; [exact example_sidecar|].
  destruct (source_services_meet example_secrets example_injected (runtime_config_default ∅) 3500
    (λ _, ""%string) (λ _, Err ""%string) "hr" "i" example_sidecar)
    as (er & ed & eq & rc & ? & ? & ? & ? & ? & He & _ & _ & Hr & _ & _ & _ & Hp & _).
  by exists er, rc.
Defined.

Lemma container_services_meet_witness :
  ∃ eh hc vc redis topic port,
    service_env example_secrets example_injected (query_host_spec (λ _, map_to_list)
      (runtime_config_default ∅) "c" example_container) = Some eh ∧
    container_services_start example_secrets example_injected (runtime_config_default ∅)
      (λ _ _, None) (λ _, map_to_list) "c" example_container "i" hc vc redis topic port.
Proof.
  assert (Hsome : bool_decide (is_Some (service_env example_secrets example_injected
    (query_host_spec (λ _, map_to_list) (runtime_config_default ∅) "c" example_container))) = true)
    by (vm_compute; reflexivity).
  apply bool_decide_eq_true in Hsome as [eh He].
  destruct (container_services_meet example_secrets example_injected (runtime_config_default ∅) 3500
    (λ _ _, None) (λ _, map_to_list) (λ A m, reflexivity _) "c" example_container "i" eh)
    as (hc & vc & redis & topic & port & Hst & _).
  - exact example_sidecar.
  - intros k Hk. unfold reserved_keys in Hk.
    repeat (apply list.elem_of_cons in Hk as [->|Hk]; [vm_compute; reflexivity|]).
    exfalso. by apply elem_of_nil in Hk.
  - vm_compute. reflexivity.
  - intros k [v Hv]%elem_of_dom. unfold example_container in Hv. cbn in Hv.
    by apply lookup_singleton_Some in Hv as [<- _].
  - reflexivity.
  - exact He.
  - exists eh, hc, vc, redis, topic, port. split; [exact He|exact Hst].
Defined.
