(* ===== verification/StartUp.v ===== *)
(** * StartUp: what the services do before and after they serve

    The [main] functions of the query host, the view service, the Kubernetes
    provider and the management API: telemetry, connections, the actors they
    register, and the server.  [Wiring] has the settings they read; here are the
    steps, in order, with what each failure leads to.  The libraries (OpenTelemetry,
    Dapr, MongoDB, Kubernetes, actix) are calls. *)
From S2P Require Import Prelude RustText Effects KubeModels StorageConfig Wiring.
From S2P Require ViewApi.

Inductive start_call : Type → Type :=
| InstallTracer (endpoint service : string) : start_call (result unit string)
| SetSubscriber (debug_targets : list string) : start_call (result unit string)
| BuildMeter (endpoint service : string) (period : Z) : start_call (result unit string)
| SleepSeconds (n : Z) : start_call unit
| NewActorServer : start_call unit
| ConnectDapr (addr : string) : start_call (result unit string)
| ConnectMongo (uri : string) : start_call (result unit string)
| ConnectViewStore (uri db : string) : start_call (option string)
| InferKubeConfig : start_call (result unit string)
| AvailableCpus : start_call (result Z string)
| KubeClient : start_call (result unit string)
| KubeVersion : start_call (result string string)
| SpawnMonitor : start_call unit
| SpawnViewApi (port : Z) : start_call unit
| RegisterActor (name : string) (methods : list string) : start_call unit
| InstallSignals : start_call (result unit string)
| ServeActors (port : option Z) : start_call (result unit string)
| BindHttp (host : string) (port : Z) : start_call (result unit string)
| ServeHttp : start_call (result unit string)
| ShutdownTracer : start_call unit
| ShutdownMeter : start_call (result unit string)
| YieldNow : start_call unit.

Notation M := (prog start_call).

(** [?]: the process ends with the error. *)
Definition or_end {A B} (p : M (result A string)) (f : A → M (result B string)) : M (result B string) :=
  r ← p;
  match r with Ok a => f a | Err e => mret (Err e) end.

(** [expect] and [unwrap]. *)
Definition or_panic {A B} (p : M (result A string)) (why : string) (f : A → M B) : M B :=
  r ← p;
  match r with Ok a => f a | Err _ => Panic why end.

Definition unwrap_failed : string := "called `Result::unwrap()` on an `Err` value".

(** ** Telemetry *)

Definition otel_endpoint (env : Env) : string := env_var_or env "OTEL_ENDPOINT" "http://otel-collector:4317".

(** The name a service reports, and the targets it traces. *)
Definition init_tracer (service : string) (debug_targets : list string) (env : Env)
    : M (result unit string) :=
  tracer ← trigger (InstallTracer (otel_endpoint env) service);
  match tracer with
  | Ok _ => or_panic (trigger (SetSubscriber debug_targets)) "setting tracing default failed" (λ _, mret (Ok ()))
  | Err err => mret (Err err)
  end.

Definition init_metrics (service : string) (env : Env) : M (result unit string) :=
  trigger (BuildMeter (otel_endpoint env) service 30).

(** The actor server until a signal stops it, and the end of the process: what
    the server answers is only logged. *)
Definition serve_until_signal (port : Z) : M (result unit string) :=
  or_panic (trigger InstallSignals) unwrap_failed (λ _,
    _ ← trigger (ServeActors (Some port));
    _ ← trigger ShutdownTracer;
    or_end (trigger ShutdownMeter) (λ _,
      _ ← trigger YieldNow;
      mret (Ok ()))).

(** ** The services *)

(** [query-host/src/main.rs] *)
Definition query_host_start (env : Env) : M (result unit string) :=
  _ ← init_tracer "query-host" ["query_host"; "drasi_query_core"; "drasi_query_index"]%string env;
  or_end (init_metrics "query-host" env) (λ _,
    _ ← trigger (SleepSeconds 3);
    _ ← trigger NewActorServer;
    match query_host_main env with
    | Panicked why => Panic why
    | Done config =>
        or_panic (trigger (ConnectDapr "https://127.0.0.1")) "Unable to connect to Dapr" (λ _,
          _ ← trigger (RegisterActor (qh_actor_name config) (qh_methods config));
          serve_until_signal (qh_listen config))
    end).

(** The connection [view_store_factory::from_env] makes, if any: the driver's error. *)
Definition connect_view_store (env : Env) : M (option string) :=
  if str_eqb (env_var_or env "VIEW_STORE_TYPE" "mongo") "mongo" then
    trigger (ConnectViewStore (env_var_or env "MONGO_URI" "mongodb://drasi-mongo:27017")
      (env_var_or env "MONGO_DB" "drasi-results"))
  else mret None.

(** [view-svc/src/main.rs]; [view_error_to_string] is [ViewError]'s [Display]. *)
Definition view_svc_start (view_error_to_string : ViewApi.ViewError → string) (env : Env)
    : M (result unit string) :=
  _ ← init_tracer "view-svc" ["view-svc"]%string env;
  or_end (init_metrics "view-svc" env) (λ _,
    _ ← trigger (SleepSeconds 3);
    _ ← trigger NewActorServer;
    match env !! "QUERY_NODE_ID"%string with
    | None => Panic "QUERY_NODE_ID must be set"
    | Some _ =>
        connected ← connect_view_store env;
        match view_svc_main (λ _ _, connected) env with
        | Panicked why => Panic why
        | Done (Err e) => mret (Err (view_error_to_string e))
        | Done (Ok config) =>
            _ ← trigger (SpawnViewApi (vsc_view_port config));
            _ ← trigger (RegisterActor (vsc_actor_name config) (vsc_methods config));
            serve_until_signal (vsc_listen config)
        end
    end).

Fixpoint register_actors (actors : list (string * list string)) : M unit :=
  match actors with
  | [] => mret ()
  | (name, methods) :: actors =>
      _ ← trigger (RegisterActor name methods);
      register_actors actors
  end.

(** [kubernetes_provider/src/main.rs] *)
Definition provider_start : M (result unit string) :=
  _ ← trigger (SleepSeconds 3);
  _ ← trigger NewActorServer;
  or_end (trigger InferKubeConfig) (λ _,
    or_panic (trigger AvailableCpus) unwrap_failed (λ _,
      or_end (trigger KubeClient) (λ _,
        or_end (trigger KubeVersion) (λ _,
          _ ← trigger (SleepSeconds 3);
          or_panic (trigger (ConnectDapr "https://127.0.0.1")) "Unable to connect to Dapr" (λ _,
            _ ← trigger SpawnMonitor;
            _ ← register_actors provider_actors;
            trigger (ServeActors None)))))).

(** [mgmt_api/src/main.rs]; the services behind the routes ([api_route]) are made
    from the two clients for every worker of the server. *)
Definition mgmt_api_serve (config : MgmtApiConfig) : M (result unit string) :=
  or_end (trigger (BindHttp "0.0.0.0" (ma_listen config))) (λ _, trigger ServeHttp).

Definition mgmt_api_start (env : Env) : M (result unit string) :=
  match mgmt_api_main env with
  | Panicked why => Panic why
  | Done config =>
      _ ← trigger (SleepSeconds 5);
      or_panic (trigger (ConnectDapr "https://127.0.0.1")) "Unable to connect to Dapr" (λ _,
        or_panic (trigger (ConnectMongo (ma_mongo_uri config))) unwrap_failed (λ _, mgmt_api_serve config))
  end.

(** ** What is served, and when *)

(** The steps others notice. *)
Inductive milestone :=
| Connected
| Monitoring
| ViewsServed (port : Z)
| Registered (name : string) (methods : list string)
| Serving (port : option Z).

Definition milestone_of (c : call start_call) : option milestone :=
  match c with
  | Call (ConnectDapr _) (Ok _) => Some Connected
  | Call SpawnMonitor _ => Some Monitoring
  | Call (SpawnViewApi port) _ => Some (ViewsServed port)
  | Call (RegisterActor name methods) _ => Some (Registered name methods)
  | Call (ServeActors port) _ => Some (Serving port)
  | Call (BindHttp _ port) (Ok _) => Some (Serving (Some port))
  | _ => None
  end.

Definition query_host_milestones (env : Env) : list milestone :=
  match query_host_main env with
  | Done config =>
      [Connected; Registered (qh_actor_name config) (qh_methods config); Serving (Some (qh_listen config))]
  | Panicked _ => []
  end.
Definition view_svc_milestones (env : Env) : list milestone :=
  match view_svc_main (λ _ _, None) env with
  | Done (Ok config) =>
      [ViewsServed (vsc_view_port config); Registered (vsc_actor_name config) (vsc_methods config);
       Serving (Some (vsc_listen config))]
  | _ => []
  end.
Definition provider_milestones : list milestone :=
  Connected :: Monitoring :: map (λ a, Registered a.1 a.2) provider_actors ++ [Serving None].
Definition mgmt_api_milestones (env : Env) : list milestone :=
  match mgmt_api_main env with
  | Done config => [Connected; Serving (Some (ma_listen config))]
  | Panicked _ => []
  end.

(** The milestones are reached in this order and no others are; a process that
    ends without an error reached all of them. *)
Definition starts (ms : list milestone) (t : list (call start_call)) (o : outcome (result unit string))
    : Prop :=
  observe milestone_of t `prefix_of` ms ∧ (∀ u, o = Done (Ok u) → observe milestone_of t = ms).

Lemma starts_call {X} (e : start_call X) (k : X → M (result unit string)) ms :
  (∀ x, match milestone_of (Call e x) with
        | None => always (k x) (starts ms)
        | Some m => ∃ ms', ms = m :: ms' ∧ always (k x) (starts ms')
        end) →
  always (trigger e ≫= k) (starts ms).
Proof.
  intros H. apply under_call. intros x _. specialize (H x). unfold starts, observe. cbn [omap list_omap].
  destruct (milestone_of (Call e x)) as [m|].
  - destruct H as (ms' & -> & H). eapply under_mono; [done| |exact H]. intros t o [Hp Hd].
    split; [by apply prefix_cons | intros u Hu; f_equal; by apply (Hd u)].
  - done.
Qed.

Lemma starts_panic why ms : always (Panic why) (starts ms).
Proof. split; [apply prefix_nil | done]. Qed.

Lemma starts_error e ms : always (mret (Err e)) (starts ms).
Proof. split; [apply prefix_nil | done]. Qed.

Lemma starts_done u : always (mret (Ok u)) (starts []).
Proof. by split. Qed.

(** [started] follows a program to its end. *)
Ltac started :=
  repeat match goal with
    | |- always (Panic _) _ => apply starts_panic
    | |- always (mret (Err _)) _ => apply starts_error
    | |- always (mret (Ok _)) _ => apply starts_done
    | |- always (or_end _ _) _ => unfold or_end at 1
    | |- always (or_panic _ _ _) _ => unfold or_panic at 1
    | |- always (trigger _ ≫= _) _ =>
        let x := fresh "x" in
        apply starts_call; intros x;
        try match type of x with result _ _ => destruct x as [?|?] end;
        cbn [milestone_of]; try (eexists; split; [reflexivity|])
    end.

(** A part of a start-up that reaches no milestone. *)
Lemma starts_after {A} (p : M A) (k : A → M (result unit string)) ms :
  always p (λ t _, observe milestone_of t = []) → (∀ a, always (k a) (starts ms)) →
  always (p ≫= k) (starts ms).
Proof.
  intros Hp Hk. eapply under_bind_intro; [exact Hp|..]; intros t x Ht; unfold starts.
  - rewrite Ht. split; [apply prefix_nil | done].
  - eapply under_mono; [done| |exact (Hk x)]. intros t' o. by rewrite observe_app, Ht.
Qed.

Lemma init_tracer_silent service targets env :
  always (init_tracer service targets env) (λ t _, observe milestone_of t = []).
Proof. unfold init_tracer, or_panic, always. steps; reflexivity. Qed.

Lemma serve_until_signal_starts port : always (serve_until_signal port) (starts [Serving (Some port)]).
Proof. unfold serve_until_signal. started. Qed.

(** The query host is connected to its sidecar before it registers its actors, and
    registers them before it serves. *)
Lemma query_host_starts env : always (query_host_start env) (starts (query_host_milestones env)).
Proof.
  unfold query_host_start, query_host_milestones, init_metrics.
  apply starts_after; [apply init_tracer_silent | intros _].
  destruct (query_host_main env) as [config|why]; started. apply serve_until_signal_starts.
Qed.

Lemma view_svc_connected connect env config :
  view_svc_main connect env = Done (Ok config) → view_svc_main (λ _ _, None) env = Done (Ok config).
Proof.
  unfold view_svc_main, view_store_from_env. destruct (env !! _); [|done].
  destruct (str_eqb _ "redis"); [done|]. destruct (str_eqb _ "mongo"); [|done]. by destruct (connect _ _).
Qed.

Lemma connect_view_store_silent env :
  always (connect_view_store env) (λ t _, observe milestone_of t = []).
Proof. unfold connect_view_store, always. steps; reflexivity. Qed.

Lemma view_svc_starts error_text env :
  always (view_svc_start error_text env) (starts (view_svc_milestones env)).
Proof.
  unfold view_svc_start, init_metrics. apply starts_after; [apply init_tracer_silent | intros _].
  started. destruct (env !! "QUERY_NODE_ID"%string); [|started].
  apply starts_after; [apply connect_view_store_silent | intros connected].
  unfold view_svc_milestones. destruct (view_svc_main (λ _ _, connected) env) as [[config|e]|why] eqn:E;
    [rewrite (view_svc_connected _ _ _ E) | |]; started. apply serve_until_signal_starts.
Qed.

Lemma register_actors_starts actors p ms :
  always p (starts ms) →
  always (register_actors actors ≫= λ _, p) (starts (map (λ a, Registered a.1 a.2) actors ++ ms)).
Proof.
  intros Hp. induction actors as [|[name methods] actors IH]; [exact Hp|].
  apply (starts_call (RegisterActor name methods) (λ _, register_actors actors ≫= λ _, p)).
  intros []. by eexists.
Qed.

Lemma serve_starts port : always (trigger (ServeActors port)) (starts [Serving port]).
Proof. apply (starts_call (ServeActors port) mret). intros [u|e]; cbn [milestone_of]; (eexists; split; [reflexivity|]); started. Qed.

Lemma provider_starts : always provider_start (starts provider_milestones).
Proof.
  unfold provider_start, provider_milestones. started.
  apply register_actors_starts, serve_starts.
Qed.

Lemma mgmt_api_starts env : always (mgmt_api_start env) (starts (mgmt_api_milestones env)).
Proof.
  unfold mgmt_api_start, mgmt_api_milestones, mgmt_api_serve. destruct (mgmt_api_main env) as [config|why]; started.
  apply (starts_call ServeHttp mret). intros [u|e]; cbn [milestone_of]; started.
Qed.

(** ** A good start *)

(** Telemetry that cannot be set up does not keep a query host from serving, and
    neither does a server that fails end it with an error. *)
Lemma query_host_telemetry_optional : observe milestone_of (
    run (λ X e s, match e in start_call X return X * () with
      | InstallTracer _ _ => (Err "no collector"%string, s)
      | SetSubscriber _ => (Ok (), s)
      | BuildMeter _ _ _ => (Ok (), s)
      | SleepSeconds _ => (tt, s)
      | NewActorServer => (tt, s)
      | ConnectDapr _ => (Ok (), s)
      | ConnectMongo _ => (Ok (), s)
      | ConnectViewStore _ _ => (None, s)
      | InferKubeConfig => (Ok (), s)
      | AvailableCpus => (Ok 4%Z, s)
      | KubeClient => (Ok (), s)
      | KubeVersion => (Ok "1.30"%string, s)
      | SpawnMonitor => (tt, s)
      | SpawnViewApi _ => (tt, s)
      | RegisterActor _ _ => (tt, s)
      | InstallSignals => (Ok (), s)
      | ServeActors _ => (Err "address in use"%string, s)
      | BindHttp _ _ => (Ok (), s)
      | ServeHttp => (Ok (), s)
      | ShutdownTracer => (tt, s)
      | ShutdownMeter => (Ok (), s)
      | YieldNow => (tt, s)
      end) (query_host_start {["QUERY_NODE_ID"%string := "default"%string]}) ()).2
  = [Connected; Registered "default.ContinuousQuery" ["configure"; "getStatus"; "deprovision"; "reconcile"];
     Serving (Some 3000%Z)].
Proof. vm_compute. reflexivity. Qed.
